(* ===== verification/_CoqProject ===== *)
-Q . S2P
Prelude.v
RustStr.v
Errors.v
Ranges.v
Chunk.v
Dto.v
Framing.v
Manifest.v
Fs.v
ChunkFrame.v
Transfer.v
Receiver.v
Delivery.v
Inet.v
Text.v
Identity.v
TrustStore.v
Stun.v
Discovery.v
Candidates.v
Transport.v
Conversation.v
NativeNet.v
NativeGuard.v
NativeListener.v
NativeLan.v
Rendezvous.v
RendezvousServer.v
Wan.v
WanService.v
LocalSession.v
LocalInbox.v
LocalServer.v
LocalHttp.v
LocalClient.v
LocalDiscovery.v
PinnedTls.v
LocalMulticast.v
NativeWan.v
Databases.v
Config.v
AppDirs.v
DaemonApi.v
DaemonHttp.v
Vault.v
Startup.v
Gui.v
Tui.v
TuiDraw.v
Cli.v
Hooks.v
ApiJson.v
Toy.v
NativeExamples.v
TransferExamples.v
NetExamples.v
LocalExamples.v
DaemonExamples.v
TuiExamples.v
CliExamples.v
StartupExamples.v
GuiExamples.v
