(* ===== verification/Prelude.v ===== *)
(** * NightBridge: a verification development

    NightBridge moves files between machines.  A daemon sends and receives
    files over two protocols: its own ("native": QUIC streams, chunked and
    resumable transfers, peers known by their Ed25519 key) and LocalSend v2
    (HTTP uploads).  Peers on the local network are found by mDNS and by UDP
    multicast; for peers elsewhere, daemons register their addresses with a
    rendezvous server and dial each other's candidates.  Users drive the
    daemon through an HTTP and a gRPC API and may have it run hooks.

    ** The parts and how they interact

    - crates/core: identities (fingerprints, short authentication strings),
      the trust database every receiver asks before it accepts anything, the
      configuration, the schema of hook events and the vaults of secrets.
    - crates/protocol-native-v1: message structs, control and chunk frames,
      chunk planning, the manifest database that records which bytes of a
      transfer are verified, sender and receiver, the pairing and the proof
      of possession of a key, the sending client, mDNS discovery, STUN,
      candidates and hole punching.
    - crates/protocol-localsend-v2: upload sessions, the inbox writer, the
      HTTP handlers that use both and the trust database, the upload client,
      the multicast announcer and browser, the certificate pin.
    - crates/rendezvous: registry, server and client.
    - crates/daemon: the native listener, the WAN registration loop, browsing
      the network, the API, the event bus and the hooks.
    - crates/tui: a dashboard in the terminal, and crates/cli: the commands;
      both are clients of the gRPC services.  crates/gui: the desktop client,
      which keeps settings and can run a daemon of its own; crates/webui: the
      files of the web interface.

    A native transfer: the sender hashes its files and makes a request; the
    receiver checks it, checks the peer, opens a manifest and answers with the
    chunk size; chunks are verified one by one, written at their offset to a
    part file and recorded; when every byte is recorded the files are hashed
    again and renamed into the inbox.  An interrupted transfer resumes from
    the manifest.  A LocalSend transfer: prepare-upload is decided by the
    configured policy, the allowlists and the trust database and yields one
    token per file; an upload with its token streams a body into a part file
    and publishes it.  A send request of the API resolves its target by
    discovery, the cache of a scan or the rendezvous server, takes the
    certificate to pin from the trust database, and is reported on the event
    bus, from which the streams of the API and the hooks are fed.

    ** Files

    Each file models the source named; definitions keep the source's names.

    - Prelude: [result] (Rust's [Result] and panics), the state-and-error
      monad [SE], wrapping, checked and saturating 64-bit arithmetic, list
      lemmas, the hint database [night] and the tactics.
    - RustStr, Text, Inet, Fs: what the program uses of the standard library
      (text and bytes, splitting and trimming, hash maps, socket addresses,
      files and paths).  Errors: the error enums.
    - Ranges: the reference theory of byte ranges; Chunk: chunk.rs; Dto:
      dto.rs; Framing: framing.rs; ChunkFrame: the chunk frames of
      transfer.rs; Manifest: manifest.rs and manifest_schema.sql; Transfer:
      [NativeTransferReceiver] and [NativeTransferSender] of transfer.rs;
      Receiver: what the receiver's operations guarantee; Delivery: sender and
      receiver together.
    - Identity: fingerprint.rs, sas.rs, pairing.rs, auth.rs; TrustStore:
      trust/store.rs and schema.sql; Databases: opening and migrating both
      databases, as programs of SQL statements that interleave.
    - Conversation: programs on the two ends of a byte stream, under every
      interleaving and against any peer; NativeNet: the sending client
      (client.rs) and the connection handler of the daemon (main.rs) as such
      programs; NativeGuard: the handler against hostile peers;
      NativeListener: the accept loop of main.rs with its connections.
    - Discovery: discovery.rs of the native protocol; NativeLan:
      daemon/src/native_lan.rs and what main.rs announces.
    - Stun: stun.rs; Transport: sockets, transport.rs and the pins of tls.rs,
      and asking a STUN server; Candidates: candidates.rs and the pairs of
      hole_punch.rs; Rendezvous: protocol.rs, registry.rs, and the messages of
      server.rs and client.rs; RendezvousServer: server.rs as it runs, and
      main.rs; Wan: daemon/src/wan.rs; WanService: its register loop joined to
      a running server.
    - LocalSession: session.rs and dto.rs of LocalSend; LocalInbox: inbox.rs;
      LocalServer: the handlers of server.rs; LocalHttp: its routes, accept
      loop and shutdown; LocalClient: client.rs, and the client with the
      server; LocalDiscovery: the loops of discovery.rs, the check of
      verifier.rs, and the task of main.rs that records what was heard;
      LocalMulticast: the sockets and settings of discovery.rs.
    - PinnedTls: the verifiers of tls.rs, verifier.rs and the rendezvous
      client, the endpoints of transport.rs, the dial of hole_punch.rs and the
      pinned LocalSend client; NativeWan: a transfer to a WAN peer.
    - Config: core/src/config.rs, and how main.rs and state.rs start from it;
      DaemonApi: events.rs, api/transfers.rs, localsend_lan.rs, api/inbox.rs;
      DaemonHttp: routes and handlers of api/http.rs, the gRPC services of
      api/grpc.rs, peers.rs, transfers.rs and inbox.rs behind api/auth.rs;
      Hooks: the event streams, hooks/mod.rs, webhook.rs, exec.rs and
      core/src/hooks.rs; ApiJson: the JSON of requests and replies.
    - Vault: the secrets on disk: identity/vault.rs, api_token.rs and the TLS
      identities of tls.rs of both protocols, with interruptions and modes.
    - Startup: main of main.rs: loading the state, starting the servers over
      the disk and the sockets of the machine, and stopping them.
    - Tui: crates/tui, a dashboard over the services of DaemonHttp; TuiDraw:
      the widgets of ui.rs and theme.rs, and the terminal session; Cli:
      crates/cli, its commands over the same services and the vault; AppDirs:
      core/src/paths.rs; Gui: crates/gui, the settings file and the process of
      its daemon, composed with Startup.
    - Toy: concrete functions in place of the external code, with the laws
      proved; NativeExamples, TransferExamples, NetExamples, LocalExamples,
      DaemonExamples, TuiExamples, CliExamples, StartupExamples, GuiExamples:
      the hypotheses of the theorems hold at concrete inputs, and runs that
      show surprising behaviour.

    ** State

    The native world ([Transfer.World]) is the file system, the manifest
    tables, the number of UUIDs drawn and the clock; the LocalSend world is
    the file system, the session table, the UUID count and the trust database;
    the world of the API ([DaemonApi.ApiWorld]) is the file system, the trust
    database, the events emitted and a log of the transfers started. A
    client's world ([Tui.TuiWorld]) is the daemon's and the calls made to it;
    that of a command ([Cli.CliWorld]) adds its disk, its own transfers and
    its output. A disk ([Vault.Disk]) is the file system, the files of mode
    0600 and every state it went through; a machine on which the daemon starts
    ([Startup.Node]) is a disk and the sockets that are bound; the desktop
    client's world ([Gui.GuiWorld]) is a disk and the processes it started.
    SQLite tables are finite maps on their primary key. Operations are
    functions in [SE] (state kept on errors, as the code keeps it) or
    functions that return a [result]; sequences of operations by anybody are
    step relations ([manifest_step], [trust_step], [session_step],
    [request_step], [server_step]) over which invariants are shown; the
    openers of a database are programs whose statements interleave
    ([Databases.sql_step]). Loops around sockets and channels
    ([LocalDiscovery.run], [Hooks.run_dispatcher],
    [Discovery.recv_resolved_loop]) and servers ([NativeListener],
    [LocalHttp], [RendezvousServer]) are folds over the list of what wakes
    them. A mutex or a database connection serializes operations, so the
    interleavings of concurrent connections are sequences of these steps.

    ** Theorems

    - C1, C3, C4 the native protocol over a network: a transfer delivers the
      sender's files under every interleaving; with any number of connections,
      a handler whose peer has not proved a trusted key changes and answers
      nothing, the others only the receiving area, and nothing above the
      declared cap.  C9, C10: a resumed transfer delivers, and what is
      published was complete and re-hashed.
    - C5, C6, C21 the API: what is sent and to whom it is pinned, nothing
      without the token, the events of a transfer.
    - C7, C11 to C13, C22, C23 LocalSend transfers: client and server deliver,
      one publication per token, nothing written over the network without an
      admitted session, the operator's decisions hold whatever others send,
      sessions, and a transfer over HTTPS reaches the announced peer only.
    - C14, C15 the dashboard: its calls change nothing but by a key on the
      marked row, and a decision reaches the trust database and the LocalSend
      server.
    - C18 the command line: what a send command sends and reports.  C19 the
      desktop client: the daemon it runs.
    - C8, C16, C36 native discovery: an announced peer is found, trusted and
      pinned; what is returned of hostile announcements; the TXT record.  C17
      LocalSend discovery: what hostile datagrams can cause.
    - C24, C25 events and hooks: delivery ends, order and completeness of the
      streams.  C26: the configuration.  C28, C29 the secrets on disk: what a
      later start finds after an interruption, and who can read them.  C27: a
      daemon is the same after every restart.  C20: the trust database under
      concurrent openers.
    - C30 to C32 the manifest and the planner: well-formedness of every
      reachable database, agreement, tiling.  C33, C34 the wire: round trips
      and what is accepted of hostile bytes.
    - C35 proof of possession.  C37, C39 the rendezvous server as it runs and
      its client.  C2, C38, C40 a registered daemon is found between its
      rounds, what it registers, and files sent to a WAN peer that reach the
      pinned machine or nobody.

    Further theorems stand beside the code they are about and carry no number
    (completion, coverage and resume ranges of the manifest, the planner's
    missing chunks, which URLs of peers parse, programs run as hooks,
    names chosen for received files, pairing, texts of fingerprints, the inbox
    writer, the registry's invariant and its queues, candidate pairs, the
    status machine of LocalSend peers, what a hook may do, that announcers meet
    and browsers find them, one daemon to a port, the order of stopping, the
    settings and the ports of the desktop client, who answers a dialed
    candidate and a rendezvous client, what a frame of the dashboard marks and
    that its terminal is restored, that JSON shows what is stored, that a
    single opener brings a database up to date).

    ** Parameters

    Code outside the repository is a type class of functions, what is relied
    on is a class of laws: [Blake3] with [Blake3Hex] (a hash in lower-case
    hex), [Uuid] with [UuidFresh] and [UuidPlain] (distinct draws that are
    plain names), [Json] with [JsonRoundtrip], [RvJson] with [RvRoundtrip] and
    [AnnouncementJson] with [AnnouncementRoundtrip] (serde_json on the message
    structs), [CryptoSuite] with [CryptoLaws] (SHA-256, HKDF, Ed25519),
    [Lowercase] with [LowercaseLaws] (the Unicode tables), [HashOrder] (the
    iteration order of a hash map), [Toml] (the text of a configuration to its
    tables), [HookEnv] (HMAC and header values), [Broadcast] with
    [BroadcastLaws] (tokio's channel, by what a receiver has still to see),
    [Tonic] with [TonicLaws] (well-formed endpoints and header values of the
    gRPC client), [Extractors] with [ExtractorsLaws] (axum's extractors),
    [HttpClient] with [HttpClientLaws] (reqwest's), [Rustls] with [RustlsLaws]
    (a handshake is completed only if the verifier accepted it), [UrlParse]
    (the scheme of a URL), [GuiJson] with [GuiJsonRoundtrip], [Directories]
    with [DirectoriesLaws] (the directories crate on Linux and macOS). What
    the network does is an argument: the outcome of a STUN exchange, of a
    connection or a dial and the keying material of its session, the order in
    which attempts finish, the reads of an upload's body, the events of a
    browser, the answers to probes and posts. Toy.v has an instance of each
    class, but for [Toml], which is in StartupExamples.v, and the classes of
    the desktop client, which are in GuiExamples.v. [Serialize] is a class of
    the model's own: what a record is as JSON.

    ** Bounds and fuel

    Integers are in [Z] with their width written out: release builds of the
    workspace do not check overflow, so plain arithmetic wraps, and [checked_]
    and [saturating_] operations are as named.  [plan_loop] gets one unit of
    fuel per chunk and two more, shown to be enough (C32).  [suffix_loop]
    tries one name more than the tree has entries, so a free one is found by
    counting; the LocalSend loop is bounded by 9999 in the source.  Every
    other loop is over a list.  The theorems on delivery ask that a file and
    the read buffer of 8192 bytes together stay below 2^64.

    ** Not modelled

    QUIC, TLS, HTTP, mDNS, SQLite and JSON themselves, media faults and
    symbolic links, the contents of log lines and the variable parts of the
    texts of errors.  Of the repository: the parsing of command lines, logging
    and metrics, starting and stopping the mDNS daemon, the code generated
    from the .proto files, and the windows of the desktop client. *)

From stdpp Require Import prelude gmap strings sorting.
From Stdlib Require Import ZArith Lia.

#[export] Set Default Goal Selector "!".

(** ** Results

    Rust's [Result<T, E>] with one more outcome: [Panic] stands for a Rust
    panic (an out-of-range index, a slice off a character boundary), which
    unwinds past every [?]. *)
Inductive result (E A : Type) : Type :=
| Ok (a : A)
| Err (e : E)
| Panic.
Arguments Ok {E A} a.
Arguments Err {E A} e.
Arguments Panic {E A}.

#[export] Instance result_ret {E} : MRet (result E) := λ A a, Ok a.
#[export] Instance result_bind {E} : MBind (result E) := λ A B f m,
  match m with Ok a => f a | Err e => Err e | Panic => Panic end.
#[export] Instance result_fmap {E} : FMap (result E) := λ A B f m,
  match m with Ok a => Ok (f a) | Err e => Err e | Panic => Panic end.
#[export] Instance result_eq_dec {E A} `{EqDecision E, EqDecision A} :
  EqDecision (result E A).
Proof. solve_decision. Defined.

(** [if !b { return Err(e) }]. *)
Definition ensure {E} (b : bool) (e : E) : result E unit :=
  if b then Ok tt else Err e.

(** [opt.ok_or(e)]. *)
Definition ok_or {E A} (o : option A) (e : E) : result E A :=
  match o with Some a => Ok a | None => Err e end.

(** [r.map_err(f)]. *)
Definition map_err {E F A} (f : E → F) (r : result E A) : result F A :=
  match r with Ok a => Ok a | Err e => Err (f e) | Panic => Panic end.

(** Indexing a slice: out of range is a panic. *)
Definition index {E A} (l : list A) (i : Z) : result E A :=
  if bool_decide (0 ≤ i)%Z then
    match l !! Z.to_nat i with Some a => Ok a | None => Panic end
  else Panic.

(** The longest beginning whose elements all pass a test. *)
Fixpoint take_while {A} (f : A → bool) (l : list A) : list A :=
  match l with [] => [] | x :: l => if f x then x :: take_while f l else [] end.

Lemma take_while_all {A} (f : A → bool) l : Forall (λ x, f x = true) l → take_while f l = l.
Proof. induction 1 as [|x l Hx _ IH]; cbn; [done|]. by rewrite Hx, IH. Qed.
Lemma take_while_app_all {A} (f : A → bool) l1 l2 :
  Forall (λ x, f x = true) l1 → take_while f (l1 ++ l2) = l1 ++ take_while f l2.
Proof. induction 1 as [|x l Hx _ IH]; cbn; [done|]. by rewrite Hx, IH. Qed.
Lemma take_while_app_stop {A} (f : A → bool) l1 l2 :
  ¬ Forall (λ x, f x = true) l1 → take_while f (l1 ++ l2) = take_while f l1.
Proof.
  induction l1 as [|x l1 IH]; cbn; [by intros []; constructor|]. intros Hn. destruct (f x) eqn:Hx; [|done].
  f_equal. apply IH. intros Hall. apply Hn. by constructor.
Qed.

(** Slicing [l[a..b]]: an inverted or overlong range is a panic. *)
Definition slice_of {E A} (l : list A) (a b : Z) : result E (list A) :=
  if bool_decide (0 ≤ a ≤ b ∧ b ≤ Z.of_nat (length l))%Z
  then Ok (take (Z.to_nat (b - a)) (drop (Z.to_nat a) l)) else Panic.

(** The fold of a fallible step over a list, stopping at the first error:
    a [for] loop whose body uses [?]. *)
Fixpoint for_each {E S A} (f : S → A → result E S) (s : S) (l : list A) : result E S :=
  match l with
  | [] => Ok s
  | a :: l => s' ← f s a; for_each f s' l
  end.

Definition is_ok {E A} (r : result E A) : bool :=
  match r with Ok _ => true | _ => false end.
Definition is_err {E A} (r : result E A) : bool :=
  match r with Err _ => true | _ => false end.
Lemma is_err_not_ok {E A} (r : result E A) : is_err r = true → is_ok r = false.
Proof. by destruct r. Qed.

Section result_lemmas.
Context {E A B : Type}.
Implicit Types (m : result E A).

Lemma bind_Ok_inv m (k : A → result E B) b :
  m ≫= k = Ok b ↔ ∃ a, m = Ok a ∧ k a = Ok b.
Proof. destruct m; naive_solver. Qed.

Lemma Ok_inj (a a' : A) : @Ok E A a = Ok a' → a = a'.
Proof. congruence. Qed.

Lemma is_ok_bind m (k : A → result E B) :
  is_ok (m ≫= k) = true ↔ ∃ a, m = Ok a ∧ is_ok (k a) = true.
Proof. destruct m; naive_solver. Qed.

Lemma is_ok_spec m : is_ok m = true ↔ ∃ a, m = Ok a.
Proof. destruct m; naive_solver. Qed.

Lemma ensure_Ok_inv (c : bool) (e : E) u : ensure c e = Ok u ↔ c = true.
Proof. destruct c, u; naive_solver. Qed.

Lemma bind_ensure_Ok (c : bool) (e : E) (k : unit → result E B) b :
  ensure c e ≫= k = Ok b ↔ c = true ∧ k tt = Ok b.
Proof. destruct c; naive_solver. Qed.

Lemma ok_or_Ok_inv (o : option A) (e : E) a : ok_or o e = Ok a ↔ o = Some a.
Proof. destruct o; naive_solver. Qed.

Lemma map_err_Ok_inv {F} (f : E → F) m a : map_err f m = Ok a ↔ m = Ok a.
Proof. destruct m; naive_solver. Qed.

Lemma bind_no_panic m (k : A → result E B) :
  m ≠ Panic → (∀ a, m = Ok a → k a ≠ Panic) → m ≫= k ≠ Panic.
Proof. destruct m; naive_solver. Qed.

Lemma ensure_no_panic (c : bool) (e : E) : ensure c e ≠ Panic.
Proof. by destruct c. Qed.

Lemma index_Ok (l : list A) (i : Z) a :
  (0 ≤ i)%Z → l !! Z.to_nat i = Some a → @index E A l i = Ok a.
Proof. intros ? Hl. unfold index. by rewrite bool_decide_true, Hl. Qed.

Lemma index_in_range (l : list A) (i : Z) :
  (0 ≤ i < Z.of_nat (length l))%Z → ∃ a, @index E A l i = Ok a ∧ l !! Z.to_nat i = Some a.
Proof.
  intros [? ?]. destruct (lookup_lt_is_Some_2 l (Z.to_nat i)) as [a Ha]; [lia|].
  exists a. split; [by apply index_Ok|done].
Qed.

Lemma index_no_panic (l : list A) (i : Z) :
  (0 ≤ i < Z.of_nat (length l))%Z → @index E A l i ≠ Panic.
Proof. intros (a & -> & _)%index_in_range. done. Qed.

Lemma slice_of_Ok (l : list A) (a b : Z) :
  (0 ≤ a ≤ b ∧ b ≤ Z.of_nat (length l))%Z →
  @slice_of E A l a b = Ok (take (Z.to_nat (b - a)) (drop (Z.to_nat a) l)).
Proof. intros. unfold slice_of. by rewrite bool_decide_true. Qed.

(** Indexing and slicing the middle part of a list. *)
Lemma index_app (l k : list A) (a : A) : @index E A (l ++ a :: k) (Z.of_nat (length l)) = Ok a.
Proof.
  apply index_Ok; [lia|]. rewrite Nat2Z.id, lookup_app_r by lia. by rewrite Nat.sub_diag.
Qed.

Lemma slice_of_app (l k r : list A) :
  @slice_of E A (l ++ k ++ r) (Z.of_nat (length l)) (Z.of_nat (length l) + Z.of_nat (length k))%Z = Ok k.
Proof.
  rewrite slice_of_Ok by (rewrite !length_app; lia).
  rewrite Z.add_simpl_l, !Nat2Z.id, drop_app_length, take_app_length. done.
Qed.
End result_lemmas.

Lemma for_each_app {E S A} (f : S → A → result E S) s l1 l2 :
  for_each f s (l1 ++ l2) = for_each f s l1 ≫= λ s', for_each f s' l2.
Proof.
  revert s. induction l1 as [|a l1 IH]; intros s; [done|]. simpl.
  by destruct (f s a); simpl.
Qed.

Lemma for_each_Ok {E S A} (f : S → A → S) s l :
  for_each (λ s a, @Ok E S (f s a)) s l = Ok (foldl f s l).
Proof. revert s. induction l as [|a l IH]; intros s; simpl; [done|]. apply IH. Qed.

(** Rule of the loop: an invariant kept by every iteration holds at the end. *)
Lemma for_each_inv {E S A} (I : S → Prop) (f : S → A → result E S) s l s' :
  (∀ s a s', I s → a ∈ l → f s a = Ok s' → I s') →
  I s → for_each f s l = Ok s' → I s'.
Proof.
  revert s. induction l as [|a l IH]; intros s Hstep HI; simpl; [naive_solver|].
  intros (s1 & Hf & Hrest)%bind_Ok_inv.
  eapply IH; [|eapply Hstep; [exact HI| |exact Hf]|exact Hrest]; set_solver.
Qed.

(** ** Stateful code

    A computation that reads and writes a state [S] and may fail; a state
    written before an error stays written. *)
Definition SE (S E A : Type) : Type := S → result E A * S.

#[export] Instance SE_ret {S E} : MRet (SE S E) := λ A a s, (Ok a, s).
#[export] Instance SE_bind {S E} : MBind (SE S E) := λ A B f m s,
  match m s with
  | (Ok a, s') => f a s'
  | (Err e, s') => (Err e, s')
  | (Panic, s') => (Panic, s')
  end.

Definition lift {S E A} (r : result E A) : SE S E A := λ s, (r, s).
Definition gets {S E A} (f : S → A) : SE S E A := λ s, (Ok (f s), s).
Definition modify {S E} (f : S → S) : SE S E unit := λ s, (Ok tt, f s).
Definition fail {S E A} (e : E) : SE S E A := λ s, (Err e, s).

(** [for a in l { f(a)? }] *)
Fixpoint for_M {S E A} (f : A → SE S E unit) (l : list A) : SE S E unit :=
  match l with
  | [] => mret tt
  | a :: l => _ ← f a; for_M f l
  end.

Section SE_lemmas.
Context {S E A B : Type}.
Implicit Types (m : SE S E A) (k : A → SE S E B).

Lemma SE_bind_Ok m k s b s' :
  (m ≫= k) s = (Ok b, s') ↔ ∃ a s1, m s = (Ok a, s1) ∧ k a s1 = (Ok b, s').
Proof.
  unfold mbind, SE_bind. destruct (m s) as [[a|e|] s1].
  - split; [eauto|]. intros (? & ? & [= <- <-] & ?). done.
  - split; [done|]. by intros (? & ? & ? & ?).
  - split; [done|]. by intros (? & ? & ? & ?).
Qed.

Lemma SE_bind_eq m k s a s1 : m s = (Ok a, s1) → (m ≫= k) s = k a s1.
Proof. intros H. unfold mbind, SE_bind. by rewrite H. Qed.

Lemma SE_lift_Ok (a : A) k s : (lift (Ok a) ≫= k) s = k a s.
Proof. done. Qed.

Lemma SE_bind_Err m k s e s1 : m s = (Err e, s1) → (m ≫= k) s = (Err e, s1).
Proof. intros H. unfold mbind, SE_bind. by rewrite H. Qed.
End SE_lemmas.

(** A computation moves the state along [R], whatever its result. *)
Definition pres {S E A} (R : S → S → Prop) (m : SE S E A) : Prop := ∀ s, R s (m s).2.

Section pres.
Context {S E : Type} (R : S → S → Prop) `{!PreOrder R}.

Lemma pres_bind {A B} (m : SE S E A) (k : A → SE S E B) : pres R m → (∀ a, pres R (k a)) → pres R (m ≫= k).
Proof.
  intros Hm Hk s. specialize (Hm s). unfold mbind, SE_bind. destruct (m s) as [[a|e|] s1]; [|done..].
  etrans; [exact Hm|apply Hk].
Qed.
Lemma pres_same {A} (r : S → result E A) : pres R (λ s, (r s, s)).
Proof. intros s. cbn. reflexivity. Qed.
Lemma pres_gets {A} (f : S → A) : pres R (gets f : SE S E A).
Proof. apply (pres_same (λ s, Ok (f s))). Qed.
Lemma pres_ret {A} (a : A) : pres R (mret a : SE S E A).
Proof. apply (pres_same (λ _, Ok a)). Qed.
Lemma pres_lift {A} (r : result E A) : pres R (lift r : SE S E A).
Proof. apply (pres_same (λ _, r)). Qed.
Lemma pres_fail {A} e : pres R (fail e : SE S E A).
Proof. apply (pres_same (λ _, Err e)). Qed.
End pres.
Create HintDb pres.
#[export] Hint Resolve pres_same pres_gets pres_ret pres_lift pres_fail : pres.
#[export] Hint Extern 1 (PreOrder _) => apply _ : pres.

(** Follows the statements of a program. *)
Ltac pres_auto :=
  repeat (intros; cbv zeta; lazymatch goal with
  | |- pres _ (_ ≫= _) => apply pres_bind; [apply _| |]
  | |- pres _ (match ?x with _ => _ end) => destruct x
  | |- pres _ _ => solve [eauto with pres]
  end).

(** Rule of the stateful loop, with the elements already handled. *)
Lemma for_M_ind {S E A} (I : list A → S → Prop) (f : A → SE S E unit) l s :
  I [] s →
  (∀ done a rest s, l = done ++ a :: rest → I done s → ∃ s', f a s = (Ok tt, s') ∧ I (done ++ [a]) s') →
  ∃ s', for_M f l s = (Ok tt, s') ∧ I l s'.
Proof.
  intros H0 Hstep.
  assert (∀ rest done s, l = done ++ rest → I done s → ∃ s', for_M f rest s = (Ok tt, s') ∧ I l s') as Hgen.
  { clear s H0. induction rest as [|a rest IH]; intros done s Hl HI.
    - exists s. rewrite Hl, app_nil_r. done.
    - destruct (Hstep _ _ _ _ Hl HI) as (s1 & Hf & HI1). simpl.
      rewrite (SE_bind_eq _ _ _ _ _ Hf). apply (IH (done ++ [a])); [|done].
      by rewrite <-app_assoc. }
  by apply (Hgen l []).
Qed.

(** What a successful stateful loop has established. *)
Lemma for_M_inv {S E A} (I : list A → S → Prop) (f : A → SE S E unit) l s s' :
  I [] s →
  (∀ done a rest s s', l = done ++ a :: rest → I done s → f a s = (Ok tt, s') → I (done ++ [a]) s') →
  for_M f l s = (Ok tt, s') → I l s'.
Proof.
  intros H0 Hstep.
  assert (∀ rest done s, l = done ++ rest → I done s → for_M f rest s = (Ok tt, s') → I l s') as Hgen.
  { clear s H0. induction rest as [|a rest IH]; intros done s Hl HI; simpl.
    - intros [= ->]. by rewrite Hl, app_nil_r.
    - intros ([] & s1 & Hf & Hr)%SE_bind_Ok.
      apply (IH (done ++ [a]) s1); [by rewrite <-app_assoc| |done]. by eapply Hstep. }
  by apply (Hgen l []).
Qed.

Lemma for_M_fmap {S E A B} (f : B → SE S E unit) (g : A → B) l s :
  for_M f (g <$> l) s = for_M (λ a, f (g a)) l s.
Proof.
  revert s. induction l as [|a l IH]; intros s; [done|]. cbn [fmap list_fmap for_M].
  unfold mbind, SE_bind. destruct (f (g a) s) as [[] ?]; [apply IH|done..].
Qed.

(** ** Automation

    [inv_ok] decomposes a hypothesis that a monadic program returned [Ok]
    into one hypothesis per statement. *)
Ltac inv_ok :=
  repeat match goal with
  | H : mbind _ _ = Ok _ |- _ =>
      apply bind_Ok_inv in H; destruct H as (? & ? & H); cbv beta in H
  | H : mret _ = Ok _ |- _ => apply Ok_inj in H
  | H : Ok _ = Ok _ |- _ => apply Ok_inj in H
  | H : Err _ = Ok _ |- _ => discriminate H
  | H : Panic = Ok _ |- _ => discriminate H
  | H : ensure _ _ = Ok _ |- _ => apply ensure_Ok_inv in H
  | H : ok_or _ _ = Ok _ |- _ => apply ok_or_Ok_inv in H
  | H : map_err _ _ = Ok _ |- _ => apply map_err_Ok_inv in H
  end.

(** The same for a stateful program that returned [Ok]. *)
Ltac inv_se :=
  repeat match goal with
  | H : mbind _ _ _ = (Ok _, _) |- _ =>
      apply SE_bind_Ok in H; destruct H as (? & ? & ? & H); cbv beta in H
  | H : lift _ _ = (Ok _, _) |- _ => unfold lift in H; injection H as H ?; subst
  | H : gets _ _ = (Ok _, _) |- _ => unfold gets in H; first [injection H as ? ? | injection H as ?]; subst
  | H : modify _ _ = (Ok _, _) |- _ => unfold modify in H; injection H as ?; subst
  | H : mret _ _ = (Ok _, _) |- _ => unfold mret, SE_ret in H; first [injection H as ? ? | injection H as ?]; subst
  | H : fail _ _ = (Ok _, _) |- _ => discriminate H
  end; inv_ok.

(** Turns boolean tests of the code into propositions for [lia]. *)
Ltac bools :=
  repeat match goal with
  | H : _ && _ = true |- _ => apply andb_true_iff in H as [? ?]
  | H : _ || _ = false |- _ => apply orb_false_iff in H as [? ?]
  | H : negb _ = true |- _ => apply negb_true_iff in H
  | H : negb _ = false |- _ => apply negb_false_iff in H
  | H : (_ =? _)%Z = true |- _ => apply Z.eqb_eq in H
  | H : (_ =? _)%Z = false |- _ => apply Z.eqb_neq in H
  | H : (_ <? _)%Z = true |- _ => apply Z.ltb_lt in H
  | H : (_ <? _)%Z = false |- _ => apply Z.ltb_ge in H
  | H : (_ <=? _)%Z = true |- _ => apply Z.leb_le in H
  | H : (_ <=? _)%Z = false |- _ => apply Z.leb_gt in H
  | H : bool_decide _ = true |- _ => apply bool_decide_eq_true in H
  | H : bool_decide _ = false |- _ => apply bool_decide_eq_false in H
  end.

Create HintDb night.
#[export] Hint Resolve ensure_no_panic bind_no_panic : night.

(** ** Machine integers

    Integers are [Z]; the width is written out where the code depends on it.
    Unchecked arithmetic wraps, as in the release profile. *)
Section ints.
Local Open Scope Z_scope.
Definition u8_ok (x : Z) : Prop := 0 ≤ x < 2 ^ 8.
Definition u16_ok (x : Z) : Prop := 0 ≤ x < 2 ^ 16.
Definition u32_ok (x : Z) : Prop := 0 ≤ x < 2 ^ 32.
Definition u64_ok (x : Z) : Prop := 0 ≤ x < 2 ^ 64.

(** [u64::checked_add], [u32::checked_add]. *)
Definition checked_add_u64 (a b : Z) : option Z :=
  if a + b <? 2 ^ 64 then Some (a + b) else None.
Definition checked_add_u32 (a b : Z) : option Z :=
  if a + b <? 2 ^ 32 then Some (a + b) else None.

(** [a + b] and [a - b] on [u64]. *)
Definition add_u64 (a b : Z) : Z := (a + b) mod 2 ^ 64.
Definition sub_u64 (a b : Z) : Z := (a - b) mod 2 ^ 64.

(** The casts [x as i64] of a [u64] and [x as u64] of an [i64]. *)
Definition as_i64 (x : Z) : Z := (x + 2 ^ 63) mod 2 ^ 64 - 2 ^ 63.
Definition as_u64 (x : Z) : Z := x mod 2 ^ 64.

Lemma as_u64_as_i64 x : u64_ok x → as_u64 (as_i64 x) = x.
Proof.
  unfold u64_ok, as_u64, as_i64. intros Hx.
  rewrite Zminus_mod_idemp_l, Z.add_simpl_r. by apply Z.mod_small.
Qed.

Lemma add_u64_small a b : 0 ≤ a + b < 2 ^ 64 → add_u64 a b = a + b.
Proof. apply Z.mod_small. Qed.
Lemma sub_u64_small a b : 0 ≤ a - b < 2 ^ 64 → sub_u64 a b = a - b.
Proof. apply Z.mod_small. Qed.
Lemma checked_add_u64_Some a b c :
  checked_add_u64 a b = Some c ↔ c = a + b ∧ a + b < 2 ^ 64.
Proof.
  unfold checked_add_u64. destruct (Z.ltb_spec (a + b) (2 ^ 64)); naive_solver lia.
Qed.
End ints.

Lemma and_iff_under (A B C : Prop) : (A → B ↔ C) → A ∧ B ↔ A ∧ C.
Proof. tauto. Qed.

Lemma snoc_cases {A} (l : list A) : l = [] ∨ ∃ l' x, l = l' ++ [x].
Proof. induction l using rev_ind; eauto. Qed.

Lemma Forall2_with {A B} (P : A → Prop) (Q : A → B → Prop) l k :
  Forall P l → Forall2 Q l k → Forall2 (λ x y, P x ∧ Q x y) l k.
Proof. intros HP. induction 1; [constructor|]. apply Forall_cons in HP as [??]. constructor; auto. Qed.

Lemma NoDup_fmap_inj_on {A B} (g : A → B) l a b :
  NoDup (g <$> l) → a ∈ l → b ∈ l → g a = g b → a = b.
Proof.
  induction l as [|x l IH]; [by intros _ ?%elem_of_nil|].
  rewrite fmap_cons, NoDup_cons. intros [Hx Hnd].
  intros [->|Ha]%elem_of_cons [->|Hb]%elem_of_cons Heq; [done| | |by apply IH].
  - destruct Hx. rewrite Heq. by apply list_elem_of_fmap_2.
  - destruct Hx. rewrite <-Heq. by apply list_elem_of_fmap_2.
Qed.

Lemma StronglySorted_impl {A} (R R' : A → A → Prop) l :
  (∀ x y, R x y → R' x y) → StronglySorted R l → StronglySorted R' l.
Proof. intros HR. induction 1; constructor; [done|]. eapply Forall_impl; eauto. Qed.

(** Length of a list as an integer. *)
Lemma forallb_Forall {A} (f : A → bool) l : forallb f l = true ↔ Forall (λ x, f x = true) l.
Proof. induction l as [|x l IH]; simpl; [by split|]. rewrite andb_true_iff, Forall_cons. tauto. Qed.

Definition zlen {A} (l : list A) : Z := Z.of_nat (length l).

Lemma zlen_nonneg {A} (l : list A) : (0 ≤ zlen l)%Z.
Proof. unfold zlen. lia. Qed.
Lemma zlen_app {A} (l k : list A) : zlen (l ++ k) = (zlen l + zlen k)%Z.
Proof. unfold zlen. rewrite length_app. lia. Qed.
Lemma zlen_cons {A} (x : A) l : zlen (x :: l) = (1 + zlen l)%Z.
Proof. unfold zlen. simpl. lia. Qed.
Create Rewrite HintDb zlen.
#[export] Hint Rewrite @zlen_app @zlen_cons : zlen.

(** ** Stable sorting

    [slice::sort_by] and [sort_by_key] are stable sorts; [leb x y] is
    "[x] does not compare greater than [y]". *)
Section stable_sort.
Context {A : Type} (leb : A → A → bool).

Fixpoint insert_sorted (x : A) (l : list A) : list A :=
  match l with
  | [] => [x]
  | y :: l' => if leb x y then x :: l else y :: insert_sorted x l'
  end.

Definition stable_sort (l : list A) : list A := foldr insert_sorted [] l.

Lemma insert_sorted_perm x l : insert_sorted x l ≡ₚ x :: l.
Proof.
  induction l as [|y l IH]; simpl; [done|].
  destruct (leb x y); [done|]. rewrite IH. apply Permutation_swap.
Qed.

Lemma stable_sort_perm l : stable_sort l ≡ₚ l.
Proof. induction l as [|x l IH]; simpl; [done|]. by rewrite insert_sorted_perm, IH. Qed.

Lemma elem_of_stable_sort x l : x ∈ stable_sort l ↔ x ∈ l.
Proof. by rewrite stable_sort_perm. Qed.

Let R x y : Prop := leb x y = true.

Lemma insert_sorted_sorted x l :
  (∀ x y, leb x y = true ∨ leb y x = true) → Transitive R →
  StronglySorted R l → StronglySorted R (insert_sorted x l).
Proof.
  intros Htot Htrans. induction 1 as [|y l Hs IH Hy]; simpl; [by repeat constructor|].
  destruct (leb x y) eqn:Hxy.
  - constructor; [by constructor|]. constructor; [done|].
    eapply Forall_impl; [exact Hy|]. intros z Hz. by transitivity y.
  - constructor; [done|]. rewrite insert_sorted_perm.
    constructor; [|done]. destruct (Htot x y); unfold R; congruence.
Qed.

Lemma stable_sort_sorted l :
  (∀ x y, leb x y = true ∨ leb y x = true) → Transitive R →
  StronglySorted R (stable_sort l).
Proof.
  intros ??. induction l as [|x l IH]; simpl; [constructor|].
  by apply insert_sorted_sorted.
Qed.

(** Sorting a sorted list does nothing. *)
Lemma stable_sort_id l : StronglySorted R l → stable_sort l = l.
Proof.
  induction 1 as [|x l Hs IH Hx]; simpl; [done|]. rewrite IH.
  destruct Hx as [|y l Hxy]; simpl; [done|]. by rewrite Hxy.
Qed.

(** Stability: elements that tie keep their order. *)
Lemma stable_sort_filter (P : A → Prop) `{∀ x, Decision (P x)} l :
  (∀ x y, P x → P y → leb x y = true) → filter P (stable_sort l) = filter P l.
Proof.
  intros HP. induction l as [|x l IH]; simpl; [done|].
  assert (filter P (insert_sorted x (stable_sort l)) = filter P (x :: stable_sort l)) as ->.
  { clear IH. induction (stable_sort l) as [|y k IH]; simpl; [done|].
    destruct (leb x y) eqn:Hxy; [done|]. rewrite !filter_cons, IH, !filter_cons.
    destruct (decide (P x)), (decide (P y)); try done.
    rewrite HP in Hxy by done. done. }
  rewrite !filter_cons, IH. done.
Qed.
End stable_sort.
