(* ===== verification/RustStr.v ===== *)
(** * Rust strings and bytes

    What the program uses of the Rust standard library's text and byte
    handling: [char] classes and [str::trim], UTF-8 encoding and
    [String::from_utf8], lexicographic order, big-endian integers, hexadecimal
    and decimal rendering, and [read_exact] on a byte stream.

    A [char] is its Unicode scalar value and a [String] the list of its
    characters; [str.len()] is the length of the UTF-8 encoding.  A byte is an
    integer below 256.  The order of [String] (bytewise on UTF-8) is the order
    of the lists of scalar values. *)

From stdpp Require Import prelude gmap strings pretty sorting.
From Stdlib Require Import ZArith Lia.
From S2P Require Import Prelude.

Local Open Scope Z_scope.

Abbreviation rstring := (list Z) (only parsing).
Abbreviation bytes := (list Z) (only parsing).

(** String literals. *)
Fixpoint str (s : string) : rstring :=
  match s with
  | EmptyString => []
  | String a s => Z.of_N (Ascii.N_of_ascii a) :: str s
  end.

Arguments str : simpl never.

(** A Unicode scalar value: a code point that is not a surrogate. *)
Definition scalar (c : Z) : Prop := 0 ≤ c < 0xD800 ∨ 0xE000 ≤ c < 0x110000.
Definition byte_ok (b : Z) : Prop := 0 ≤ b < 256.

#[export] Instance scalar_dec c : Decision (scalar c).
Proof. unfold scalar. apply _. Defined.
#[export] Instance byte_ok_dec b : Decision (byte_ok b).
Proof. unfold byte_ok. apply _. Defined.

(** ** Character classes *)

(** [char::is_whitespace]: the Unicode White_Space property. *)
Definition is_whitespace (c : Z) : bool :=
  ((0x9 <=? c) && (c <=? 0xD)) || (c =? 0x20) || (c =? 0x85) || (c =? 0xA0)
  || (c =? 0x1680) || ((0x2000 <=? c) && (c <=? 0x200A)) || (c =? 0x2028)
  || (c =? 0x2029) || (c =? 0x202F) || (c =? 0x205F) || (c =? 0x3000).

Definition is_ascii (c : Z) : bool := c <? 128.
Definition is_ascii_digit (c : Z) : bool := (48 <=? c) && (c <=? 57).
Definition is_ascii_uppercase (c : Z) : bool := (65 <=? c) && (c <=? 90).
Definition is_ascii_lowercase (c : Z) : bool := (97 <=? c) && (c <=? 122).
Definition is_ascii_alphanumeric (c : Z) : bool :=
  is_ascii_digit c || is_ascii_uppercase c || is_ascii_lowercase c.
Definition is_ascii_hexdigit (c : Z) : bool :=
  is_ascii_digit c || ((65 <=? c) && (c <=? 70)) || ((97 <=? c) && (c <=? 102)).

Definition to_ascii_lowercase_char (c : Z) : Z :=
  if is_ascii_uppercase c then c + 32 else c.
(** [str::to_ascii_lowercase] and [str::eq_ignore_ascii_case]. *)
Definition to_ascii_lowercase (s : rstring) : rstring := to_ascii_lowercase_char <$> s.
Definition eq_ignore_ascii_case (a b : rstring) : bool :=
  bool_decide (to_ascii_lowercase a = to_ascii_lowercase b).

(** ** [str::trim] *)
Fixpoint trim_start (s : rstring) : rstring :=
  match s with
  | [] => []
  | c :: s' => if is_whitespace c then trim_start s' else s
  end.
Definition trim_end (s : rstring) : rstring := reverse (trim_start (reverse s)).
Definition trim (s : rstring) : rstring := trim_end (trim_start s).

(** [s.trim().is_empty()]. *)
Definition is_blank (s : rstring) : bool := bool_decide (trim s = []).

Lemma trim_start_nil s : trim_start s = [] ↔ Forall (λ c, is_whitespace c = true) s.
Proof.
  induction s as [|c s IH]; simpl; [by split|]. rewrite Forall_cons, <-IH.
  destruct (is_whitespace c); naive_solver.
Qed.

Lemma trim_start_suffix s : ∃ p, s = p ++ trim_start s ∧ Forall (λ c, is_whitespace c = true) p.
Proof.
  induction s as [|c s (p & Hp & Hw)]; simpl; [by exists []|].
  destruct (is_whitespace c) eqn:Hc; [|by exists []].
  exists (c :: p). simpl. split; [congruence|by constructor].
Qed.

Lemma trim_start_head s c s' : trim_start s = c :: s' → is_whitespace c = false.
Proof.
  induction s as [|d s IH]; simpl; [done|]. destruct (is_whitespace d) eqn:Hd; [done|].
  by intros [= -> ->].
Qed.

(** A string is blank exactly when all its characters are whitespace. *)
Lemma is_blank_spec s : is_blank s = true ↔ Forall (λ c, is_whitespace c = true) s.
Proof.
  unfold is_blank, trim, trim_end. rewrite bool_decide_eq_true.
  destruct (trim_start_suffix s) as (p & Hs & Hp).
  split.
  - intros Ht. apply (f_equal reverse) in Ht. rewrite reverse_involutive in Ht.
    simpl in Ht. apply trim_start_nil in Ht. rewrite Forall_reverse in Ht.
    rewrite Hs. by apply Forall_app.
  - intros Hw%trim_start_nil. by rewrite Hw.
Qed.

Lemma is_blank_false s c : c ∈ s → is_whitespace c = false → is_blank s = false.
Proof.
  intros Hc Hw. apply not_true_is_false. rewrite is_blank_spec, Forall_forall.
  intros H. by rewrite H in Hw.
Qed.

(** ** UTF-8 *)
Definition utf8_char (c : Z) : bytes :=
  if c <? 0x80 then [c]
  else if c <? 0x800 then [0xC0 + c / 64; 0x80 + c mod 64]
  else if c <? 0x10000 then [0xE0 + c / 4096; 0x80 + (c / 64) mod 64; 0x80 + c mod 64]
  else [0xF0 + c / 262144; 0x80 + (c / 4096) mod 64; 0x80 + (c / 64) mod 64; 0x80 + c mod 64].

(** [s.as_bytes()] and [s.len()]. *)
Definition utf8_encode (s : rstring) : bytes := s ≫= utf8_char.
Definition str_len (s : rstring) : Z := zlen (utf8_encode s).

Definition is_cont (b : Z) : bool := (0x80 <=? b) && (b <=? 0xBF).

(** [String::from_utf8]: rejects stray continuation bytes, overlong forms,
    surrogates and code points above U+10FFFF. *)
Fixpoint utf8_decode (bs : bytes) : option rstring :=
  match bs with
  | [] => Some []
  | b0 :: r0 =>
    if (0 <=? b0) && (b0 <? 0x80) then cons b0 <$> utf8_decode r0
    else if (0xC2 <=? b0) && (b0 <=? 0xDF) then
      match r0 with
      | b1 :: r1 =>
        if is_cont b1 then cons ((b0 - 0xC0) * 64 + (b1 - 0x80)) <$> utf8_decode r1 else None
      | _ => None
      end
    else if (0xE0 <=? b0) && (b0 <=? 0xEF) then
      match r0 with
      | b1 :: b2 :: r2 =>
        let c := (b0 - 0xE0) * 4096 + (b1 - 0x80) * 64 + (b2 - 0x80) in
        if is_cont b1 && is_cont b2 && (0x800 <=? c) && ((c <? 0xD800) || (0xE000 <=? c))
        then cons c <$> utf8_decode r2 else None
      | _ => None
      end
    else if (0xF0 <=? b0) && (b0 <=? 0xF4) then
      match r0 with
      | b1 :: b2 :: b3 :: r3 =>
        let c := (b0 - 0xF0) * 262144 + (b1 - 0x80) * 4096 + (b2 - 0x80) * 64 + (b3 - 0x80) in
        if is_cont b1 && is_cont b2 && is_cont b3 && (0x10000 <=? c) && (c <? 0x110000)
        then cons c <$> utf8_decode r3 else None
      | _ => None
      end
    else None
  end.

(** Discharges the range tests of [utf8_decode] and [utf8_char]. *)
Ltac utf8_tests :=
  unfold is_cont;
  repeat match goal with
  | |- context [Z.leb ?a ?b] => destruct (Z.leb_spec a b); try lia
  | |- context [Z.ltb ?a ?b] => destruct (Z.ltb_spec a b); try lia
  end; simpl.

(** The base-64 digits of a code point. *)
Lemma digits64 c :
  c = c / 64 * 64 + c mod 64 ∧ 0 ≤ c mod 64 < 64 ∧
  c / 64 = c / 4096 * 64 + (c / 64) mod 64 ∧ 0 ≤ (c / 64) mod 64 < 64 ∧
  c / 4096 = c / 262144 * 64 + (c / 4096) mod 64 ∧ 0 ≤ (c / 4096) mod 64 < 64.
Proof.
  pose proof (Z.div_mod c 64). pose proof (Z.div_mod (c / 64) 64).
  pose proof (Z.div_mod (c / 4096) 64).
  pose proof (Z.mod_pos_bound c 64). pose proof (Z.mod_pos_bound (c / 64) 64).
  pose proof (Z.mod_pos_bound (c / 4096) 64).
  assert (c / 64 / 64 = c / 4096) by (by rewrite Z.div_div).
  assert (c / 4096 / 64 = c / 262144) by (by rewrite Z.div_div).
  lia.
Qed.

(** Names the digits of [c] and forgets how they were computed. *)
Ltac name_digits c :=
  pose proof (digits64 c);
  generalize dependent (c mod 64); generalize dependent ((c / 64) mod 64);
  generalize dependent ((c / 4096) mod 64); generalize dependent (c / 262144);
  generalize dependent (c / 4096); generalize dependent (c / 64); intros.

Lemma utf8_decode_char c bs :
  scalar c → utf8_decode (utf8_char c ++ bs) = cons c <$> utf8_decode bs.
Proof.
  intros Hc. unfold utf8_char, scalar in *.
  destruct (Z.ltb_spec c 0x80); [simpl; by utf8_tests|].
  destruct (Z.ltb_spec c 0x800).
  { name_digits c. simpl. utf8_tests. do 2 f_equal. lia. }
  destruct (Z.ltb_spec c 0x10000); name_digits c; simpl; utf8_tests; do 2 f_equal; lia.
Qed.

Lemma utf8_char_bytes c : scalar c → Forall byte_ok (utf8_char c).
Proof.
  intros Hc. unfold utf8_char, scalar, byte_ok in *.
  destruct (Z.ltb_spec c 0x80); [repeat constructor; lia|].
  destruct (Z.ltb_spec c 0x800); [name_digits c; repeat constructor; lia|].
  destruct (Z.ltb_spec c 0x10000); name_digits c; repeat constructor; lia.
Qed.

Lemma utf8_encode_cons c s : utf8_encode (c :: s) = utf8_char c ++ utf8_encode s.
Proof. done. Qed.

(** Decoding what was encoded gives the string back. *)
Lemma utf8_decode_encode s : Forall scalar s → utf8_decode (utf8_encode s) = Some s.
Proof.
  induction 1 as [|c s Hc Hs IH]; [done|].
  by rewrite utf8_encode_cons, utf8_decode_char, IH.
Qed.

Lemma utf8_encode_bytes s : Forall scalar s → Forall byte_ok (utf8_encode s).
Proof.
  induction 1; [constructor|]. rewrite utf8_encode_cons.
  apply Forall_app. eauto using utf8_char_bytes.
Qed.

Lemma utf8_char_nonempty c : utf8_char c ≠ [].
Proof. unfold utf8_char. repeat case_match; done. Qed.

Lemma utf8_encode_app s t : utf8_encode (s ++ t) = utf8_encode s ++ utf8_encode t.
Proof. apply bind_app. Qed.

Lemma utf8_encode_ascii s : Forall (λ c, is_ascii c = true) s → utf8_encode s = s.
Proof.
  induction 1 as [|c s Hc Hs IH]; [done|]. rewrite utf8_encode_cons, IH.
  unfold utf8_char. unfold is_ascii in Hc. by rewrite Hc.
Qed.

Lemma str_len_pos s : s ≠ [] → 0 < str_len s.
Proof.
  destruct s as [|c s]; [done|]. intros _. unfold str_len, zlen.
  rewrite utf8_encode_cons, length_app. pose proof (utf8_char_nonempty c). destruct (utf8_char c); [done|].
  simpl. lia.
Qed.

(** ** Lexicographic order: [Ord] of [String] and of byte arrays *)
Fixpoint lex_leb (a b : list Z) : bool :=
  match a, b with
  | [], _ => true
  | _ :: _, [] => false
  | x :: a, y :: b => (x <? y) || ((x =? y) && lex_leb a b)
  end.

Lemma lex_leb_total a b : lex_leb a b = true ∨ lex_leb b a = true.
Proof.
  revert b. induction a as [|x a IH]; intros [|y b]; simpl; auto.
  destruct (Z.ltb_spec x y), (Z.ltb_spec y x), (Z.eqb_spec x y), (Z.eqb_spec y x);
    simpl; auto; lia.
Qed.

Lemma lex_leb_antisym a b : lex_leb a b = true → lex_leb b a = true → a = b.
Proof.
  revert b. induction a as [|x a IH]; intros [|y b]; simpl; try done.
  destruct (Z.ltb_spec x y), (Z.ltb_spec y x), (Z.eqb_spec x y), (Z.eqb_spec y x);
    simpl; try lia; try done. intros. f_equal; [done|]. by apply IH.
Qed.

#[export] Instance lex_leb_trans : Transitive (λ a b, lex_leb a b = true).
Proof.
  intros a b c. revert b c. induction a as [|x a IH]; intros [|y b] [|z c]; simpl; try done.
  destruct (Z.ltb_spec x y), (Z.ltb_spec y z), (Z.ltb_spec x z),
    (Z.eqb_spec x y), (Z.eqb_spec y z), (Z.eqb_spec x z); simpl; try lia; try done.
  apply IH.
Qed.

(** ** Big-endian integers: [to_be_bytes] and [from_be_bytes] *)
Fixpoint to_be_bytes (n : nat) (x : Z) : bytes :=
  match n with
  | O => []
  | S n => (x / 256 ^ Z.of_nat n) mod 256 :: to_be_bytes n x
  end.

Definition from_be_bytes (bs : bytes) : Z := foldl (λ acc b, acc * 256 + b) 0 bs.

Lemma length_to_be_bytes n x : length (to_be_bytes n x) = n.
Proof. induction n; simpl; congruence. Qed.
#[export] Hint Rewrite length_to_be_bytes : zlen.

Lemma to_be_bytes_ok n x : Forall byte_ok (to_be_bytes n x).
Proof.
  induction n; simpl; constructor; [|done]. unfold byte_ok. apply Z.mod_pos_bound. lia.
Qed.

Lemma foldl_be acc bs :
  foldl (λ acc b, acc * 256 + b) acc bs = acc * 256 ^ zlen bs + from_be_bytes bs.
Proof.
  unfold from_be_bytes. revert acc.
  induction bs as [|b bs IH]; intros acc; cbn [foldl]; [unfold zlen; simpl; lia|].
  rewrite (IH (acc * 256 + b)), (IH (0 * 256 + b)), zlen_cons, Z.pow_add_r by (pose proof (zlen_nonneg bs); lia).
  change (256 ^ 1) with 256. ring.
Qed.

Lemma from_be_bytes_cons b bs : from_be_bytes (b :: bs) = b * 256 ^ zlen bs + from_be_bytes bs.
Proof. unfold from_be_bytes at 1. cbn [foldl]. by rewrite foldl_be. Qed.

Lemma from_to_be_mod n x : from_be_bytes (to_be_bytes n x) = x mod 256 ^ Z.of_nat n.
Proof.
  induction n as [|n IH]; [by rewrite Z.mod_1_r|].
  simpl to_be_bytes. rewrite from_be_bytes_cons, IH.
  unfold zlen. rewrite length_to_be_bytes, Nat2Z.inj_succ, Z.pow_succ_r by lia.
  rewrite (Z.mul_comm 256), Z.rem_mul_r by (pose proof (Z.pow_pos_nonneg 256 (Z.of_nat n)); lia).
  ring.
Qed.

(** An integer in range survives the trip through its bytes. *)
Lemma from_to_be n x : 0 ≤ x < 256 ^ Z.of_nat n → from_be_bytes (to_be_bytes n x) = x.
Proof. intros. rewrite from_to_be_mod. by apply Z.mod_small. Qed.

Lemma from_be_bytes_bound bs :
  Forall byte_ok bs → 0 ≤ from_be_bytes bs < 256 ^ zlen bs.
Proof.
  induction 1 as [|b bs Hb Hbs IH]; [done|].
  rewrite from_be_bytes_cons, zlen_cons, Z.pow_add_r by (pose proof (zlen_nonneg bs); lia).
  unfold byte_ok in Hb. nia.
Qed.

Arguments to_be_bytes : simpl never.
Arguments from_be_bytes : simpl never.

(** ** Hexadecimal and decimal *)
Definition hex_char (n : Z) : Z := if n <? 10 then 48 + n else 87 + n.

(** [write!(f, "{byte:02x}")] for each byte. *)
Definition hex_encode (bs : bytes) : rstring :=
  bs ≫= λ b, [hex_char (b / 16); hex_char (b mod 16)].

(** [format!("{n}")] of an unsigned integer. *)
Definition show_dec (n : Z) : rstring := str (pretty (Z.to_N n)).

#[export] Instance str_inj : Inj (=) (=) str.
Proof.
  intros s. induction s as [|a s IH]; intros [|b t]; cbn [str]; try done.
  intros [= Ha Hs]. f_equal; [|by apply IH].
  rewrite <-(Ascii.ascii_N_embedding a), <-(Ascii.ascii_N_embedding b). f_equal. lia.
Qed.

Lemma show_dec_inj a b : 0 ≤ a → 0 ≤ b → show_dec a = show_dec b → a = b.
Proof. intros ?? H%str_inj%(inj pretty). lia. Qed.

Lemma length_str s : length (str s) = String.length s.
Proof. induction s as [|a s IH]; [done|]. change (S (length (str s)) = S (String.length s)). by rewrite IH. Qed.

Lemma pretty_N_go_length n s : (String.length s ≤ String.length (pretty_N_go n s))%nat.
Proof.
  revert s. induction (N.lt_wf_0 n) as [n _ IH]. intros s.
  destruct (decide (n = 0%N)) as [->|Hn]; [by rewrite pretty_N_go_0|].
  rewrite pretty_N_go_step by lia.
  etransitivity; [|apply IH, N.div_lt; lia]. cbn [String.length]. lia.
Qed.

Lemma show_dec_length n : (1 ≤ length (show_dec n))%nat.
Proof.
  unfold show_dec. rewrite length_str. unfold pretty, pretty_N.
  case_decide; [done|]. rewrite pretty_N_go_step by lia.
  etransitivity; [|apply pretty_N_go_length]. cbn [String.length]. lia.
Qed.

Lemma pretty_N_char_digit n :
  is_ascii_digit (Z.of_N (Ascii.N_of_ascii (pretty_N_char n))) = true.
Proof. unfold pretty_N_char. by repeat case_match. Qed.

Lemma pretty_N_go_digits n s :
  Forall (λ c, is_ascii_digit c = true) (str s) →
  Forall (λ c, is_ascii_digit c = true) (str (pretty_N_go n s)).
Proof.
  revert s. induction (N.lt_wf_0 n) as [n _ IH]. intros s Hs.
  destruct (decide (n = 0%N)) as [->|Hn]; [by rewrite pretty_N_go_0|].
  rewrite pretty_N_go_step by lia. apply IH; [apply N.div_lt; lia|].
  change (str (String (pretty_N_char (n mod 10)) s))
    with (Z.of_N (Ascii.N_of_ascii (pretty_N_char (n mod 10))) :: str s).
  constructor; [apply pretty_N_char_digit|done].
Qed.

Lemma show_dec_digits n : Forall (λ c, is_ascii_digit c = true) (show_dec n).
Proof.
  unfold show_dec, pretty, pretty_N. case_decide; [by repeat constructor|].
  apply pretty_N_go_digits. constructor.
Qed.

(** ** Byte streams *)

(** [reader.read_exact(&mut buf)] for a buffer of [n] bytes: the bytes read
    and the rest of the stream, or [eof] when the stream ends first. *)
Definition read_exact {E} (eof : E) (n : Z) (s : bytes) : result E (bytes * bytes) :=
  if n <=? zlen s then Ok (take (Z.to_nat n) s, drop (Z.to_nat n) s) else Err eof.

Lemma read_exact_app {E} (eof : E) n l s :
  zlen l = n → read_exact eof n (l ++ s) = Ok (l, s).
Proof.
  intros <-. unfold read_exact. rewrite zlen_app. destruct (Z.leb_spec (zlen l) (zlen l + zlen s)).
  - unfold zlen. rewrite Nat2Z.id, take_app_length, drop_app_length. done.
  - pose proof (zlen_nonneg s). lia.
Qed.

Lemma read_exact_Ok_inv {E} (eof : E) n s l s' :
  0 ≤ n → read_exact eof n s = Ok (l, s') → s = l ++ s' ∧ zlen l = n.
Proof.
  unfold read_exact. destruct (Z.leb_spec n (zlen s)); [|done]. intros ? [= <- <-].
  split; [by rewrite take_drop|]. unfold zlen in *. rewrite length_take. lia.
Qed.
