(* ===== verification/Errors.v ===== *)
(** * Error types

    The error enums of the crates: [NativeError]
    (crates/protocol-native-v1/src/error.rs), [CoreError]
    (crates/core/src/error.rs) and [LocalSendError]
    (crates/protocol-localsend-v2/src/error.rs).  [std::io::Error] is its
    kind; a JSON error of [serde_json] carries nothing the program looks at. *)

From stdpp Require Import prelude strings.
From S2P Require Import Prelude RustStr.

Inductive io_error := UnexpectedEof | NotFound | AlreadyExists | IsADirectory | NotADirectory | OtherIo.

Inductive NativeError :=
| Io (e : io_error)
| Json
| Crypto (m : rstring)
| Protocol (m : rstring)
| Transport (m : rstring)
| NoDirectPath (attempted_pairs : list rstring) (hint : rstring) (last_error : option rstring)
| Manifest (m : rstring).

Inductive CoreError :=
| CoreIo (e : io_error)
| Sqlite
| IdentityVault (m : rstring)
| TrustStoreError (m : rstring)
| Config (m : rstring)
| CoreCrypto (m : rstring).

Inductive LocalSendError :=
| LsIo (e : io_error)
| LsJson
| LsHttp (m : rstring)
| LsSession (m : rstring)
| LsCrypto (m : rstring).

#[export] Instance io_error_eq_dec : EqDecision io_error.
Proof. solve_decision. Defined.
#[export] Instance NativeError_eq_dec : EqDecision NativeError.
Proof. solve_decision. Defined.
#[export] Instance CoreError_eq_dec : EqDecision CoreError.
Proof. solve_decision. Defined.
#[export] Instance LocalSendError_eq_dec : EqDecision LocalSendError.
Proof. solve_decision. Defined.
