(* ===== verification/Ranges.v ===== *)
(** * Byte ranges

    The reference theory both range implementations of the native protocol
    are compared with: which bytes a list of ranges covers, merging on
    unbounded integers, and tilings of a file by consecutive ranges.

    [ChunkRange] models both [chunk::ChunkRange] and [manifest::ResumeRange],
    two structs with the same fields. *)

From stdpp Require Import prelude sorting.
From Stdlib Require Import ZArith Lia.
From S2P Require Import Prelude.

Local Open Scope Z_scope.

Record ChunkRange := mkRange { offset : Z; len : Z }.

#[export] Instance ChunkRange_eq_dec : EqDecision ChunkRange.
Proof. solve_decision. Defined.

(** ** Coverage *)
Definition rend (r : ChunkRange) : Z := offset r + len r.
Definition covers (r : ChunkRange) (b : Z) : Prop := offset r ≤ b < rend r.
Definition covered (rs : list ChunkRange) (b : Z) : Prop := ∃ r, r ∈ rs ∧ covers r b.

(** A nonempty range inside the first [n] bytes. *)
Definition valid_range (n : Z) (r : ChunkRange) : Prop :=
  0 ≤ offset r ∧ 0 < len r ∧ rend r ≤ n.

#[export] Instance covers_dec r b : Decision (covers r b).
Proof. unfold covers. apply _. Defined.
#[export] Instance valid_range_dec n r : Decision (valid_range n r).
Proof. unfold valid_range. apply _. Defined.

Lemma covered_nil b : covered [] b ↔ False.
Proof. unfold covered. set_solver. Qed.
Lemma covered_cons r rs b : covered (r :: rs) b ↔ covers r b ∨ covered rs b.
Proof. unfold covered. set_solver. Qed.
Lemma covered_app rs1 rs2 b : covered (rs1 ++ rs2) b ↔ covered rs1 b ∨ covered rs2 b.
Proof. unfold covered. set_solver. Qed.
Lemma covered_one r b : covered [r] b ↔ covers r b.
Proof. unfold covered. set_solver. Qed.
Lemma covered_perm rs1 rs2 b : rs1 ≡ₚ rs2 → covered rs1 b ↔ covered rs2 b.
Proof. intros Hp. unfold covered. by setoid_rewrite Hp. Qed.

#[export] Instance covered_dec rs b : Decision (covered rs b).
Proof.
  refine (cast_if (decide (Exists (λ r, covers r b) rs))); unfold covered; by rewrite <-Exists_exists.
Defined.

(** A range that is not covered entirely has an uncovered byte. *)
Lemma uncovered_byte r rs :
  ¬ (∀ b, covers r b → covered rs b) → ∃ b, covers r b ∧ ¬ covered rs b.
Proof.
  intros Hnot. destruct (decide (Forall (covered rs) (seqZ (offset r) (len r)))) as [Hall|Hex].
  - exfalso. apply Hnot. intros b Hb. rewrite Forall_forall in Hall. apply Hall.
    apply elem_of_seqZ. unfold covers, rend in Hb. lia.
  - apply not_Forall_Exists in Hex; [|apply _]. apply Exists_exists in Hex as (b & Hb & Hn).
    exists b. split; [|done]. apply elem_of_seqZ in Hb. unfold covers, rend. lia.
Qed.

Create Rewrite HintDb covered.
#[export] Hint Rewrite covered_nil covered_cons covered_app covered_one : covered.

(** ** Merging, on unbounded integers *)

(** [ranges.sort_by_key(|range| range.offset)] *)
Definition sort_by_offset : list ChunkRange → list ChunkRange :=
  stable_sort (λ a b, offset a <=? offset b).

(** Extends the last merged range by an overlapping or adjacent one. *)
Definition grow (l r : ChunkRange) : ChunkRange :=
  mkRange (offset l) (Z.max (rend r) (rend l) - offset l).

(** Replaces the last element: assignment through [merged.last_mut()]. *)
Definition set_last {A} (l : list A) (x : A) : list A := removelast l ++ [x].

Definition merge_into (merged : list ChunkRange) (r : ChunkRange) : list ChunkRange :=
  match last merged with
  | None => merged ++ [r]
  | Some l => if offset r <=? rend l then set_last merged (grow l r) else merged ++ [r]
  end.

Definition merge_all (rs : list ChunkRange) : list ChunkRange :=
  foldl merge_into [] (sort_by_offset rs).

(** Consecutive ranges with a gap of at least one byte between them. *)
Definition separated (rs : list ChunkRange) : Prop :=
  StronglySorted (λ a b, rend a < offset b) rs.

Lemma sort_by_offset_sorted rs :
  StronglySorted (λ a b, offset a ≤ offset b) (sort_by_offset rs).
Proof.
  unfold sort_by_offset. eapply StronglySorted_ind; last apply stable_sort_sorted.
  - constructor.
  - intros a l _ IH Ha. constructor; [done|].
    eapply Forall_impl; [exact Ha|]. intros x Hx. by apply Z.leb_le.
  - intros x y. rewrite !Z.leb_le. lia.
  - intros x y z. rewrite !Z.leb_le. lia.
Qed.

Lemma merge_into_snoc m l r :
  merge_into (m ++ [l]) r = if offset r <=? rend l then m ++ [grow l r] else m ++ [l] ++ [r].
Proof.
  unfold merge_into, set_last. rewrite last_snoc, removelast_last, <-app_assoc. done.
Qed.

Lemma covers_grow l r b :
  offset l ≤ offset r ≤ rend l → 0 < len r → covers (grow l r) b ↔ covers l b ∨ covers r b.
Proof. unfold covers, grow, rend; simpl. lia. Qed.

Lemma separated_snoc m l :
  separated (m ++ [l]) ↔ separated m ∧ Forall (λ a, rend a < offset l) m.
Proof.
  unfold separated. induction m as [|a m IH]; simpl.
  - split; [intros; split; constructor|intros; repeat constructor].
  - split.
    + inversion 1 as [|? ? Hm Ha]; subst. apply IH in Hm as [Hm Hl].
      apply Forall_app in Ha as [Ha [Hal _]%Forall_cons].
      split; constructor; done.
    + intros [Hs Hf]. inversion Hs; subst. inversion Hf; subst. constructor.
      * apply IH. done.
      * apply Forall_app. split; [done|by repeat constructor].
Qed.

(** Loop invariant of the merge: once a range [l] is last and every remaining
    range starts at or after it, the result is separated, valid, and covers
    what the merged and the remaining ranges cover together. *)
Lemma merge_into_spec n rs : ∀ m l,
  StronglySorted (λ a b, offset a ≤ offset b) (l :: rs) →
  Forall (valid_range n) (m ++ [l]) → Forall (valid_range n) rs → separated (m ++ [l]) →
  let m' := foldl merge_into (m ++ [l]) rs in
  separated m' ∧ Forall (valid_range n) m' ∧
  (∀ b, covered m' b ↔ covered (m ++ [l]) b ∨ covered rs b).
Proof.
  induction rs as [|r rs IH]; intros m l Hsort Hm Hrs Hsep; simpl.
  { split_and!; [done..|]. intros b. rewrite covered_nil. tauto. }
  inversion Hsort as [|? ? Hsort' Hl]; subst.
  inversion Hl as [|? ? Hlr Hl']; subst. inversion Hrs as [|? ? Hr Hrs']; subst.
  inversion Hsort' as [|? ? Hsort'' Hr']; subst.
  apply Forall_app in Hm as [Hm Hvl]. pose proof (Forall_inv Hvl) as Hvl1.
  apply separated_snoc in Hsep as [Hsm Hml].
  rewrite merge_into_snoc. destruct (Z.leb_spec (offset r) (rend l)).
  - destruct (IH m (grow l r)) as (H1 & H2 & H3).
    + constructor; [done|]. eapply Forall_impl; [exact Hl'|]. done.
    + apply Forall_app. split; [done|]. repeat constructor;
        unfold valid_range, grow, rend in *; simpl; lia.
    + done.
    + apply separated_snoc. done.
    + split_and!; [done..|]. intros b. rewrite H3, covered_cons, !covered_app, !covered_one.
      unfold valid_range in *. rewrite covers_grow by lia. tauto.
  - rewrite app_assoc. destruct (IH (m ++ [l]) r) as (H1 & H2 & H3).
    + done.
    + apply Forall_app. split; [apply Forall_app; done|by constructor].
    + done.
    + apply separated_snoc. split; [apply separated_snoc; done|].
      apply Forall_app. split; [|by repeat constructor].
      eapply Forall_impl; [exact Hml|]. unfold valid_range in *. simpl. lia.
    + split_and!; [done..|]. intros b. rewrite H3, covered_cons, !covered_app, !covered_one. tauto.
Qed.

Lemma merge_all_spec n rs :
  Forall (valid_range n) rs →
  separated (merge_all rs) ∧ Forall (valid_range n) (merge_all rs) ∧
  (∀ b, covered (merge_all rs) b ↔ covered rs b).
Proof.
  intros Hv. unfold merge_all.
  assert (Hp : sort_by_offset rs ≡ₚ rs) by apply stable_sort_perm.
  assert (Hs := sort_by_offset_sorted rs). rewrite <-Hp in Hv.
  destruct (sort_by_offset rs) as [|l rs'] eqn:Hrs; simpl.
  { split_and!; [constructor..|]. intros b. by rewrite <-(covered_perm _ _ b Hp). }
  inversion Hv; subst.
  destruct (merge_into_spec n rs' [] l) as (H1' & H2' & H3'); simpl.
  - done.
  - by apply Forall_singleton.
  - done.
  - repeat constructor.
  - split_and!; [done..|]. intros b. rewrite H3', <-(covered_perm _ _ b Hp). simpl.
    rewrite !covered_cons, covered_nil. tauto.
Qed.

Lemma merge_into_valid n m r :
  Forall (valid_range n) m → valid_range n r → (∀ l, last m = Some l → offset l ≤ offset r) →
  Forall (valid_range n) (merge_into m r).
Proof.
  intros Hm Hr Hl. destruct (snoc_cases m) as [->|(m' & l & ->)].
  { by apply Forall_singleton. }
  specialize (Hl l (last_snoc _ _)).
  rewrite merge_into_snoc. apply Forall_app in Hm as [Hm' [Hv _]%Forall_cons].
  destruct (offset r <=? rend l).
  - apply Forall_app. split; [done|]. apply Forall_singleton.
    unfold valid_range, grow, rend in *; simpl in *. lia.
  - rewrite !Forall_app, !Forall_singleton. done.
Qed.

(** A loop whose step is [merge_into] on valid ranges computes [merge_all];
    both implementations are instances. *)
Lemma merge_loop {E} (step : list ChunkRange → ChunkRange → result E (list ChunkRange)) n rs :
  (∀ m r, Forall (valid_range n) m → valid_range n r → step m r = Ok (merge_into m r)) → ∀ m,
  Forall (valid_range n) m → Forall (valid_range n) rs →
  StronglySorted (λ a b, offset a ≤ offset b) rs →
  (∀ l r, last m = Some l → r ∈ rs → offset l ≤ offset r) →
  for_each step m rs = Ok (foldl merge_into m rs).
Proof.
  intros Hstep. induction rs as [|r rs IH]; intros m Hm Hrs Hs Hl; simpl; [done|].
  inversion Hrs; subst. inversion Hs as [|? ? Hs' Hr]; subst.
  rewrite Hstep by done. simpl. apply IH.
  - apply merge_into_valid; [done..|]. intros l Hlast. apply Hl; [done|left].
  - done.
  - done.
  - intros l' r' Hl' Hr'. rewrite Forall_forall in Hr. specialize (Hr _ Hr').
    destruct (snoc_cases m) as [->|(m' & l & ->)].
    + simpl in Hl'. by injection Hl' as <-.
    + rewrite merge_into_snoc in Hl'. destruct (offset r <=? rend l).
      * rewrite last_snoc in Hl'. injection Hl' as <-. simpl. apply Hl; [apply last_snoc|by right].
      * rewrite app_assoc, last_snoc in Hl'. by injection Hl' as <-.
Qed.

Lemma merge_sorted_loop {E} (step : list ChunkRange → ChunkRange → result E (list ChunkRange)) n rs :
  (∀ m r, Forall (valid_range n) m → valid_range n r → step m r = Ok (merge_into m r)) →
  Forall (valid_range n) rs → for_each step [] (sort_by_offset rs) = Ok (merge_all rs).
Proof.
  intros Hstep Hv. apply (merge_loop step n); [done|constructor| | |done].
  - unfold sort_by_offset. by rewrite stable_sort_perm.
  - apply sort_by_offset_sorted.
Qed.

(** ** Containment in a merged list *)

(** Between separated ranges there is an uncovered byte, so a range whose
    every byte is covered lies inside a single one. *)
Lemma separated_contains rs o n :
  separated rs → 0 < n → Forall (λ r, 0 < len r) rs →
  (∀ b, o ≤ b < o + n → covered rs b) ↔
  ∃ r, r ∈ rs ∧ offset r ≤ o ∧ o + n ≤ rend r.
Proof.
  intros Hsep Hn Hpos. split; last first.
  { intros (r & Hr & ? & ?) b Hb. exists r. split; [done|]. unfold covers. lia. }
  induction Hsep as [|r rs Hs IH Hr]; intros Hcov.
  { destruct (Hcov o) as (? & ?%elem_of_nil & _); [lia|done]. }
  inversion Hpos; subst. rewrite Forall_forall in Hr.
  destruct (decide (o < rend r)) as [Hin|Hout].
  - exists r. split; [left|].
    assert (offset r ≤ o).
    { destruct (Hcov o) as (q & Hq & Hqo); [lia|].
      apply elem_of_cons in Hq as [->|Hq%Hr]; unfold covers in *; lia. }
    split; [done|]. destruct (decide (o + n ≤ rend r)) as [?|Hlt]; [done|exfalso].
    destruct (Hcov (rend r)) as (q & Hq & Hqo); [lia|].
    apply elem_of_cons in Hq as [->|Hq%Hr]; unfold covers in *; lia.
  - destruct IH as (q & Hq & ?); [done| |exists q; set_solver].
    intros b Hb. destruct (Hcov b Hb) as (q & Hq & Hqb).
    apply elem_of_cons in Hq as [->|Hq]; [unfold covers in Hqb; lia|by exists q].
Qed.

(** The merged form of a complete file is the single range [0, size). *)
Lemma separated_whole rs size :
  separated rs → Forall (valid_range size) rs → 0 < size →
  rs = [mkRange 0 size] ↔ (∀ b, 0 ≤ b < size → covered rs b).
Proof.
  intros Hsep Hv Hsize. split.
  { intros -> b Hb. apply covered_one. unfold covers, rend; simpl. lia. }
  intros Hcov. destruct (proj1 (separated_contains rs 0 size Hsep Hsize
    (Forall_impl _ _ _ Hv (λ r Hr, proj1 (proj2 Hr))))) as (r & Hr & Ho & He).
  { intros b Hb. apply Hcov. lia. }
  assert (Hall : ∀ q, q ∈ rs → q = mkRange 0 size).
  { intros q Hq. rewrite Forall_forall in Hv. pose proof (Hv _ Hr) as Hvr.
    pose proof (Hv _ Hq) as Hvq. unfold valid_range in *.
    apply list_elem_of_split in Hr as (l1 & l2 & ->).
    assert (l1 = [] ∧ l2 = []) as [-> ->].
    { assert (∀ x, x ∈ l1 ∨ x ∈ l2 → False) as Hno.
      { intros x Hx. assert (valid_range size x) as Hvx by (apply Hv; set_solver).
        unfold valid_range in Hvx.
        unfold separated in Hsep. apply StronglySorted_app in Hsep as (Hs12 & _ & Hs2).
        destruct Hx as [Hx|Hx].
        - specialize (Hs12 x r Hx ltac:(set_solver)). simpl in Hs12. unfold rend in *. lia.
        - inversion Hs2 as [|? ? _ Hf]; subst. rewrite Forall_forall in Hf.
          specialize (Hf x Hx). unfold rend in *. lia. }
      split; [destruct l1|destruct l2]; try done; exfalso; eapply Hno;
        [left; left|right; left]. }
    apply list_elem_of_singleton in Hq as ->. destruct r as [ro rl]; unfold rend in *; simpl in *.
    f_equal; lia. }
  destruct rs as [|q1 [|q2 rs]].
  - by apply elem_of_nil in Hr.
  - f_equal. apply Hall. set_solver.
  - exfalso. assert (q1 = q2) as -> by (rewrite (Hall q1), (Hall q2); set_solver).
    unfold separated in Hsep. inversion Hsep as [|? ? _ Hf]; subst.
    apply Forall_inv in Hf. inversion Hv; subst. unfold valid_range, rend in *. lia.
Qed.

(** ** Tilings *)

(** [rs] cuts [lo, hi) into consecutive nonempty ranges. *)
Fixpoint tiles (lo hi : Z) (rs : list ChunkRange) : Prop :=
  match rs with
  | [] => lo = hi
  | r :: rs => offset r = lo ∧ 0 < len r ∧ tiles (rend r) hi rs
  end.

Lemma tiles_le lo hi rs : tiles lo hi rs → lo ≤ hi.
Proof.
  revert lo. induction rs as [|r rs IH]; simpl; intros lo; [lia|].
  intros (? & ? & ?%IH). unfold rend in *. lia.
Qed.

Lemma tiles_bounds lo hi rs r : tiles lo hi rs → r ∈ rs → lo ≤ offset r ∧ 0 < len r ∧ rend r ≤ hi.
Proof.
  revert lo. induction rs as [|q rs IH]; simpl; intros lo; [by intros _ ?%elem_of_nil|].
  intros (Ho & Hl & Ht) Hr. pose proof (tiles_le _ _ _ Ht).
  apply elem_of_cons in Hr as [->|Hr]; [lia|].
  destruct (IH _ Ht Hr) as (? & ? & ?). unfold rend in *. lia.
Qed.

Lemma tiles_covered lo hi rs b : tiles lo hi rs → covered rs b ↔ lo ≤ b < hi.
Proof.
  revert lo. induction rs as [|r rs IH]; intros lo; simpl.
  - intros ->. rewrite covered_nil. lia.
  - intros (Ho & Hl & Ht). rewrite covered_cons, (IH _ Ht). pose proof (tiles_le _ _ _ Ht).
    unfold covers, rend in *. lia.
Qed.

Lemma tiles_sum lo hi rs : tiles lo hi rs → foldr (λ r acc, len r + acc) 0 rs = hi - lo.
Proof.
  revert lo. induction rs as [|r rs IH]; intros lo; simpl; [lia|].
  intros (Ho & Hl & Ht). rewrite (IH _ Ht). unfold rend. lia.
Qed.

(** Earlier tiles end before later ones start. *)
Lemma tiles_ordered lo hi rs : tiles lo hi rs → StronglySorted (λ a b, rend a ≤ offset b) rs.
Proof.
  revert lo. induction rs as [|r rs IH]; intros lo; simpl; [constructor|].
  intros (_ & _ & Ht). constructor; [by eapply IH|]. apply Forall_forall. intros x Hx.
  apply (tiles_bounds _ _ _ _ Ht Hx).
Qed.
