(* ===== verification/Chunk.v ===== *)
(** * Chunk planning and resume math

    Model of crates/protocol-native-v1/src/chunk.rs.  [ChunkRange] is in
    Ranges.v.  The [while] loop of [plan_chunks] runs on fuel: one iteration
    per chunk plus the final test, which the tiling theorem shows to be
    enough. *)

From stdpp Require Import prelude sorting strings.
From Stdlib Require Import ZArith Lia.
From S2P Require Import Prelude RustStr Errors Ranges.

Local Open Scope Z_scope.

Definition DEFAULT_CHUNK_SIZE : Z := 1024 * 1024.

(** [ChunkRange::end] *)
Definition range_end (r : ChunkRange) : result NativeError Z :=
  ok_or (checked_add_u64 (offset r) (len r)) (Protocol (str "chunk range overflows u64")).

Definition validate_chunk_size (chunk_size : Z) : result NativeError unit :=
  ensure (negb (chunk_size =? 0)) (Protocol (str "chunk size must be greater than zero")).

(** The [while offset < file_size] loop, from a given offset on. *)
Fixpoint plan_loop (fuel : nat) (file_size chunk_size off : Z) : list ChunkRange :=
  match fuel with
  | O => []
  | S fuel =>
    if off <? file_size then
      let length := Z.min chunk_size (sub_u64 file_size off) in
      mkRange off length :: plan_loop fuel file_size chunk_size (add_u64 off length)
    else []
  end.

Definition plan_fuel (file_size chunk_size : Z) : nat := Z.to_nat (file_size / chunk_size + 2).

Definition plan_chunks (file_size chunk_size : Z) : result NativeError (list ChunkRange) :=
  _ ← validate_chunk_size chunk_size;
  Ok (plan_loop (plan_fuel file_size chunk_size) file_size chunk_size 0).

Definition validate_verified_range (file_size : Z) (_ : unit) (r : ChunkRange) :
    result NativeError unit :=
  _ ← ensure (negb (len r =? 0)) (Protocol (str "verified range length must be greater than zero"));
  e ← range_end r;
  ensure (e <=? file_size) (Protocol (str "verified range extends past file size")).

Definition validate_verified_ranges (file_size : Z) (ranges : list ChunkRange) :
    result NativeError unit :=
  for_each (validate_verified_range file_size) tt ranges.

(** Body of the [for range in ranges] loop of [merge_ranges]. *)
Definition merge_step (merged : list ChunkRange) (r : ChunkRange) :
    result NativeError (list ChunkRange) :=
  match last merged with
  | None => Ok (merged ++ [r])
  | Some l =>
    last_end ← range_end l;
    r_end ← range_end r;
    if offset r <=? last_end
    then Ok (set_last merged (mkRange (offset l) (sub_u64 (Z.max r_end last_end) (offset l))))
    else Ok (merged ++ [r])
  end.

Definition merge_ranges (ranges : list ChunkRange) : result NativeError (list ChunkRange) :=
  for_each merge_step [] (sort_by_offset ranges).

Definition range_fully_covered (r : ChunkRange) (verified : list ChunkRange) : bool :=
  match range_end r with
  | Ok r_end =>
    existsb (λ v, (offset v <=? offset r) &&
                  match range_end v with Ok v_end => r_end <=? v_end | _ => false end) verified
  | _ => false
  end.

Definition plan_missing_chunks (file_size chunk_size : Z) (verified : list ChunkRange) :
    result NativeError (list ChunkRange) :=
  _ ← validate_verified_ranges file_size verified;
  verified ← merge_ranges verified;
  chunks ← plan_chunks file_size chunk_size;
  Ok (filter (λ chunk, range_fully_covered chunk verified = false) chunks).

Definition ranges_cover_file (file_size : Z) (verified : list ChunkRange) :
    result NativeError bool :=
  _ ← validate_verified_ranges file_size verified;
  if file_size =? 0 then Ok true
  else
    merged ← merge_ranges verified;
    Ok (bool_decide (merged = [mkRange 0 file_size])).

(** A [u64] range. *)
Definition range_ok (r : ChunkRange) : Prop := u64_ok (offset r) ∧ u64_ok (len r).

(** ** Lemmas *)

Lemma range_end_small r : rend r < 2 ^ 64 → range_end r = Ok (rend r).
Proof.
  intros Hr. unfold range_end, checked_add_u64, rend in *.
  destruct (Z.ltb_spec (offset r + len r) (2 ^ 64)); [done|lia].
Qed.

Lemma plan_loop_tiles fuel size chunk off :
  0 ≤ off ≤ size → size < 2 ^ 64 → 0 < chunk →
  (Z.to_nat ((size - off + chunk - 1) / chunk) < fuel)%nat →
  tiles off size (plan_loop fuel size chunk off).
Proof.
  intros Hoff Hsize Hchunk. revert off Hoff.
  induction fuel as [|fuel IH]; intros off Hoff Hfuel; simpl; [lia|].
  destruct (Z.ltb_spec off size) as [Hlt|]; simpl; [|lia].
  rewrite sub_u64_small by lia. split_and!; [done|lia|].
  rewrite add_u64_small by lia. unfold rend; simpl.
  destruct (Z.min_spec chunk (size - off)) as [[Hm ->]|[Hm ->]].
  - apply IH; [lia|].
    replace (size - (off + chunk) + chunk - 1) with ((size - off + chunk - 1) + (-1) * chunk) by lia.
    rewrite Z.div_add by lia.
    assert (1 ≤ (size - off + chunk - 1) / chunk) by (apply Z.div_le_lower_bound; lia). lia.
  - replace (off + (size - off)) with size by lia.
    destruct fuel; simpl; [done|]. by rewrite Z.ltb_irrefl.
Qed.

Lemma plan_fuel_enough size chunk :
  0 ≤ size → 0 < chunk → (Z.to_nat ((size - 0 + chunk - 1) / chunk) < plan_fuel size chunk)%nat.
Proof.
  intros. unfold plan_fuel.
  assert ((size - 0 + chunk - 1) / chunk ≤ (size + 1 * chunk) / chunk) by (apply Z.div_le_mono; lia).
  rewrite Z.div_add in * by lia.
  assert (0 ≤ (size - 0 + chunk - 1) / chunk) by (apply Z.div_pos; lia). lia.
Qed.

Lemma plan_chunks_Ok size chunk :
  0 < chunk → plan_chunks size chunk = Ok (plan_loop (plan_fuel size chunk) size chunk 0).
Proof.
  intros. unfold plan_chunks, validate_chunk_size.
  destruct (Z.eqb_spec chunk 0); [lia|done].
Qed.

Lemma plan_tiles size chunk :
  u64_ok size → 0 < chunk →
  tiles 0 size (plan_loop (plan_fuel size chunk) size chunk 0).
Proof.
  intros [??] ?. apply plan_loop_tiles; [lia..|]. by apply plan_fuel_enough.
Qed.

Lemma plan_loop_len fuel size chunk off r :
  r ∈ plan_loop fuel size chunk off → len r ≤ chunk.
Proof.
  revert off. induction fuel as [|fuel IH]; intros off; simpl; [by intros ?%elem_of_nil|].
  destruct (off <? size); [|by intros ?%elem_of_nil].
  intros [->|Hr]%elem_of_cons; simpl; [lia|by eapply IH].
Qed.

(** A tiling by steps of [chunk] has as many ranges as the rounded-up quotient. *)
Lemma plan_loop_length fuel size chunk off :
  0 ≤ off ≤ size → size < 2 ^ 64 → 0 < chunk →
  (Z.to_nat ((size - off + chunk - 1) / chunk) < fuel)%nat →
  zlen (plan_loop fuel size chunk off) = (size - off + chunk - 1) / chunk.
Proof.
  intros Hoff Hsize Hchunk. revert off Hoff.
  induction fuel as [|fuel IH]; intros off Hoff Hfuel; simpl; [lia|].
  destruct (Z.ltb_spec off size) as [Hlt|]; simpl.
  - rewrite sub_u64_small, zlen_cons by lia.
    destruct (Z.min_spec chunk (size - off)) as [[Hm ->]|[Hm ->]].
    + rewrite add_u64_small by lia.
      assert (Hd : (size - (off + chunk) + chunk - 1) / chunk = (size - off + chunk - 1) / chunk - 1).
      { replace (size - (off + chunk) + chunk - 1) with ((size - off + chunk - 1) + (-1) * chunk) by lia.
        rewrite Z.div_add by lia. lia. }
      assert (1 ≤ (size - off + chunk - 1) / chunk) by (apply Z.div_le_lower_bound; lia).
      rewrite IH by lia. lia.
    + rewrite add_u64_small by lia. replace (off + (size - off)) with size by lia.
      assert (plan_loop fuel size chunk size = []) as ->
        by (destruct fuel; simpl; [done|by rewrite Z.ltb_irrefl]).
      change (zlen []) with 0. apply Z.div_unique with (size - off - 1); lia.
  - symmetry. change (zlen []) with 0. apply Z.div_small. lia.
Qed.

Lemma validate_verified_ranges_Ok size rs u :
  Forall range_ok rs → size < 2 ^ 64 →
  validate_verified_ranges size rs = Ok u ↔ Forall (valid_range size) rs.
Proof.
  intros Hok Hsize. destruct u. unfold validate_verified_ranges.
  induction Hok as [|r rs [[??] [??]] Hok IH]; simpl; [by split|].
  rewrite Forall_cons, bind_Ok_inv, <-IH. unfold validate_verified_range at 1.
  assert (valid_range size r ↔ validate_verified_range size tt r = Ok tt) as ->.
  { unfold validate_verified_range, range_end, checked_add_u64, valid_range, rend.
    destruct (Z.eqb_spec (len r) 0); simpl; [split; [lia|done]|].
    destruct (Z.ltb_spec (offset r + len r) (2 ^ 64)); simpl; [|split; [lia|done]].
    destruct (Z.leb_spec (offset r + len r) size); simpl; split; try done; lia. }
  split; [intros ([] & ? & ?); done|intros [??]; by exists tt].
Qed.

(** On valid ranges the checked, wrapping merge is the reference merge. *)
Lemma merge_step_pure n m r :
  n < 2 ^ 64 → Forall (valid_range n) m → valid_range n r →
  merge_step m r = Ok (merge_into m r).
Proof.
  intros Hn Hm Hr. unfold merge_step, merge_into.
  destruct (last m) as [l|] eqn:Hl; [|done].
  apply last_Some_elem_of in Hl. rewrite Forall_forall in Hm. specialize (Hm _ Hl).
  unfold valid_range in *.
  rewrite (range_end_small l), (range_end_small r) by (unfold rend in *; lia). simpl.
  destruct (offset r <=? rend l); [|done]. unfold grow.
  rewrite sub_u64_small by (unfold rend in *; lia). done.
Qed.

Lemma merge_ranges_pure n rs :
  n < 2 ^ 64 → Forall (valid_range n) rs → merge_ranges rs = Ok (merge_all rs).
Proof.
  intros Hn Hv. apply (merge_sorted_loop _ n); [|done]. intros. by apply (merge_step_pure n).
Qed.

Lemma range_fully_covered_spec n r m :
  n < 2 ^ 64 → Forall (valid_range n) m → rend r < 2 ^ 64 →
  range_fully_covered r m = true ↔ ∃ v, v ∈ m ∧ offset v ≤ offset r ∧ rend r ≤ rend v.
Proof.
  intros Hn Hm Hr. unfold range_fully_covered. rewrite range_end_small by done.
  rewrite existsb_exists. setoid_rewrite <-list_elem_of_In.
  apply exist_proper. intros v. split.
  - intros [Hv Hb]. split; [done|]. rewrite Forall_forall in Hm. specialize (Hm _ Hv).
    rewrite range_end_small in Hb by (unfold valid_range in Hm; lia). bools. lia.
  - intros (Hv & ? & ?). split; [done|]. rewrite Forall_forall in Hm. specialize (Hm _ Hv).
    rewrite range_end_small by (unfold valid_range in Hm; lia).
    apply andb_true_iff. rewrite !Z.leb_le. done.
Qed.

(** A nonempty range is inside one merged range exactly when the verified
    ranges cover each of its bytes. *)
Lemma fully_covered_bytes n r rs :
  n < 2 ^ 64 → Forall (valid_range n) rs → 0 < len r → rend r < 2 ^ 64 →
  range_fully_covered r (merge_all rs) = true ↔ (∀ b, covers r b → covered rs b).
Proof.
  intros Hn Hv Hl Hr. destruct (merge_all_spec n rs Hv) as (Hsep & Hmv & Hcov).
  rewrite (range_fully_covered_spec n) by done.
  transitivity (∀ b, offset r ≤ b < offset r + len r → covered (merge_all rs) b).
  - symmetry. apply separated_contains; [done..|].
    eapply Forall_impl; [exact Hmv|]. intros x Hx. apply Hx.
  - by setoid_rewrite Hcov.
Qed.

(** ** Correctness *)

(** C32: Planned chunks are consecutive, nonempty, no longer than [chunk_size],
    start at 0 and end at [file_size], and there are
    [ceil(file_size / chunk_size)] of them. *)
Theorem plan_chunks_correct file_size chunk_size :
  u64_ok file_size → u64_ok chunk_size → chunk_size ≠ 0 →
  ∃ chunks, plan_chunks file_size chunk_size = Ok chunks ∧
    tiles 0 file_size chunks ∧
    Forall (λ c, len c ≤ chunk_size) chunks ∧
    zlen chunks = (file_size + chunk_size - 1) / chunk_size.
Proof.
  intros Hf [Hc0 Hc] Hne. eexists. split; [apply plan_chunks_Ok; lia|]. split_and!.
  - apply plan_tiles; [done|lia].
  - apply Forall_forall. intros r. apply plan_loop_len.
  - destruct Hf as [? ?].
    rewrite plan_loop_length by (lia || (apply plan_fuel_enough; lia)). by rewrite Z.sub_0_r.
Qed.

(** [merge_ranges] on ranges that pass validation: no overflow error, the
    same bytes covered, and ranges separated by gaps. *)
Theorem merge_ranges_correct file_size ranges :
  u64_ok file_size → Forall (valid_range file_size) ranges →
  ∃ merged, merge_ranges ranges = Ok merged ∧ separated merged ∧
    Forall (valid_range file_size) merged ∧ ∀ b, covered merged b ↔ covered ranges b.
Proof.
  intros [??] Hv. exists (merge_all ranges).
  split; [by apply (merge_ranges_pure file_size)|by apply merge_all_spec].
Qed.

(** [ranges_cover_file] decides whether every byte of the file is verified. *)
Theorem ranges_cover_file_correct file_size verified :
  u64_ok file_size → Forall range_ok verified → Forall (valid_range file_size) verified →
  ∃ c, ranges_cover_file file_size verified = Ok c ∧
    (c = true ↔ ∀ b, 0 ≤ b < file_size → covered verified b).
Proof.
  intros [Hf0 Hf] Hok Hv. unfold ranges_cover_file.
  rewrite (proj2 (validate_verified_ranges_Ok file_size verified tt Hok Hf) Hv). simpl.
  destruct (Z.eqb_spec file_size 0) as [->|Hne].
  { exists true. split; [done|]. split; [lia|done]. }
  rewrite (merge_ranges_pure file_size) by done. simpl. eexists. split; [done|].
  destruct (merge_all_spec file_size verified Hv) as (Hsep & Hmv & Hcov).
  rewrite bool_decide_eq_true, (separated_whole _ file_size) by (done || lia).
  by setoid_rewrite Hcov.
Qed.

(** [plan_missing_chunks] asks again for exactly the planned chunks that have
    a byte no verified range covers. *)
Theorem plan_missing_chunks_correct file_size chunk_size verified :
  u64_ok file_size → u64_ok chunk_size → chunk_size ≠ 0 →
  Forall range_ok verified → Forall (valid_range file_size) verified →
  ∃ chunks missing, plan_chunks file_size chunk_size = Ok chunks ∧
    plan_missing_chunks file_size chunk_size verified = Ok missing ∧
    missing `sublist_of` chunks ∧
    ∀ c, c ∈ missing ↔ c ∈ chunks ∧ ∃ b, covers c b ∧ ¬ covered verified b.
Proof.
  intros Hf [Hc0 Hc] Hne Hok Hv. pose proof Hf as [Hf0 Hf64].
  assert (Hplan := plan_chunks_Ok file_size chunk_size ltac:(lia)).
  assert (Htiles := plan_tiles file_size chunk_size Hf ltac:(lia)).
  do 2 eexists. split; [exact Hplan|]. split.
  { unfold plan_missing_chunks.
    rewrite (proj2 (validate_verified_ranges_Ok file_size verified tt Hok Hf64) Hv). simpl.
    rewrite (merge_ranges_pure file_size) by done. simpl. rewrite Hplan. done. }
  split; [apply sublist_filter|]. intros c. rewrite list_elem_of_filter, Logic.and_comm.
  apply and_iff_under. intros Hin.
  destruct (tiles_bounds _ _ _ _ Htiles Hin) as (? & ? & ?).
  rewrite <-not_true_iff_false, (fully_covered_bytes file_size) by (done || lia).
  split.
  - intros Hnot. destruct (uncovered_byte c verified Hnot) as [b Hb]; eauto.
  - intros (b & Hb & Hnb) Hall. auto.
Qed.
