(* ===== verification/Dto.v ===== *)
(** * Native protocol data transfer objects

    Model of crates/protocol-native-v1/src/dto.rs: the message structs of the
    control stream, extension negotiation and transfer request validation. *)

From stdpp Require Import prelude strings gmap.
From Stdlib Require Import ZArith Lia.
From S2P Require Import Prelude RustStr Errors.

Local Open Scope Z_scope.

Definition PROTOCOL_VERSION : Z := 1.
Definition EXT_RESUME_V1 : rstring := str "resume@1".
Definition EXT_BLAKE3_V1 : rstring := str "blake3@1".
Definition EXT_ZSTD_V1 : rstring := str "zstd@1".

Record NativePeerInfo := mkPeerInfo {
  pi_alias : rstring; pi_fingerprint : rstring; pi_pubkey : bytes; pi_quic_port : Z;
  pi_native_certificate_fingerprint : option rstring; pi_extensions : list rstring }.

Record Hello := mkHello {
  hello_protocol_version : Z; hello_alias : rstring; hello_pubkey : bytes; hello_nonce : bytes;
  hello_extensions : list rstring; hello_identity_proof : bytes }.

Record HelloAck := mkHelloAck {
  ack_protocol_version : Z; ack_alias : rstring; ack_pubkey : bytes; ack_nonce : bytes;
  ack_accepted_extensions : list rstring }.

Record FileOffer := mkFileOffer {
  fo_file_id : rstring; fo_file_name : rstring; fo_size : Z; fo_blake3 : option rstring }.

Record RequestTransfer := mkRequestTransfer { rt_transfer_id : rstring; rt_files : list FileOffer }.
Record AcceptTransfer := mkAcceptTransfer { at_transfer_id : rstring; at_chunk_size : Z }.
Record ChunkAck := mkChunkAck {
  ca_transfer_id : rstring; ca_file_id : rstring; ca_offset : Z; ca_length : Z; ca_blake3 : rstring }.
Record CancelTransfer := mkCancelTransfer { ct_transfer_id : rstring; ct_reason : rstring }.
Record DoneTransfer := mkDoneTransfer { dt_transfer_id : rstring }.
Record ResumeRequest := mkResumeRequest { rr_transfer_id : rstring }.

#[export] Instance NativePeerInfo_eq_dec : EqDecision NativePeerInfo.
Proof. solve_decision. Defined.
#[export] Instance Hello_eq_dec : EqDecision Hello.
Proof. solve_decision. Defined.
#[export] Instance HelloAck_eq_dec : EqDecision HelloAck.
Proof. solve_decision. Defined.
#[export] Instance FileOffer_eq_dec : EqDecision FileOffer.
Proof. solve_decision. Defined.
#[export] Instance RequestTransfer_eq_dec : EqDecision RequestTransfer.
Proof. solve_decision. Defined.
#[export] Instance AcceptTransfer_eq_dec : EqDecision AcceptTransfer.
Proof. solve_decision. Defined.
#[export] Instance ChunkAck_eq_dec : EqDecision ChunkAck.
Proof. solve_decision. Defined.
#[export] Instance CancelTransfer_eq_dec : EqDecision CancelTransfer.
Proof. solve_decision. Defined.
#[export] Instance DoneTransfer_eq_dec : EqDecision DoneTransfer.
Proof. solve_decision. Defined.
#[export] Instance ResumeRequest_eq_dec : EqDecision ResumeRequest.
Proof. solve_decision. Defined.

Definition default_extensions : list rstring := [EXT_RESUME_V1; EXT_BLAKE3_V1].

Definition is_known_extension (extension : rstring) : bool :=
  bool_decide (extension = EXT_RESUME_V1 ∨ extension = EXT_BLAKE3_V1 ∨ extension = EXT_ZSTD_V1).

Definition negotiate_extensions (local remote : list rstring) : list rstring :=
  filter (λ e, is_known_extension e = true ∧ e ∈ remote) local.

(** Body of the loop over the offered files; the state is the set of file ids
    seen so far. *)
Definition validate_file (file_ids : gset rstring) (file : FileOffer) :
    result NativeError (gset rstring) :=
  _ ← ensure (negb (is_blank (fo_file_id file))) (Protocol (str "file id is required"));
  _ ← ensure (bool_decide (fo_file_id file ∉ file_ids)) (Protocol (str "duplicate file id"));
  _ ← ensure (negb (is_blank (fo_file_name file))) (Protocol (str "file name is required"));
  Ok ({[ fo_file_id file ]} ∪ file_ids).

Definition validate_transfer_request (request : RequestTransfer) : result NativeError unit :=
  _ ← ensure (negb (is_blank (rt_transfer_id request))) (Protocol (str "transfer id is required"));
  _ ← ensure (negb (bool_decide (rt_files request = []))) (Protocol (str "at least one file is required"));
  _ ← for_each validate_file ∅ (rt_files request);
  Ok tt.

(** ** Correctness *)

Lemma validate_file_Ok seen f s :
  validate_file seen f = Ok s ↔
  is_blank (fo_file_id f) = false ∧ is_blank (fo_file_name f) = false ∧
  fo_file_id f ∉ seen ∧ s = {[ fo_file_id f ]} ∪ seen.
Proof.
  unfold validate_file. split.
  - intros H. inv_ok. bools. done.
  - intros (-> & -> & ? & ->). simpl. by rewrite bool_decide_true.
Qed.

Lemma validate_files_Ok files seen :
  (is_ok (for_each validate_file seen files) = true) ↔
  Forall (λ f, is_blank (fo_file_id f) = false ∧ is_blank (fo_file_name f) = false) files ∧
  NoDup (fo_file_id <$> files) ∧ Forall (λ f, fo_file_id f ∉ seen) files.
Proof.
  revert seen. induction files as [|f files IH]; intros seen; simpl.
  { repeat split; constructor. }
  rewrite !Forall_cons, NoDup_cons, is_ok_bind. setoid_rewrite validate_file_Ok.
  setoid_rewrite IH. rewrite list_elem_of_fmap. setoid_rewrite Forall_forall.
  split.
  - intros (s & (? & ? & ? & ->) & ? & ? & Hseen).
    setoid_rewrite not_elem_of_union in Hseen. setoid_rewrite not_elem_of_singleton in Hseen.
    naive_solver.
  - intros (? & [Hnin ?] & ? & Hseen). eexists. split_and!; [naive_solver..|].
    intros g Hg. apply not_elem_of_union. rewrite not_elem_of_singleton. naive_solver.
Qed.

Lemma validate_transfer_request_Ok request :
  validate_transfer_request request = Ok tt ↔
  is_blank (rt_transfer_id request) = false ∧ rt_files request ≠ [] ∧
  Forall (λ f, is_blank (fo_file_id f) = false ∧ is_blank (fo_file_name f) = false) (rt_files request) ∧
  NoDup (fo_file_id <$> rt_files request).
Proof.
  unfold validate_transfer_request. split.
  - intros H. inv_ok. bools. split_and!; [done..| |];
      eapply (validate_files_Ok _ ∅), is_ok_spec; eauto.
  - intros (-> & Hne & Hf & Hnd). simpl. rewrite bool_decide_false by done. simpl.
    destruct (proj1 (is_ok_spec (for_each validate_file ∅ (rt_files request)))) as [s ->]; [|done].
    apply validate_files_Ok. split_and!; [done..|]. apply Forall_forall. intros f _.
    apply not_elem_of_empty.
Qed.

(** A request passes validation exactly when its id is not blank, it offers at
    least one file, no file has a blank id or name, and file ids are distinct. *)
Theorem validate_transfer_request_correct request :
  validate_transfer_request request = Ok tt ↔
  is_blank (rt_transfer_id request) = false ∧ rt_files request ≠ [] ∧
  Forall (λ f, is_blank (fo_file_id f) = false ∧ is_blank (fo_file_name f) = false) (rt_files request) ∧
  NoDup (fo_file_id <$> rt_files request).
Proof. apply validate_transfer_request_Ok. Qed.

(** Negotiation keeps the local order, accepts only known extensions both
    sides offered, and both sides agree on the accepted set. *)
Theorem negotiate_extensions_correct local remote :
  negotiate_extensions local remote `sublist_of` local ∧
  (∀ e, e ∈ negotiate_extensions local remote ↔ e ∈ local ∧ e ∈ remote ∧ is_known_extension e = true) ∧
  (∀ e, e ∈ negotiate_extensions local remote ↔ e ∈ negotiate_extensions remote local).
Proof.
  unfold negotiate_extensions. split; [apply sublist_filter|].
  setoid_rewrite list_elem_of_filter. naive_solver.
Qed.
