(* ===== verification/Framing.v ===== *)
(** * Control message framing

    Model of crates/protocol-native-v1/src/framing.rs: one type byte and a
    JSON payload behind a 4-byte big-endian length.  The JSON encoding of a
    message struct (serde_json, derived [Serialize]/[Deserialize]) is a
    parameter, the class [Json]; what the framing relies on is [JsonRoundtrip]. *)

From stdpp Require Import prelude strings.
From Stdlib Require Import ZArith Lia.
From S2P Require Import Prelude RustStr Errors Dto.

Local Open Scope Z_scope.

(** [serde_json::to_vec] and [serde_json::from_slice] at a type. *)
Class Json (A : Type) := {
  to_vec : A → result NativeError bytes;
  from_slice : bytes → result NativeError A
}.

(** Deserializing what was serialized gives the value back. *)
Class JsonRoundtrip (A : Type) `{Json A} :=
  json_roundtrip : ∀ a bs, to_vec a = Ok bs → from_slice bs = Ok a.

Definition MAX_CONTROL_FRAME_BYTES : Z := 1024 * 1024.

Definition TYPE_HELLO : Z := 1.
Definition TYPE_HELLO_ACK : Z := 2.
Definition TYPE_REQUEST_TRANSFER : Z := 3.
Definition TYPE_ACCEPT : Z := 4.
Definition TYPE_CHUNK_ACK : Z := 5.
Definition TYPE_CANCEL : Z := 6.
Definition TYPE_DONE : Z := 7.
Definition TYPE_RESUME_REQUEST : Z := 8.

Inductive ControlMessage :=
| CHello (m : Hello)
| CHelloAck (m : HelloAck)
| CRequestTransfer (m : RequestTransfer)
| CAccept (m : AcceptTransfer)
| CChunkAck (m : ChunkAck)
| CCancel (m : CancelTransfer)
| CDone (m : DoneTransfer)
| CResumeRequest (m : ResumeRequest).

#[export] Instance ControlMessage_eq_dec : EqDecision ControlMessage.
Proof. solve_decision. Defined.

Definition message_type (message : ControlMessage) : Z :=
  match message with
  | CHello _ => TYPE_HELLO
  | CHelloAck _ => TYPE_HELLO_ACK
  | CRequestTransfer _ => TYPE_REQUEST_TRANSFER
  | CAccept _ => TYPE_ACCEPT
  | CChunkAck _ => TYPE_CHUNK_ACK
  | CCancel _ => TYPE_CANCEL
  | CDone _ => TYPE_DONE
  | CResumeRequest _ => TYPE_RESUME_REQUEST
  end.

Section framing.
Context `{!Json Hello, !Json HelloAck, !Json RequestTransfer, !Json AcceptTransfer,
          !Json ChunkAck, !Json CancelTransfer, !Json DoneTransfer, !Json ResumeRequest}.

Definition message_payload (message : ControlMessage) : result NativeError bytes :=
  match message with
  | CHello m => to_vec m
  | CHelloAck m => to_vec m
  | CRequestTransfer m => to_vec m
  | CAccept m => to_vec m
  | CChunkAck m => to_vec m
  | CCancel m => to_vec m
  | CDone m => to_vec m
  | CResumeRequest m => to_vec m
  end.

Definition decode_frame (frame : bytes) : result NativeError ControlMessage :=
  match frame with
  | [] => Err (Protocol (str "empty control frame"))
  | ty :: payload =>
    if ty =? TYPE_HELLO then CHello <$> from_slice payload
    else if ty =? TYPE_HELLO_ACK then CHelloAck <$> from_slice payload
    else if ty =? TYPE_REQUEST_TRANSFER then CRequestTransfer <$> from_slice payload
    else if ty =? TYPE_ACCEPT then CAccept <$> from_slice payload
    else if ty =? TYPE_CHUNK_ACK then CChunkAck <$> from_slice payload
    else if ty =? TYPE_CANCEL then CCancel <$> from_slice payload
    else if ty =? TYPE_DONE then CDone <$> from_slice payload
    else if ty =? TYPE_RESUME_REQUEST then CResumeRequest <$> from_slice payload
    else Err (Protocol (str "unknown control message type " ++ show_dec ty))
  end.

(** The bytes [write_control] puts on the writer. *)
Definition write_control (message : ControlMessage) : result NativeError bytes :=
  payload ← message_payload message;
  let frame := message_type message :: payload in
  _ ← ensure (zlen frame <=? MAX_CONTROL_FRAME_BYTES) (Protocol (str "control frame too large"));
  Ok (to_be_bytes 4 (zlen frame) ++ frame).

(** Reads one frame off the stream; also returns the rest of the stream. *)
Definition read_control (reader : bytes) : result NativeError (ControlMessage * bytes) :=
  '(length, reader) ← read_exact (Io UnexpectedEof) 4 reader;
  let length := from_be_bytes length in
  _ ← ensure (negb (length =? 0)) (Protocol (str "empty control frame"));
  _ ← ensure (length <=? MAX_CONTROL_FRAME_BYTES) (Protocol (str "control frame too large"));
  '(frame, reader) ← read_exact (Io UnexpectedEof) length reader;
  message ← decode_frame frame;
  Ok (message, reader).

(** Reads a given number of messages, one after the other. *)
Fixpoint read_controls (n : nat) (reader : bytes) :
    result NativeError (list ControlMessage * bytes) :=
  match n with
  | O => Ok ([], reader)
  | S n =>
    '(m, reader) ← read_control reader;
    '(ms, reader) ← read_controls n reader;
    Ok (m :: ms, reader)
  end.

(** The bytes of several messages written one after the other. *)
Fixpoint write_controls (messages : list ControlMessage) : result NativeError bytes :=
  match messages with
  | [] => Ok []
  | m :: ms => b ← write_control m; bs ← write_controls ms; Ok (b ++ bs)
  end.

(** ** Correctness *)

Context `{!JsonRoundtrip Hello, !JsonRoundtrip HelloAck, !JsonRoundtrip RequestTransfer,
          !JsonRoundtrip AcceptTransfer, !JsonRoundtrip ChunkAck, !JsonRoundtrip CancelTransfer,
          !JsonRoundtrip DoneTransfer, !JsonRoundtrip ResumeRequest}.

Lemma decode_message message payload :
  message_payload message = Ok payload →
  decode_frame (message_type message :: payload) = Ok message.
Proof.
  destruct message; simpl; intros H; by rewrite (json_roundtrip _ _ H).
Qed.

Lemma read_write_control message bs rest :
  write_control message = Ok bs → read_control (bs ++ rest) = Ok (message, rest).
Proof.
  unfold write_control. intros Hw. inv_ok. bools. subst bs.
  remember (message_type message :: x) as frame eqn:Hframe.
  assert (0 < zlen frame) by (subst; rewrite zlen_cons; pose proof (zlen_nonneg x); lia).
  unfold read_control, MAX_CONTROL_FRAME_BYTES in *.
  rewrite <-app_assoc, read_exact_app by (unfold zlen; by rewrite length_to_be_bytes). simpl.
  rewrite from_to_be by (simpl; lia).
  destruct (Z.eqb_spec (zlen frame) 0); [lia|].
  destruct (Z.leb_spec (zlen frame) (1024 * 1024)); [|lia]. simpl.
  rewrite read_exact_app by done. simpl. subst frame. by rewrite decode_message.
Qed.

(** C33: Frames written one after the other are read back one after the other,
    whatever follows them on the stream. *)
Theorem control_stream_roundtrip messages bs rest :
  write_controls messages = Ok bs →
  read_controls (length messages) (bs ++ rest) = Ok (messages, rest).
Proof.
  revert bs. induction messages as [|m ms IH]; intros bs; simpl; [by intros [= <-]|].
  intros H. inv_ok. subst bs.
  rewrite <-app_assoc, (read_write_control m) by done. simpl. by rewrite (IH _ H1).
Qed.

(** The reader refuses a frame whose declared length is zero or above the
    limit from the four length bytes alone, whatever follows. *)
Theorem read_control_rejects_length n rest :
  u32_ok n → n = 0 ∨ MAX_CONTROL_FRAME_BYTES < n →
  ∃ m, read_control (to_be_bytes 4 n ++ rest) = Err (Protocol m).
Proof.
  unfold u32_ok, MAX_CONTROL_FRAME_BYTES. intros Hn Hbad. unfold read_control.
  rewrite read_exact_app by (unfold zlen; by rewrite length_to_be_bytes). simpl.
  rewrite from_to_be by (simpl; lia).
  destruct (Z.eqb_spec n 0); simpl; [eauto|].
  unfold MAX_CONTROL_FRAME_BYTES. destruct (Z.leb_spec n (1024 * 1024)); simpl; [lia|eauto].
Qed.
End framing.
