(* ===== verification/Manifest.v ===== *)
(** * Transfer manifest store

    Model of crates/protocol-native-v1/src/manifest.rs over the schema of
    manifest_schema.sql.  Each SQLite table is a finite map from its primary
    key to the rest of the row; integers are stored as [i64] and read back
    with [as u64], as in the source.  An operation that returns an error
    leaves the store as it was (a failed statement changes nothing and
    [create_transfer] runs in a transaction), so operations return a [result]
    of the new store.  [now] is the value of [now_unix()].
    How the database is opened is in Databases.v. *)

From stdpp Require Import prelude gmap strings sorting.
From Stdlib Require Import ZArith Lia.
From S2P Require Import Prelude RustStr Errors Ranges Chunk Dto.

Local Open Scope Z_scope.

Inductive TransferDirection := Send | Receive.
Inductive TransferState := Pending | Active | Interrupted | Completed | Cancelled | Failed.

#[export] Instance TransferDirection_eq_dec : EqDecision TransferDirection.
Proof. solve_decision. Defined.
#[export] Instance TransferState_eq_dec : EqDecision TransferState.
Proof. solve_decision. Defined.

Definition direction_as_str (d : TransferDirection) : rstring :=
  match d with Send => str "send" | Receive => str "receive" end.

Definition state_as_str (s : TransferState) : rstring :=
  match s with
  | Pending => str "pending"
  | Active => str "active"
  | Interrupted => str "interrupted"
  | Completed => str "completed"
  | Cancelled => str "cancelled"
  | Failed => str "failed"
  end.

Definition state_from_str (value : rstring) : result NativeError TransferState :=
  if bool_decide (value = str "pending") then Ok Pending
  else if bool_decide (value = str "active") then Ok Active
  else if bool_decide (value = str "interrupted") then Ok Interrupted
  else if bool_decide (value = str "completed") then Ok Completed
  else if bool_decide (value = str "cancelled") then Ok Cancelled
  else if bool_decide (value = str "failed") then Ok Failed
  else Err (Manifest (str "unknown transfer state " ++ [34] ++ value ++ [34])).

Abbreviation ResumeRange := ChunkRange.

Record ManifestFile := mkManifestFile {
  mf_file_id : rstring; mf_file_name : rstring; mf_size : Z; mf_blake3 : option rstring }.

(** The rows of the three tables, without their primary keys. *)
Record transfer_row := mkTransferRow {
  tr_peer_fingerprint : rstring; tr_direction : rstring; tr_state : rstring;
  tr_created_at : Z; tr_updated_at : Z }.
Record file_row := mkFileRow { fr_file_name : rstring; fr_size : Z; fr_blake3 : option rstring }.
Record chunk_row := mkChunkRow { kr_length : Z; kr_blake3 : rstring }.

Record ManifestStore := mkStore {
  transfers : gmap rstring transfer_row;
  transfer_files : gmap (rstring * rstring) file_row;
  verified_chunks : gmap (rstring * rstring * Z) chunk_row }.

(** A freshly opened database. *)
Definition empty_store : ManifestStore := mkStore ∅ ∅ ∅.

(** ** Range arithmetic of the store (wrapping [u64] additions) *)
Definition manifest_merge_step (merged : list ResumeRange) (r : ResumeRange) : list ResumeRange :=
  if len r =? 0 then merged
  else
    match last merged with
    | None => merged ++ [r]
    | Some l =>
      let last_end := add_u64 (offset l) (len l) in
      let r_end := add_u64 (offset r) (len r) in
      if offset r <=? last_end
      then set_last merged (mkRange (offset l) (sub_u64 (Z.max r_end last_end) (offset l)))
      else merged ++ [r]
    end.

Definition manifest_merge_ranges (ranges : list ResumeRange) : list ResumeRange :=
  foldl manifest_merge_step [] (sort_by_offset ranges).

Definition manifest_range_fully_covered (r : ResumeRange) (verified : list ResumeRange) : bool :=
  let r_end := add_u64 (offset r) (len r) in
  existsb (λ v, (offset v <=? offset r) && (r_end <=? add_u64 (offset v) (len v))) verified.

Definition ranges_cover (size : Z) (ranges : list ResumeRange) : bool :=
  if size =? 0 then true
  else bool_decide (manifest_merge_ranges ranges = [mkRange 0 size]).

(** The [while offset < file_size] loop of [missing_ranges_for]. *)
Fixpoint missing_loop (fuel : nat) (file_size chunk_size : Z) (verified : list ResumeRange)
    (off : Z) : list ResumeRange :=
  match fuel with
  | O => []
  | S fuel =>
    if off <? file_size then
      let length := Z.min chunk_size (sub_u64 file_size off) in
      let chunk := mkRange off length in
      let rest := missing_loop fuel file_size chunk_size verified (add_u64 off length) in
      if manifest_range_fully_covered chunk verified then rest else chunk :: rest
    else []
  end.

Definition missing_ranges_for (file_size chunk_size : Z) (verified : list ResumeRange) :
    list ResumeRange :=
  missing_loop (plan_fuel file_size chunk_size) file_size chunk_size
    (manifest_merge_ranges verified) 0.

(** ** Queries *)

(** [SELECT size FROM transfer_files WHERE transfer_id = ? AND file_id = ?] *)
Definition file_size_locked (s : ManifestStore) (transfer_id file_id : rstring) :
    result NativeError Z :=
  row ← ok_or (transfer_files s !! (transfer_id, file_id)) (Manifest (str "unknown transfer file"));
  Ok (as_u64 (fr_size row)).

(** [SELECT offset, length FROM verified_chunks WHERE ...]: [i64] columns. *)
Definition chunk_columns (s : ManifestStore) (transfer_id file_id : rstring) : list (Z * Z) :=
  omap (λ '(k, row), if bool_decide (k.1 = (transfer_id, file_id))
                     then Some (k.2, kr_length row) else None)
       (map_to_list (verified_chunks s)).

Definition verified_ranges_locked (s : ManifestStore) (transfer_id file_id : rstring) :
    list ResumeRange :=
  let rows := stable_sort (λ a b, a.1 <=? b.1) (chunk_columns s transfer_id file_id) in
  manifest_merge_ranges ((λ '(o, l), mkRange (as_u64 o) (as_u64 l)) <$> rows).

(** [SELECT ... FROM transfer_files WHERE transfer_id = ?] *)
Definition file_columns (s : ManifestStore) (transfer_id : rstring) : list (rstring * file_row) :=
  omap (λ '(k, row), if bool_decide (k.1 = transfer_id) then Some (k.2, row) else None)
       (map_to_list (transfer_files s)).

Definition missing_ranges (s : ManifestStore) (transfer_id file_id : rstring) (chunk_size : Z) :
    result NativeError (list ResumeRange) :=
  _ ← ensure (negb (chunk_size =? 0)) (Manifest (str "chunk size must be greater than zero"));
  file_size ← file_size_locked s transfer_id file_id;
  Ok (missing_ranges_for file_size chunk_size (verified_ranges_locked s transfer_id file_id)).

Definition transfer_complete (s : ManifestStore) (transfer_id : rstring) : bool :=
  let rows := file_columns s transfer_id in
  forallb (λ '(file_id, row), ranges_cover (as_u64 (fr_size row))
                                (verified_ranges_locked s transfer_id file_id)) rows
  && negb (bool_decide (rows = [])).

Definition state (s : ManifestStore) (transfer_id : rstring) :
    result NativeError (option TransferState) :=
  match transfers s !! transfer_id with
  | None => Ok None
  | Some row => Some <$> state_from_str (tr_state row)
  end.

(** Files of a transfer, [ORDER BY file_id ASC]. *)
Definition files (s : ManifestStore) (transfer_id : rstring) : list ManifestFile :=
  (λ '(file_id, row), mkManifestFile file_id (fr_file_name row) (as_u64 (fr_size row)) (fr_blake3 row))
    <$> stable_sort (λ a b, lex_leb a.1 b.1) (file_columns s transfer_id).

(** ** Updates *)

(** One [INSERT INTO transfer_files]. *)
Definition insert_file (transfer_id : rstring) (s : ManifestStore) (file : FileOffer) :
    result NativeError ManifestStore :=
  _ ← ensure (bool_decide (transfer_files s !! (transfer_id, fo_file_id file) = None))
        (Manifest (str "UNIQUE constraint failed: transfer_files.transfer_id, transfer_files.file_id"));
  Ok (mkStore (transfers s)
        (<[(transfer_id, fo_file_id file) :=
             mkFileRow (fo_file_name file) (as_i64 (fo_size file)) (fo_blake3 file)]> (transfer_files s))
        (verified_chunks s)).

Definition create_transfer (s : ManifestStore) (now : Z) (transfer_id peer_fingerprint : rstring)
    (direction : TransferDirection) (offers : list FileOffer) : result NativeError ManifestStore :=
  _ ← ensure (negb (is_blank transfer_id)) (Manifest (str "transfer id is required"));
  _ ← ensure (negb (is_blank peer_fingerprint)) (Manifest (str "peer fingerprint is required"));
  _ ← ensure (negb (bool_decide (offers = []))) (Manifest (str "at least one file is required"));
  _ ← ensure (bool_decide (transfers s !! transfer_id = None))
        (Manifest (str "UNIQUE constraint failed: transfers.transfer_id"));
  let s := mkStore (<[transfer_id := mkTransferRow peer_fingerprint (direction_as_str direction)
                                      (state_as_str Pending) now now]> (transfers s))
             (transfer_files s) (verified_chunks s) in
  for_each (insert_file transfer_id) s offers.

Definition record_verified_chunk (s : ManifestStore) (now : Z) (transfer_id file_id : rstring)
    (off length : Z) (blake3 : rstring) : result NativeError ManifestStore :=
  _ ← ensure (negb (length =? 0)) (Manifest (str "chunk length must be greater than zero"));
  file_size ← file_size_locked s transfer_id file_id;
  e ← ok_or (checked_add_u64 off length) (Manifest (str "chunk overflow"));
  _ ← ensure (e <=? file_size) (Manifest (str "chunk extends past file size"));
  Ok (mkStore
        (alter (λ row, mkTransferRow (tr_peer_fingerprint row) (tr_direction row) (tr_state row)
                         (tr_created_at row) now) transfer_id (transfers s))
        (transfer_files s)
        (<[(transfer_id, file_id, as_i64 off) := mkChunkRow (as_i64 length) blake3]>
           (verified_chunks s))).

Definition set_state (s : ManifestStore) (now : Z) (transfer_id : rstring) (st : TransferState) :
    result NativeError ManifestStore :=
  _ ← ensure (negb (bool_decide (st = Completed) && negb (transfer_complete s transfer_id)))
        (Manifest (str "cannot complete transfer with missing bytes"));
  match transfers s !! transfer_id with
  | None => Err (Manifest (str "unknown transfer"))
  | Some row =>
    Ok (mkStore
          (<[transfer_id := mkTransferRow (tr_peer_fingerprint row) (tr_direction row)
                              (state_as_str st) (tr_created_at row) now]> (transfers s))
          (transfer_files s) (verified_chunks s))
  end.

(** ** Range arithmetic: the store agrees with the chunk planner *)

Lemma state_str_roundtrip st : state_from_str (state_as_str st) = Ok st.
Proof. by destruct st. Qed.

Lemma manifest_merge_step_pure n m r :
  n < 2 ^ 64 → Forall (valid_range n) m → valid_range n r →
  manifest_merge_step m r = merge_into m r.
Proof.
  intros Hn Hm Hr. unfold manifest_merge_step, merge_into.
  destruct (Z.eqb_spec (len r) 0); [unfold valid_range in Hr; lia|].
  destruct (last m) as [l|] eqn:Hl; [|done].
  apply last_Some_elem_of in Hl. rewrite Forall_forall in Hm. specialize (Hm _ Hl).
  unfold valid_range, grow, rend in *. rewrite !add_u64_small by lia.
  destruct (offset r <=? offset l + len l); [|done]. by rewrite sub_u64_small by lia.
Qed.

Lemma manifest_merge_pure n rs :
  n < 2 ^ 64 → Forall (valid_range n) rs → manifest_merge_ranges rs = merge_all rs.
Proof.
  intros Hn Hv. apply (Ok_inj (E := unit)). unfold manifest_merge_ranges.
  rewrite <-for_each_Ok. apply (merge_sorted_loop _ n); [|done].
  intros. by rewrite (manifest_merge_step_pure n).
Qed.

Lemma manifest_covered_chunk n r m :
  n < 2 ^ 64 → Forall (valid_range n) m → 0 ≤ rend r < 2 ^ 64 →
  manifest_range_fully_covered r m = range_fully_covered r m.
Proof.
  intros Hn Hm Hr. unfold manifest_range_fully_covered, range_fully_covered.
  rewrite range_end_small, add_u64_small by (unfold rend in *; lia).
  induction Hm as [|v m Hv Hm IH]; simpl; [done|]. rewrite IH. f_equal.
  unfold valid_range in Hv.
  rewrite range_end_small, add_u64_small by (unfold rend in *; lia). done.
Qed.

(** The store's loop is the planner's loop with the covered chunks left out. *)
Lemma missing_loop_filter fuel size chunk n m off :
  0 ≤ off ≤ size → size < 2 ^ 64 → n < 2 ^ 64 → 0 < chunk → Forall (valid_range n) m →
  missing_loop fuel size chunk m off =
  filter (λ c, range_fully_covered c m = false) (plan_loop fuel size chunk off).
Proof.
  intros Hoff Hsize Hn Hchunk Hm. revert off Hoff. induction fuel as [|fuel IH]; intros off Hoff; simpl; [done|].
  destruct (Z.ltb_spec off size); [|done].
  rewrite sub_u64_small, add_u64_small by lia. rewrite IH by lia.
  rewrite (manifest_covered_chunk n) by (done || (unfold rend; simpl; lia)).
  rewrite filter_cons. by destruct (range_fully_covered _ _).
Qed.

Lemma missing_ranges_for_eq n size chunk rs :
  u64_ok size → n < 2 ^ 64 → 0 < chunk → Forall (valid_range n) rs →
  missing_ranges_for size chunk rs =
  filter (λ c, range_fully_covered c (merge_all rs) = false)
    (plan_loop (plan_fuel size chunk) size chunk 0).
Proof.
  intros [??] ? ? Hv. unfold missing_ranges_for. rewrite (manifest_merge_pure n) by done.
  apply (missing_loop_filter _ _ _ n); [lia..|]. by apply merge_all_spec.
Qed.

(** ** Invariant *)

(** What the database holds at all times: states and directions are texts of
    the enums, file rows belong to a transfer and carry a [u64] size, and every
    verified chunk is a nonempty range inside its file. *)
Record store_wf (s : ManifestStore) : Prop := {
  wf_transfers t row : transfers s !! t = Some row →
    (∃ st, tr_state row = state_as_str st) ∧ (∃ d, tr_direction row = direction_as_str d);
  wf_files t f row : transfer_files s !! (t, f) = Some row →
    is_Some (transfers s !! t) ∧ ∃ n, u64_ok n ∧ fr_size row = as_i64 n;
  wf_chunks t f o row : verified_chunks s !! (t, f, o) = Some row →
    ∃ frow off n, transfer_files s !! (t, f) = Some frow ∧
      o = as_i64 off ∧ kr_length row = as_i64 n ∧ u64_ok off ∧ u64_ok n ∧
      valid_range (as_u64 (fr_size frow)) (mkRange off n)
}.

(** Byte [b] of a file is verified: some stored chunk covers it. *)
Definition verified (s : ManifestStore) (t f : rstring) (b : Z) : Prop :=
  ∃ o row, verified_chunks s !! (t, f, o) = Some row ∧
    covers (mkRange (as_u64 o) (as_u64 (kr_length row))) b.

Lemma empty_store_wf : store_wf empty_store.
Proof. split; intros *; unfold empty_store; simpl; by rewrite lookup_empty. Qed.

Lemma insert_file_wf t s f s' :
  store_wf s → u64_ok (fo_size f) → is_Some (transfers s !! t) →
  insert_file t s f = Ok s' →
  store_wf s' ∧ transfers s' = transfers s ∧ verified_chunks s' = verified_chunks s ∧
  transfer_files s !! (t, fo_file_id f) = None ∧
  transfer_files s' =
    <[(t, fo_file_id f) := mkFileRow (fo_file_name f) (as_i64 (fo_size f)) (fo_blake3 f)]>
      (transfer_files s).
Proof.
  intros [Ht Hf Hc] Hsize Hsome H. unfold insert_file in H. inv_ok. bools. subst s'. simpl.
  split_and!; [|done..]. split; simpl.
  - apply Ht.
  - intros t' f' row. rewrite lookup_insert. case_decide as Heq; [|apply Hf].
    simplify_eq. intros [= <-]. simpl. eauto.
  - intros t' f' o row Hl. destruct (Hc _ _ _ _ Hl) as (frow & off & n & Hfr & Hrest).
    exists frow, off, n. split; [|done]. rewrite lookup_insert_ne; [done|]. congruence.
Qed.

Lemma create_transfer_wf s now t fp d offers s' :
  store_wf s → Forall (λ f, u64_ok (fo_size f)) offers →
  create_transfer s now t fp d offers = Ok s' → store_wf s'.
Proof.
  intros Hwf Hsizes H. unfold create_transfer in H. inv_ok. bools.
  eapply (for_each_inv (λ s, store_wf s ∧ is_Some (transfers s !! t))); [| |exact H].
  - intros s1 f s2 [Hs1 Hsome] Hin Hstep. rewrite Forall_forall in Hsizes.
    destruct (insert_file_wf t s1 f s2) as (? & Heq & _); [auto..|]. by rewrite Heq.
  - split; [|simpl; by rewrite lookup_insert_eq]. destruct Hwf as [Ht Hf Hc]. split; simpl.
    + intros t' row. rewrite lookup_insert. case_decide; [|apply Ht].
      intros [= <-]. split; [by exists Pending|by exists d].
    + intros t' f row Hl. destruct (Hf _ _ _ Hl) as [Hs' ?]. split; [|done].
      rewrite lookup_insert. by case_decide.
    + apply Hc.
Qed.

Definition offer_row (f : FileOffer) : file_row :=
  mkFileRow (fo_file_name f) (as_i64 (fo_size f)) (fo_blake3 f).

Lemma insert_files_succeeds t offers s :
  NoDup (fo_file_id <$> offers) → (∀ f, f ∈ offers → transfer_files s !! (t, fo_file_id f) = None) →
  ∃ s', for_each (insert_file t) s offers = Ok s' ∧ transfers s' = transfers s ∧
    verified_chunks s' = verified_chunks s ∧
    (∀ f, f ∈ offers → transfer_files s' !! (t, fo_file_id f) = Some (offer_row f)) ∧
    ∀ k, k ∉ (λ f, (t, fo_file_id f)) <$> offers → transfer_files s' !! k = transfer_files s !! k.
Proof.
  revert s. induction offers as [|f offers IH]; intros s Hnd Hfree.
  { exists s. split_and!; try done. intros f ?%elem_of_nil. done. }
  apply NoDup_cons in Hnd as [Hf Hnd]. cbn [for_each].
  assert (insert_file t s f = Ok (mkStore (transfers s)
    (<[(t, fo_file_id f) := offer_row f]> (transfer_files s)) (verified_chunks s))) as ->.
  { unfold insert_file. by rewrite bool_decide_true by (apply Hfree; left). }
  cbn [mbind result_bind].
  edestruct IH as (s' & -> & Ht & Hv & Hin & Hout); [done| |].
  { intros g Hg. cbn [transfer_files]. rewrite lookup_insert_ne; [apply Hfree; by right|].
    intros [= Heq]. apply Hf. rewrite Heq. by apply list_elem_of_fmap_2. }
  exists s'. split_and!; [done..| |].
  - intros g [->|Hg]%elem_of_cons; [|by apply Hin].
    rewrite Hout; [cbn [transfer_files]; by rewrite lookup_insert_eq|].
    intros (g' & [= Heq] & Hg')%list_elem_of_fmap. apply Hf. rewrite Heq. by apply list_elem_of_fmap_2.
  - intros k. rewrite fmap_cons, not_elem_of_cons. intros [Hk ?]. rewrite Hout by done.
    cbn [transfer_files]. by rewrite lookup_insert_ne by congruence.
Qed.

(** A transfer with a new id and distinct file ids is created with exactly the
    offered files and nothing verified. *)
Lemma create_transfer_succeeds s now t fp d offers :
  store_wf s → transfers s !! t = None → is_blank t = false → is_blank fp = false → offers ≠ [] →
  NoDup (fo_file_id <$> offers) →
  ∃ s' row, create_transfer s now t fp d offers = Ok s' ∧ transfers s' = <[t := row]> (transfers s) ∧
    verified_chunks s' = verified_chunks s ∧
    (∀ f, f ∈ offers → transfer_files s' !! (t, fo_file_id f) = Some (offer_row f)) ∧
    ∀ f row, transfer_files s' !! (t, f) = Some row → f ∈ fo_file_id <$> offers.
Proof.
  intros Hwf Hnew Ht Hfp Hne Hnd. unfold create_transfer. rewrite Ht, Hfp.
  rewrite (bool_decide_false (offers = [])), bool_decide_true by done. cbn [negb ensure mbind result_bind].
  assert (Hfree : ∀ f, transfer_files s !! (t, f) = None).
  { intros f. destruct (transfer_files s !! (t, f)) as [row|] eqn:Hrow; [|done].
    destruct (wf_files _ Hwf _ _ _ Hrow) as [[? ?] _]. congruence. }
  edestruct (insert_files_succeeds t offers) as (s' & -> & Htr & Hv & Hin & Hout); [done| |].
  { intros. apply Hfree. }
  exists s'. eexists. split_and!; [done..|]. intros f row Hrow.
  destruct (decide (f ∈ fo_file_id <$> offers)) as [|Hni]; [done|]. exfalso.
  rewrite Hout in Hrow; [cbn [transfer_files] in Hrow; by rewrite Hfree in Hrow|].
  intros (g & [= ->] & Hg)%list_elem_of_fmap. apply Hni. by apply list_elem_of_fmap_2.
Qed.

Lemma file_size_locked_Ok s t f n :
  file_size_locked s t f = Ok n ↔ ∃ row, transfer_files s !! (t, f) = Some row ∧ n = as_u64 (fr_size row).
Proof.
  unfold file_size_locked. destruct (transfer_files s !! (t, f)) as [row|]; simpl; naive_solver.
Qed.

Lemma record_verified_chunk_Ok s now t f off n h s' :
  record_verified_chunk s now t f off n h = Ok s' →
  ∃ frow, transfer_files s !! (t, f) = Some frow ∧ n ≠ 0 ∧ off + n ≤ as_u64 (fr_size frow) ∧
    off + n < 2 ^ 64 ∧ transfer_files s' = transfer_files s ∧
    verified_chunks s' = <[(t, f, as_i64 off) := mkChunkRow (as_i64 n) h]> (verified_chunks s) ∧
    ∀ t', tr_state <$> transfers s' !! t' = tr_state <$> transfers s !! t'.
Proof.
  intros H. unfold record_verified_chunk in H. inv_ok. bools.
  apply file_size_locked_Ok in H1 as (frow & Hrow & ->). apply checked_add_u64_Some in H2 as [-> ?].
  subst s'. exists frow. split_and!; [done..|]. intros t'. simpl.
  rewrite lookup_alter. case_decide as Heq; [subst|done]. by destruct (transfers s !! t').
Qed.

Lemma record_verified_chunk_wf s now t f off n h s' :
  store_wf s → u64_ok off → u64_ok n →
  record_verified_chunk s now t f off n h = Ok s' → store_wf s'.
Proof.
  intros [Ht Hf Hc] [??] [??] Hrec. pose proof Hrec as Hrec'.
  apply record_verified_chunk_Ok in Hrec' as (frow & Hrow & ? & ? & ? & Hfs & Hcs & _).
  unfold record_verified_chunk in Hrec. inv_ok. subst s'. split; simpl in *.
  - intros t' row. rewrite lookup_alter. case_decide; [|apply Ht].
    intros (row' & Hl & ->)%fmap_Some. simpl. by eapply Ht.
  - intros t' f' row Hl. destruct (Hf _ _ _ Hl) as [? ?]. split; [|done].
    rewrite lookup_alter. case_decide; [apply fmap_is_Some|]; by simplify_eq.
  - intros t' f' o row. rewrite lookup_insert. case_decide as Heq; [|apply Hc].
    simplify_eq. intros [= <-]. simpl. exists frow, off, n.
    unfold u64_ok, valid_range, rend. simpl. split_and!; done || lia.
Qed.

Lemma set_state_Ok s now t st s' :
  set_state s now t st = Ok s' ↔
  (st = Completed → transfer_complete s t = true) ∧
  ∃ row, transfers s !! t = Some row ∧
    s' = mkStore (<[t := mkTransferRow (tr_peer_fingerprint row) (tr_direction row)
                           (state_as_str st) (tr_created_at row) now]> (transfers s))
           (transfer_files s) (verified_chunks s).
Proof.
  unfold set_state. split.
  - intros H. inv_ok. bools. apply andb_false_iff in H0. split.
    + intros ->. destruct H0; bools; [done|done].
    + destruct (transfers s !! t) as [row|]; [|done]. inv_ok. eauto.
  - intros [Hc (row & Hrow & ->)].
    assert (bool_decide (st = Completed) && negb (transfer_complete s t) = false) as ->.
    { case_bool_decide; [by rewrite Hc|done]. }
    simpl. by rewrite Hrow.
Qed.

Lemma set_state_wf s now t st s' : store_wf s → set_state s now t st = Ok s' → store_wf s'.
Proof.
  intros [Ht Hf Hc] (_ & row & Hrow & ->)%set_state_Ok. split; simpl.
  - intros t' row'. rewrite lookup_insert. case_decide; [|apply Ht].
    intros [= <-]. simpl. split; [eauto|]. by eapply Ht.
  - intros t' f row' Hl. destruct (Hf _ _ _ Hl) as [? ?]. split; [|done].
    rewrite lookup_insert. by case_decide.
  - apply Hc.
Qed.

(** One operation on the database. *)
Inductive manifest_step : ManifestStore → ManifestStore → Prop :=
| StepCreate s now t fp d offers s' :
    Forall (λ f, u64_ok (fo_size f)) offers →
    create_transfer s now t fp d offers = Ok s' → manifest_step s s'
| StepRecord s now t f off n h s' :
    u64_ok off → u64_ok n →
    record_verified_chunk s now t f off n h = Ok s' → manifest_step s s'
| StepState s now t st s' : set_state s now t st = Ok s' → manifest_step s s'.

(** C30: Every database the operations can produce is well formed. *)
Theorem manifest_reachable_wf s : rtc manifest_step empty_store s → store_wf s.
Proof.
  apply (rtc_ind_r store_wf); [apply empty_store_wf|].
  intros s1 s2 _ Hstep Hwf. destruct Hstep;
    eauto using create_transfer_wf, record_verified_chunk_wf, set_state_wf.
Qed.

(** ** Coverage *)

(** The rows of a file as ranges, before they are merged. *)
Definition raw_ranges (s : ManifestStore) (t f : rstring) : list ResumeRange :=
  (λ '(o, l), mkRange (as_u64 o) (as_u64 l)) <$>
    stable_sort (λ a b, a.1 <=? b.1) (chunk_columns s t f).

Lemma elem_of_chunk_columns s t f o l :
  (o, l) ∈ chunk_columns s t f ↔ ∃ row, verified_chunks s !! (t, f, o) = Some row ∧ l = kr_length row.
Proof.
  unfold chunk_columns. rewrite list_elem_of_omap. split.
  - intros ([[k o'] row] & Hin & Heq). apply elem_of_map_to_list in Hin. simpl in Heq.
    case_bool_decide; simplify_eq. eauto.
  - intros (row & Hl & ->). exists ((t, f, o), row). rewrite elem_of_map_to_list. simpl.
    by rewrite bool_decide_true.
Qed.

Lemma raw_ranges_covered s t f b : covered (raw_ranges s t f) b ↔ verified s t f b.
Proof.
  unfold covered, raw_ranges, verified. setoid_rewrite list_elem_of_fmap.
  setoid_rewrite elem_of_stable_sort. split.
  - intros (r & ([o l] & -> & (row & Hrow & ->)%elem_of_chunk_columns) & Hb). eauto.
  - intros (o & row & Hrow & Hb). eexists. split; [|exact Hb].
    exists (o, kr_length row). split; [done|]. apply elem_of_chunk_columns. eauto.
Qed.

#[export] Instance verified_dec s t f b : Decision (verified s t f b).
Proof. refine (cast_if (decide (covered (raw_ranges s t f) b))); by rewrite <-raw_ranges_covered. Defined.

Lemma raw_ranges_valid s t f frow :
  store_wf s → transfer_files s !! (t, f) = Some frow →
  Forall (valid_range (as_u64 (fr_size frow))) (raw_ranges s t f).
Proof.
  intros Hwf Hf. apply Forall_forall. intros r. unfold raw_ranges.
  intros ([o l] & -> & Hin)%list_elem_of_fmap.
  apply elem_of_stable_sort, elem_of_chunk_columns in Hin as (row & Hrow & ->).
  destruct (wf_chunks _ Hwf _ _ _ _ Hrow) as (frow' & off & n & Hf' & -> & -> & ? & ? & Hv).
  rewrite !as_u64_as_i64 by done. by simplify_eq.
Qed.

Lemma file_row_u64 s t f frow :
  store_wf s → transfer_files s !! (t, f) = Some frow → u64_ok (as_u64 (fr_size frow)).
Proof.
  intros Hwf Hf. destruct (wf_files _ Hwf _ _ _ Hf) as [_ (n & Hn & ->)]. by rewrite as_u64_as_i64.
Qed.

(** The merged ranges of a file, in a well-formed store. *)
Lemma verified_ranges_spec s t f frow :
  store_wf s → transfer_files s !! (t, f) = Some frow →
  Forall (valid_range (as_u64 (fr_size frow))) (verified_ranges_locked s t f) ∧
  ∀ b, covered (verified_ranges_locked s t f) b ↔ verified s t f b.
Proof.
  intros Hwf Hf. destruct (file_row_u64 _ _ _ _ Hwf Hf) as [_ Hn].
  pose proof (raw_ranges_valid _ _ _ _ Hwf Hf) as Hv.
  change (verified_ranges_locked s t f) with (manifest_merge_ranges (raw_ranges s t f)).
  rewrite (manifest_merge_pure _ _ Hn Hv). destruct (merge_all_spec _ _ Hv) as (_ & ? & Hc).
  split; [done|]. intros b. by rewrite Hc, raw_ranges_covered.
Qed.

Lemma ranges_cover_spec size rs :
  u64_ok size → Forall (valid_range size) rs →
  ranges_cover size rs = true ↔ ∀ b, 0 ≤ b < size → covered rs b.
Proof.
  intros [??] Hv. unfold ranges_cover. destruct (Z.eqb_spec size 0) as [->|?]; [split; [lia|done]|].
  rewrite (manifest_merge_pure size), bool_decide_eq_true by done.
  destruct (merge_all_spec size rs Hv) as (? & ? & Hc).
  rewrite (separated_whole _ size) by (done || lia). by setoid_rewrite Hc.
Qed.

Lemma elem_of_file_columns s t f row :
  (f, row) ∈ file_columns s t ↔ transfer_files s !! (t, f) = Some row.
Proof.
  unfold file_columns. rewrite list_elem_of_omap. split.
  - intros ([[t' f'] row'] & Hin & Heq). apply elem_of_map_to_list in Hin. simpl in Heq.
    case_bool_decide; by simplify_eq.
  - intros Hl. exists ((t, f), row). rewrite elem_of_map_to_list. simpl. by rewrite bool_decide_true.
Qed.

Lemma file_columns_keys s t : NoDup (file_columns s t).*1.
Proof.
  unfold file_columns. pose proof (NoDup_fst_map_to_list (transfer_files s)) as Hnd.
  induction (map_to_list (transfer_files s)) as [|[[t' f] row] l IH]; [constructor|].
  apply NoDup_cons in Hnd as [Hn Hnd]. specialize (IH Hnd). cbn [omap list_omap fst snd].
  case_bool_decide as Ht; [|done]. cbn [fst snd fmap list_fmap]. apply NoDup_cons. split; [|done].
  intros ([f' row'] & Hf & Hin)%list_elem_of_fmap. cbn [fst] in Hf. subst f'.
  apply list_elem_of_omap in Hin as ([[t2 f2] row2] & Hin & Heq). cbn [fst snd] in Heq.
  case_bool_decide; simplify_eq. apply Hn. by apply (list_elem_of_fmap_2 fst) in Hin.
Qed.

Lemma elem_of_files s t mf :
  mf ∈ files s t ↔ ∃ row, transfer_files s !! (t, mf_file_id mf) = Some row ∧
    mf = mkManifestFile (mf_file_id mf) (fr_file_name row) (as_u64 (fr_size row)) (fr_blake3 row).
Proof.
  unfold files. rewrite list_elem_of_fmap. setoid_rewrite elem_of_stable_sort. split.
  - intros ([f row] & -> & Hin%elem_of_file_columns). by exists row.
  - intros (row & Hrow & ->). exists (mf_file_id mf, row). split; [done|]. by apply elem_of_file_columns.
Qed.

Lemma files_ids_distinct s t : NoDup (mf_file_id <$> files s t).
Proof.
  unfold files. rewrite <-list_fmap_compose, stable_sort_perm.
  replace (compose mf_file_id _ <$> file_columns s t) with ((file_columns s t).*1); [apply file_columns_keys|].
  apply list_fmap_ext. by intros ? [].
Qed.

Lemma transfer_complete_spec s t :
  store_wf s →
  transfer_complete s t = true ↔
  (∃ f row, transfer_files s !! (t, f) = Some row) ∧
  ∀ f row b, transfer_files s !! (t, f) = Some row → 0 ≤ b < as_u64 (fr_size row) → verified s t f b.
Proof.
  intros Hwf. unfold transfer_complete.
  rewrite andb_true_iff, negb_true_iff, bool_decide_eq_false, forallb_Forall, Forall_forall.
  split.
  - intros [Hall Hne]. split.
    + destruct (file_columns s t) as [|[f row] l] eqn:Hc; [done|]. exists f, row.
      apply elem_of_file_columns. rewrite Hc. left.
    + intros f row b Hrow Hb. destruct (verified_ranges_spec _ _ _ _ Hwf Hrow) as [Hv Hcov].
      apply Hcov. specialize (Hall (f, row) (proj2 (elem_of_file_columns _ _ _ _) Hrow)). simpl in Hall.
      rewrite ranges_cover_spec in Hall by eauto using file_row_u64. auto.
  - intros [(f & row & Hrow) Hall]. split.
    + intros [f' row'] Hin. apply elem_of_file_columns in Hin.
      destruct (verified_ranges_spec _ _ _ _ Hwf Hin) as [Hv Hcov].
      apply ranges_cover_spec; [by eapply file_row_u64|done|].
      intros b Hb. apply Hcov. by eapply Hall.
    + apply elem_of_file_columns in Hrow. intros Hn. rewrite Hn in Hrow. by apply elem_of_nil in Hrow.
Qed.

(** ** Correctness *)

(** C31: The store and the chunk planner agree on what is missing and on what is
    complete, for verified ranges inside the file. *)
Theorem manifest_agrees_with_planner size chunk rs :
  u64_ok size → u64_ok chunk → chunk ≠ 0 → Forall range_ok rs → Forall (valid_range size) rs →
  plan_missing_chunks size chunk rs = Ok (missing_ranges_for size chunk rs) ∧
  ranges_cover_file size rs = Ok (ranges_cover size rs).
Proof.
  intros Hs [??] Hne Hok Hv. pose proof Hs as [_ Hs64].
  unfold plan_missing_chunks, ranges_cover_file.
  rewrite (proj2 (validate_verified_ranges_Ok size rs tt Hok Hs64) Hv). simpl.
  rewrite (merge_ranges_pure size), plan_chunks_Ok by (done || lia). simpl.
  rewrite (missing_ranges_for_eq size) by (done || lia). split; [done|].
  unfold ranges_cover. rewrite (manifest_merge_pure size) by done. by destruct (size =? 0).
Qed.

Lemma missing_ranges_spec s t f frow chunk :
  store_wf s → transfer_files s !! (t, f) = Some frow → u64_ok chunk → chunk ≠ 0 →
  ∃ chunks missing, plan_chunks (as_u64 (fr_size frow)) chunk = Ok chunks ∧
    missing_ranges s t f chunk = Ok missing ∧ missing `sublist_of` chunks ∧
    ∀ c, c ∈ missing ↔ c ∈ chunks ∧ ∃ b, covers c b ∧ ¬ verified s t f b.
Proof.
  intros Hwf Hf [??] Hne. pose proof (file_row_u64 _ _ _ _ Hwf Hf) as Hsz. pose proof Hsz as [? ?].
  destruct (verified_ranges_spec _ _ _ _ Hwf Hf) as [Hv Hcov].
  assert (Htiles := plan_tiles _ chunk Hsz ltac:(lia)).
  do 2 eexists. split; [apply plan_chunks_Ok; lia|]. split.
  { unfold missing_ranges. destruct (Z.eqb_spec chunk 0); [done|]. simpl.
    rewrite (proj2 (file_size_locked_Ok s t f _)) by eauto. simpl.
    by rewrite (missing_ranges_for_eq (as_u64 (fr_size frow))) by (done || lia). }
  split; [apply sublist_filter|]. intros c.
  rewrite list_elem_of_filter, Logic.and_comm. apply and_iff_under. intros Hin.
  destruct (tiles_bounds _ _ _ _ Htiles Hin) as (? & ? & ?).
  rewrite <-not_true_iff_false, (fully_covered_bytes (as_u64 (fr_size frow))) by (done || lia).
  setoid_rewrite Hcov. split.
  - intros Hnot. setoid_rewrite <-Hcov. apply uncovered_byte. by setoid_rewrite Hcov.
  - intros (b & Hb & Hnb) Hall. auto.
Qed.

(** [missing_ranges] returns, in file order, exactly the chunk-aligned ranges
    that hold a byte no stored chunk verifies. *)
Theorem missing_ranges_correct s t f frow chunk :
  store_wf s → transfer_files s !! (t, f) = Some frow → u64_ok chunk → chunk ≠ 0 →
  ∃ chunks missing, plan_chunks (as_u64 (fr_size frow)) chunk = Ok chunks ∧
    missing_ranges s t f chunk = Ok missing ∧ missing `sublist_of` chunks ∧
    ∀ c, c ∈ missing ↔ c ∈ chunks ∧ ∃ b, covers c b ∧ ¬ verified s t f b.
Proof. apply missing_ranges_spec. Qed.

(** A transfer can be marked completed exactly when it exists, has a file, and
    every byte of every one of its files is verified. *)
Theorem set_state_completed_iff s now t :
  store_wf s →
  is_ok (set_state s now t Completed) = true ↔
  (∃ f row, transfer_files s !! (t, f) = Some row) ∧
  ∀ f row b, transfer_files s !! (t, f) = Some row → 0 ≤ b < as_u64 (fr_size row) → verified s t f b.
Proof.
  intros Hwf. rewrite <-transfer_complete_spec, is_ok_spec by done.
  setoid_rewrite set_state_Ok. split; [intros (? & ? & _); auto|].
  intros Hc. pose proof Hc as Hc'. apply transfer_complete_spec in Hc' as [(f & row & Hrow) _]; [|done].
  destruct (wf_files _ Hwf _ _ _ Hrow) as [[trow Htrow] _]. eauto.
Qed.

Lemma record_verified_chunk_verified s now t f off n h s' :
  store_wf s → u64_ok off → u64_ok n →
  record_verified_chunk s now t f off n h = Ok s' →
  ∀ t' f' b, verified s' t' f' b ↔
    ((t', f') = (t, f) ∧ off ≤ b < off + n) ∨
    ∃ o row, verified_chunks s !! (t', f', o) = Some row ∧
      ¬ ((t', f') = (t, f) ∧ as_u64 o = off) ∧
      covers (mkRange (as_u64 o) (as_u64 (kr_length row))) b.
Proof.
  intros Hwf Hoff Hn Hrec t' f' b.
  apply record_verified_chunk_Ok in Hrec as (frow & _ & _ & _ & _ & _ & Hcs & _).
  unfold verified. rewrite Hcs. split.
  - intros (o & row & Hl & Hb). rewrite lookup_insert in Hl. case_decide as Heq.
    + simplify_eq. left. simpl in Hb. rewrite !as_u64_as_i64 in Hb by done. done.
    + right. exists o, row. split_and!; [done| |done]. intros [[= -> ->] Ho]. apply Heq. f_equal.
      destruct (wf_chunks _ Hwf _ _ _ _ Hl) as (? & off' & ? & _ & -> & _ & Hoff' & _).
      rewrite as_u64_as_i64 in Ho by done. by subst.
  - intros [[[= -> ->] Hb]|(o & row & Hl & Hne & Hb)].
    + exists (as_i64 off), (mkChunkRow (as_i64 n) h). rewrite lookup_insert_eq. split; [done|].
      simpl. by rewrite !as_u64_as_i64.
    + exists o, row. split; [|done]. rewrite lookup_insert_ne; [done|].
      intros [= <- <- <-]. apply Hne. by rewrite as_u64_as_i64.
Qed.

(** Recording a chunk verifies its bytes, leaves other files alone, and drops
    only what an earlier chunk at the same offset had verified. *)
Theorem record_verified_chunk_coverage s now t f off n h s' :
  store_wf s → u64_ok off → u64_ok n →
  record_verified_chunk s now t f off n h = Ok s' →
  ∀ t' f' b, verified s' t' f' b ↔
    ((t', f') = (t, f) ∧ off ≤ b < off + n) ∨
    ∃ o row, verified_chunks s !! (t', f', o) = Some row ∧
      ¬ ((t', f') = (t, f) ∧ as_u64 o = off) ∧
      covers (mkRange (as_u64 o) (as_u64 (kr_length row))) b.
Proof. apply record_verified_chunk_verified. Qed.

(** A chunk with a byte that was not verified before adds its bytes and loses
    none: an earlier chunk at the same offset was shorter. *)
Lemma record_verified_chunk_grows s now t f off n h s' :
  store_wf s → u64_ok off → u64_ok n →
  record_verified_chunk s now t f off n h = Ok s' →
  (∃ b, off ≤ b < off + n ∧ ¬ verified s t f b) →
  ∀ b, verified s' t f b ↔ verified s t f b ∨ off ≤ b < off + n.
Proof.
  intros Hwf Hoff Hn Hrec (b0 & Hb0 & Hnv) b.
  rewrite (record_verified_chunk_verified _ _ _ _ _ _ _ _ Hwf Hoff Hn Hrec t f b). split.
  - intros [[_ ?]|(o & row & Hl & _ & Hb)]; [by right|]. left. by exists o, row.
  - intros [(o & row & Hl & Hb)|?]; [|by left].
    destruct (decide (as_u64 o = off)) as [Ho|Hne].
    + left. split; [done|]. destruct (decide (b < off + n)); [unfold covers in Hb; simpl in Hb; lia|].
      exfalso. apply Hnv. exists o, row. split; [done|].
      unfold covers, rend in *. simpl in *. lia.
    + right. exists o, row. split_and!; [done| |done]. naive_solver.
Qed.
