(* ===== verification/Fs.v ===== *)
(** * File system

    The part of [std::fs] / [tokio::fs] and [std::path] the receivers use, on
    a tree of files and directories.  A path is the list of its components.
    Failures are those the tree itself causes (a missing file, a file where a
    directory is needed); media faults and symbolic links are not modelled. *)

From stdpp Require Import prelude gmap strings.
From Stdlib Require Import ZArith Lia.
From S2P Require Import Prelude RustStr Errors.

Local Open Scope Z_scope.

Abbreviation path := (list (list Z)) (only parsing).

Inductive node := File (b : bytes) | Dir.
#[export] Instance node_eq_dec : EqDecision node.
Proof. solve_decision. Defined.

Abbreviation fs := (gmap (list (list Z)) node) (only parsing).

(** Path resolution: [.] stays, [..] goes to the parent. *)
Definition resolve (p : path) : path :=
  foldl (λ acc c, if bool_decide (c = str ".") then acc
                  else if bool_decide (c = str "..") then removelast acc
                  else acc ++ [c]) [] p.

(** Whether [fs::metadata] succeeds. *)
Definition path_exists (t : fs) (p : path) : bool :=
  bool_decide (resolve p = []) || bool_decide (is_Some (t !! resolve p)).

(** [fs::create_dir_all]: a file on the way is an error and leaves the tree
    as it was. *)
Fixpoint mkdirs (t : fs) (parent : path) (rest : path) : result io_error fs :=
  match rest with
  | [] => Ok t
  | c :: rest =>
    match t !! (parent ++ [c]) with
    | Some (File _) => Err (if bool_decide (rest = []) then AlreadyExists else NotADirectory)
    | _ => mkdirs (<[parent ++ [c] := Dir]> t) (parent ++ [c]) rest
    end
  end.
Definition create_dir_all (t : fs) (p : path) : result io_error fs := mkdirs t [] (resolve p).

(** [fs::read] *)
Definition read_file (t : fs) (p : path) : result io_error bytes :=
  match t !! resolve p with
  | Some (File b) => Ok b
  | Some Dir => Err IsADirectory
  | None => Err NotFound
  end.

(** [fs::File::open]: opening a directory for reading succeeds. *)
Definition open_file (t : fs) (p : path) : result io_error unit :=
  match t !! resolve p with
  | Some _ => Ok tt
  | None => Err NotFound
  end.

(** The directory a new entry at [p] goes to must exist. *)
Definition parent_check (t : fs) (p : path) : result io_error unit :=
  match removelast (resolve p) with
  | [] => Ok tt
  | parent =>
    match t !! parent with
    | Some Dir => Ok tt
    | Some (File _) => Err NotADirectory
    | None => Err NotFound
    end
  end.

(** [OpenOptions::new().create(true).truncate(false).write(true).open(p)] *)
Definition open_create (t : fs) (p : path) : result io_error fs :=
  match t !! resolve p with
  | Some Dir => Err IsADirectory
  | Some (File _) => Ok t
  | None => _ ← parent_check t p; Ok (<[resolve p := File []]> t)
  end.

(** [seek(SeekFrom::Start(off))]: the system call takes a signed offset. *)
Definition seek (off : Z) : result io_error unit := ensure (off <? 2 ^ 63) OtherIo.

(** The content after writing [b] at [off]; a gap before [off] reads as zeros. *)
Definition write_at (old : bytes) (off : Z) (b : bytes) : bytes :=
  let n := Z.to_nat off in
  take n old ++ replicate (n - length old) 0 ++ b ++ drop (n + length b) old.

(** [write_all(b)] on an open file, at position [off]. *)
Definition write_all_at (t : fs) (p : path) (off : Z) (b : bytes) : result io_error fs :=
  match t !! resolve p with
  | Some (File old) => Ok (<[resolve p := File (write_at old off b)]> t)
  | Some Dir => Err IsADirectory
  | None => Err NotFound
  end.

(** [read_exact] of [n] bytes of an open file, at position [off]. *)
Definition read_range (t : fs) (p : path) (off n : Z) : result io_error bytes :=
  b ← read_file t p;
  '(r, _) ← read_exact UnexpectedEof n (drop (Z.to_nat off) b);
  Ok r.

(** [fs::rename] of a file; directories are never renamed by the program. *)
Definition rename (t : fs) (src dst : path) : result io_error fs :=
  match t !! resolve src with
  | None => Err NotFound
  | Some Dir => Err OtherIo
  | Some (File b) =>
    match t !! resolve dst with
    | Some Dir => Err IsADirectory
    | Some (File _) => Ok (<[resolve dst := File b]> (delete (resolve src) t))
    | None => _ ← parent_check t dst; Ok (<[resolve dst := File b]> (delete (resolve src) t))
    end
  end.

(** [Path::file_name] of a single component. *)
Definition component_file_name (name : rstring) : option rstring :=
  if bool_decide (name = [] ∨ name = str "." ∨ name = str "..") then None else Some name.

(** Splits at the last dot: the text before it and after it. *)
Fixpoint rsplit_dot (s : rstring) : option (rstring * rstring) :=
  match s with
  | [] => None
  | c :: s' =>
    match rsplit_dot s' with
    | Some (before, after) => Some (c :: before, after)
    | None => if c =? 46 then Some ([], s') else None
    end
  end.

(** [Path::file_stem] and [Path::extension] of a single component. *)
Definition stem_and_extension (name : rstring) : option rstring * option rstring :=
  match component_file_name name with
  | None => (None, None)
  | Some name =>
    match rsplit_dot name with
    | Some ([], _) => (Some name, None)
    | Some (before, after) => (Some before, Some after)
    | None => (Some name, None)
    end
  end.

(** [format!("{stem} ({index}).{extension}")] and its form without extension. *)
Definition numbered_name (stem : rstring) (extension : option rstring) (index : Z) : rstring :=
  match extension with
  | Some extension => stem ++ str " (" ++ show_dec index ++ str ")." ++ extension
  | None => stem ++ str " (" ++ show_dec index ++ str ")"
  end.

(** ** Lemmas *)

(** A component that is neither [.] nor [..] resolves to itself. *)
Definition plain (c : rstring) : Prop := c ≠ str "." ∧ c ≠ str "..".
#[export] Instance plain_dec c : Decision (plain c).
Proof. unfold plain. apply _. Defined.

Lemma resolve_app_plain p c : plain c → resolve (p ++ [c]) = resolve p ++ [c].
Proof.
  intros [??]. unfold resolve. rewrite foldl_app. simpl.
  by rewrite !bool_decide_false by done.
Qed.

Lemma resolve_app_plains p q : Forall plain q → resolve (p ++ q) = resolve p ++ q.
Proof.
  induction q as [|c q IH] using rev_ind; [intros _; by rewrite !app_nil_r|]. intros [Hq Hc]%Forall_app.
  apply Forall_cons in Hc as [Hc _]. rewrite (app_assoc p), resolve_app_plain, IH by done. by rewrite <-app_assoc.
Qed.

Lemma resolve_plain p : Forall plain p → resolve p = p.
Proof.
  induction p as [|c p IH] using rev_ind; [done|].
  rewrite Forall_app, Forall_singleton. intros [??]. by rewrite resolve_app_plain, IH.
Qed.

Lemma numbered_name_inj stem ext i j :
  0 ≤ i → 0 ≤ j → numbered_name stem ext i = numbered_name stem ext j → i = j.
Proof.
  intros ?? Heq. unfold numbered_name in Heq.
  destruct ext as [ext|]; apply app_inv_head, app_inv_head in Heq.
  - rewrite !(app_assoc (show_dec _)) in Heq. by apply app_inv_tail, app_inv_tail, show_dec_inj in Heq.
  - by apply app_inv_tail, show_dec_inj in Heq.
Qed.

Lemma numbered_name_plain stem ext i : plain (numbered_name stem ext i).
Proof.
  assert (Hlen : (2 < length (numbered_name stem ext i))%nat).
  { unfold numbered_name. change (str ")") with [41]. change (str ").") with [41; 46].
    change (str " (") with [32; 40].
    destruct ext; rewrite !length_app; cbn [length]; rewrite ?length_app; cbn [length];
      pose proof (show_dec_length i); lia. }
  split; intros Heq; rewrite Heq in Hlen; unfold str in Hlen; simpl in Hlen; lia.
Qed.

Lemma rsplit_dot_elem s before after c :
  rsplit_dot s = Some (before, after) → c ∈ before ∨ c ∈ after → c ∈ s.
Proof.
  revert before after. induction s as [|d s IH]; intros before after; simpl; [done|].
  destruct (rsplit_dot s) as [[b a]|].
  - intros [= <- <-]. rewrite !elem_of_cons. specialize (IH b a eq_refl). tauto.
  - destruct (d =? 46); [|done]. intros [= <- <-]. rewrite elem_of_nil, elem_of_cons. tauto.
Qed.

Lemma stem_and_extension_elem name stem ext c :
  stem_and_extension name = (stem, ext) →
  (∃ s, stem = Some s ∧ c ∈ s) ∨ (∃ e, ext = Some e ∧ c ∈ e) → c ∈ name.
Proof.
  unfold stem_and_extension, component_file_name.
  case_bool_decide; [intros [= <- <-]; naive_solver|].
  destruct (rsplit_dot name) as [[[|b bs] after]|] eqn:Hs; intros [= <- <-]; [naive_solver| |naive_solver].
  intros [(s & [= <-] & Hc)|(e & [= <-] & Hc)]; eapply rsplit_dot_elem; eauto.
Qed.

(** No path separator appears by numbering. *)
Lemma numbered_name_no_slash stem ext i :
  47 ∉ stem → (∀ e, ext = Some e → 47 ∉ e) → 47 ∉ numbered_name stem ext i.
Proof.
  intros Hs He. assert (Hd : 47 ∉ show_dec i).
  { intros Hin. pose proof (show_dec_digits i) as Hf. rewrite Forall_forall in Hf. by apply Hf in Hin. }
  assert (47 ∉ str " (" ∧ 47 ∉ str ")" ∧ 47 ∉ str ").") as (? & ? & ?)
    by (split_and!; by apply (bool_decide_eq_true _)).
  unfold numbered_name. destruct ext as [e|]; rewrite !elem_of_app; [specialize (He e eq_refl)|]; tauto.
Qed.

Lemma write_at_end old b : write_at old (zlen old) b = old ++ b.
Proof.
  unfold write_at, zlen. rewrite Nat2Z.id, take_ge, Nat.sub_diag, drop_ge by lia.
  by rewrite app_nil_r.
Qed.

Lemma zlen_write_at old off b :
  0 ≤ off → zlen (write_at old off b) = Z.max (off + zlen b) (zlen old).
Proof.
  intros. unfold write_at, zlen.
  rewrite !length_app, length_take, length_replicate, length_drop. lia.
Qed.

Lemma write_at_in old off b i :
  (Z.to_nat off ≤ i < Z.to_nat off + length b)%nat →
  write_at old off b !! i = b !! (i - Z.to_nat off)%nat.
Proof.
  intros Hi. unfold write_at. rewrite app_assoc, lookup_app_r; rewrite length_app, length_take, length_replicate.
  - rewrite lookup_app_l by lia. f_equal. lia.
  - lia.
Qed.

Lemma write_at_out old off b i x :
  ¬ (Z.to_nat off ≤ i < Z.to_nat off + length b)%nat →
  old !! i = Some x → write_at old off b !! i = Some x.
Proof.
  intros Hi Hx. pose proof (lookup_lt_Some _ _ _ Hx). unfold write_at.
  destruct (decide (i < Z.to_nat off)%nat).
  - rewrite lookup_app_l by (rewrite length_take; lia). by rewrite lookup_take_lt by lia.
  - rewrite !app_assoc, lookup_app_r; rewrite !length_app, length_take, length_replicate; [|lia].
    rewrite lookup_drop. rewrite <-Hx. f_equal. lia.
Qed.

Lemma mkdirs_Ok rest t par t' :
  mkdirs t par rest = Ok t' →
  ∀ q, t' !! q = if decide (length par < length q ∧ q `prefix_of` par ++ rest)%nat
                 then Some Dir else t !! q.
Proof.
  revert t par. induction rest as [|c rest IH]; intros t par; simpl.
  - intros [= ->] q. rewrite decide_False; [done|]. rewrite app_nil_r.
    intros [? Hp%prefix_length]. lia.
  - intros H q. assert (mkdirs (<[par ++ [c] := Dir]> t) (par ++ [c]) rest = Ok t') as Hm
      by (by destruct (t !! (par ++ [c])) as [[]|]).
    rewrite (IH _ _ Hm), <-app_assoc, length_app. simpl. clear Hm IH H.
    destruct (decide (length par < length q ∧ q `prefix_of` par ++ c :: rest)%nat) as [[Hl Hp]|Hn].
    + case_decide as Hd; [done|]. assert (length q = length par + 1)%nat.
      { destruct (decide (length par + 1 < length q)%nat); [tauto|lia]. }
      assert (q = par ++ [c]) as ->; [|by rewrite lookup_insert_eq].
      rewrite (cons_middle c), app_assoc in Hp. destruct Hp as [k Hk].
      apply app_inj_1 in Hk as [-> _]; [done|]. rewrite length_app. simpl. lia.
    + rewrite decide_False by (intros [??]; apply Hn; split; [lia|done]).
      apply lookup_insert_ne. intros <-. apply Hn. rewrite length_app. simpl.
      split; [lia|]. exists rest. by rewrite <-app_assoc.
Qed.

Lemma mkdirs_succeeds rest t par :
  (∀ q b, q `prefix_of` par ++ rest → t !! q ≠ Some (File b)) →
  ∃ t', mkdirs t par rest = Ok t'.
Proof.
  revert t par. induction rest as [|c rest IH]; intros t par Hno; simpl; [eauto|].
  assert (par ++ [c] `prefix_of` par ++ c :: rest) as Hp by (exists rest; by rewrite <-app_assoc).
  assert (∃ t', mkdirs (<[par ++ [c] := Dir]> t) (par ++ [c]) rest = Ok t').
  { apply IH. intros q b Hq. rewrite lookup_insert. case_decide; [done|].
    apply Hno. by rewrite <-app_assoc in Hq. }
  destruct (t !! (par ++ [c])) as [[b|]|] eqn:Ht; [|done..].
  by destruct (Hno _ b Hp).
Qed.

(** [create_dir_all] makes every prefix of the path a directory and changes
    nothing else; it succeeds when no prefix is a file. *)
Lemma create_dir_all_Ok t p t' :
  create_dir_all t p = Ok t' →
  ∀ q, t' !! q = if decide (q ≠ [] ∧ q `prefix_of` resolve p) then Some Dir else t !! q.
Proof.
  intros H q. rewrite (mkdirs_Ok _ _ _ _ H). apply decide_ext.
  destruct q; simpl; split; intros [??]; split; try done; lia.
Qed.

Lemma create_dir_all_succeeds t p :
  (∀ q b, q `prefix_of` resolve p → t !! q ≠ Some (File b)) →
  ∃ t', create_dir_all t p = Ok t'.
Proof. apply (mkdirs_succeeds (resolve p) t []). Qed.

Lemma create_dir_all_file t p t' q b :
  create_dir_all t p = Ok t' → t !! q = Some (File b) → ¬ (q ≠ [] ∧ q `prefix_of` resolve p) →
  t' !! q = Some (File b).
Proof. intros H Hq Hn. by rewrite (create_dir_all_Ok _ _ _ H), decide_False. Qed.

(** ... and only then. *)
Lemma create_dir_all_no_file t p t' q b :
  create_dir_all t p = Ok t' → q ≠ [] → q `prefix_of` resolve p → t !! q ≠ Some (File b).
Proof.
  unfold create_dir_all. intros H Hne Hpre.
  enough (∀ rest t par, mkdirs t par rest = Ok t' →
    ∀ q, (length par < length q)%nat → q `prefix_of` par ++ rest → t !! q ≠ Some (File b)) as Hgen.
  { apply (Hgen _ _ _ H); [|done]. destruct q; [done|simpl; lia]. }
  clear. induction rest as [|c rest IH]; intros t par H q Hl Hp; simpl in H.
  - apply prefix_length in Hp. rewrite app_nil_r in Hp. lia.
  - rewrite (cons_middle c), app_assoc in Hp.
    destruct (decide (q = par ++ [c])) as [->|Hne]; [by destruct (t !! (par ++ [c])) as [[]|]|].
    assert (mkdirs (<[par ++ [c] := Dir]> t) (par ++ [c]) rest = Ok t') as Hm
      by (by destruct (t !! (par ++ [c])) as [[]|]).
    assert (length (par ++ [c]) < length q)%nat as Hlen.
    { rewrite length_app. simpl. destruct (decide (length q = S (length par))) as [Heq|]; [|lia].
      exfalso. apply Hne. destruct Hp as [k Hk].
      apply app_inj_1 in Hk as [-> _]; [done|]. rewrite length_app. simpl. lia. }
    specialize (IH _ _ Hm q Hlen Hp). by rewrite lookup_insert_ne in IH.
Qed.

(** A directory that exists is created without effect. *)
Lemma create_dir_all_noop t p :
  (∀ q, q ≠ [] → q `prefix_of` resolve p → t !! q = Some Dir) → create_dir_all t p = Ok t.
Proof.
  unfold create_dir_all. enough (∀ rest par,
    (∀ q, q ≠ [] → q `prefix_of` par ++ rest → t !! q = Some Dir) → mkdirs t par rest = Ok t) as Hgen
    by apply (Hgen (resolve p) []).
  induction rest as [|c rest IH]; intros par H; simpl; [done|].
  rewrite (H (par ++ [c])).
  - rewrite insert_id by (apply H; [by destruct par|exists rest; by rewrite <-app_assoc]).
    apply IH. intros q ??. apply H; [done|]. by rewrite (cons_middle c), app_assoc.
  - by destruct par.
  - exists rest. by rewrite <-app_assoc.
Qed.
