(* ===== verification/ChunkFrame.v ===== *)
(** * Chunk frames

    Model of the binary data frames of crates/protocol-native-v1/src/transfer.rs
    ([TransferChunk], [write_chunk_frame], [read_chunk_frame]).  BLAKE3 (the
    blake3 crate, behind [blake3_hex] of chunk.rs) is the parameter [Blake3]. *)

From stdpp Require Import prelude strings.
From Stdlib Require Import ZArith Lia.
From S2P Require Import Prelude RustStr Errors.

Local Open Scope Z_scope.

(** [blake3::hash(bytes).to_string()] *)
Class Blake3 := blake3_hex : bytes → rstring.

Definition MAX_CHUNK_FRAME_BYTES : Z := 8 * 1024 * 1024.

Definition transfer_error (message : string) : NativeError := Protocol (str message).

Record TransferChunk := mkChunk {
  tc_file_id : rstring; tc_offset : Z; tc_blake3 : rstring; tc_bytes : bytes }.
#[export] Instance TransferChunk_eq_dec : EqDecision TransferChunk.
Proof. solve_decision. Defined.

(** [x.try_into()] to an unsigned type of [w] bits. *)
Definition try_into (w x : Z) : option Z := if x <? 2 ^ w then Some x else None.

Section frames.
Context {B3 : Blake3}.

(** The bytes [write_chunk_frame] puts on the writer. *)
Definition write_chunk_frame (chunk : TransferChunk) : result NativeError bytes :=
  _ ← ensure (negb (is_blank (tc_file_id chunk))) (transfer_error "file id is required");
  _ ← ensure (bool_decide (str_len (tc_blake3 chunk) = 64) && forallb is_ascii_hexdigit (tc_blake3 chunk))
        (transfer_error "chunk blake3 must be 64 hex characters");
  _ ← ensure (negb (bool_decide (tc_bytes chunk = []))) (transfer_error "chunk bytes must not be empty");
  _ ← ensure (bool_decide (blake3_hex (tc_bytes chunk) = tc_blake3 chunk))
        (transfer_error "chunk hash mismatch");
  let file_id := utf8_encode (tc_file_id chunk) in
  file_id_len ← ok_or (try_into 16 (zlen file_id)) (transfer_error "file id is too long");
  bytes_len ← ok_or (try_into 32 (zlen (tc_bytes chunk))) (transfer_error "chunk is too large");
  frame_len ← ok_or
    (n ← checked_add_u32 2 file_id_len; n ← checked_add_u32 n 8; n ← checked_add_u32 n 64;
     n ← checked_add_u32 n 4; checked_add_u32 n bytes_len)
    (transfer_error "chunk frame is too large");
  Ok (to_be_bytes 4 frame_len ++ to_be_bytes 2 file_id_len ++ file_id ++
      to_be_bytes 8 (tc_offset chunk) ++ utf8_encode (tc_blake3 chunk) ++
      to_be_bytes 4 bytes_len ++ tc_bytes chunk).

(** [reader.read_u16()], [read_u32()], [read_u64()]: [n] bytes, big-endian. *)
Definition read_uint (n : Z) (reader : bytes) : result NativeError (Z * bytes) :=
  '(b, reader) ← read_exact (Io UnexpectedEof) n reader;
  Ok (from_be_bytes b, reader).

(** Reads one frame off the stream; also returns the rest of the stream. *)
Definition read_chunk_frame (reader : bytes) : result NativeError (TransferChunk * bytes) :=
  '(frame_len, reader) ← read_uint 4 reader;
  _ ← ensure (negb (frame_len <? 2 + 8 + 64 + 4)) (transfer_error "chunk frame is too small");
  _ ← ensure (negb (MAX_CHUNK_FRAME_BYTES <? frame_len))
        (transfer_error "chunk frame exceeds maximum size");
  '(file_id_len, reader) ← read_uint 2 reader;
  _ ← ensure (negb ((file_id_len =? 0) || (frame_len <? file_id_len)))
        (transfer_error "invalid file id length");
  '(file_id, reader) ← read_exact (Io UnexpectedEof) file_id_len reader;
  file_id ← ok_or (utf8_decode file_id) (transfer_error "file id must be valid UTF-8");
  '(off, reader) ← read_uint 8 reader;
  '(blake3, reader) ← read_exact (Io UnexpectedEof) 64 reader;
  blake3 ← ok_or (utf8_decode blake3) (transfer_error "chunk blake3 must be valid UTF-8");
  '(bytes_len, reader) ← read_uint 4 reader;
  let expected_len := 2 + file_id_len + 8 + 64 + 4 + bytes_len in
  _ ← ensure (expected_len =? frame_len) (transfer_error "chunk frame length mismatch");
  '(bytes, reader) ← read_exact (Io UnexpectedEof) bytes_len reader;
  let chunk := mkChunk file_id off blake3 bytes in
  _ ← ensure (bool_decide (blake3_hex (tc_bytes chunk) = tc_blake3 chunk))
        (transfer_error "chunk hash mismatch");
  Ok (chunk, reader).

(** ** Correctness *)

Lemma read_uint_be n x rest :
  0 ≤ x < 256 ^ Z.of_nat n → read_uint (Z.of_nat n) (to_be_bytes n x ++ rest) = Ok (x, rest).
Proof.
  intros Hx. unfold read_uint.
  rewrite read_exact_app by (unfold zlen; by rewrite length_to_be_bytes). simpl.
  by rewrite from_to_be.
Qed.

Lemma read_uint_Ok_inv n reader x rest :
  0 ≤ n → read_uint n reader = Ok (x, rest) →
  ∃ b, reader = b ++ rest ∧ zlen b = n ∧ x = from_be_bytes b.
Proof.
  unfold read_uint. intros Hn ([b r] & Hr & [= <- <-])%bind_Ok_inv.
  apply read_exact_Ok_inv in Hr as [-> ?]; eauto.
Qed.

Lemma hex_ascii s : forallb is_ascii_hexdigit s = true → utf8_encode s = s.
Proof.
  intros H. apply utf8_encode_ascii, Forall_forall. intros c Hc.
  rewrite forallb_forall in H. specialize (H c (proj1 (list_elem_of_In _ _) Hc)).
  unfold is_ascii_hexdigit, is_ascii_digit in H. unfold is_ascii.
  destruct (Z.ltb_spec c 128); [done|]. repeat rewrite ?orb_true_iff, ?andb_true_iff, ?Z.leb_le in H. lia.
Qed.

Lemma hex_scalar s : forallb is_ascii_hexdigit s = true → Forall scalar s.
Proof.
  intros H. apply Forall_forall. intros c Hc.
  rewrite forallb_forall in H. specialize (H c (proj1 (list_elem_of_In _ _) Hc)).
  unfold is_ascii_hexdigit, is_ascii_digit in H. unfold scalar.
  repeat rewrite ?orb_true_iff, ?andb_true_iff, ?Z.leb_le in H. lia.
Qed.

Lemma try_into_Some w x y : try_into w x = Some y ↔ y = x ∧ x < 2 ^ w.
Proof. unfold try_into. destruct (Z.ltb_spec x (2 ^ w)); naive_solver lia. Qed.

Lemma checked_add_u32_Some a b c : checked_add_u32 a b = Some c ↔ c = a + b ∧ a + b < 2 ^ 32.
Proof. unfold checked_add_u32. destruct (Z.ltb_spec (a + b) (2 ^ 32)); naive_solver lia. Qed.

(** What a written frame is. *)
Lemma write_chunk_frame_Ok chunk bs :
  write_chunk_frame chunk = Ok bs →
  let file_id := utf8_encode (tc_file_id chunk) in
  let frame_len := 78 + zlen file_id + zlen (tc_bytes chunk) in
  0 < zlen file_id < 2 ^ 16 ∧ 0 < zlen (tc_bytes chunk) ∧ frame_len < 2 ^ 32 ∧
  zlen (tc_blake3 chunk) = 64 ∧ forallb is_ascii_hexdigit (tc_blake3 chunk) = true ∧
  blake3_hex (tc_bytes chunk) = tc_blake3 chunk ∧
  bs = to_be_bytes 4 frame_len ++ to_be_bytes 2 (zlen file_id) ++ file_id ++
       to_be_bytes 8 (tc_offset chunk) ++ tc_blake3 chunk ++
       to_be_bytes 4 (zlen (tc_bytes chunk)) ++ tc_bytes chunk.
Proof.
  unfold write_chunk_frame. intros H. inv_ok. bools.
  apply try_into_Some in H4 as [-> ?], H5 as [-> ?].
  assert (0 < str_len (tc_file_id chunk)).
  { apply str_len_pos. intros Heq. rewrite Heq in H0. done. }
  do 4 (apply bind_Some in H6 as (? & Hadd & H6); apply checked_add_u32_Some in Hadd as [-> ?]).
  apply checked_add_u32_Some in H6 as [-> ?].
  assert (0 < zlen (tc_bytes chunk)).
  { destruct (tc_bytes chunk) as [|? l]; [done|]. rewrite zlen_cons. pose proof (zlen_nonneg l). lia. }
  assert (zlen (tc_blake3 chunk) = 64).
  { unfold str_len in H1. by rewrite hex_ascii in H1. }
  rewrite (hex_ascii (tc_blake3 chunk)) in H by done. subst bs.
  split_and!; [done || lia..|]. f_equal. f_equal. lia.
Qed.

(** Which chunks can be written, and that a small one can be read. *)
Lemma write_chunk_frame_succeeds chunk :
  is_blank (tc_file_id chunk) = false → str_len (tc_file_id chunk) < 2 ^ 16 →
  str_len (tc_blake3 chunk) = 64 → forallb is_ascii_hexdigit (tc_blake3 chunk) = true →
  tc_bytes chunk ≠ [] → blake3_hex (tc_bytes chunk) = tc_blake3 chunk →
  78 + str_len (tc_file_id chunk) + zlen (tc_bytes chunk) ≤ MAX_CHUNK_FRAME_BYTES →
  ∃ bs, write_chunk_frame chunk = Ok bs ∧ zlen bs ≤ 4 + MAX_CHUNK_FRAME_BYTES.
Proof.
  intros Hid Hidl Hhl Hhex Hne Hh Hmax. unfold write_chunk_frame.
  rewrite Hid, Hhl, Hhex, (bool_decide_false _ Hne), !bool_decide_true by done. cbn [negb andb ensure mbind result_bind].
  unfold str_len in *. pose proof (zlen_nonneg (utf8_encode (tc_file_id chunk))).
  pose proof (zlen_nonneg (tc_bytes chunk)). unfold MAX_CHUNK_FRAME_BYTES in *.
  unfold try_into, checked_add_u32. 
  repeat match goal with |- context [if ?a <? ?b then _ else _] =>
    destruct (Z.ltb_spec a b); [cbn [mbind option_bind ok_or result_bind]|exfalso; lia] end.
  eexists. split; [done|]. rewrite !zlen_app.
  assert (Hlen : ∀ n x, zlen (to_be_bytes n x) = Z.of_nat n)
    by (intros; unfold zlen; by rewrite length_to_be_bytes).
  rewrite !Hlen. change (zlen (utf8_encode (tc_blake3 chunk))) with (str_len (tc_blake3 chunk)).
  unfold str_len. lia.
Qed.

Lemma read_write_chunk_frame chunk bs rest :
  write_chunk_frame chunk = Ok bs → u64_ok (tc_offset chunk) → Forall scalar (tc_file_id chunk) →
  read_chunk_frame (bs ++ rest) =
    if zlen bs <=? 4 + MAX_CHUNK_FRAME_BYTES then Ok (chunk, rest)
    else Err (transfer_error "chunk frame exceeds maximum size").
Proof.
  intros Hw [? ?] Hs. destruct (write_chunk_frame_Ok _ _ Hw) as (? & ? & ? & Hhl & Hhex & Hh & ->).
  assert (Hlen : ∀ n x, zlen (to_be_bytes n x) = Z.of_nat n)
    by (intros; unfold zlen; by rewrite length_to_be_bytes).
  rewrite !zlen_app, !Hlen, Hhl. unfold read_chunk_frame, MAX_CHUNK_FRAME_BYTES.
  rewrite <-!app_assoc.
  pose proof (utf8_decode_encode _ Hs) as Hdec.
  pose proof (utf8_decode_encode _ (hex_scalar _ Hhex)) as Hdec'. rewrite hex_ascii in Hdec' by done.
  set (file_id := utf8_encode (tc_file_id chunk)) in *.
  rewrite (read_uint_be 4) by (simpl; lia). cbn [mbind result_bind].
  destruct (Z.ltb_spec (78 + zlen file_id + zlen (tc_bytes chunk)) (2 + 8 + 64 + 4)); [lia|].
  cbn [negb ensure mbind result_bind].
  destruct (Z.ltb_spec (8 * 1024 * 1024) (78 + zlen file_id + zlen (tc_bytes chunk)));
    [destruct (Z.leb_spec (Z.of_nat 4 + (Z.of_nat 2 + (zlen file_id + (Z.of_nat 8 + (64 + (Z.of_nat 4 +
       zlen (tc_bytes chunk))))))) (4 + 8 * 1024 * 1024)); [lia|done]|].
  destruct (Z.leb_spec (Z.of_nat 4 + (Z.of_nat 2 + (zlen file_id + (Z.of_nat 8 + (64 + (Z.of_nat 4 +
     zlen (tc_bytes chunk))))))) (4 + 8 * 1024 * 1024)); [|lia].
  cbn [negb ensure mbind result_bind]. rewrite (read_uint_be 2) by (simpl; lia). cbn [mbind result_bind].
  destruct (Z.eqb_spec (zlen file_id) 0); [lia|].
  destruct (Z.ltb_spec (78 + zlen file_id + zlen (tc_bytes chunk)) (zlen file_id)); [lia|].
  cbn [orb negb ensure mbind result_bind]. rewrite read_exact_app by done. cbn [mbind result_bind].
  rewrite Hdec. cbn [ok_or mbind result_bind].
  rewrite (read_uint_be 8) by (simpl; lia). cbn [mbind result_bind].
  rewrite read_exact_app by done. cbn [mbind result_bind].
  rewrite Hdec'. cbn [ok_or mbind result_bind].
  rewrite (read_uint_be 4) by (simpl; lia). cbn [mbind result_bind].
  destruct (Z.eqb_spec (2 + zlen file_id + 8 + 64 + 4 + zlen (tc_bytes chunk))
              (78 + zlen file_id + zlen (tc_bytes chunk))); [|lia].
  cbn [ensure mbind result_bind]. rewrite read_exact_app by done. cbn [mbind result_bind tc_bytes tc_blake3].
  rewrite bool_decide_true by done. by destruct chunk.
Qed.

(** Reading a written frame: within the size limit the chunk comes back
    unchanged and the rest of the stream is left; above it the reader refuses
    a frame the writer was willing to write. *)
Theorem chunk_frame_roundtrip chunk bs rest :
  write_chunk_frame chunk = Ok bs → u64_ok (tc_offset chunk) → Forall scalar (tc_file_id chunk) →
  read_chunk_frame (bs ++ rest) =
    if zlen bs <=? 4 + MAX_CHUNK_FRAME_BYTES then Ok (chunk, rest)
    else Err (transfer_error "chunk frame exceeds maximum size").
Proof. apply read_write_chunk_frame. Qed.

End frames.
