(* ===== verification/Transfer.v ===== *)
(** * Native transfer data path

    Model of [NativeTransferReceiver] and [NativeTransferSender] of
    crates/protocol-native-v1/src/transfer.rs.  The state they work on is the
    [World]: the file system, the manifest database, the UUIDs drawn so far
    and the clock.  [Uuid::new_v4] (the uuid crate) is the parameter [Uuid]:
    the [n]-th UUID drawn.  Sender and receiver run in one process here, as in
    the source, and see the same file system. *)

From stdpp Require Import prelude gmap strings.
From Stdlib Require Import ZArith Lia.
From S2P Require Import Prelude RustStr Errors Ranges Chunk Dto Manifest Fs ChunkFrame.

Local Open Scope Z_scope.

(** [Uuid::new_v4().to_string()], in order of drawing. *)
Class Uuid := new_v4 : nat → rstring.

Record World := mkWorld { w_fs : fs; w_store : ManifestStore; w_uuid : nat; w_now : Z }.

Definition set_fs (w : World) (t : fs) : World := mkWorld t (w_store w) (w_uuid w) (w_now w).
Definition set_store (w : World) (s : ManifestStore) : World := mkWorld (w_fs w) s (w_uuid w) (w_now w).

Abbreviation M := (SE World NativeError).

(** File system and database effects; one that fails changes nothing. *)
Definition io_fs (f : fs → result io_error fs) : M unit := λ w,
  match f (w_fs w) with
  | Ok t => (Ok tt, set_fs w t)
  | Err e => (Err (Io e), w)
  | Panic => (Panic, w)
  end.
Definition io_read {A} (f : fs → result io_error A) : M A := λ w, (map_err Io (f (w_fs w)), w).
Definition store_get {A} (f : ManifestStore → result NativeError A) : M A := λ w, (f (w_store w), w).
Definition store_put (f : ManifestStore → Z → result NativeError ManifestStore) : M unit := λ w,
  match f (w_store w) (w_now w) with
  | Ok s => (Ok tt, set_store w s)
  | Err e => (Err e, w)
  | Panic => (Panic, w)
  end.

Record NativeTransferReceiver := mkReceiver {
  rc_inbox_dir : path; rc_trusted_peer_fingerprint : option rstring;
  rc_blocked : bool; rc_chunk_size : Z }.

Definition trusted (inbox_dir : path) (peer_fingerprint : rstring) : NativeTransferReceiver :=
  mkReceiver inbox_dir (Some peer_fingerprint) false DEFAULT_CHUNK_SIZE.
Definition blocked (inbox_dir : path) : NativeTransferReceiver :=
  mkReceiver inbox_dir None true DEFAULT_CHUNK_SIZE.

Record NativeTransferSender := mkSender { sd_chunk_size : Z }.

Record ResumePlan := mkResumePlan {
  rp_transfer_id : rstring; rp_missing : gmap rstring (list ResumeRange) }.

(** ** File names *)

Definition safe_file_name (file_name : rstring) : result NativeError rstring :=
  _ ← ensure (negb (bool_decide (47 ∈ file_name) || bool_decide (92 ∈ file_name)
                    || bool_decide (file_name = str ".") || bool_decide (file_name = str "..")))
        (transfer_error "unsafe file name");
  let trimmed := trim file_name in
  _ ← ensure (negb (bool_decide (trimmed = []))) (transfer_error "file name is required");
  Ok trimmed.

(** The [for index in 1..=9999] loop: [n] more names are tried from [index]. *)
Fixpoint numbered_target (t : fs) (inbox_dir : path) (stem : rstring) (extension : option rstring)
    (n : nat) (index : Z) : result NativeError path :=
  match n with
  | O => Err (transfer_error "could not allocate unique target filename")
  | S n =>
    let candidate := inbox_dir ++ [numbered_name stem extension index] in
    if path_exists t candidate then numbered_target t inbox_dir stem extension n (index + 1)
    else Ok candidate
  end.

Definition available_target_path (t : fs) (inbox_dir : path) (file_name : rstring) :
    result NativeError path :=
  safe_name ← safe_file_name file_name;
  let candidate := inbox_dir ++ [safe_name] in
  if path_exists t candidate then
    let '(stem, extension) := stem_and_extension safe_name in
    numbered_target t inbox_dir (default (str "file") stem) extension (Z.to_nat 9999) 1
  else Ok candidate.

Definition file_name (p : path) : result NativeError rstring :=
  ok_or (last p ≫= component_file_name) (transfer_error "path does not have a valid file name").

(** The characters [safe_component] keeps. *)
Definition component_char (ch : Z) : bool :=
  is_ascii_alphanumeric ch || (ch =? 45) || (ch =? 95).
Definition cleaned (value : rstring) : rstring := filter (λ ch, component_char ch = true) value.

Section transfer.
Context {B3 : Blake3} {U : Uuid}.

Definition uuid : M rstring := λ w,
  (Ok (new_v4 (w_uuid w)), mkWorld (w_fs w) (w_store w) (S (w_uuid w)) (w_now w)).

Definition safe_component (value : rstring) : M rstring :=
  if bool_decide (cleaned value = []) then uuid else mret (cleaned value).

(** ** Receiver *)

Definition incoming_dir (r : NativeTransferReceiver) (transfer_id : rstring) : M path :=
  c ← safe_component transfer_id;
  mret (rc_inbox_dir r ++ [str ".incoming"; str "native"] ++ [c]).

Definition incoming_file_path (r : NativeTransferReceiver) (transfer_id file_id : rstring) : M path :=
  dir ← incoming_dir r transfer_id;
  c ← safe_component file_id;
  mret (dir ++ [c ++ str ".part"]).

Definition accept_transfer (r : NativeTransferReceiver) (peer : NativePeerInfo)
    (request : RequestTransfer) : M AcceptTransfer :=
  _ ← lift (ensure (negb (rc_blocked r)) (transfer_error "peer is blocked"));
  _ ← lift (ensure (bool_decide (rc_trusted_peer_fingerprint r = Some (pi_fingerprint peer)))
              (transfer_error "peer is not trusted"));
  _ ← lift (validate_transfer_request request);
  dir ← incoming_dir r (rt_transfer_id request);
  _ ← io_fs (λ t, create_dir_all t dir);
  st ← store_get (λ s, state s (rt_transfer_id request));
  _ ← match st with
      | None => store_put (λ s now, create_transfer s now (rt_transfer_id request)
                                      (pi_fingerprint peer) Receive (rt_files request))
      | Some _ => mret tt
      end;
  _ ← store_put (λ s now, set_state s now (rt_transfer_id request) Active);
  mret (mkAcceptTransfer (rt_transfer_id request) (rc_chunk_size r)).

Definition receive_chunk_with_hash (r : NativeTransferReceiver) (transfer_id file_id : rstring)
    (off : Z) (bytes : bytes) (expected_blake3 : rstring) : M unit :=
  _ ← lift (ensure (negb (bool_decide (bytes = []))) (transfer_error "chunk bytes must not be empty"));
  let actual_blake3 := blake3_hex bytes in
  _ ← lift (ensure (bool_decide (actual_blake3 = expected_blake3)) (transfer_error "chunk hash mismatch"));
  path ← incoming_file_path r transfer_id file_id;
  _ ← io_fs (λ t, create_dir_all t (removelast path));
  _ ← io_fs (λ t, open_create t path);
  _ ← lift (map_err Io (seek off));
  _ ← io_fs (λ t, write_all_at t path off bytes);
  store_put (λ s now, record_verified_chunk s now transfer_id file_id off (zlen bytes) actual_blake3).

Definition receive_chunk (r : NativeTransferReceiver) (transfer_id file_id : rstring)
    (off : Z) (bytes : bytes) : M unit :=
  receive_chunk_with_hash r transfer_id file_id off bytes (blake3_hex bytes).

Definition receiver_missing_ranges (transfer_id file_id : rstring) (chunk_size : Z) :
    M (list ResumeRange) :=
  store_get (λ s, missing_ranges s transfer_id file_id chunk_size).

Definition resume_plan (s : ManifestStore) (transfer_id : rstring) (chunk_size : Z) :
    result NativeError ResumePlan :=
  missing ← for_each (λ missing file,
               ranges ← missing_ranges s transfer_id (mf_file_id file) chunk_size;
               Ok (<[mf_file_id file := ranges]> missing)) ∅ (files s transfer_id);
  Ok (mkResumePlan transfer_id missing).

(** Body of the verification loop of [finish_transfer]. *)
Definition verify_file (r : NativeTransferReceiver) (transfer_id : rstring) (file : ManifestFile) : M unit :=
  incoming ← incoming_file_path r transfer_id (mf_file_id file);
  bytes ← io_read (λ t, read_file t incoming);
  if negb (zlen bytes =? mf_size file) then
    _ ← store_put (λ s now, set_state s now transfer_id Failed);
    fail (transfer_error "file size mismatch")
  else
    match mf_blake3 file with
    | Some expected =>
      let actual := blake3_hex bytes in
      if negb (bool_decide (actual = expected)) then
        _ ← store_put (λ s now, set_state s now transfer_id Failed);
        fail (transfer_error "file hash mismatch")
      else mret tt
    | None => mret tt
    end.

(** Body of the publishing loop of [finish_transfer]. *)
Definition publish_file (r : NativeTransferReceiver) (transfer_id : rstring) (file : ManifestFile) : M unit :=
  incoming ← incoming_file_path r transfer_id (mf_file_id file);
  target ← λ w, (available_target_path (w_fs w) (rc_inbox_dir r) (mf_file_name file), w);
  io_fs (λ t, rename t incoming target).

Definition finish_transfer (r : NativeTransferReceiver) (transfer_id : rstring) : M unit :=
  complete ← gets (λ w, transfer_complete (w_store w) transfer_id);
  if negb complete then
    _ ← store_put (λ s now, set_state s now transfer_id Interrupted);
    fail (transfer_error "transfer has missing bytes")
  else
    files ← gets (λ w, files (w_store w) transfer_id);
    _ ← for_M (verify_file r transfer_id) files;
    _ ← io_fs (λ t, create_dir_all t (rc_inbox_dir r));
    _ ← for_M (publish_file r transfer_id) files;
    store_put (λ s now, set_state s now transfer_id Completed).

(** ** Sender *)

(** The loop of [prepare_request], from file number [index] on. *)
Fixpoint prepare_files_loop (t : fs) (index : Z) (paths : list path) :
    result NativeError (list FileOffer) :=
  match paths with
  | [] => Ok []
  | p :: paths =>
    bytes ← map_err Io (read_file t p);
    name ← file_name p;
    rest ← prepare_files_loop t (index + 1) paths;
    Ok (mkFileOffer (str "file-" ++ show_dec index) name (zlen bytes) (Some (blake3_hex bytes)) :: rest)
  end.

Definition prepare_request (paths : list path) : M RequestTransfer :=
  files ← λ w, (prepare_files_loop (w_fs w) 0 paths, w);
  id ← uuid;
  mret (mkRequestTransfer id files).

(** Body of the loop over the ranges of one file. *)
Definition send_range (r : NativeTransferReceiver) (transfer_id file_id : rstring) (p : path)
    (range : ResumeRange) : M unit :=
  _ ← lift (map_err Io (seek (offset range)));
  bytes ← io_read (λ t, read_range t p (offset range) (len range));
  receive_chunk_with_hash r transfer_id file_id (offset range) bytes (blake3_hex bytes).

(** Body of the loop over the files of the request. *)
Definition send_file (r : NativeTransferReceiver) (transfer_id : rstring) (chunk_size : Z)
    (plan : option (gmap rstring (list ResumeRange))) (fp : FileOffer * path) : M unit :=
  let '(file, p) := fp in
  ranges ← match plan ≫= λ plan, plan !! fo_file_id file with
           | Some ranges => mret ranges
           | None => receiver_missing_ranges transfer_id (fo_file_id file) chunk_size
           end;
  _ ← io_read (λ t, open_file t p);
  for_M (send_range r transfer_id (fo_file_id file) p) ranges.

Definition send_ranges (r : NativeTransferReceiver) (request : RequestTransfer) (paths : list path)
    (chunk_size : Z) (plan : option (gmap rstring (list ResumeRange))) : M unit :=
  for_M (send_file r (rt_transfer_id request) chunk_size plan) (zip (rt_files request) paths).

Definition send_files_to_receiver (sender : NativeTransferSender) (r : NativeTransferReceiver)
    (peer : NativePeerInfo) (paths : list path) : M rstring :=
  _ ← lift (ensure (negb (sd_chunk_size sender =? 0)) (transfer_error "chunk size must be greater than zero"));
  _ ← lift (ensure (negb (bool_decide (paths = []))) (transfer_error "at least one path is required"));
  request ← prepare_request paths;
  accepted ← accept_transfer r peer request;
  _ ← send_ranges r request paths (at_chunk_size accepted) None;
  _ ← finish_transfer r (rt_transfer_id request);
  mret (rt_transfer_id request).

Definition resume_files_to_receiver (sender : NativeTransferSender) (r : NativeTransferReceiver)
    (request : RequestTransfer) (paths : list path) : M unit :=
  _ ← lift (ensure (bool_decide (length paths = length (rt_files request)))
              (transfer_error "resume paths must match request files"));
  plan ← store_get (λ s, resume_plan s (rt_transfer_id request) (sd_chunk_size sender));
  _ ← send_ranges r request paths (sd_chunk_size sender) (Some (rp_missing plan));
  finish_transfer r (rt_transfer_id request).
End transfer.

(** ** Target names *)

(** The directory and all its parents exist. *)
Definition dir_ready (t : fs) (p : path) : Prop :=
  Forall plain p ∧ ∀ q, q ≠ [] → q `prefix_of` p → t !! q = Some Dir.

Lemma path_exists_plain t p c :
  Forall plain p → plain c → path_exists t (p ++ [c]) = bool_decide (is_Some (t !! (p ++ [c]))).
Proof.
  intros Hp Hc. unfold path_exists. rewrite resolve_plain by (apply Forall_app; auto).
  by rewrite (bool_decide_false (p ++ [c] = [])) by (by destruct p).
Qed.

(** [.] and [..] of an existing directory exist. *)
Lemma path_exists_dots t p c : dir_ready t p → ¬ plain c → path_exists t (p ++ [c]) = true.
Proof.
  intros [Hp Hd] Hc. unfold path_exists, resolve. rewrite foldl_app. fold (resolve p).
  rewrite resolve_plain by done. simpl.
  apply orb_true_iff. rewrite !bool_decide_eq_true.
  assert (Hpre : ∀ q, q `prefix_of` p → q = [] ∨ is_Some (t !! q)).
  { intros [|x q] ?; [by left|]. right. rewrite Hd; eauto. }
  case_bool_decide; [by apply Hpre|]. case_bool_decide; [|by destruct Hc].
  apply Hpre. destruct (snoc_cases p) as [->|(p' & x & ->)]; [done|].
  rewrite removelast_last. by exists [x].
Qed.

Lemma numbered_target_Ok t inbox stem ext n i target :
  Forall plain inbox → numbered_target t inbox stem ext n i = Ok target →
  ∃ j, i ≤ j ∧ target = inbox ++ [numbered_name stem ext j] ∧ t !! target = None.
Proof.
  intros Hp. revert i. induction n as [|n IH]; intros i; simpl; [done|].
  destruct (path_exists t (inbox ++ [numbered_name stem ext i])) eqn:He.
  - intros (j & ? & ?)%IH. exists j. split; [lia|done].
  - intros [= <-]. exists i. split_and!; [lia|done|].
    rewrite path_exists_plain in He by eauto using numbered_name_plain. bools.
    by rewrite <-eq_None_not_Some in He.
Qed.

Lemma numbered_target_total t inbox stem ext n i :
  Forall plain inbox → 0 ≤ i → (size t < n)%nat → ∃ target, numbered_target t inbox stem ext n i = Ok target.
Proof.
  intros Hp Hi Hn.
  assert (Hgen : ∀ n i, 0 ≤ i → (∃ target, numbered_target t inbox stem ext n i = Ok target) ∨
    ∀ j, i ≤ j < i + Z.of_nat n → inbox ++ [numbered_name stem ext j] ∈ dom t).
  { clear n i Hi Hn. induction n as [|n IH]; intros i Hi; simpl; [right; intros; lia|].
    rewrite path_exists_plain by eauto using numbered_name_plain.
    case_bool_decide as He; [|eauto]. destruct (IH (i + 1)) as [?|Hall]; [lia|by left|].
    right. intros j Hj. destruct (decide (j = i)) as [->|]; [by apply elem_of_dom|]. apply Hall. lia. }
  destruct (Hgen n i Hi) as [?|Hall]; [done|]. exfalso.
  set (cand := (λ k, inbox ++ [numbered_name stem ext (i + Z.of_nat k)]) <$> seq 0 n).
  assert (Hnd : NoDup cand).
  { apply NoDup_fmap_2_strong; [|apply NoDup_seq]. intros a b _ _ Heq.
    apply app_inv_head in Heq. assert (numbered_name stem ext (i + Z.of_nat a)
      = numbered_name stem ext (i + Z.of_nat b)) as Hn' by congruence.
    apply numbered_name_inj in Hn'; lia. }
  assert (Hsub : list_to_set cand ⊆ dom t).
  { intros p. rewrite elem_of_list_to_set. intros (k & -> & Hk)%list_elem_of_fmap.
    apply elem_of_seq in Hk. apply Hall. lia. }
  apply subseteq_size in Hsub. rewrite size_list_to_set, size_dom in Hsub by done.
  unfold cand in Hsub. rewrite length_fmap, length_seq in Hsub. lia.
Qed.

Lemma safe_file_name_Ok name s :
  safe_file_name name = Ok s → 47 ∉ name ∧ s = trim name ∧ s ≠ [].
Proof. unfold safe_file_name. intros H. inv_ok. bools. by subst. Qed.

Lemma trim_elem s c : c ∈ trim s → c ∈ s.
Proof.
  unfold trim, trim_end. rewrite elem_of_reverse. intros Hc.
  destruct (trim_start_suffix s) as (p & Hs & _). rewrite Hs, elem_of_app. right.
  destruct (trim_start_suffix (reverse (trim_start s))) as (p' & Hs' & _).
  apply elem_of_reverse. rewrite Hs', elem_of_app. by right.
Qed.

(** Shape of a published name. *)
Lemma available_target_path_Ok t inbox name target :
  dir_ready t inbox → available_target_path t inbox name = Ok target →
  ∃ base, target = inbox ++ [base] ∧ plain base ∧ 47 ∉ base ∧ t !! target = None.
Proof.
  intros Hd H. pose proof Hd as [Hp _]. unfold available_target_path in H. inv_ok.
  apply safe_file_name_Ok in H0 as (Hns & -> & Hne).
  assert (Hts : 47 ∉ trim name) by (intros ?%trim_elem; done).
  destruct (path_exists t (inbox ++ [trim name])) eqn:He.
  - destruct (stem_and_extension (trim name)) as [stem ext] eqn:Hse.
    apply numbered_target_Ok in H as (j & ? & -> & ?); [|done].
    eexists. split_and!; [done|apply numbered_name_plain| |done]. apply numbered_name_no_slash.
    + destruct stem as [s|]; simpl; [|by apply (bool_decide_eq_true _)].
      intros Hin. apply Hts. eapply stem_and_extension_elem; eauto.
    + intros e -> Hin. apply Hts. eapply stem_and_extension_elem; eauto.
  - inv_ok. subst. destruct (decide (plain (trim name))) as [Hpl|Hnp].
    + rewrite path_exists_plain in He by done. bools. rewrite <-eq_None_not_Some in He. eauto.
    + by rewrite path_exists_dots in He.
Qed.

(** Publishing never leaves the inbox and never overwrites: a name chosen for
    a received file is a fresh direct child of the inbox, whatever the peer
    called the file; and while the tree has fewer than 9999 entries a name is
    found for every name that passes [safe_file_name]. *)
Theorem available_target_path_correct t inbox name :
  dir_ready t inbox →
  (∀ target, available_target_path t inbox name = Ok target →
     ∃ base, target = inbox ++ [base] ∧ plain base ∧ 47 ∉ base ∧ t !! target = None) ∧
  ((size t < Z.to_nat 9999)%nat →
     is_ok (available_target_path t inbox name) = is_ok (safe_file_name name)).
Proof.
  intros Hd. split; [eauto using available_target_path_Ok|].
  intros Hsize. unfold available_target_path. destruct (safe_file_name name) as [s| |]; [|done..]. cbn [mbind result_bind].
  destruct (path_exists t (inbox ++ [s])); [|done].
  destruct (stem_and_extension s) as [stem ext].
  destruct (numbered_target_total t inbox (default (str "file") stem) ext (Z.to_nat 9999) 1)
    as [target ->]; [apply Hd|lia|exact Hsize|done].
Qed.
