(* ===== verification/Receiver.v ===== *)
(** * Receiver correctness

    Theorems about [NativeTransferReceiver] (Transfer.v): who may open a
    transfer, what one chunk does to disk and database, and what a finished
    transfer has put in the inbox. *)

From stdpp Require Import prelude gmap strings.
From Stdlib Require Import ZArith Lia.
From S2P Require Import Prelude RustStr Errors Ranges Chunk Dto Manifest Fs ChunkFrame Transfer.

Local Open Scope Z_scope.

Lemma io_fs_Ok f w u w' :
  io_fs f w = (Ok u, w') ↔ ∃ t, f (w_fs w) = Ok t ∧ w' = set_fs w t.
Proof.
  unfold io_fs. destruct u, (f (w_fs w)) as [t| |]; split.
  - intros [= <-]. eauto.
  - by intros (? & [= ->] & ->).
  - done.
  - naive_solver.
  - done.
  - naive_solver.
Qed.

Lemma store_put_Ok f w u w' :
  store_put f w = (Ok u, w') ↔ ∃ s, f (w_store w) (w_now w) = Ok s ∧ w' = set_store w s.
Proof.
  unfold store_put. destruct u, (f (w_store w) (w_now w)) as [t| |]; split.
  - intros [= <-]. eauto.
  - by intros (? & [= ->] & ->).
  - done.
  - naive_solver.
  - done.
  - naive_solver.
Qed.

Lemma io_read_Ok {A} (f : fs → result io_error A) w a w' :
  io_read f w = (Ok a, w') ↔ f (w_fs w) = Ok a ∧ w' = w.
Proof.
  unfold io_read. split.
  - intros [= H1 H2]. by apply map_err_Ok_inv in H1.
  - intros [H ->]. by rewrite H.
Qed.

Lemma read_file_Ok t p b : read_file t p = Ok b ↔ t !! resolve p = Some (File b).
Proof. unfold read_file. destruct (t !! resolve p) as [[]|]; naive_solver. Qed.

Lemma length_cleaned_part f : (2 < length (cleaned f ++ str ".part"))%nat.
Proof. rewrite length_app. unfold str. simpl. lia. Qed.

Lemma cleaned_chars v c : c ∈ cleaned v → component_char c = true.
Proof. unfold cleaned. by intros [? _]%list_elem_of_filter. Qed.

Lemma cleaned_plain v : cleaned v ≠ [] → plain (cleaned v).
Proof.
  intros Hne. assert (Hdot : 46 ∉ cleaned v) by (by intros ?%cleaned_chars).
  split; intros Heq; apply Hdot; rewrite Heq; left.
Qed.

Lemma cleaned_part_plain f : plain (cleaned f ++ str ".part").
Proof.
  pose proof (length_cleaned_part f) as Hl.
  split; intros Heq; rewrite Heq in Hl; unfold str in Hl; simpl in Hl; lia.
Qed.

(** Where the bytes of an incoming file are kept. *)
Definition part_dir (r : NativeTransferReceiver) (t : rstring) : path :=
  rc_inbox_dir r ++ [str ".incoming"; str "native"; cleaned t].
Definition part_path (r : NativeTransferReceiver) (t f : rstring) : path :=
  part_dir r t ++ [cleaned f ++ str ".part"].

Lemma length_part_path r t f : length (part_path r t f) = (length (rc_inbox_dir r) + 4)%nat.
Proof. unfold part_path, part_dir. rewrite !length_app. simpl. lia. Qed.

Lemma part_dir_plain r t :
  Forall plain (rc_inbox_dir r) → cleaned t ≠ [] → Forall plain (part_dir r t).
Proof.
  intros Hin Ht. apply Forall_app. split; [done|].
  repeat constructor; [by apply (bool_decide_eq_true _)..|by apply cleaned_plain|by apply cleaned_plain].
Qed.

Lemma part_path_plain r t f :
  Forall plain (rc_inbox_dir r) → cleaned t ≠ [] → Forall plain (part_path r t f).
Proof.
  intros. apply Forall_app. split; [by apply part_dir_plain|].
  constructor; [apply cleaned_part_plain|constructor].
Qed.

Lemma resolve_part r t f :
  Forall plain (rc_inbox_dir r) → cleaned t ≠ [] → resolve (part_path r t f) = part_path r t f.
Proof. intros. by apply resolve_plain, part_path_plain. Qed.

Lemma part_path_not_inbox r t f q base :
  q `prefix_of` rc_inbox_dir r ∨ q = rc_inbox_dir r ++ [base] → q ≠ part_path r t f.
Proof.
  intros Hq ->. pose proof (length_part_path r t f) as Hl. destruct Hq as [Hq%prefix_length|Hq].
  - lia.
  - rewrite Hq, length_app in Hl. simpl in Hl. lia.
Qed.

Section receiver.
Context {B3 : Blake3} {U : Uuid}.

Lemma incoming_file_path_eq r t f w :
  cleaned t ≠ [] → cleaned f ≠ [] →
  incoming_file_path r t f w = (Ok (part_path r t f), w).
Proof.
  intros Ht Hf. unfold incoming_file_path, incoming_dir, safe_component.
  rewrite !bool_decide_false by done. done.
Qed.

(** ** Opening a transfer *)

(** Only the trusted peer opens a transfer: for any other peer, and on a
    blocked receiver, the request is refused and neither disk nor database
    changes. *)
Theorem accept_transfer_untrusted r peer request w :
  rc_blocked r = true ∨ rc_trusted_peer_fingerprint r ≠ Some (pi_fingerprint peer) →
  ∃ e, accept_transfer r peer request w = (Err e, w).
Proof.
  intros H. unfold accept_transfer.
  destruct (rc_blocked r); [by eexists|]. destruct H as [|Hne]; [done|].
  cbn [negb]. unfold mbind at 1, SE_bind at 1. simpl.
  rewrite bool_decide_false by done. by eexists.
Qed.

(** ** Publishing *)

Lemma verify_file_Ok r t file w w' :
  Forall plain (rc_inbox_dir r) → cleaned t ≠ [] → cleaned (mf_file_id file) ≠ [] →
  verify_file r t file w = (Ok tt, w') →
  w' = w ∧ ∃ b, w_fs w !! part_path r t (mf_file_id file) = Some (File b) ∧
    zlen b = mf_size file ∧ ∀ h, mf_blake3 file = Some h → blake3_hex b = h.
Proof.
  intros Hin Ht Hf H. unfold verify_file in H.
  rewrite (SE_bind_eq _ _ _ _ _ (incoming_file_path_eq r t _ w Ht Hf)) in H. cbv beta in H.
  apply SE_bind_Ok in H as (b & w1 & [Hr ->]%io_read_Ok & H).
  apply read_file_Ok in Hr. rewrite resolve_part in Hr by done.
  destruct (Z.eqb_spec (zlen b) (mf_size file)) as [Hsz|]; cbn [negb] in H; [|by inv_se].
  assert (w' = w ∧ ∀ h, mf_blake3 file = Some h → blake3_hex b = h) as [-> Hh]; [|eauto].
  destruct (mf_blake3 file) as [h|]; [|by inv_se].
  case_bool_decide as Hd; cbn [negb] in H; [|by inv_se]. inv_se. split; [done|]. congruence.
Qed.

(** What one step of the publishing loop does to the file system. *)
Lemma publish_file_Ok r t file w w' :
  dir_ready (w_fs w) (rc_inbox_dir r) → cleaned t ≠ [] → cleaned (mf_file_id file) ≠ [] →
  publish_file r t file w = (Ok tt, w') →
  ∃ base b, w_fs w !! part_path r t (mf_file_id file) = Some (File b) ∧
    available_target_path (w_fs w) (rc_inbox_dir r) (mf_file_name file) = Ok (rc_inbox_dir r ++ [base]) ∧
    plain base ∧ 47 ∉ base ∧ w_fs w !! (rc_inbox_dir r ++ [base]) = None ∧
    w' = set_fs w (<[rc_inbox_dir r ++ [base] := File b]>
                     (delete (part_path r t (mf_file_id file)) (w_fs w))).
Proof.
  intros Hd Ht Hf H. pose proof Hd as [Hin _]. unfold publish_file in H.
  rewrite (SE_bind_eq _ _ _ _ _ (incoming_file_path_eq r t _ w Ht Hf)) in H. cbv beta in H.
  apply SE_bind_Ok in H as (target & w1 & [= Hav <-] & H).
  destruct (available_target_path_Ok _ _ _ _ Hd Hav) as (base & -> & Hb & Hs & Hnone).
  apply io_fs_Ok in H as (t' & Hren & ->). unfold rename in Hren.
  rewrite resolve_part, (resolve_plain (rc_inbox_dir r ++ [base])) in Hren
    by (done || (apply Forall_app; auto)).
  rewrite Hnone in Hren. destruct (w_fs w !! part_path r t (mf_file_id file)) as [[b|]|] eqn:Hp; [|done..].
  inv_ok. subst. exists base, b. done.
Qed.

(** State of the publishing loop after the files [done], started at [w0]. *)
Definition published (r : NativeTransferReceiver) (t : rstring) (w0 : World)
    (done : list ManifestFile) (targets : list path) (w : World) : Prop :=
  w_store w = w_store w0 ∧ w_now w = w_now w0 ∧ w_uuid w = w_uuid w0 ∧ NoDup targets ∧
  (∀ q, q ∉ targets → q ∉ (λ f, part_path r t (mf_file_id f)) <$> done → w_fs w !! q = w_fs w0 !! q) ∧
  (∀ q, q ∈ (λ f, part_path r t (mf_file_id f)) <$> done → w_fs w !! q = None) ∧
  Forall2 (λ f target, ∃ base b, target = rc_inbox_dir r ++ [base] ∧ plain base ∧ 47 ∉ base ∧
    w_fs w0 !! target = None ∧ w_fs w0 !! part_path r t (mf_file_id f) = Some (File b) ∧
    w_fs w !! target = Some (File b)) done targets.

Lemma published_target r t w0 done targets w q :
  published r t w0 done targets w → q ∈ targets →
  ∃ base b, q = rc_inbox_dir r ++ [base] ∧ w_fs w !! q = Some (File b).
Proof.
  intros (_ & _ & _ & _ & _ & _ & Hf2) [i Hq]%list_elem_of_lookup.
  destruct (Forall2_lookup_r _ _ _ _ _ Hf2 Hq) as (f & _ & base & b & ? & _ & _ & _ & _ & ?). eauto.
Qed.

Lemma published_same r t w0 done targets w q :
  published r t w0 done targets w →
  (∀ base, q ≠ rc_inbox_dir r ++ [base]) → (∀ f, q ≠ part_path r t f) →
  w_fs w !! q = w_fs w0 !! q.
Proof.
  intros Hpub Hn1 Hn2. pose proof Hpub as (_ & _ & _ & _ & Hsame & _). apply Hsame.
  - intros Hq. destruct (published_target _ _ _ _ _ _ _ Hpub Hq) as (base & _ & -> & _).
    by apply (Hn1 base).
  - intros (f & -> & _)%list_elem_of_fmap. by apply (Hn2 (mf_file_id f)).
Qed.

Lemma published_ready r t w0 done targets w :
  published r t w0 done targets w → dir_ready (w_fs w0) (rc_inbox_dir r) →
  dir_ready (w_fs w) (rc_inbox_dir r).
Proof.
  intros Hpub [Hp Hd]. split; [done|]. intros q Hq Hpre.
  rewrite (published_same _ _ _ _ _ _ _ Hpub); [by apply Hd| |].
  - intros base ->. apply prefix_length in Hpre. rewrite length_app in Hpre. simpl in Hpre. lia.
  - intros f. by apply (part_path_not_inbox _ _ _ _ []); left.
Qed.

Lemma published_step r t w0 done targets file w w' :
  published r t w0 done targets w → dir_ready (w_fs w0) (rc_inbox_dir r) →
  cleaned t ≠ [] → cleaned (mf_file_id file) ≠ [] →
  publish_file r t file w = (Ok tt, w') →
  ∃ target, available_target_path (w_fs w) (rc_inbox_dir r) (mf_file_name file) = Ok target ∧
    published r t w0 (done ++ [file]) (targets ++ [target]) w'.
Proof.
  intros Hpub Hd0 Ht Hf H. pose proof (published_ready _ _ _ _ _ _ Hpub Hd0) as Hd.
  destruct (publish_file_Ok _ _ _ _ _ Hd Ht Hf H) as (base & b & Hpart & Hav & Hpl & Hsl & Hfree & ->).
  pose proof Hpub as (Hst & Hnow & Huu & Hnd & Hsame & Hgone & Hf2).
  set (target := rc_inbox_dir r ++ [base]) in *.
  set (part := part_path r t (mf_file_id file)) in *.
  assert (Hne : target ≠ part) by (apply (part_path_not_inbox _ _ _ _ base); by right).
  assert (Hnt : target ∉ targets).
  { intros Hin. destruct (published_target _ _ _ _ _ _ _ Hpub Hin) as (? & ? & _ & Hs). congruence. }
  assert (Hnp : part ∉ targets).
  { intros Hin. destruct (published_target _ _ _ _ _ _ _ Hpub Hin) as (b' & ? & Hp & _).
    by apply (part_path_not_inbox r t (mf_file_id file) part b' (or_intror Hp)). }
  assert (Hnd' : part ∉ (λ f, part_path r t (mf_file_id f)) <$> done).
  { intros Hin. specialize (Hgone _ Hin). congruence. }
  assert (Htp : target ∉ (λ f, part_path r t (mf_file_id f)) <$> done).
  { intros (f & Heq & _)%list_elem_of_fmap.
    by apply (part_path_not_inbox r t (mf_file_id f) target base (or_intror eq_refl)). }
  assert (Hsnoc : (λ f, part_path r t (mf_file_id f)) <$> (done ++ [file]) =
                  ((λ f, part_path r t (mf_file_id f)) <$> done) ++ [part]) by (by rewrite fmap_app).
  exists target. split; [done|]. unfold published. rewrite Hsnoc. split_and!; simpl; [done..| | | |].
  - apply NoDup_app. split_and!; [done| |apply NoDup_singleton].
    intros x Hx ->%list_elem_of_singleton. done.
  - intros q. rewrite !not_elem_of_app, !list_elem_of_singleton. intros [??] [??].
    rewrite lookup_insert_ne, lookup_delete_ne by congruence. by apply Hsame.
  - intros q. rewrite elem_of_app, list_elem_of_singleton. intros Hq.
    assert (target ≠ q) by (destruct Hq as [?| ->]; [by intros <-|exact Hne]).
    rewrite lookup_insert_ne, lookup_delete by done.
    case_decide as Hpq; [done|]. destruct Hq as [Hq|Hq]; [by apply Hgone|by destruct Hpq].
  - apply Forall2_app.
    + eapply Forall2_impl; [exact Hf2|]. intros f q (bs & x & -> & ? & ? & ? & ? & Hx).
      exists bs, x. split_and!; [done..|].
      rewrite lookup_insert_ne, lookup_delete_ne; [done| |].
      * intros Heq. by apply (part_path_not_inbox r t (mf_file_id file) part bs (or_intror Heq)).
      * intros Heq. rewrite Heq in Hfree. congruence.
    + constructor; [|constructor]. exists base, b. split_and!; [done..| | |].
      * by rewrite <-Hsame.
      * by rewrite <-Hsame.
      * by rewrite lookup_insert_eq.
Qed.

(** All ids of the transfer survive cleaning, so that paths are stable. *)
Definition ids_clean (s : ManifestStore) (t : rstring) : Prop :=
  cleaned t ≠ [] ∧ Forall (λ f, cleaned (mf_file_id f) ≠ []) (files s t).

Lemma ids_clean_at s t done file rest :
  ids_clean s t → files s t = done ++ file :: rest → cleaned (mf_file_id file) ≠ [].
Proof. intros [_ Hf] Heq. rewrite Heq, Forall_app, Forall_cons in Hf. tauto. Qed.

Lemma verify_files_Ok r t w w' :
  Forall plain (rc_inbox_dir r) → ids_clean (w_store w) t →
  for_M (verify_file r t) (files (w_store w) t) w = (Ok tt, w') →
  w' = w ∧ Forall (λ f, ∃ b, w_fs w !! part_path r t (mf_file_id f) = Some (File b) ∧
    zlen b = mf_size f ∧ ∀ h, mf_blake3 f = Some h → blake3_hex b = h) (files (w_store w) t).
Proof.
  intros Hin Hids.
  apply (for_M_inv (λ done w1, w1 = w ∧ Forall (λ f, ∃ b,
    w_fs w !! part_path r t (mf_file_id f) = Some (File b) ∧
    zlen b = mf_size f ∧ ∀ h, mf_blake3 f = Some h → blake3_hex b = h) done)); [done|].
  intros done file rest w1 w2 Heq [-> Hdone] H.
  apply verify_file_Ok in H as [-> Hb]; [|done|apply Hids|by eapply ids_clean_at].
  split; [done|]. apply Forall_app. split; [done|]. by constructor.
Qed.

Lemma publish_files_Ok r t w w' :
  dir_ready (w_fs w) (rc_inbox_dir r) → ids_clean (w_store w) t →
  for_M (publish_file r t) (files (w_store w) t) w = (Ok tt, w') →
  ∃ targets, published r t w (files (w_store w) t) targets w'.
Proof.
  intros Hd Hids. apply (for_M_inv (λ done w1, ∃ targets, published r t w done targets w1)).
  - exists []. unfold published. split_and!; try done; [by apply NoDup_nil|].
    intros q Hq. by apply elem_of_nil in Hq.
  - intros done file rest w1 w2 Heq [targets Hpub] H.
    destruct (published_step _ _ _ _ _ _ _ _ Hpub Hd (proj1 Hids) (ids_clean_at _ _ _ _ _ Hids Heq) H)
      as (target & _ & ?). eauto.
Qed.

Lemma create_inbox_ready t p t' :
  Forall plain p → create_dir_all t p = Ok t' →
  dir_ready t' p ∧ ∀ q, ¬ (q `prefix_of` p) → t' !! q = t !! q.
Proof.
  intros Hp H. split.
  - split; [done|]. intros q ??. rewrite (create_dir_all_Ok _ _ _ H), decide_True; [done|].
    by rewrite resolve_plain.
  - intros q Hq. rewrite (create_dir_all_Ok _ _ _ H), decide_False; [done|].
    rewrite resolve_plain by done. tauto.
Qed.

(** C10: A transfer that finishes has every byte verified, is marked completed,
    and has put each of its files, with the declared size and digest, under
    a fresh name directly in the inbox; every other file on disk is as it
    was. *)
Theorem finish_transfer_sound r t w w' :
  Forall plain (rc_inbox_dir r) → ids_clean (w_store w) t →
  finish_transfer r t w = (Ok tt, w') →
  transfer_complete (w_store w) t = true ∧
  state (w_store w') t = Ok (Some Completed) ∧
  (∃ targets, NoDup targets ∧ Forall2 (λ f target, ∃ base b,
     target = rc_inbox_dir r ++ [base] ∧ plain base ∧ 47 ∉ base ∧
     w_fs w !! target = None ∧ w_fs w' !! target = Some (File b) ∧
     w_fs w !! part_path r t (mf_file_id f) = Some (File b) ∧
     zlen b = mf_size f ∧ (∀ h, mf_blake3 f = Some h → blake3_hex b = h))
     (files (w_store w) t) targets) ∧
  ∀ q b, w_fs w !! q = Some (File b) →
    (∀ f, f ∈ files (w_store w) t → q ≠ part_path r t (mf_file_id f)) →
    w_fs w' !! q = Some (File b).
Proof.
  intros Hin Hids H. unfold finish_transfer in H.
  apply SE_bind_Ok in H as (complete & w1 & [= <- <-] & H).
  destruct (transfer_complete (w_store w) t) eqn:Hcomp; cbn [negb] in H; [|by inv_se].
  apply SE_bind_Ok in H as (fl & w1 & [= <- <-] & H).
  apply SE_bind_Ok in H as ([] & w1 & [-> Hver]%verify_files_Ok & H); [|done..].
  apply SE_bind_Ok in H as ([] & w2 & (t2 & Hmk & ->)%io_fs_Ok & H).
  destruct (create_inbox_ready _ _ _ Hin Hmk) as [Hready Hsame].
  apply SE_bind_Ok in H as ([] & w3 & Hpub & H).
  apply (publish_files_Ok r t (set_fs w t2)) in Hpub as (targets & Hpub); [|done..].
  apply store_put_Ok in H as (s & Hset & ->). cbn [set_store w_fs w_store].
  pose proof Hpub as (Hst & _ & _ & Hnd & Hrest & _ & Hf2). cbn [set_fs w_fs w_store] in *.
  apply set_state_Ok in Hset as (_ & row & Hrow & ->).
  split; [done|]. split.
  { unfold state. simpl. by rewrite lookup_insert_eq. }
  assert (Hpart : ∀ f, t2 !! part_path r t f = w_fs w !! part_path r t f).
  { intros f. apply Hsame. intros Hpre%prefix_length. rewrite length_part_path in Hpre. lia. }
  split.
  - exists targets. split; [done|].
    eapply Forall2_impl; [exact (Forall2_with _ _ _ _ Hver Hf2)|].
    intros f target [(b & Hb & Hsz & Hh) (base & b' & -> & Hpl & Hsl & Hnone & Hb' & Htb)].
    rewrite Hpart, Hb in Hb'. injection Hb' as <-. exists base, b. split_and!; try done.
    rewrite <-Hsame; [done|]. intros Hpre%prefix_length. rewrite length_app in Hpre. simpl in Hpre. lia.
  - intros q b Hq Hnp. assert (Hq2 : t2 !! q = Some (File b)).
    { rewrite (create_dir_all_Ok _ _ _ Hmk), decide_False; [done|]. intros [Hne Hpre].
      by apply (create_dir_all_no_file _ _ _ _ b Hmk Hne Hpre). }
    rewrite Hrest; [done| |].
    + intros Hin'. destruct (published_target _ _ _ _ _ _ _ Hpub Hin') as (base & x & -> & _).
      destruct (proj1 (list_elem_of_lookup _ _) Hin') as [i Hi].
      destruct (Forall2_lookup_r _ _ _ _ _ Hf2 Hi) as (f & _ & bs & y & _ & _ & _ & Hn & _).
      congruence.
    + intros (f & -> & Hf)%list_elem_of_fmap. by apply (Hnp f).
Qed.
End receiver.
