(* ===== verification/Delivery.v ===== *)
(** * End-to-end delivery

    Sender and receiver of Transfer.v together: a transfer that was
    interrupted at any point is completed by [resume_files_to_receiver], and
    [send_files_to_receiver] delivers, both with the receiver's inbox holding
    the sender's bytes. *)

From stdpp Require Import prelude gmap strings sorting.
From Stdlib Require Import ZArith Lia.
From S2P Require Import Prelude RustStr Errors Ranges Chunk Dto Manifest Fs ChunkFrame Transfer Receiver.

Local Open Scope Z_scope.

(** Bytes [off .. off + n] of a file. *)
Definition slice (content : bytes) (off n : Z) : bytes :=
  take (Z.to_nat n) (drop (Z.to_nat off) content).

Lemma zlen_slice content off n :
  0 ≤ off → 0 ≤ n → off + n ≤ zlen content → zlen (slice content off n) = n.
Proof. unfold zlen, slice. intros. rewrite length_take, length_drop. lia. Qed.

Lemma slice_lookup content off n i :
  (i < Z.to_nat n)%nat → slice content off n !! i = content !! (Z.to_nat off + i)%nat.
Proof. intros. unfold slice. by rewrite lookup_take_lt, lookup_drop by lia. Qed.

(** ** What one file looks like in the middle of a transfer *)

(** The part file holds, where a byte is verified, the sender's byte. *)
Definition part_state (r : NativeTransferReceiver) (t f : rstring) (content : bytes) (w : World) : Prop :=
  match w_fs w !! part_path r t f with
  | None => ∀ b, ¬ verified (w_store w) t f b
  | Some Dir => False
  | Some (File old) =>
    zlen old ≤ zlen content ∧
    ∀ b, verified (w_store w) t f b → old !! Z.to_nat b = content !! Z.to_nat b
  end.

(** The manifest row of the file announces the content's size. *)
Definition row_state (t f : rstring) (content : bytes) (w : World) : Prop :=
  ∃ row, transfer_files (w_store w) !! (t, f) = Some row ∧ as_u64 (fr_size row) = zlen content.

(** From [w] to [w'] only file [f] of transfer [t] may have made progress. *)
Record frame (r : NativeTransferReceiver) (t f : rstring) (w w' : World) : Prop := {
  frame_fs q : q ≠ part_path r t f → w_fs w' !! q = w_fs w !! q;
  frame_files : transfer_files (w_store w') = transfer_files (w_store w);
  frame_state t' : tr_state <$> transfers (w_store w') !! t' = tr_state <$> transfers (w_store w) !! t';
  frame_verified f' b : f' ≠ f → verified (w_store w') t f' b ↔ verified (w_store w) t f' b;
  frame_wf : store_wf (w_store w) → store_wf (w_store w')
}.

#[export] Instance frame_refl r t f : Reflexive (frame r t f).
Proof. intros w. by split. Qed.
#[export] Instance frame_trans r t f : Transitive (frame r t f).
Proof.
  intros w1 w2 w3 [Hf Hr Hs Hv Hw] [Hf' Hr' Hs' Hv' Hw']. split.
  - intros q Hq. by rewrite Hf', Hf.
  - by rewrite Hr', Hr.
  - intros t'. by rewrite Hs', Hs.
  - intros f' b Hne. by rewrite Hv', Hv.
  - auto.
Qed.

Lemma verified_bounds s t f row b :
  store_wf s → transfer_files s !! (t, f) = Some row → verified s t f b → 0 ≤ b < as_u64 (fr_size row).
Proof.
  intros Hwf Hrow Hb. destruct (verified_ranges_spec _ _ _ _ Hwf Hrow) as [Hv Hc].
  apply Hc in Hb as (x & Hx & Hb). rewrite Forall_forall in Hv. specialize (Hv _ Hx).
  unfold valid_range, covers in *. lia.
Qed.

Lemma record_verified_chunk_succeeds s now t f row off n h :
  transfer_files s !! (t, f) = Some row → 0 < n → off + n ≤ as_u64 (fr_size row) →
  as_u64 (fr_size row) < 2 ^ 64 →
  ∃ s', record_verified_chunk s now t f off n h = Ok s'.
Proof.
  intros Hrow Hn Hle H64. unfold record_verified_chunk, file_size_locked. rewrite Hrow.
  destruct (Z.eqb_spec n 0); [lia|]. cbn [negb ensure mbind result_bind ok_or].
  unfold checked_add_u64. destruct (Z.ltb_spec (off + n) (2 ^ 64)); [|lia].
  cbn [negb ensure mbind result_bind ok_or]. destruct (Z.leb_spec (off + n) (as_u64 (fr_size row))); [|lia].
  by eexists.
Qed.

(** Writing the sender's bytes over a part file keeps it faithful. *)
Lemma write_slice_agrees old content off n b :
  0 ≤ off → 0 ≤ n → off + n ≤ zlen content → 0 ≤ b →
  off ≤ b < off + n ∨ (is_Some (old !! Z.to_nat b) ∧ old !! Z.to_nat b = content !! Z.to_nat b) →
  write_at old off (slice content off n) !! Z.to_nat b = content !! Z.to_nat b.
Proof.
  intros Hoff Hn Hle Hb Hcase.
  pose proof (zlen_slice _ _ _ Hoff Hn Hle) as Hl. unfold zlen in Hl.
  destruct (decide (off ≤ b < off + n)) as [Hin|Hout].
  - rewrite write_at_in by lia. rewrite slice_lookup by lia. f_equal. lia.
  - destruct Hcase as [?|[[x Hx] Heq]]; [done|].
    rewrite (write_at_out _ _ _ _ x); [by rewrite <-Heq|lia|done].
Qed.

Section delivery.
Context {B3 : Blake3} {U : Uuid}.

(** The disk part of receiving one chunk of the sender's file. *)
Lemma receive_chunk_disk r t f content w off n :
  dir_ready (w_fs w) (part_dir r t) → cleaned t ≠ [] → cleaned f ≠ [] →
  part_state r t f content w → 0 ≤ off → 0 < n → off + n ≤ zlen content < 2 ^ 63 →
  ∃ new, let w1 := set_fs w (<[part_path r t f := File new]> (w_fs w)) in
    receive_chunk_with_hash r t f off (slice content off n) (blake3_hex (slice content off n)) w
      = store_put (λ s now, record_verified_chunk s now t f off n (blake3_hex (slice content off n))) w1 ∧
    zlen new ≤ zlen content ∧
    ∀ b, 0 ≤ b < zlen content → off ≤ b < off + n ∨ verified (w_store w) t f b →
      new !! Z.to_nat b = content !! Z.to_nat b.
Proof.
  intros Hready Ht Hf Hpart Hoff Hn [Hle H63]. pose proof Hready as [Hplain _].
  assert (Forall plain (rc_inbox_dir r)) as Hin by (by apply Forall_app in Hplain as [? _]).
  pose proof (zlen_slice content off n Hoff ltac:(lia) Hle) as Hl.
  assert (Hne : slice content off n ≠ []) by (intros Heq; rewrite Heq in Hl; unfold zlen in Hl; simpl in Hl; lia).
  set (old := match w_fs w !! part_path r t f with Some (File old) => old | _ => [] end).
  exists (write_at old off (slice content off n)). split; [|split].
  - unfold receive_chunk_with_hash.
    rewrite !(bool_decide_false _ Hne). cbn [negb ensure]. rewrite SE_lift_Ok.
    rewrite bool_decide_true by done. cbn [ensure]. rewrite SE_lift_Ok.
    rewrite (SE_bind_eq _ _ _ _ _ (incoming_file_path_eq r t f w Ht Hf)). cbv beta.
    assert (Hpar : removelast (part_path r t f) = part_dir r t) by apply removelast_last.
    rewrite Hpar.
    rewrite (SE_bind_eq _ _ _ tt w); [|].
    2: { apply io_fs_Ok. exists (w_fs w). split; [|by destruct w].
         apply create_dir_all_noop. intros q Hq Hpre. rewrite resolve_plain in Hpre by done.
         by apply Hready. }
    cbv beta. rewrite (SE_bind_eq _ _ _ tt (set_fs w (<[part_path r t f := File old]> (w_fs w)))).
    2: { apply io_fs_Ok. eexists. split; [|done]. unfold open_create, parent_check, old.
         rewrite resolve_part by done. rewrite Hpar.
         unfold part_state in Hpart.
         destruct (w_fs w !! part_path r t f) as [[o|]|] eqn:Hp; [by rewrite insert_id|done|].
         destruct (part_dir r t) as [|x xs] eqn:Hpd; [done|].
         rewrite (proj2 Hready); [done| |done]. done. }
    unfold seek. destruct (Z.ltb_spec off (2 ^ 63)); [|lia]. cbn [ensure map_err]. rewrite SE_lift_Ok.
    rewrite (SE_bind_eq _ _ _ tt
      (set_fs w (<[part_path r t f := File (write_at old off (slice content off n))]> (w_fs w)))).
    2: { apply io_fs_Ok. eexists. split; [|done]. unfold write_all_at. simpl.
         rewrite resolve_part, lookup_insert_eq by done. by rewrite insert_insert_eq. }
    cbv beta. by rewrite Hl.
  - rewrite zlen_write_at, Hl by done. unfold part_state in Hpart. fold old in Hpart. unfold old.
    pose proof (zlen_nonneg content).
    destruct (w_fs w !! part_path r t f) as [[o|]|]; [lia|done|change (zlen (@nil Z)) with 0; lia].
  - intros b Hb Hor. apply write_slice_agrees; [lia..|].
    destruct Hor as [?|Hv]; [by left|right]. unfold part_state in Hpart. unfold old.
    destruct (w_fs w !! part_path r t f) as [[o|]|]; [|done|by apply Hpart in Hv].
    destruct Hpart as [_ Heq]. specialize (Heq b Hv). split; [|done]. rewrite Heq.
    apply lookup_lt_is_Some_2. unfold zlen in Hb. lia.
Qed.

Lemma frame_ready r t f w w' :
  frame r t f w w' → dir_ready (w_fs w) (part_dir r t) → dir_ready (w_fs w') (part_dir r t).
Proof.
  intros Hfr [Hp Hd]. split; [done|]. intros q Hq Hpre. rewrite (frame_fs _ _ _ _ _ Hfr); [by apply Hd|].
  intros ->. apply prefix_length in Hpre. unfold part_path in Hpre. rewrite length_app in Hpre.
  simpl in Hpre. lia.
Qed.

(** Receiving a chunk of the sender's file that was not entirely verified. *)
Lemma receive_chunk_step r t f content w off n :
  dir_ready (w_fs w) (part_dir r t) → cleaned t ≠ [] → cleaned f ≠ [] →
  store_wf (w_store w) → row_state t f content w → part_state r t f content w →
  0 ≤ off → 0 < n → off + n ≤ zlen content < 2 ^ 63 →
  (∃ b, off ≤ b < off + n ∧ ¬ verified (w_store w) t f b) →
  ∃ w', receive_chunk_with_hash r t f off (slice content off n) (blake3_hex (slice content off n)) w
          = (Ok tt, w') ∧
    frame r t f w w' ∧ part_state r t f content w' ∧
    ∀ b, verified (w_store w') t f b ↔ verified (w_store w) t f b ∨ off ≤ b < off + n.
Proof.
  intros Hready Ht Hf Hwf (row & Hrow & Hsize) Hpart Hoff Hn Hle Hnew.
  assert (Hoff64 : u64_ok off) by (unfold u64_ok; lia).
  assert (Hn64 : u64_ok n) by (unfold u64_ok; lia).
  destruct (receive_chunk_disk r t f content w off n) as (new & -> & Hlen & Hagree); [done..|].
  destruct (record_verified_chunk_succeeds (w_store w) (w_now w) t f row off n
              (blake3_hex (slice content off n))) as [s' Hs']; [done|lia|lia|lia|].
  pose proof (record_verified_chunk_grows _ _ _ _ _ _ _ _ Hwf Hoff64 Hn64 Hs' Hnew) as Hgrow.
  pose proof (record_verified_chunk_verified _ _ _ _ _ _ _ _ Hwf Hoff64 Hn64 Hs') as Hver.
  destruct (record_verified_chunk_Ok _ _ _ _ _ _ _ _ Hs') as (_ & _ & _ & _ & _ & Hfiles & _ & Hst).
  pose proof (record_verified_chunk_wf _ _ _ _ _ _ _ _ Hwf Hoff64 Hn64 Hs') as Hwf'.
  eexists. split; [apply store_put_Ok; eauto|]. cbn [set_fs set_store w_store w_fs]. split_and!; [|..].
  - split; cbn [set_fs set_store w_store w_fs]; [|exact Hfiles|exact Hst| |].
    + intros q Hq. by rewrite lookup_insert_ne.
    + intros f' b Hne. rewrite Hver. unfold verified. split.
      * intros [[[= ->] _]|(o & x & ? & _ & ?)]; [done|eauto].
      * intros (o & x & ? & ?). right. exists o, x. naive_solver.
    + intros _. exact Hwf'.
  - unfold part_state. cbn [set_fs set_store w_store w_fs]. rewrite lookup_insert_eq.
    split; [done|]. intros b Hb. pose proof Hb as Hb'. apply Hgrow in Hb'.
    apply Hagree; [|tauto].
    rewrite <-Hsize. apply (verified_bounds s' t f row b); [done| |done]. by rewrite Hfiles.
  - apply Hgrow.
Qed.

(** What the receiver does for one range of the sender's file. *)
Definition receive_range (r : NativeTransferReceiver) (t f : rstring) (content : bytes) (rg : ResumeRange) : M unit :=
  receive_chunk_with_hash r t f (offset rg) (slice content (offset rg) (len rg))
    (blake3_hex (slice content (offset rg) (len rg))).

Lemma receive_range_step r t f content w rg :
  dir_ready (w_fs w) (part_dir r t) → cleaned t ≠ [] → cleaned f ≠ [] →
  store_wf (w_store w) → row_state t f content w → part_state r t f content w →
  valid_range (zlen content) rg → zlen content < 2 ^ 63 →
  (∃ b, covers rg b ∧ ¬ verified (w_store w) t f b) →
  ∃ w', receive_range r t f content rg w = (Ok tt, w') ∧ frame r t f w w' ∧ part_state r t f content w' ∧
    ∀ b, verified (w_store w') t f b ↔ verified (w_store w) t f b ∨ covers rg b.
Proof.
  intros Hready Ht Hf Hwf Hrow Hpart (Hoff & Hn & Hle) H63 Hnew. unfold rend in Hle.
  by apply receive_chunk_step.
Qed.

(** Reading a range of a file that has the content. *)
Lemma read_range_slice t p content rg :
  t !! resolve p = Some (File content) → valid_range (zlen content) rg →
  read_range t p (offset rg) (len rg) = Ok (slice content (offset rg) (len rg)).
Proof.
  intros Hsrc (Hoff & Hn & Hle). unfold rend in Hle.
  unfold read_range, read_file. rewrite Hsrc. cbn [mbind result_bind].
  unfold read_exact. destruct (Z.leb_spec (len rg) (zlen (drop (Z.to_nat (offset rg)) content))) as [|Hlt];
    [done|]. unfold zlen in *. rewrite length_drop in Hlt. lia.
Qed.

(** Sending a range out of a source file is receiving its bytes. *)
Lemma send_range_receives r t f content p w rg :
  w_fs w !! resolve p = Some (File content) → valid_range (zlen content) rg → zlen content < 2 ^ 63 →
  send_range r t f p rg w = receive_range r t f content rg w.
Proof.
  intros Hsrc Hv H63. pose proof Hv as (Hoff & Hn & Hle). unfold rend in Hle. unfold send_range, seek.
  destruct (Z.ltb_spec (offset rg) (2 ^ 63)); [|lia]. cbn [ensure map_err]. rewrite SE_lift_Ok.
  rewrite (SE_bind_eq _ _ _ (slice content (offset rg) (len rg)) w); [done|].
  apply io_read_Ok. by rewrite (read_range_slice _ _ content).
Qed.

(** The ranges a sender goes through for a file: chunks of a tiling of the
    file, each with a byte still to be verified, and all of those. *)
Definition ranges_for (s : ManifestStore) (t f : rstring) (size : Z) (rgs : list ResumeRange) : Prop :=
  ∃ chunks, tiles 0 size chunks ∧ rgs `sublist_of` chunks ∧
    ∀ c, c ∈ rgs ↔ c ∈ chunks ∧ ∃ b, covers c b ∧ ¬ verified s t f b.

Lemma sublist_sorted {A} (R : A → A → Prop) l k :
  l `sublist_of` k → StronglySorted R k → StronglySorted R l.
Proof.
  induction 1 as [|x l k Hs IH|x l k Hs IH]; intros Hk; [done| |].
  - apply StronglySorted_inv in Hk as [Hk Hx]. constructor; [auto|].
    rewrite Forall_forall in *. intros y Hy. apply Hx. eapply elem_of_sublist; eauto.
  - apply StronglySorted_inv in Hk as [Hk _]. auto.
Qed.

Lemma sorted_before {A} (R : A → A → Prop) l x k y :
  StronglySorted R (l ++ x :: k) → y ∈ l → R y x.
Proof.
  induction l as [|z l IH]; intros Hs Hy; [by apply elem_of_nil in Hy|].
  apply StronglySorted_inv in Hs as [Hs Hz]. apply elem_of_cons in Hy as [->|Hy]; [|auto].
  rewrite Forall_forall in Hz. apply Hz. set_solver.
Qed.

(** A loop that has each missing range of a file received verifies all its
    bytes. *)
Lemma receive_missing (step : ResumeRange → M unit) r t f content w rgs :
  dir_ready (w_fs w) (part_dir r t) → cleaned t ≠ [] → cleaned f ≠ [] →
  store_wf (w_store w) → row_state t f content w → part_state r t f content w →
  zlen content < 2 ^ 63 → ranges_for (w_store w) t f (zlen content) rgs →
  (∀ rg w1, valid_range (zlen content) rg → frame r t f w w1 → step rg w1 = receive_range r t f content rg w1) →
  ∃ w', for_M step rgs w = (Ok tt, w') ∧ frame r t f w w' ∧
    part_state r t f content w' ∧ ∀ b, 0 ≤ b < zlen content → verified (w_store w') t f b.
Proof.
  intros Hready Ht Hf Hwf Hrow Hpart H63 (chunks & Htiles & Hsub & Hmiss) Hstep.
  pose proof (sublist_sorted _ _ _ Hsub (tiles_ordered _ _ _ Htiles)) as Hsorted.
  destruct (for_M_ind (λ done w1, frame r t f w w1 ∧ part_state r t f content w1 ∧
      ∀ b, verified (w_store w1) t f b ↔ verified (w_store w) t f b ∨ covered done b)
      step rgs w) as (w' & Hrun & Hfr & Hps & Hv).
  - split_and!; [done..|]. intros b. rewrite covered_nil. tauto.
  - intros done rg rest w1 Heq (Hfr & Hps & Hv).
    assert (Hin : rg ∈ rgs) by (rewrite Heq; set_solver).
    apply Hmiss in Hin as [Hc (b & Hb & Hnb)].
    destruct (tiles_bounds _ _ _ _ Htiles Hc) as (? & ? & ?).
    rewrite Hstep by (unfold valid_range; auto).
    destruct (receive_range_step r t f content w1 rg) as (w2 & Hrun & Hfr2 & Hps2 & Hv2); try done.
    + by eapply frame_ready.
    + by eapply frame_wf.
    + unfold row_state. by rewrite (frame_files _ _ _ _ _ Hfr).
    + exists b. split; [done|]. rewrite Hv. intros [?|(d & Hd & Hdb)]; [done|].
      rewrite Heq in Hsorted. pose proof (sorted_before _ _ _ _ _ Hsorted Hd).
      unfold covers in *. lia.
    + exists w2. split; [done|]. split_and!; [by etrans|done|].
      intros b'. rewrite Hv2, Hv, covered_app, covered_one. tauto.
  - exists w'. split_and!; [done..|]. intros b Hb. apply Hv.
    destruct (decide (covered rgs b)) as [|Hnc]; [by right|left].
    apply (tiles_covered _ _ _ b) in Htiles as Ht'. apply Ht' in Hb as (c & Hc & Hcb).
    destruct (decide (c ∈ rgs)) as [Hcr|Hcr]; [exfalso; apply Hnc; by exists c|].
    apply dec_stable. intros Hnv. apply Hcr, Hmiss. eauto.
Qed.

Lemma part_state_full r t f content w :
  0 < zlen content → part_state r t f content w →
  (∀ b, 0 ≤ b < zlen content → verified (w_store w) t f b) →
  w_fs w !! part_path r t f = Some (File content).
Proof.
  intros Hpos Hps Hall. unfold part_state in Hps.
  destruct (w_fs w !! part_path r t f) as [[old|]|]; [|done|].
  - destruct Hps as [Hlen Heq]. do 2 f_equal. apply list_eq. intros i.
    destruct (decide (Z.of_nat i < zlen content)) as [Hi|Hi].
    + rewrite <-(Nat2Z.id i). apply Heq, Hall. lia.
    + unfold zlen in *. rewrite !lookup_ge_None_2 by lia. done.
  - exfalso. apply (Hps 0), Hall. lia.
Qed.

(** ** All files of a request *)

(** A file of the request: its offer, where the sender has it, its bytes. *)
Record job := mkJob { jb_offer : FileOffer; jb_path : path; jb_content : bytes }.
Definition jid (j : job) : rstring := fo_file_id (jb_offer j).
Definition jpart (r : NativeTransferReceiver) (t : rstring) (j : job) : path := part_path r t (jid j).

(** One file while the transfer is under way, as the receiver has it. *)
Record job_open (r : NativeTransferReceiver) (t : rstring) (w : World) (j : job) : Prop := {
  open_id : cleaned (jid j) ≠ [];
  open_size : 0 < zlen (jb_content j) < 2 ^ 63;
  open_row : transfer_files (w_store w) !! (t, jid j) =
    Some (mkFileRow (fo_file_name (jb_offer j)) (as_i64 (zlen (jb_content j))) (fo_blake3 (jb_offer j)));
  open_hash h : fo_blake3 (jb_offer j) = Some h → blake3_hex (jb_content j) = h;
  open_part : part_state r t (jid j) (jb_content j) w
}.

(** The whole transfer while it is under way: the manifest lists exactly the
    request's files, and part files are told apart. *)
Record session_open (r : NativeTransferReceiver) (t : rstring) (jobs : list job) (w : World) : Prop := {
  session_id : cleaned t ≠ [];
  session_dir : dir_ready (w_fs w) (part_dir r t);
  session_wf : store_wf (w_store w);
  session_distinct : NoDup ((λ j, cleaned (jid j)) <$> jobs);
  session_jobs j : j ∈ jobs → job_open r t w j;
  session_rows f row : transfer_files (w_store w) !! (t, f) = Some row → ∃ j, j ∈ jobs ∧ f = jid j;
  session_known : is_Some (transfers (w_store w) !! t)
}.

(** Sender and receiver in the middle of a transfer: the sender can read its
    sources, and no source is a part file. *)
Record session_ready (r : NativeTransferReceiver) (t : rstring) (jobs : list job) (w : World) : Prop := {
  ready_open : session_open r t jobs w;
  ready_sources j : j ∈ jobs → w_fs w !! resolve (jb_path j) = Some (File (jb_content j));
  ready_apart j j' : j ∈ jobs → j' ∈ jobs → resolve (jb_path j) ≠ jpart r t j'
}.

Definition job_done (r : NativeTransferReceiver) (t : rstring) (w : World) (j : job) : Prop :=
  w_fs w !! jpart r t j = Some (File (jb_content j)) ∧
  ∀ b, 0 ≤ b < zlen (jb_content j) → verified (w_store w) t (jid j) b.

(** From [w] to [w'] only the files [fs'] of transfer [t] made progress. *)
Record frames (r : NativeTransferReceiver) (t : rstring) (js : list job) (w w' : World) : Prop := {
  frames_fs q : (∀ j, j ∈ js → q ≠ jpart r t j) → w_fs w' !! q = w_fs w !! q;
  frames_files : transfer_files (w_store w') = transfer_files (w_store w);
  frames_state t' : tr_state <$> transfers (w_store w') !! t' = tr_state <$> transfers (w_store w) !! t';
  frames_verified f b : f ∉ jid <$> js → verified (w_store w') t f b ↔ verified (w_store w) t f b;
  frames_wf : store_wf (w_store w) → store_wf (w_store w')
}.

Lemma frames_refl r t w : frames r t [] w w.
Proof. by split. Qed.

Lemma frames_snoc r t js j w w1 w2 :
  frames r t js w w1 → frame r t (jid j) w1 w2 → frames r t (js ++ [j]) w w2.
Proof.
  intros [Hf Hr Hs Hv Hw] [Hf' Hr' Hs' Hv' Hw']. split.
  - intros q Hq. rewrite Hf', Hf; [done| |].
    + intros j' Hj'. apply Hq. set_solver.
    + apply Hq. set_solver.
  - by rewrite Hr', Hr.
  - intros t'. by rewrite Hs', Hs.
  - intros f b. rewrite fmap_app, not_elem_of_app. intros [? Hn].
    rewrite Hv', Hv; [done..|]. set_solver.
  - auto.
Qed.

Lemma jobs_apart r t jobs done j rest j' :
  NoDup ((λ j, cleaned (jid j)) <$> jobs) → jobs = done ++ j :: rest → j' ∈ done ++ rest →
  jid j' ≠ jid j ∧ jpart r t j' ≠ jpart r t j.
Proof.
  intros Hnd -> Hj'.
  assert (Hne : cleaned (jid j') ≠ cleaned (jid j)).
  { rewrite <-(Permutation_middle done rest j) in Hnd. rewrite fmap_cons, NoDup_cons in Hnd.
    destruct Hnd as [Hn _]. intros Heq. apply Hn. rewrite <-Heq.
    apply (list_elem_of_fmap_2 (λ j, cleaned (jid j))). done. }
  split; [congruence|]. unfold jpart, part_path. intros Heq.
  apply app_inv_head in Heq. injection Heq as Heq. by apply app_inv_tail in Heq.
Qed.

Lemma part_state_ext r t f content w w' :
  w_fs w' !! part_path r t f = w_fs w !! part_path r t f →
  (∀ b, verified (w_store w') t f b ↔ verified (w_store w) t f b) →
  part_state r t f content w → part_state r t f content w'.
Proof.
  intros Hp Hv. unfold part_state. rewrite Hp. destruct (w_fs w !! part_path r t f) as [[]|].
  - intros [? Heq]. split; [done|]. intros i Hb. apply Heq. by apply Hv.
  - done.
  - intros Hn b Hb. apply (Hn b). by apply Hv.
Qed.

Lemma ranges_for_ext s s' t f size rgs :
  (∀ b, verified s' t f b ↔ verified s t f b) → ranges_for s t f size rgs → ranges_for s' t f size rgs.
Proof.
  intros Hv (chunks & ? & ? & Hm). exists chunks. split_and!; [done..|].
  intros c. rewrite Hm. by setoid_rewrite Hv.
Qed.

Lemma missing_ranges_for_file s t f row chunk :
  store_wf s → transfer_files s !! (t, f) = Some row → u64_ok chunk → chunk ≠ 0 →
  ∃ rgs, missing_ranges s t f chunk = Ok rgs ∧ ranges_for s t f (as_u64 (fr_size row)) rgs.
Proof.
  intros Hwf Hrow Hc Hne. pose proof Hc as [? ?].
  destruct (missing_ranges_spec s t f row chunk Hwf Hrow Hc Hne) as (chunks & rgs & Hp & Hm & Hsub & Hi).
  exists rgs. split; [done|]. exists chunks. split_and!; [|done..].
  rewrite plan_chunks_Ok in Hp by lia. apply Ok_inj in Hp as <-.
  apply plan_tiles; [by eapply file_row_u64|lia].
Qed.

Lemma row_size j : 0 < zlen (jb_content j) < 2 ^ 63 → as_u64 (as_i64 (zlen (jb_content j))) = zlen (jb_content j).
Proof. intros. apply as_u64_as_i64. unfold u64_ok. lia. Qed.

(** How [send_ranges] picks the ranges of a file. *)
Definition plan_ok (s : ManifestStore) (t : rstring) (chunk : Z)
    (plan : option (gmap rstring (list ResumeRange))) (j : job) : Prop :=
  match plan ≫= λ plan, plan !! jid j with
  | Some rgs => ranges_for s t (jid j) (zlen (jb_content j)) rgs
  | None => u64_ok chunk ∧ chunk ≠ 0
  end.

Lemma open_row_state r t w j : job_open r t w j → row_state t (jid j) (jb_content j) w.
Proof. intros [_ Hsz Hrow _ _]. eexists. split; [exact Hrow|]. by apply row_size. Qed.

Lemma send_file_step r t chunk plan w j :
  dir_ready (w_fs w) (part_dir r t) → cleaned t ≠ [] → store_wf (w_store w) → job_open r t w j →
  w_fs w !! resolve (jb_path j) = Some (File (jb_content j)) → resolve (jb_path j) ≠ jpart r t j →
  plan_ok (w_store w) t chunk plan j →
  ∃ w', send_file r t chunk plan (jb_offer j, jb_path j) w = (Ok tt, w') ∧
    frame r t (jid j) w w' ∧ job_done r t w' j.
Proof.
  intros Hdir Ht Hwf Hopen Hsrc Hne Hplan. pose proof (open_row_state _ _ _ _ Hopen) as Hrs.
  destruct Hopen as [Hid Hsz Hrow Hh Hpart].
  assert (∃ rgs, ranges_for (w_store w) t (jid j) (zlen (jb_content j)) rgs ∧
    match plan ≫= λ plan, plan !! fo_file_id (jb_offer j) with
    | Some ranges => mret ranges
    | None => receiver_missing_ranges t (fo_file_id (jb_offer j)) chunk
    end w = (Ok rgs, w)) as (rgs & Hrgs & Hpick).
  { unfold plan_ok in Hplan. fold (jid j).
    destruct (plan ≫= λ plan, plan !! jid j) as [rgs|]; [by exists rgs|].
    destruct Hplan as [Hc Hcne].
    destruct (missing_ranges_for_file _ _ _ _ chunk Hwf Hrow Hc Hcne) as (rgs & Hm & Hf).
    exists rgs. cbn [fr_size] in Hf. rewrite row_size in Hf by done. split; [done|].
    unfold receiver_missing_ranges, store_get. by rewrite Hm. }
  destruct (receive_missing (send_range r t (jid j) (jb_path j)) r t (jid j) (jb_content j) w rgs)
    as (w' & Hrun & Hfr & Hps & Hall); [done..|apply Hsz|done| |].
  { intros rg w1 Hv Hfr. apply send_range_receives; [|done|lia].
    by rewrite (frame_fs _ _ _ _ _ Hfr). }
  exists w'. split.
  - unfold send_file. rewrite (SE_bind_eq _ _ _ _ _ Hpick). cbv beta.
    rewrite (SE_bind_eq _ _ _ tt w); [done|]. apply io_read_Ok. unfold open_file. by rewrite Hsrc.
  - split; [done|]. split; [|done]. apply part_state_full; [lia|done..].
Qed.

(** A loop over the files whose body completes a file completes them all. *)
Lemma complete_jobs (step : job → M unit) r t jobs w :
  session_open r t jobs w →
  (∀ done j rest w1, jobs = done ++ j :: rest → frames r t done w w1 →
     dir_ready (w_fs w1) (part_dir r t) → store_wf (w_store w1) → job_open r t w1 j →
     (∀ b, verified (w_store w1) t (jid j) b ↔ verified (w_store w) t (jid j) b) →
     ∃ w2, step j w1 = (Ok tt, w2) ∧ frame r t (jid j) w1 w2 ∧ job_done r t w2 j) →
  ∃ w', for_M step jobs w = (Ok tt, w') ∧ frames r t jobs w w' ∧ ∀ j, j ∈ jobs → job_done r t w' j.
Proof.
  intros [Ht Hdir Hwf Hnd Hjobs _ _] Hstep.
  apply (for_M_ind (λ done w1, frames r t done w w1 ∧ ∀ j, j ∈ done → job_done r t w1 j)).
  { split; [apply frames_refl|]. intros j ?%elem_of_nil. done. }
  intros done j rest w1 Heq [Hfr Hdone].
  assert (Hap : ∀ j', j' ∈ done → jid j' ≠ jid j ∧ jpart r t j' ≠ jpart r t j).
  { intros j' ?. eapply jobs_apart; [done|done|set_solver]. }
  assert (Hsamefs : w_fs w1 !! jpart r t j = w_fs w !! jpart r t j).
  { apply (frames_fs _ _ _ _ _ Hfr). intros j' ?. apply not_eq_sym, Hap. done. }
  assert (Hsamev : ∀ b, verified (w_store w1) t (jid j) b ↔ verified (w_store w) t (jid j) b).
  { intros b. apply (frames_verified _ _ _ _ _ Hfr). intros (j' & Heq' & Hj')%list_elem_of_fmap.
    by apply (proj1 (Hap _ Hj')). }
  destruct (Hjobs j) as [Hid Hsz Hrow Hh Hpart]; [rewrite Heq; set_solver|].
  destruct (Hstep done j rest w1) as (w2 & Hrun & Hfr2 & Hdone2); try done.
  - split; [apply Hdir|]. intros q Hq Hpre. rewrite (frames_fs _ _ _ _ _ Hfr); [by apply Hdir|].
    intros j' _ ->. apply prefix_length in Hpre. unfold jpart, part_path in Hpre.
    rewrite length_app in Hpre. simpl in Hpre. lia.
  - by apply (frames_wf _ _ _ _ _ Hfr).
  - split; [done|done| |done|].
    + by rewrite (frames_files _ _ _ _ _ Hfr).
    + by eapply part_state_ext.
  - exists w2. split; [done|]. split; [by eapply frames_snoc|].
    intros j' [Hj'| ->%list_elem_of_singleton]%elem_of_app; [|done].
    destruct (Hap _ Hj') as [Hi Hp]. destruct (Hdone _ Hj') as [Hf Hv]. split.
    + by rewrite (frame_fs _ _ _ _ _ Hfr2).
    + intros b Hb. apply (frame_verified _ _ _ _ _ Hfr2); auto.
Qed.

Lemma send_jobs r t jobs chunk plan w :
  session_ready r t jobs w → (∀ j, j ∈ jobs → plan_ok (w_store w) t chunk plan j) →
  ∃ w', for_M (send_file r t chunk plan) ((λ j, (jb_offer j, jb_path j)) <$> jobs) w = (Ok tt, w') ∧
    frames r t jobs w w' ∧ ∀ j, j ∈ jobs → job_done r t w' j.
Proof.
  intros [Hopen Hsrc Hap] Hplan. rewrite for_M_fmap. apply complete_jobs; [done|].
  intros done j rest w1 Heq Hfr Hdir Hwf Hj Hv.
  assert (Hin : j ∈ jobs) by (rewrite Heq; set_solver).
  assert (Hsub : ∀ j', j' ∈ done → j' ∈ jobs) by (rewrite Heq; set_solver).
  apply send_file_step; [done|apply Hopen|done|done| |by apply Hap|].
  - rewrite (frames_fs _ _ _ _ _ Hfr); [by apply Hsrc|]. intros j' Hj'. by apply Hap; [|apply Hsub].
  - specialize (Hplan j Hin). unfold plan_ok in *. destruct (plan ≫= _); [|done].
    by eapply ranges_for_ext.
Qed.

(** ** Finishing *)

Definition jname (j : job) : rstring := trim (fo_file_name (jb_offer j)).
Definition jtarget (r : NativeTransferReceiver) (j : job) : path := rc_inbox_dir r ++ [jname j].

(** The inbox has room for the files under their own names. *)
Record inbox_free (r : NativeTransferReceiver) (jobs : list job) (w : World) : Prop := {
  free_names j : j ∈ jobs → safe_file_name (fo_file_name (jb_offer j)) = Ok (jname j) ∧ plain (jname j);
  free_targets j : j ∈ jobs → w_fs w !! jtarget r j = None;
  free_distinct : NoDup (jname <$> jobs)
}.

(** Every file has arrived. *)
Record session_done (r : NativeTransferReceiver) (t : rstring) (jobs : list job) (w : World) : Prop := {
  done_id : cleaned t ≠ [];
  done_ids j : j ∈ jobs → cleaned (jid j) ≠ [];
  done_dir : dir_ready (w_fs w) (part_dir r t);
  done_wf : store_wf (w_store w);
  done_distinct : NoDup ((λ j, cleaned (jid j)) <$> jobs);
  done_jobs j : j ∈ jobs → job_done r t w j;
  done_hash j h : j ∈ jobs → fo_blake3 (jb_offer j) = Some h → blake3_hex (jb_content j) = h;
  done_files mf : mf ∈ files (w_store w) t ↔ ∃ j, j ∈ jobs ∧
    mf = mkManifestFile (jid j) (fo_file_name (jb_offer j)) (zlen (jb_content j)) (fo_blake3 (jb_offer j));
  done_known : is_Some (transfers (w_store w) !! t);
  done_some : jobs ≠ []
}.

Lemma session_done_inbox r t jobs w :
  session_done r t jobs w → dir_ready (w_fs w) (rc_inbox_dir r).
Proof.
  intros Hs. destruct (done_dir _ _ _ _ Hs) as [Hp Hd]. apply Forall_app in Hp as [Hp _].
  split; [done|]. intros q Hq Hpre. apply Hd; [done|]. by apply prefix_app_r.
Qed.

Lemma session_done_complete r t jobs w :
  session_done r t jobs w → transfer_complete (w_store w) t = true.
Proof.
  intros Hs. apply transfer_complete_spec; [apply Hs|]. split.
  - destruct jobs as [|j jobs]; [by destruct (done_some _ _ _ _ Hs)|].
    assert (mkManifestFile (jid j) (fo_file_name (jb_offer j)) (zlen (jb_content j)) (fo_blake3 (jb_offer j))
      ∈ files (w_store w) t) as (row & Hrow & _)%elem_of_files.
    { apply (done_files _ _ _ _ Hs). exists j. split; [left|done]. }
    eauto.
  - intros f row b Hrow Hb.
    assert (mkManifestFile f (fr_file_name row) (as_u64 (fr_size row)) (fr_blake3 row)
      ∈ files (w_store w) t) as Hin by (apply elem_of_files; eauto).
    apply (done_files _ _ _ _ Hs) in Hin as (j & Hj & [= -> _ Hsz _]).
    apply (done_jobs _ _ _ _ Hs _ Hj). lia.
Qed.

Lemma verify_file_succeeds r t jobs w mf :
  session_done r t jobs w → mf ∈ files (w_store w) t → verify_file r t mf w = (Ok tt, w).
Proof.
  intros Hs Hin. pose proof (session_done_inbox _ _ _ _ Hs) as [Hplain _].
  apply (done_files _ _ _ _ Hs) in Hin as (j & Hj & ->).
  pose proof (done_id _ _ _ _ Hs) as Ht. pose proof (done_ids _ _ _ _ Hs _ Hj) as Hid.
  destruct (done_jobs _ _ _ _ Hs _ Hj) as [Hpart _].
  unfold verify_file. cbn [mf_file_id mf_size mf_blake3].
  rewrite (SE_bind_eq _ _ _ _ _ (incoming_file_path_eq r t (jid j) w Ht Hid)). cbv beta.
  rewrite (SE_bind_eq _ _ _ (jb_content j) w).
  2: { apply io_read_Ok. rewrite read_file_Ok, resolve_part by done. done. }
  rewrite Z.eqb_refl. cbn [negb].
  destruct (fo_blake3 (jb_offer j)) as [h|] eqn:Hh; [|done].
  rewrite (done_hash _ _ _ _ Hs _ _ Hj Hh), bool_decide_true by done. done.
Qed.

Lemma publish_file_succeeds r t w mf content :
  dir_ready (w_fs w) (rc_inbox_dir r) → cleaned t ≠ [] → cleaned (mf_file_id mf) ≠ [] →
  w_fs w !! part_path r t (mf_file_id mf) = Some (File content) →
  safe_file_name (mf_file_name mf) = Ok (trim (mf_file_name mf)) → plain (trim (mf_file_name mf)) →
  w_fs w !! (rc_inbox_dir r ++ [trim (mf_file_name mf)]) = None →
  available_target_path (w_fs w) (rc_inbox_dir r) (mf_file_name mf)
    = Ok (rc_inbox_dir r ++ [trim (mf_file_name mf)]) ∧
  ∃ w', publish_file r t mf w = (Ok tt, w').
Proof.
  intros Hd Ht Hid Hpart Hsafe Hpl Hfree. pose proof Hd as [Hplain Hdirs].
  assert (Hav : available_target_path (w_fs w) (rc_inbox_dir r) (mf_file_name mf)
    = Ok (rc_inbox_dir r ++ [trim (mf_file_name mf)])).
  { unfold available_target_path. rewrite Hsafe. cbn [mbind result_bind].
    by rewrite path_exists_plain, Hfree by done. }
  split; [done|]. unfold publish_file.
  rewrite (SE_bind_eq _ _ _ _ _ (incoming_file_path_eq r t _ w Ht Hid)). cbv beta.
  rewrite (SE_bind_eq _ _ _ (rc_inbox_dir r ++ [trim (mf_file_name mf)]) w) by (by rewrite Hav).
  assert (Hpc : parent_check (w_fs w) (rc_inbox_dir r ++ [trim (mf_file_name mf)]) = Ok tt).
  { unfold parent_check. rewrite resolve_plain, removelast_last by (apply Forall_app; auto).
    destruct (rc_inbox_dir r) as [|c cs]; [done|]. by rewrite Hdirs. }
  eexists. apply io_fs_Ok. eexists. split; [|done].
  unfold rename. rewrite resolve_part by done.
  rewrite (resolve_plain (rc_inbox_dir r ++ _)) by (apply Forall_app; auto).
  rewrite Hpart, Hfree, Hpc. done.
Qed.

(** A file of the manifest and the job it belongs to. *)
Lemma done_file_job r t jobs w mf :
  session_done r t jobs w → mf ∈ files (w_store w) t →
  ∃ j, j ∈ jobs ∧ mf_file_id mf = jid j ∧ mf_file_name mf = fo_file_name (jb_offer j).
Proof. intros Hs (j & Hj & ->)%(done_files _ _ _ _ Hs). eauto. Qed.

(** The publishing loop puts every file under its own name. *)
Lemma publish_files_succeeds r t jobs w :
  session_done r t jobs w → inbox_free r jobs w →
  ∃ w', for_M (publish_file r t) (files (w_store w) t) w = (Ok tt, w') ∧
    published r t w (files (w_store w) t)
      ((λ f, rc_inbox_dir r ++ [trim (mf_file_name f)]) <$> files (w_store w) t) w'.
Proof.
  intros Hs Hfree. pose proof (session_done_inbox _ _ _ _ Hs) as Hd.
  apply (for_M_ind (λ done w1, published r t w done
    ((λ f, rc_inbox_dir r ++ [trim (mf_file_name f)]) <$> done) w1)).
  { unfold published. split_and!; try done; [by apply NoDup_nil|]. intros q Hq. by apply elem_of_nil in Hq. }
  intros done mf rest w1 Heq Hpub.
  assert (Hin : mf ∈ files (w_store w) t) by (rewrite Heq; set_solver).
  destruct (done_file_job _ _ _ _ _ Hs Hin) as (j & Hj & Hid & Hname).
  destruct (free_names _ _ _ Hfree _ Hj) as [Hsafe Hplain].
  destruct (done_jobs _ _ _ _ Hs _ Hj) as [Hpart _].
  pose proof (published_ready _ _ _ _ _ _ Hpub Hd) as Hd1.
  assert (Hother : ∀ mf', mf' ∈ done → ∃ j', j' ∈ jobs ∧ mf_file_id mf' = jid j' ∧
    mf_file_name mf' = fo_file_name (jb_offer j') ∧ j' ≠ j).
  { intros mf' Hmf'. destruct (done_file_job r t jobs w mf' Hs) as (j' & ? & ? & ?).
    { rewrite Heq. set_solver. }
    exists j'. split_and!; [done..|]. intros ->.
    pose proof (files_ids_distinct (w_store w) t) as Hnd.
    rewrite Heq, fmap_app, fmap_cons, NoDup_app in Hnd. destruct Hnd as (_ & Hnd & _).
    apply (Hnd (mf_file_id mf')); [by apply list_elem_of_fmap_2|]. rewrite elem_of_cons. left. congruence. }
  destruct Hpub as (Hst & Hnow & Huu & Hnd & Hsame & Hgone & Hf2) eqn:Hp. clear Hp.
  destruct (publish_file_succeeds r t w1 mf (jb_content j)) as [Hav [w2 Hrun]]; try done.
  - apply Hs.
  - rewrite Hid. by apply (done_ids _ _ _ _ Hs).
  - rewrite Hid, Hsame; [exact Hpart| |].
    + intros (mf' & Heq' & _)%list_elem_of_fmap.
      by apply (part_path_not_inbox r t (jid j) (part_path r t (jid j)) (trim (mf_file_name mf')) (or_intror Heq')).
    + intros (mf' & Heq' & Hmf')%list_elem_of_fmap. destruct (Hother _ Hmf') as (j' & Hj' & Hid' & _ & Hne).
      apply Hne. apply (NoDup_fmap_inj_on (λ j, cleaned (jid j)) jobs); [apply Hs|done|done|].
      unfold part_path in Heq'. apply app_inv_head in Heq'. injection Heq' as Heq'.
      apply app_inv_tail in Heq'. rewrite Hid' in Heq'. done.
  - by rewrite Hname.
  - by rewrite Hname.
  - rewrite Hname, Hsame; [by apply (free_targets _ _ _ Hfree)| |].
    + intros (mf' & Heq' & Hmf')%list_elem_of_fmap. destruct (Hother _ Hmf') as (j' & Hj' & _ & Hn' & Hne).
      apply Hne. apply (NoDup_fmap_inj_on jname jobs); [apply Hfree|done|done|].
      apply app_inv_head in Heq'. injection Heq' as Heq'. unfold jname. by rewrite Heq', Hn'.
    + intros (mf' & Heq' & _)%list_elem_of_fmap.
      by apply (part_path_not_inbox r t (mf_file_id mf') _ (trim (fo_file_name (jb_offer j))) (or_intror eq_refl)).
  - exists w2. split; [done|].
    destruct (published_step r t w done _ mf w1 w2 Hpub Hd) as (target & Hav' & Hpub2);
      [apply Hs|rewrite Hid; by apply (done_ids _ _ _ _ Hs)|done|].
    rewrite Hav in Hav'. apply Ok_inj in Hav' as <-. by rewrite fmap_app.
Qed.

Lemma finish_succeeds r t jobs w :
  session_done r t jobs w → inbox_free r jobs w →
  ∃ w', finish_transfer r t w = (Ok tt, w') ∧
    (∀ j, j ∈ jobs → w_fs w' !! jtarget r j = Some (File (jb_content j))) ∧
    state (w_store w') t = Ok (Some Completed).
Proof.
  intros Hs Hfree. pose proof (session_done_inbox _ _ _ _ Hs) as Hd.
  pose proof (session_done_complete _ _ _ _ Hs) as Hcomp.
  destruct (publish_files_succeeds _ _ _ _ Hs Hfree) as (w1 & Hpub & Hst & Hnow & _ & _ & _ & _ & Hf2).
  destruct (done_known _ _ _ _ Hs) as [row Hrow].
  assert (∃ s, set_state (w_store w) (w_now w) t Completed = Ok s) as [s Hset].
  { eexists. apply set_state_Ok. eauto. }
  exists (set_store w1 s). split_and!.
  - unfold finish_transfer. rewrite (SE_bind_eq _ _ w true w) by (unfold gets; by rewrite Hcomp).
    cbn [negb]. rewrite (SE_bind_eq _ _ w (files (w_store w) t) w) by done. cbv beta.
    rewrite (SE_bind_eq _ _ w tt w).
    2: { destruct (for_M_ind (λ _ w1, w1 = w) (verify_file r t) (files (w_store w) t) w)
           as (w2 & Hrun & ->); [done| |done].
         intros done mf rest w2 Heq ->. exists w. split; [|done].
         apply (verify_file_succeeds r t jobs); [done|]. rewrite Heq. set_solver. }
    rewrite (SE_bind_eq _ _ w tt w).
    2: { apply io_fs_Ok. exists (w_fs w). split; [|by destruct w]. apply create_dir_all_noop.
         intros q ? Hpre. rewrite resolve_plain in Hpre by apply Hd. by apply Hd. }
    rewrite (SE_bind_eq _ _ _ _ _ Hpub). apply store_put_Ok. exists s. by rewrite Hst, Hnow.
  - intros j Hj. set (mf := mkManifestFile (jid j) (fo_file_name (jb_offer j)) (zlen (jb_content j))
      (fo_blake3 (jb_offer j))).
    assert (Hin : mf ∈ files (w_store w) t) by (apply (done_files _ _ _ _ Hs); eauto).
    apply list_elem_of_lookup in Hin as [i Hi].
    destruct (Forall2_lookup_l _ _ _ _ _ Hf2 Hi) as (target & Htg & base & b & _ & _ & _ & _ & Hb & Hout).
    rewrite list_lookup_fmap, Hi in Htg. injection Htg as <-.
    destruct (done_jobs _ _ _ _ Hs _ Hj) as [Hpart _]. unfold jpart in Hpart.
    cbn [mf mf_file_id mf_file_name] in *. rewrite Hpart in Hb. injection Hb as <-. exact Hout.
  - apply set_state_Ok in Hset as (_ & row' & _ & ->). unfold state. cbn [set_store w_store transfers].
    by rewrite lookup_insert_eq.
Qed.

(** The transfer after all ranges were sent. *)
Lemma session_open_done r t jobs w w' :
  session_open r t jobs w → jobs ≠ [] → frames r t jobs w w' →
  (∀ j, j ∈ jobs → job_done r t w' j) → session_done r t jobs w'.
Proof.
  intros [Ht Hdir Hwf Hnd Hjobs Hrows Hknown] Hne Hfr Hdone. split; try done.
  - intros j Hj. apply (Hjobs j Hj).
  - split; [apply Hdir|]. intros q Hq Hpre. rewrite (frames_fs _ _ _ _ _ Hfr); [by apply Hdir|].
    intros j' _ ->. apply prefix_length in Hpre. unfold jpart, part_path in Hpre.
    rewrite length_app in Hpre. simpl in Hpre. lia.
  - by apply (frames_wf _ _ _ _ _ Hfr).
  - intros j h Hj. apply (Hjobs j Hj).
  - intros mf. rewrite elem_of_files, (frames_files _ _ _ _ _ Hfr). split.
    + intros (row & Hrow & Hmf). destruct (Hrows _ _ Hrow) as (j & Hj & Hid).
      exists j. split; [done|]. destruct (Hjobs j Hj) as [_ Hsz Hrow' _ _].
      rewrite Hid, Hrow' in Hrow. injection Hrow as <-. rewrite Hmf, Hid. cbn [fr_file_name fr_size fr_blake3].
      by rewrite row_size.
    + intros (j & Hj & ->). destruct (Hjobs j Hj) as [_ Hsz Hrow' _ _]. eexists.
      cbn [mf_file_id]. split; [exact Hrow'|]. cbn [fr_file_name fr_size fr_blake3]. by rewrite row_size.
  - pose proof (frames_state _ _ _ _ _ Hfr t) as Hst. destruct Hknown as [row Hrow].
    rewrite Hrow in Hst. destruct (transfers (w_store w') !! t); [eauto|done].
Qed.

Lemma inbox_free_frames r t jobs js w w' :
  frames r t js w w' → inbox_free r jobs w → inbox_free r jobs w'.
Proof.
  intros Hfr [Hn Ht Hd]. split; [done| |done]. intros j Hj.
  rewrite (frames_fs _ _ _ _ _ Hfr); [by apply Ht|]. intros j' _.
  apply (part_path_not_inbox _ _ _ _ (jname j)). by right.
Qed.

(** From any point of a transfer, sending the missing ranges and finishing. *)
Lemma complete_session r t jobs chunk plan w :
  session_ready r t jobs w → inbox_free r jobs w → jobs ≠ [] →
  (∀ j, j ∈ jobs → plan_ok (w_store w) t chunk plan j) →
  ∃ w', (_ ← send_ranges r (mkRequestTransfer t (jb_offer <$> jobs)) (jb_path <$> jobs) chunk plan;
         finish_transfer r t) w = (Ok tt, w') ∧
    (∀ j, j ∈ jobs → w_fs w' !! jtarget r j = Some (File (jb_content j))) ∧
    state (w_store w') t = Ok (Some Completed).
Proof.
  intros Hs Hfree Hne Hplan.
  destruct (send_jobs _ _ _ _ _ _ Hs Hplan) as (w1 & Hrun & Hfr & Hdone).
  destruct (finish_succeeds r t jobs w1) as (w' & Hfin & Hout);
    [eapply session_open_done; [apply Hs|done..]|by eapply inbox_free_frames|].
  exists w'. split; [|done]. rewrite (SE_bind_eq _ _ _ tt w1); [exact Hfin|].
  unfold send_ranges. cbn [rt_transfer_id rt_files].
  rewrite <-Hrun. f_equal. clear. induction jobs as [|j jobs IH]; [done|].
  cbn [fmap list_fmap zip_with]. by f_equal.
Qed.

(** ** Resuming *)

Lemma resume_plan_Ok s t chunk :
  store_wf s → u64_ok chunk → chunk ≠ 0 →
  ∃ plan, resume_plan s t chunk = Ok plan ∧
    ∀ f row, transfer_files s !! (t, f) = Some row →
      ∃ rgs, rp_missing plan !! f = Some rgs ∧ ranges_for s t f (as_u64 (fr_size row)) rgs.
Proof.
  intros Hwf Hc Hne.
  set (step := λ (missing : gmap rstring (list ResumeRange)) file, ranges ← missing_ranges s t (mf_file_id file) chunk;
               Ok (<[mf_file_id file := ranges]> missing)).
  assert (Hgen : ∀ l acc, (∀ mf, mf ∈ l → mf ∈ files s t) → ∃ m, for_each step acc l = Ok m ∧
    (∀ mf, mf ∈ l → ∃ rgs, m !! mf_file_id mf = Some rgs ∧ missing_ranges s t (mf_file_id mf) chunk = Ok rgs) ∧
    ∀ k, k ∉ mf_file_id <$> l → m !! k = acc !! k).
  { induction l as [|mf l IH]; intros acc Hl.
    { exists acc. split_and!; [done| |done]. intros mf ?%elem_of_nil. done. }
    assert (mf ∈ files s t) as (row & Hrow & _)%elem_of_files by (apply Hl; left).
    destruct (missing_ranges_for_file _ _ _ _ _ Hwf Hrow Hc Hne) as (rgs & Hm & _).
    destruct (IH (<[mf_file_id mf := rgs]> acc)) as (m & Hrun & Hin & Hout).
    { intros. apply Hl. by right. }
    exists m. cbn [for_each].
    assert (step acc mf = Ok (<[mf_file_id mf := rgs]> acc)) as -> by (unfold step; by rewrite Hm).
    cbn [mbind result_bind]. split_and!; [done| |].
    - intros mf' [->|Hmf']%elem_of_cons; [|by apply Hin].
      destruct (decide (mf_file_id mf ∈ mf_file_id <$> l)) as [Hi|Hni].
      + apply list_elem_of_fmap in Hi as (mf2 & -> & H2). by apply Hin.
      + exists rgs. by rewrite Hout, lookup_insert_eq.
    - intros k. rewrite fmap_cons, not_elem_of_cons. intros [??]. by rewrite Hout, lookup_insert_ne. }
  destruct (Hgen (files s t) ∅) as (m & Hrun & Hin & _); [done|].
  exists (mkResumePlan t m). split; [unfold resume_plan; fold step; by rewrite Hrun|].
  intros f row Hrow.
  destruct (Hin (mkManifestFile f (fr_file_name row) (as_u64 (fr_size row)) (fr_blake3 row)))
    as (rgs & Hm & Hmiss); [apply elem_of_files; eauto|].
  exists rgs. split; [done|].
  destruct (missing_ranges_for_file _ _ _ _ _ Hwf Hrow Hc Hne) as (rgs' & Hm' & Hf).
  cbn [mf_file_id] in Hmiss. rewrite Hm' in Hmiss. by apply Ok_inj in Hmiss as <-.
Qed.


(** ** Sending *)

(** The request [prepare_request] builds for the files at given paths. *)
Fixpoint jobs_from (index : Z) (sources : list (path * bytes)) : list job :=
  match sources with
  | [] => []
  | (p, content) :: sources =>
    mkJob (mkFileOffer (str "file-" ++ show_dec index) (default [] (last p)) (zlen content)
             (Some (blake3_hex content))) p content
    :: jobs_from (index + 1) sources
  end.

Lemma jobs_from_elem index sources j :
  0 ≤ index → j ∈ jobs_from index sources →
  (∃ k, index ≤ k ∧ jid j = str "file-" ++ show_dec k) ∧ (jb_path j, jb_content j) ∈ sources ∧
  fo_file_name (jb_offer j) = default [] (last (jb_path j)) ∧
  fo_size (jb_offer j) = zlen (jb_content j) ∧ fo_blake3 (jb_offer j) = Some (blake3_hex (jb_content j)).
Proof.
  revert index. induction sources as [|[p c] sources IH]; intros index Hi; [by intros ?%elem_of_nil|].
  intros [->|Hj]%elem_of_cons.
  - split_and!; [by exists index|left|done..].
  - destruct (IH (index + 1) ltac:(lia) Hj) as ((k & ? & ?) & ? & ?).
    split_and!; [exists k; split; [lia|done]|by right|tauto..].
Qed.

Lemma cleaned_file_id k : cleaned (str "file-" ++ show_dec k) = str "file-" ++ show_dec k.
Proof.
  assert (Hgen : ∀ s, Forall (λ c, component_char c = true) s → cleaned s = s).
  { unfold cleaned. induction 1 as [|c s Hc Hs IH]; [done|]. by rewrite filter_cons_True, IH. }
  apply Hgen, Forall_app. split; [by repeat constructor|].
  eapply Forall_impl; [apply show_dec_digits|]. intros c Hc.
  unfold component_char, is_ascii_alphanumeric. by rewrite Hc.
Qed.

Lemma file_id_ne k : str "file-" ++ show_dec k ≠ [].
Proof. done. Qed.

Lemma jobs_from_distinct index sources :
  0 ≤ index → NoDup ((λ j, cleaned (jid j)) <$> jobs_from index sources) ∧
  NoDup (fo_file_id <$> (jb_offer <$> jobs_from index sources)).
Proof.
  assert (Hnew : ∀ index sources, 0 ≤ index → ∀ j, j ∈ jobs_from (index + 1) sources →
    jid j ≠ str "file-" ++ show_dec index ∧ cleaned (jid j) = jid j).
  { intros i srcs Hi j Hj. destruct (jobs_from_elem (i + 1) srcs j) as ((k & ? & Hk) & _); [lia|done|].
    rewrite Hk. split; [|apply cleaned_file_id].
    intros Heq%app_inv_head%show_dec_inj; lia. }
  revert index. induction sources as [|[p c] sources IH]; intros index Hi.
  { split; constructor. }
  destruct (IH (index + 1)) as [H1 H2]; [lia|]. cbn [jobs_from]. rewrite !fmap_cons, !NoDup_cons.
  cbn [jid jb_offer fo_file_id]. unfold jid at 1. cbn [jb_offer fo_file_id]. rewrite cleaned_file_id.
  split_and!; [|done| |done].
  - intros (j & Heq & Hj)%list_elem_of_fmap. destruct (Hnew index sources Hi j Hj) as [Hne Hc].
    unfold jid in *. cbv beta in Heq. rewrite Hc in Heq. by apply Hne.
  - intros (o & Heq & (j & -> & Hj)%list_elem_of_fmap)%list_elem_of_fmap.
    destruct (Hnew index sources Hi j Hj) as [Hne Hc]. by apply Hne.
Qed.

Lemma cleaned_not_blank v : cleaned v ≠ [] → is_blank v = false.
Proof.
  intros Hne. destruct (cleaned v) as [|c cs] eqn:Hc; [done|].
  assert (Hin : c ∈ cleaned v) by (rewrite Hc; left).
  pose proof (cleaned_chars _ _ Hin) as Hch.
  apply (is_blank_false v c); [by apply list_elem_of_filter in Hin as [_ ?]|].
  unfold component_char, is_ascii_alphanumeric, is_ascii_digit, is_ascii_uppercase, is_ascii_lowercase in Hch.
  unfold is_whitespace. repeat rewrite ?orb_true_iff, ?andb_true_iff, ?Z.leb_le, ?Z.eqb_eq in Hch.
  apply not_true_is_false. repeat rewrite ?orb_true_iff, ?andb_true_iff, ?Z.leb_le, ?Z.eqb_eq. lia.
Qed.

(** What the receiver needs for a new transfer: a trusted sender, an honest
    request with usable names, a new transfer id, a writable inbox with free
    names. *)
Record recv_ready (r : NativeTransferReceiver) (peer : NativePeerInfo) (t : rstring) (jobs : list job)
    (w : World) : Prop := {
  recv_trusted : rc_blocked r = false ∧ rc_trusted_peer_fingerprint r = Some (pi_fingerprint peer) ∧
    is_blank (pi_fingerprint peer) = false;
  recv_some : jobs ≠ [];
  recv_ids : NoDup ((λ j, cleaned (jid j)) <$> jobs);
  recv_jobs j : j ∈ jobs → cleaned (jid j) ≠ [] ∧ 0 < zlen (jb_content j) < 2 ^ 63 ∧
    fo_size (jb_offer j) = zlen (jb_content j) ∧
    (∀ h, fo_blake3 (jb_offer j) = Some h → blake3_hex (jb_content j) = h);
  recv_id : cleaned t ≠ [];
  recv_fresh : transfers (w_store w) !! t = None;
  recv_no_part f : w_fs w !! part_path r t f = None;
  recv_wf : store_wf (w_store w);
  recv_plain : Forall plain (rc_inbox_dir r);
  recv_dirs q b : q `prefix_of` part_dir r t → w_fs w !! q ≠ Some (File b);
  recv_free : inbox_free r jobs w;
  recv_names j : j ∈ jobs → jname j ≠ str ".incoming"
}.

Lemma offers_valid r peer t jobs w :
  recv_ready r peer t jobs w → validate_transfer_request (mkRequestTransfer t (jb_offer <$> jobs)) = Ok tt.
Proof.
  intros Hs. apply validate_transfer_request_Ok. cbn [rt_transfer_id rt_files].
  pose proof (recv_some _ _ _ _ _ Hs) as Hne. split_and!.
  - by apply cleaned_not_blank, Hs.
  - by destruct jobs.
  - apply Forall_forall. intros o (j & -> & Hj)%list_elem_of_fmap. split.
    + by apply cleaned_not_blank, (recv_jobs _ _ _ _ _ Hs).
    + destruct (free_names _ _ _ (recv_free _ _ _ _ _ Hs) j Hj) as [Hsafe _].
      apply safe_file_name_Ok in Hsafe as (_ & _ & Hn). unfold is_blank. by apply bool_decide_eq_false.
  - apply (NoDup_fmap_1 cleaned). rewrite <-!list_fmap_compose. apply Hs.
Qed.

(** The store right after the transfer was created. *)
Lemma fresh_unverified s t f b : store_wf s → transfers s !! t = None → ¬ verified s t f b.
Proof.
  intros Hwf Ht (o & row & Hrow & _).
  destruct (wf_chunks _ Hwf _ _ _ _ Hrow) as (frow & _ & _ & Hf & _).
  destruct (wf_files _ Hwf _ _ _ Hf) as [[??] _]. congruence.
Qed.

(** The transfer is open and nothing of it is verified. *)
Definition session_new (r : NativeTransferReceiver) (t : rstring) (jobs : list job) (w w1 : World) : Prop :=
  session_open r t jobs w1 ∧ inbox_free r jobs w1 ∧ (∀ f b, ¬ verified (w_store w1) t f b) ∧
  ∀ q, ¬ q `prefix_of` part_dir r t → w_fs w1 !! q = w_fs w !! q.

Lemma fresh_session r peer t jobs w t1 s2 u :
  recv_ready r peer t jobs w →
  create_dir_all (w_fs w) (part_dir r t) = Ok t1 → store_wf s2 →
  verified_chunks s2 = verified_chunks (w_store w) → is_Some (transfers s2 !! t) →
  (∀ f, f ∈ jb_offer <$> jobs → transfer_files s2 !! (t, fo_file_id f) = Some (offer_row f)) →
  (∀ f row, transfer_files s2 !! (t, f) = Some row → f ∈ fo_file_id <$> (jb_offer <$> jobs)) →
  session_new r t jobs w (mkWorld t1 s2 u (w_now w)).
Proof.
  intros Hs Hmk Hwf2 Hvc Hknown Hrows Honly. pose proof (recv_id _ _ _ _ _ Hs) as Hid.
  assert (Hpd : Forall plain (part_dir r t)) by (apply part_dir_plain; [apply Hs|done]).
  pose proof (create_inbox_ready _ _ _ Hpd Hmk) as [Hready Hsame].
  assert (Hnv : ∀ f b, ¬ verified s2 t f b).
  { intros f b. unfold verified. rewrite Hvc. apply fresh_unverified; apply Hs. }
  split; [|split; [|split]]; [split| | |]; try done; cbn [w_fs w_store].
  - apply Hs.
  - intros j Hj. destruct (recv_jobs _ _ _ _ _ Hs j Hj) as (Hc & Hsz & Hfs & Hh).
    split; cbn [w_fs w_store]; [done|done| |done|].
    + unfold jid. rewrite Hrows by (by apply list_elem_of_fmap_2). unfold offer_row. by rewrite Hfs.
    + unfold part_state. cbn [w_fs w_store]. rewrite Hsame, (recv_no_part _ _ _ _ _ Hs); [done|].
      intros Hpre%prefix_length. unfold part_path in Hpre. rewrite length_app in Hpre. simpl in Hpre. lia.
  - intros f row Hrow. apply Honly in Hrow as (o & -> & (j & -> & Hj)%list_elem_of_fmap)%list_elem_of_fmap.
    by exists j.
  - split; cbn [w_fs w_store]; [apply Hs| |apply Hs].
    intros j Hj. rewrite Hsame; [by apply (recv_free _ _ _ _ _ Hs)|]. intros [k Hk].
    unfold part_dir, jtarget in Hk. rewrite <-app_assoc in Hk. apply app_inv_head in Hk.
    injection Hk as Hk _. by apply (recv_names _ _ _ _ _ Hs j Hj).
Qed.

(** A new request is accepted and leaves the transfer open. *)
Lemma accept_ready r peer t jobs w :
  recv_ready r peer t jobs w →
  ∃ w1, accept_transfer r peer (mkRequestTransfer t (jb_offer <$> jobs)) w
          = (Ok (mkAcceptTransfer t (rc_chunk_size r)), w1) ∧ session_new r t jobs w w1.
Proof.
  intros Hs. pose proof (offers_valid _ _ _ _ _ Hs) as Hval.
  destruct (recv_trusted _ _ _ _ _ Hs) as (Hnb & Htr & Hfp).
  pose proof (recv_id _ _ _ _ _ Hs) as Hid. pose proof (recv_wf _ _ _ _ _ Hs) as Hwf.
  pose proof (proj1 (validate_transfer_request_Ok _) Hval) as (_ & _ & _ & Hnd).
  pose proof (recv_some _ _ _ _ _ Hs) as Hne.
  assert (Hpd : Forall plain (part_dir r t)) by (apply part_dir_plain; [apply Hs|done]).
  assert (Hone : jb_offer <$> jobs ≠ []) by (by destruct jobs).
  destruct (create_dir_all_succeeds (w_fs w) (part_dir r t)) as [t1 Hmk].
  { rewrite resolve_plain by done. apply Hs. }
  destruct (create_transfer_succeeds (w_store w) (w_now w) t (pi_fingerprint peer) Receive
    (jb_offer <$> jobs)) as (s1 & row & Hct & Htrs & Hvc & Hrows & Honly);
    [done|apply Hs|by apply cleaned_not_blank|done..|].
  assert (Hwf1 : store_wf s1).
  { eapply create_transfer_wf; [exact Hwf| |exact Hct]. apply Forall_forall.
    intros o (j & -> & Hj)%list_elem_of_fmap.
    destruct (recv_jobs _ _ _ _ _ Hs j Hj) as (_ & ? & -> & _). unfold u64_ok. lia. }
  assert (∃ s2, set_state s1 (w_now w) t Active = Ok s2) as [s2 Hset].
  { eexists. apply set_state_Ok. split; [done|]. exists row. rewrite Htrs, lookup_insert_eq. done. }
  pose proof Hset as (_ & row' & Hrow' & Hs2)%set_state_Ok.
  exists (mkWorld t1 s2 (w_uuid w) (w_now w)). split.
  - unfold accept_transfer. cbn [rt_transfer_id rt_files].
    rewrite Hnb. cbn [negb ensure]. rewrite SE_lift_Ok, Htr, bool_decide_true by done. cbn [ensure].
    rewrite SE_lift_Ok, Hval, SE_lift_Ok.
    unfold incoming_dir, safe_component. rewrite bool_decide_false by done.
    rewrite (SE_bind_eq _ _ _ (part_dir r t) w) by done. cbv beta.
    rewrite (SE_bind_eq _ _ _ tt (set_fs w t1)) by (apply io_fs_Ok; eauto).
    rewrite (SE_bind_eq _ _ _ None (set_fs w t1)).
    2: { unfold store_get, state. cbn [set_fs w_store]. by rewrite (recv_fresh _ _ _ _ _ Hs). }
    rewrite (SE_bind_eq _ _ _ tt (set_store (set_fs w t1) s1)) by (apply store_put_Ok; eauto).
    rewrite (SE_bind_eq _ _ _ tt (set_store (set_fs w t1) s2)) by (apply store_put_Ok; eauto). done.
  - apply (fresh_session _ peer _ _ _ _ _ _ Hs Hmk); subst s2; cbn [transfers transfer_files verified_chunks].
    + by apply (set_state_wf s1 (w_now w) t Active).
    + done.
    + by rewrite lookup_insert_eq.
    + done.
    + done.
Qed.

(** What a first send needs: a trusted sender, readable nonempty sources with
    a file name, a new transfer id, a writable inbox with free names. *)
Record send_ready (sender : NativeTransferSender) (r : NativeTransferReceiver) (peer : NativePeerInfo)
    (sources : list (path * bytes)) (w : World) : Prop := {
  send_chunk : sd_chunk_size sender ≠ 0;
  send_rchunk : u64_ok (rc_chunk_size r) ∧ rc_chunk_size r ≠ 0;
  send_trusted : rc_blocked r = false ∧ rc_trusted_peer_fingerprint r = Some (pi_fingerprint peer) ∧
    is_blank (pi_fingerprint peer) = false;
  send_some : sources ≠ [];
  send_sources p c : (p, c) ∈ sources →
    w_fs w !! resolve p = Some (File c) ∧ 0 < zlen c < 2 ^ 63 ∧ is_ok (file_name p) = true;
  send_id : cleaned (new_v4 (w_uuid w)) ≠ [];
  send_fresh : transfers (w_store w) !! new_v4 (w_uuid w) = None;
  send_no_part f : w_fs w !! part_path r (new_v4 (w_uuid w)) f = None;
  send_wf : store_wf (w_store w);
  send_plain : Forall plain (rc_inbox_dir r);
  send_dirs q b : q `prefix_of` part_dir r (new_v4 (w_uuid w)) → w_fs w !! q ≠ Some (File b);
  send_free : inbox_free r (jobs_from 0 sources) w;
  send_names j : j ∈ jobs_from 0 sources → jname j ≠ str ".incoming"
}.

Lemma file_name_last p : is_ok (file_name p) = true → file_name p = Ok (default [] (last p)).
Proof.
  unfold file_name, component_file_name. destruct (last p) as [c|]; [|done]. simpl. by case_bool_decide.
Qed.

Lemma prepare_files_Ok t index sources :
  (∀ p c, (p, c) ∈ sources → t !! resolve p = Some (File c) ∧ is_ok (file_name p) = true) →
  prepare_files_loop t index (sources.*1) = Ok (jb_offer <$> jobs_from index sources).
Proof.
  revert index. induction sources as [|[p c] sources IH]; intros index Hs; [done|].
  destruct (Hs p c) as [Hr Hn]; [left|]. cbn [fmap list_fmap fst prepare_files_loop jobs_from].
  rewrite (proj2 (read_file_Ok t p c) Hr). cbn [map_err mbind result_bind].
  rewrite (file_name_last p Hn). cbn [mbind result_bind].
  rewrite IH by (intros; apply Hs; by right). done.
Qed.

Lemma jobs_from_ne index sources : sources ≠ [] → jobs_from index sources ≠ [].
Proof. by destruct sources as [|[??] ?]. Qed.

Lemma jobs_from_sources index sources :
  jb_path <$> jobs_from index sources = sources.*1.
Proof.
  revert index. induction sources as [|[p c] sources IH]; intros index; [done|].
  cbn [jobs_from fmap list_fmap]. f_equal. apply IH.
Qed.

(** [prepare_request] on readable sources. *)
Lemma prepare_request_Ok sources w :
  (∀ p c, (p, c) ∈ sources → w_fs w !! resolve p = Some (File c) ∧ is_ok (file_name p) = true) →
  prepare_request (sources.*1) w =
    (Ok (mkRequestTransfer (new_v4 (w_uuid w)) (jb_offer <$> jobs_from 0 sources)),
     mkWorld (w_fs w) (w_store w) (S (w_uuid w)) (w_now w)).
Proof.
  intros Hs. unfold prepare_request.
  rewrite (SE_bind_eq _ _ _ (jb_offer <$> jobs_from 0 sources) w); [done|].
  by rewrite prepare_files_Ok.
Qed.

Lemma send_recv_ready sender r peer sources w u :
  send_ready sender r peer sources w →
  recv_ready r peer (new_v4 (w_uuid w)) (jobs_from 0 sources) (mkWorld (w_fs w) (w_store w) u (w_now w)).
Proof.
  intros Hs. split; cbn [w_fs w_store]; try apply Hs.
  - apply jobs_from_ne, Hs.
  - apply jobs_from_distinct. lia.
  - intros j Hj. destruct (jobs_from_elem 0 sources j) as ((k & _ & Hk) & Hin & _ & Hfs & Hfb); [lia|done|].
    destruct (send_sources _ _ _ _ _ Hs _ _ Hin) as (_ & Hsz & _). split_and!; [|lia..|done|].
    + by rewrite Hk, cleaned_file_id.
    + intros h. rewrite Hfb. by intros [= <-].
  - split; apply (send_free _ _ _ _ _ Hs).
Qed.

(** A first send delivers: the call returns the transfer id, every source
    file is in the inbox under its name with the same bytes, and the transfer
    is marked completed. *)
Theorem send_delivers sender r peer sources w :
  send_ready sender r peer sources w →
  ∃ w', send_files_to_receiver sender r peer (sources.*1) w = (Ok (new_v4 (w_uuid w)), w') ∧
    (∀ j, j ∈ jobs_from 0 sources → w_fs w' !! jtarget r j = Some (File (jb_content j))) ∧
    state (w_store w') (new_v4 (w_uuid w)) = Ok (Some Completed).
Proof.
  intros Hs.
  destruct (accept_ready _ _ _ _ _ (send_recv_ready _ _ _ _ _ (S (w_uuid w)) Hs))
    as (w1 & Hacc & Hopen & Hfree & _ & Hsame). cbn [w_fs] in Hsame.
  assert (Hready : session_ready r (new_v4 (w_uuid w)) (jobs_from 0 sources) w1).
  { assert (Hsrc : ∀ j, j ∈ jobs_from 0 sources → w_fs w !! resolve (jb_path j) = Some (File (jb_content j))).
    { intros j Hj. destruct (jobs_from_elem 0 sources j) as (_ & Hin & _); [lia|done|]. by apply (send_sources _ _ _ _ _ Hs). }
    split; [done| |].
    - intros j Hj. rewrite Hsame; [by apply Hsrc|]. intros Hpre.
      by apply (send_dirs _ _ _ _ _ Hs _ (jb_content j)) in Hpre; apply Hpre, Hsrc.
    - intros j j' Hj _ Heq. apply Hsrc in Hj. rewrite Heq in Hj. unfold jpart in Hj.
      by rewrite (send_no_part _ _ _ _ _ Hs) in Hj. }
  destruct (complete_session r (new_v4 (w_uuid w)) (jobs_from 0 sources) (rc_chunk_size r) None w1)
    as (w' & Hrun & Hout); [done|done|apply jobs_from_ne, Hs|intros; apply Hs|].
  exists w'. split; [|done]. unfold send_files_to_receiver.
  destruct (Z.eqb_spec (sd_chunk_size sender) 0); [by destruct (send_chunk _ _ _ _ _ Hs)|].
  cbn [negb ensure]. rewrite SE_lift_Ok, bool_decide_false.
  2: { pose proof (send_some _ _ _ _ _ Hs). by destruct sources. }
  cbn [negb ensure]. rewrite SE_lift_Ok.
  rewrite (SE_bind_eq _ _ _ _ _ (prepare_request_Ok sources w ltac:(intros p c Hin;
    by destruct (send_sources _ _ _ _ _ Hs p c Hin) as (? & _ & ?)))).
  cbv beta. rewrite (SE_bind_eq _ _ _ _ _ Hacc). cbn [at_chunk_size rt_transfer_id].
  rewrite jobs_from_sources in Hrun.
  apply SE_bind_Ok in Hrun as ([] & w2 & Hsend & Hfin).
  by rewrite (SE_bind_eq _ _ _ _ _ Hsend), (SE_bind_eq _ _ _ _ _ Hfin).
Qed.
End delivery.
