(* ===== verification/Inet.v ===== *)
(** * Socket addresses

    What the program uses of [std::net]: [SocketAddr], its order, its text
    form and [str::parse::<SocketAddr>()], for IPv4 and IPv6. *)

From stdpp Require Import prelude strings pretty.
From Stdlib Require Import ZArith Lia.
From S2P Require Import Prelude RustStr.

Local Open Scope Z_scope.

Inductive IpAddr :=
| IpV4 (a b c d : Z)
| IpV6 (segments : list Z).

Inductive SocketAddr :=
| SockV4 (a b c d : Z) (port : Z)
| SockV6 (segments : list Z) (port flowinfo scope_id : Z).

#[export] Instance IpAddr_eq_dec : EqDecision IpAddr.
Proof. solve_decision. Defined.
#[export] Instance SocketAddr_eq_dec : EqDecision SocketAddr.
Proof. solve_decision. Defined.

Definition sock_port (s : SocketAddr) : Z :=
  match s with SockV4 _ _ _ _ p => p | SockV6 _ p _ _ => p end.

Definition sock_ip (s : SocketAddr) : IpAddr :=
  match s with SockV4 a b c d _ => IpV4 a b c d | SockV6 g _ _ _ => IpV6 g end.

(** The derived [Ord]: IPv4 before IPv6, then the fields in order. *)
Definition sock_key (s : SocketAddr) : list Z :=
  match s with
  | SockV4 a b c d p => [0; a; b; c; d; p]
  | SockV6 g p f i => 1 :: g ++ [p; f; i]
  end.

(** [IpAddr::is_loopback] and [is_unspecified]. *)
Definition is_loopback (ip : IpAddr) : bool :=
  match ip with
  | IpV4 a _ _ _ => a =? 127
  | IpV6 g => bool_decide (g = [0; 0; 0; 0; 0; 0; 0; 1])
  end.
Definition is_unspecified (ip : IpAddr) : bool :=
  match ip with
  | IpV4 a b c d => bool_decide ([a; b; c; d] = [0; 0; 0; 0])
  | IpV6 g => bool_decide (g = [0; 0; 0; 0; 0; 0; 0; 0])
  end.

(** ** Display *)

Definition show_ipv4 (a b c d : Z) : rstring :=
  show_dec a ++ 46 :: show_dec b ++ 46 :: show_dec c ++ 46 :: show_dec d.

(** [{:x}] of a [u16]. *)
Definition show_hex16 (n : Z) : rstring :=
  let digits := [n / 4096; (n / 256) mod 16; (n / 16) mod 16; n mod 16] in
  let fix strip (l : list Z) := match l with
    | 0 :: ((_ :: _) as l') => strip l'
    | l => l
    end in
  hex_char <$> strip digits.

Fixpoint show_segments (l : list Z) : rstring :=
  match l with
  | [] => []
  | [g] => show_hex16 g
  | g :: l => show_hex16 g ++ 58 :: show_segments l
  end.

(** The first longest run of zero segments: its start and length. *)
Definition zero_run (segments : list Z) : nat * nat :=
  let '(_, _, longest) :=
    foldl (λ '(i, current, longest) g,
      if g =? 0 then
        let current := if bool_decide (snd current = O) then (i, 1%nat) else (fst current, S (snd current)) in
        (S i, current, if bool_decide (snd longest < snd current)%nat then current else longest)
      else (S i, (O, O), longest)) (O, (O, O), (O, O)) segments in
  longest.

Definition show_ipv6 (segments : list Z) : rstring :=
  match segments with
  | [0; 0; 0; 0; 0; 65535; g; h] =>
    str "::ffff:" ++ show_ipv4 (g / 256) (g mod 256) (h / 256) (h mod 256)
  | _ =>
    let '(start, n) := zero_run segments in
    if bool_decide (1 < n)%nat then
      show_segments (take start segments) ++ str "::" ++ show_segments (drop (start + n) segments)
    else show_segments segments
  end.

Definition show_ip (ip : IpAddr) : rstring :=
  match ip with IpV4 a b c d => show_ipv4 a b c d | IpV6 g => show_ipv6 g end.

Definition show_sock (s : SocketAddr) : rstring :=
  match s with
  | SockV4 a b c d p => show_ipv4 a b c d ++ 58 :: show_dec p
  | SockV6 g p _ 0 => 91 :: show_ipv6 g ++ 93 :: 58 :: show_dec p
  | SockV6 g p _ i => 91 :: show_ipv6 g ++ 37 :: show_dec i ++ 93 :: 58 :: show_dec p
  end.

(** ** Parsing *)

Definition to_digit (radix : Z) (c : Z) : option Z :=
  let d := if is_ascii_digit c then Some (c - 48)
           else if (97 <=? c) && (c <=? 122) then Some (c - 87)
           else if (65 <=? c) && (c <=? 90) then Some (c - 55)
           else None in
  d ≫= λ d, if d <? radix then Some d else None.

(** The longest prefix of digits, and the rest. *)
Fixpoint read_digits (radix : Z) (s : rstring) : list Z * rstring :=
  match s with
  | [] => ([], [])
  | c :: s' =>
    match to_digit radix c with
    | Some d => let '(ds, rest) := read_digits radix s' in (d :: ds, rest)
    | None => ([], s)
    end
  end.

Definition digits_value (radix : Z) (ds : list Z) : Z := foldl (λ acc d, acc * radix + d) 0 ds.

Definition read_number (radix : Z) (max_digits : option nat) (allow_zero_prefix : bool) (bound : Z)
    (s : rstring) : option (Z * rstring) :=
  let '(ds, rest) := read_digits radix s in
  if match max_digits with Some m => bool_decide (m < length ds)%nat | None => false end then None
  else if bool_decide (ds = []) then None
  else if negb allow_zero_prefix && bool_decide (head ds = Some 0) && bool_decide (1 < length ds)%nat then None
  else if digits_value radix ds <? bound then Some (digits_value radix ds, rest) else None.

Definition read_given_char (ch : Z) (s : rstring) : option rstring :=
  match s with c :: s => if c =? ch then Some s else None | [] => None end.

Definition read_octet : rstring → option (Z * rstring) := read_number 10 (Some 3%nat) false 256.

Definition read_ipv4 (s : rstring) : option (Z * Z * Z * Z * rstring) :=
  '(a, s) ← read_octet s; s ← read_given_char 46 s;
  '(b, s) ← read_octet s; s ← read_given_char 46 s;
  '(c, s) ← read_octet s; s ← read_given_char 46 s;
  '(d, s) ← read_octet s;
  Some (a, b, c, d, s).

(** Reads up to [n] groups, the first being group number [i]; also says
    whether the last two came from an embedded IPv4 address. *)
Fixpoint read_groups (n i : nat) (s : rstring) : list Z * bool * rstring :=
  match n with
  | O => ([], false, s)
  | S n' =>
    let s1 := match i with O => Some s | S _ => read_given_char 58 s end in
    match (if bool_decide (0 < n')%nat then s1 ≫= read_ipv4 else None) with
    | Some (a, b, c, d, rest) => ([a * 256 + b; c * 256 + d], true, rest)
    | None =>
      match s1 ≫= read_number 16 (Some 4%nat) true 65536 with
      | Some (g, rest) =>
        let '(gs, v4, rest') := read_groups n' (S i) rest in (g :: gs, v4, rest')
      | None => ([], false, s)
      end
    end
  end.

Definition read_ipv6 (s : rstring) : option (list Z * rstring) :=
  let '(head, head_ipv4, s1) := read_groups 8 0 s in
  if bool_decide (length head = 8%nat) then Some (head, s1)
  else if (head_ipv4 : bool) then None
  else
    s2 ← read_given_char 58 s1;
    s3 ← read_given_char 58 s2;
    let '(tail, _, s4) := read_groups (8 - (length head + 1)) 0 s3 in
    Some (head ++ replicate (8 - length head - length tail) 0 ++ tail, s4).

Definition read_port (s : rstring) : option (Z * rstring) :=
  s ← read_given_char 58 s; read_number 10 None true 65536 s.

Definition read_sock_v4 (s : rstring) : option (SocketAddr * rstring) :=
  '(a, b, c, d, s) ← read_ipv4 s;
  '(p, s) ← read_port s;
  Some (SockV4 a b c d p, s).

Definition read_sock_v6 (s : rstring) : option (SocketAddr * rstring) :=
  s ← read_given_char 91 s;
  '(g, s) ← read_ipv6 s;
  let '(scope, s) := match read_given_char 37 s ≫= read_number 10 None true (2 ^ 32) with
                     | Some (i, s') => (i, s')
                     | None => (0, s)
                     end in
  s ← read_given_char 93 s;
  '(p, s) ← read_port s;
  Some (SockV6 g p 0 scope, s).

(** [s.parse::<SocketAddr>()] *)
Definition parse_sock (s : rstring) : option SocketAddr :=
  match match read_sock_v4 s with Some r => Some r | None => read_sock_v6 s end with
  | Some (a, []) => Some a
  | _ => None
  end.

(** ** Lemmas *)

Lemma to_digit_dec c : is_ascii_digit c = true → to_digit 10 c = Some (c - 48).
Proof.
  intros Hc. unfold to_digit. rewrite Hc. simpl. unfold is_ascii_digit in Hc. bools.
  destruct (Z.ltb_spec (c - 48) 10); [done|lia].
Qed.

Definition stops (rest : rstring) : Prop := ∀ c, head rest = Some c → to_digit 10 c = None.

Lemma read_digits_dec s rest :
  Forall (λ c, is_ascii_digit c = true) s → stops rest →
  read_digits 10 (s ++ rest) = ((λ c, c - 48) <$> s, rest).
Proof.
  intros Hs Hr. induction Hs as [|c s Hc Hs IH]; cbn [app fmap list_fmap].
  - destruct rest as [|c rest]; [done|]. simpl. by rewrite (Hr c).
  - cbn [read_digits]. by rewrite to_digit_dec, IH.
Qed.

Lemma digits_value_app ds acc :
  foldl (λ acc d, acc * 10 + d) acc ds = acc * 10 ^ zlen ds + digits_value 10 ds.
Proof.
  unfold digits_value. revert acc. induction ds as [|d ds IH]; intros acc; cbn [foldl].
  - unfold zlen. simpl. lia.
  - rewrite (IH (acc * 10 + d)), (IH (0 * 10 + d)), zlen_cons, Z.pow_add_r by (pose proof (zlen_nonneg ds); lia).
    change (10 ^ 1) with 10. ring.
Qed.

Lemma digits_value_cons d ds : digits_value 10 (d :: ds) = d * 10 ^ zlen ds + digits_value 10 ds.
Proof. unfold digits_value at 1. cbn [foldl]. by rewrite digits_value_app. Qed.

Lemma pretty_N_go_value n s :
  digits_value 10 ((λ c, c - 48) <$> str (pretty_N_go n s)) =
  Z.of_N n * 10 ^ zlen (str s) + digits_value 10 ((λ c, c - 48) <$> str s).
Proof.
  revert s. induction (N.lt_wf_0 n) as [n _ IH]. intros s.
  destruct (decide (n = 0%N)) as [->|Hn]; [rewrite pretty_N_go_0; lia|].
  rewrite pretty_N_go_step by lia. rewrite IH by (apply N.div_lt; lia).
  change (str (String (pretty_N_char (n mod 10)) s))
    with (Z.of_N (Ascii.N_of_ascii (pretty_N_char (n mod 10))) :: str s).
  assert (Hd : Z.of_N (Ascii.N_of_ascii (pretty_N_char (n mod 10))) - 48 = Z.of_N (n mod 10)).
  { pose proof (N.mod_lt n 10 ltac:(lia)). generalize dependent (n mod 10)%N. intros m Hm.
    assert (m = 0 ∨ m = 1 ∨ m = 2 ∨ m = 3 ∨ m = 4 ∨ m = 5 ∨ m = 6 ∨ m = 7 ∨ m = 8 ∨ m = 9)%N by lia.
    destruct_or!; by subst. }
  cbn [fmap list_fmap]. rewrite digits_value_cons, zlen_cons, Hd.
  rewrite Z.pow_add_r by (pose proof (zlen_nonneg (str s)); lia). change (10 ^ 1) with 10.
  assert (Hz : zlen ((λ c, c - 48) <$> str s) = zlen (str s)) by (unfold zlen; by rewrite length_fmap).
  rewrite Hz, N2Z.inj_div, N2Z.inj_mod. pose proof (Z.div_mod (Z.of_N n) 10 ltac:(lia)).
  change (Z.of_N 10) with 10. nia.
Qed.

Lemma show_dec_value n : 0 ≤ n → digits_value 10 ((λ c, c - 48) <$> show_dec n) = n.
Proof.
  intros Hn. unfold show_dec, pretty, pretty_N. case_decide as Hz.
  - change (digits_value 10 _) with 0. lia.
  - rewrite pretty_N_go_value. change (zlen (str "")) with 0. change (digits_value 10 _) with 0. lia.
Qed.

(** Reading back a number that was printed, up to a character that is no digit. *)
Lemma read_number_show max bound n rest :
  0 ≤ n < bound → stops rest →
  match max with Some m => length (show_dec n) ≤ m | None => True end%nat →
  read_number 10 max true bound (show_dec n ++ rest) = Some (n, rest).
Proof.
  intros [Hn Hb] Hr Hm. unfold read_number. rewrite read_digits_dec by eauto using show_dec_digits.
  rewrite length_fmap, show_dec_value by done.
  destruct (Z.ltb_spec n bound); [|lia]. rewrite (bool_decide_false (_ = [])).
  2: { intros Heq%(f_equal length). rewrite length_fmap in Heq. pose proof (show_dec_length n). simpl in Heq. lia. }
  destruct max as [m|]; [|done]. by rewrite bool_decide_false by lia.
Qed.

(** A byte prints as at most three digits, without a leading zero. *)
Lemma show_octet n :
  0 ≤ n < 256 → (length (show_dec n) ≤ 3)%nat ∧
  (head (show_dec n) = Some 48 → (length (show_dec n) ≤ 1)%nat).
Proof.
  intros Hn. assert (Hall : Forall (λ n, (length (show_dec n) ≤ 3)%nat ∧
    (head (show_dec n) = Some 48 → (length (show_dec n) ≤ 1)%nat)) (seqZ 0 256)).
  { apply (bool_decide_unpack _). vm_compute. done. }
  rewrite Forall_forall in Hall. apply Hall, elem_of_seqZ. lia.
Qed.

Lemma read_octet_show n rest :
  0 ≤ n < 256 → stops rest → read_octet (show_dec n ++ rest) = Some (n, rest).
Proof.
  intros Hn Hr. destruct (show_octet n Hn) as [Hl Hz].
  rewrite <-(read_number_show (Some 3%nat) 256 n rest Hn Hr Hl).
  unfold read_octet, read_number. rewrite read_digits_dec by eauto using show_dec_digits.
  rewrite length_fmap. destruct (bool_decide (3 < length (show_dec n))%nat); [done|].
  case_bool_decide; [done|]. cbn [negb andb].
  destruct (bool_decide (head ((λ c, c - 48) <$> show_dec n) = Some 0)) eqn:Hh; [|done].
  rewrite bool_decide_false; [done|]. bools.
  destruct (show_dec n) as [|c s]; [done|]. cbn in Hh, Hz. assert (c = 48) as -> by (injection Hh; lia).
  specialize (Hz eq_refl). cbn. lia.
Qed.

Definition octet (x : Z) : Prop := 0 ≤ x < 256.

Lemma read_ipv4_show a b c d rest :
  octet a → octet b → octet c → octet d → stops rest →
  read_ipv4 (show_ipv4 a b c d ++ rest) = Some (a, b, c, d, rest).
Proof.
  intros Ha Hb Hc Hd Hr. unfold read_ipv4, show_ipv4.
  assert (Hdot : ∀ s, stops (46 :: s)) by (intros s x [= <-]; done).
  repeat (rewrite <-app_assoc; cbn [app]).
  rewrite read_octet_show by done. cbn [mbind option_bind read_given_char Z.eqb Pos.eqb].
  rewrite read_octet_show by done. cbn [mbind option_bind read_given_char Z.eqb Pos.eqb].
  rewrite read_octet_show by done. cbn [mbind option_bind read_given_char Z.eqb Pos.eqb].
  by rewrite read_octet_show by done.
Qed.

(** An IPv4 socket address survives printing and parsing. *)
Lemma parse_show_v4 a b c d p :
  octet a → octet b → octet c → octet d → u16_ok p →
  parse_sock (show_sock (SockV4 a b c d p)) = Some (SockV4 a b c d p).
Proof.
  intros Ha Hb Hc Hd Hp. unfold parse_sock, show_sock, read_sock_v4.
  rewrite read_ipv4_show by (done || (intros x [= <-]; done)). cbn [mbind option_bind].
  unfold read_port. cbn [read_given_char Z.eqb Pos.eqb mbind option_bind].
  rewrite <-(app_nil_r (show_dec p)). rewrite read_number_show by (done || exact Hp). done.
Qed.
