(* ===== verification/Text.v ===== *)
(** * More of the standard library: pieces of text, integers in text, hash maps

    [str::split] and [join] on one character, what [str::trim] keeps and
    removes, [str::parse] into an unsigned integer, and [HashMap]s whose
    iteration order is unspecified. *)

From stdpp Require Import prelude gmap strings pretty sorting.
From Stdlib Require Import ZArith Lia.
From S2P Require Import Prelude RustStr Inet.

Local Open Scope Z_scope.

(** ** Definitions *)

(** [s.split(sep)]: one piece more than there are separators. *)
Fixpoint split_on (sep : Z) (s : rstring) : list rstring :=
  match s with
  | [] => [[]]
  | c :: s =>
    if c =? sep then [] :: split_on sep s
    else match split_on sep s with
         | piece :: pieces => (c :: piece) :: pieces
         | [] => [[c]]
         end
  end.

(** [pieces.join(sep)] *)
Fixpoint join (sep : rstring) (pieces : list rstring) : rstring :=
  match pieces with
  | [] => []
  | [piece] => piece
  | piece :: pieces => piece ++ sep ++ join sep pieces
  end.

(** [s.strip_suffix(p)] *)
Definition strip_suffix (p s : rstring) : option rstring :=
  if bool_decide (drop (length s - length p) s = p) then Some (take (length s - length p) s) else None.

(** [s.trim_matches(c)] *)
Fixpoint trim_start_matches (ch : Z) (s : rstring) : rstring :=
  match s with
  | [] => []
  | c :: s' => if c =? ch then trim_start_matches ch s' else s
  end.
Definition trim_matches (ch : Z) (s : rstring) : rstring :=
  reverse (trim_start_matches ch (reverse (trim_start_matches ch s))).

(** [s.parse()] into an unsigned integer below [bound]. *)
Definition parse_digits (bound : Z) (s : rstring) : option Z :=
  match read_digits 10 s with
  | (ds, []) => if digits_value 10 ds <? bound then Some (digits_value 10 ds) else None
  | _ => None
  end.
Definition parse_unsigned (bound : Z) (s : rstring) : option Z :=
  match s with
  | [] => None
  | [43] | [45] => None
  | 43 :: s' => parse_digits bound s'
  | _ => parse_digits bound s
  end.

(** [iter.collect::<HashMap<_, _>>()]: a later entry replaces an earlier one. *)
Definition collect_map {A} (l : list (rstring * A)) : gmap rstring A :=
  foldl (λ m kv, <[kv.1 := kv.2]> m) ∅ l.

(** The entries of a [HashMap] in the order it is iterated, which differs
    between runs. *)
Class HashOrder := hash_iter : ∀ {A}, gmap rstring A → list (rstring * A).
Class HashOrderLaws `{HashOrder} :=
  hash_iter_perm : ∀ {A} (m : gmap rstring A), hash_iter m ≡ₚ map_to_list m.

(** ** Lists *)

Lemma Forall2_elem_of {A B} (P : A → B → Prop) l k :
  Forall2 P l k → (∀ a, a ∈ l → ∃ b, b ∈ k ∧ P a b) ∧ (∀ b, b ∈ k → ∃ a, a ∈ l ∧ P a b).
Proof.
  induction 1 as [|a b l k Hab Hl [IHl IHk]]; [split; intros x Hx; by apply elem_of_nil in Hx|].
  split; intros x [->|Hx]%elem_of_cons; [exists b; split; [by left|done]| |exists a; split; [by left|done]|].
  - destruct (IHl _ Hx) as (y & Hy & ?). exists y. split; [by right|done].
  - destruct (IHk _ Hx) as (y & Hy & ?). exists y. split; [by right|done].
Qed.

Lemma mapM_Ok {E A B} (f : A → result E B) l k : mapM f l = Ok k ↔ Forall2 (λ a b, f a = Ok b) l k.
Proof.
  revert k. induction l as [|a l IH]; intros k; cbn [mapM].
  { split; [intros [= <-]; constructor|by intros ->%Forall2_nil_inv_l]. }
  rewrite bind_Ok_inv. split.
  - intros (b & Hb & Hl). apply bind_Ok_inv in Hl as (k' & Hl & [= <-]). constructor; [done|by apply IH].
  - intros (b & k' & Hb & Hl & ->)%Forall2_cons_inv_l. exists b. split; [done|].
    apply bind_Ok_inv. exists k'. by rewrite IH.
Qed.

(** ** Trimming *)

Abbreviation blanks := (Forall (λ c, is_whitespace c = true)).

Lemma trim_cons_ws c s : is_whitespace c = true → trim (c :: s) = trim s.
Proof. intros Hc. unfold trim. simpl. by rewrite Hc. Qed.

Lemma trim_start_app_ws p s : blanks p → trim_start (p ++ s) = trim_start s.
Proof. induction 1 as [|c p Hc Hp IH]; [done|]. simpl. by rewrite Hc. Qed.

Lemma trim_app_ws_l p s : blanks p → trim (p ++ s) = trim s.
Proof. intros Hp. unfold trim. by rewrite trim_start_app_ws. Qed.

Lemma trim_end_app_ws s q : blanks q → trim_end (s ++ q) = trim_end s.
Proof.
  intros Hq. unfold trim_end. rewrite reverse_app, trim_start_app_ws; [done|]. by apply Forall_reverse.
Qed.

Lemma trim_start_app s q : trim_start s ≠ [] → trim_start (s ++ q) = trim_start s ++ q.
Proof.
  induction s as [|c s IH]; simpl; [done|]. destruct (is_whitespace c) eqn:Hc; [apply IH|done].
Qed.

Lemma trim_app_ws_r s q : blanks q → trim (s ++ q) = trim s.
Proof.
  intros Hq. unfold trim. destruct (decide (trim_start s = [])) as [Hs|Hs].
  - rewrite Hs. apply trim_start_nil in Hs as Hw. by rewrite trim_start_app_ws, (proj2 (trim_start_nil q) Hq) by done.
  - rewrite trim_start_app by done. by apply trim_end_app_ws.
Qed.

(** [trim] removes whitespace on both sides and nothing else. *)
Lemma trim_decompose s : ∃ p q, s = p ++ trim s ++ q ∧ blanks p ∧ blanks q.
Proof.
  destruct (trim_start_suffix s) as (p & Hp & Hwp).
  destruct (trim_start_suffix (reverse (trim_start s))) as (q & Hq & Hwq).
  exists p, (reverse q). split; [|by split; [|apply Forall_reverse]].
  rewrite Hp at 1. f_equal. unfold trim, trim_end. rewrite <-reverse_app, <-Hq. by rewrite reverse_involutive.
Qed.

Lemma trim_idem s : trim (trim s) = trim s.
Proof.
  destruct (trim_decompose s) as (p & q & Hs & Hp & Hq).
  rewrite Hs at 2. by rewrite trim_app_ws_l, trim_app_ws_r.
Qed.

Lemma elem_of_trim c s : c ∈ trim s → c ∈ s.
Proof. destruct (trim_decompose s) as (p & q & Hs & _). intros Hc. rewrite Hs. set_solver. Qed.

Lemma Forall_trim (P : Z → Prop) s : Forall P s → Forall P (trim s).
Proof. rewrite !Forall_forall. eauto using elem_of_trim. Qed.

Lemma elem_of_trim_inv c s : c ∈ s → is_whitespace c = false → c ∈ trim s.
Proof.
  destruct (trim_decompose s) as (p & q & Hs & Hp & Hq). rewrite Hs at 1. intros Hc Hw.
  rewrite Forall_forall in Hp, Hq. rewrite !elem_of_app in Hc.
  destruct Hc as [Hc|[Hc|Hc]]; [|done|]; [by rewrite Hp in Hw|by rewrite Hq in Hw].
Qed.

Lemma trim_no_ws s : Forall (λ c, is_whitespace c = false) s → trim s = s.
Proof.
  intros Hs. destruct (trim_decompose s) as (p & q & Heq & Hp & Hq).
  assert (Hnil : ∀ l, blanks l → (∀ c, c ∈ l → c ∈ s) → l = []).
  { intros [|c l] Hl Hsub; [done|]. rewrite Forall_forall in Hs. inversion Hl as [|? ? Hc]; subst.
    rewrite Hs in Hc; [done|]. apply Hsub. by left. }
  rewrite (Hnil p Hp), (Hnil q Hq) in Heq; [by rewrite app_nil_r in Heq| |];
    intros c Hc; rewrite Heq, !elem_of_app; auto.
Qed.

(** ** Splitting and joining *)

Lemma split_on_nonempty sep s : split_on sep s ≠ [].
Proof. destruct s as [|c s]; simpl; [done|]. destruct (c =? sep); [done|]. by destruct (split_on sep s). Qed.

Lemma split_on_plain sep s : sep ∉ s → split_on sep s = [s].
Proof.
  induction s as [|c s IH]; intros Hs; [done|]. simpl.
  destruct (Z.eqb_spec c sep) as [->|_]; [set_solver|]. rewrite IH by set_solver. done.
Qed.

Lemma split_on_app sep s t : sep ∉ s → split_on sep (s ++ sep :: t) = s :: split_on sep t.
Proof.
  induction s as [|c s IH]; intros Hs; simpl.
  - by rewrite Z.eqb_refl.
  - destruct (Z.eqb_spec c sep) as [->|_]; [set_solver|]. rewrite IH by set_solver. done.
Qed.

Lemma split_join sep pieces :
  pieces ≠ [] → Forall (λ p, sep ∉ p) pieces → split_on sep (join [sep] pieces) = pieces.
Proof.
  intros Hne Hp. induction Hp as [|p pieces Hp Hps IH]; [done|].
  destruct pieces as [|p' pieces]; [by apply split_on_plain|].
  change (join [sep] (p :: p' :: pieces)) with (p ++ sep :: join [sep] (p' :: pieces)). rewrite split_on_app by done. by rewrite IH.
Qed.

Lemma split_pieces_sep sep s : Forall (λ p, sep ∉ p) (split_on sep s).
Proof.
  induction s as [|c s IH]; simpl; [by repeat constructor; set_solver|].
  destruct (Z.eqb_spec c sep); [constructor; [set_solver|done]|].
  destruct (split_on sep s) as [|p ps]; [repeat constructor; set_solver|].
  inversion IH; subst. constructor; [set_solver|done].
Qed.

Lemma split_pieces_sub sep s p c : p ∈ split_on sep s → c ∈ p → c ∈ s.
Proof.
  revert p. induction s as [|d s IH]; intros p; simpl.
  { intros ->%list_elem_of_singleton Hc. by apply elem_of_nil in Hc. }
  destruct (d =? sep).
  { intros [->|Hp]%elem_of_cons Hc; [by apply elem_of_nil in Hc|]. right. eauto. }
  pose proof (split_on_nonempty sep s). destruct (split_on sep s) as [|q qs]; [done|].
  intros [->|Hp]%elem_of_cons Hc.
  - apply elem_of_cons in Hc as [->|Hc]; [by left|]. right. apply (IH q); [by left|done].
  - right. apply (IH p); [by right|done].
Qed.

(** Whitespace around the text does not matter to its trimmed pieces. *)
Lemma split_trim_l sep p s :
  is_whitespace sep = false → blanks p → trim <$> split_on sep (p ++ s) = trim <$> split_on sep s.
Proof.
  intros Hsep. induction 1 as [|c p Hc Hp IH]; [done|]. simpl.
  destruct (Z.eqb_spec c sep) as [->|_]; [congruence|]. rewrite <-IH.
  pose proof (split_on_nonempty sep (p ++ s)). destruct (split_on sep (p ++ s)) as [|x xs]; [done|].
  rewrite !fmap_cons. by rewrite trim_cons_ws.
Qed.

Lemma split_trim_r sep s q :
  is_whitespace sep = false → blanks q → trim <$> split_on sep (s ++ q) = trim <$> split_on sep s.
Proof.
  intros Hsep Hq.
  assert (Hplain : sep ∉ q).
  { intros Hin. rewrite Forall_forall in Hq. rewrite (Hq sep Hin) in Hsep. done. }
  assert (∃ ps x, split_on sep s = ps ++ [x] ∧ split_on sep (s ++ q) = ps ++ [x ++ q]) as (ps & x & -> & ->).
  { induction s as [|c s (ps & x & H1 & H2)]; simpl.
    - exists [], []. by rewrite split_on_plain.
    - rewrite H1, H2. destruct (c =? sep); [by exists ([] :: ps), x|].
      destruct ps as [|y ps]; [by exists [], (c :: x)|by exists ((c :: y) :: ps), x]. }
  rewrite !fmap_app. f_equal. simpl. f_equal. by apply trim_app_ws_r.
Qed.

Lemma split_trim sep s :
  is_whitespace sep = false → trim <$> split_on sep (trim s) = trim <$> split_on sep s.
Proof.
  intros Hsep. destruct (trim_decompose s) as (p & q & Hs & Hp & Hq). rewrite Hs at 2.
  by rewrite split_trim_l, split_trim_r.
Qed.

(** ** Integers in text *)

Lemma parse_unsigned_cases bound s :
  parse_unsigned bound s = None ∨ ∃ t, parse_unsigned bound s = parse_digits bound t.
Proof.
  destruct s as [|[|c|c] s]; [by left|right; eexists; reflexivity| |right; eexists; reflexivity].
  do 6 (destruct c as [c|c|]; try (right; eexists; reflexivity));
    destruct s; (by left) || (right; eexists; reflexivity).
Qed.

Lemma parse_unsigned_show bound n : 0 ≤ n < bound → parse_unsigned bound (show_dec n) = Some n.
Proof.
  intros [Hn Hb]. pose proof (show_dec_digits n) as Hd. pose proof (show_dec_length n) as Hl.
  assert (Hread : parse_digits bound (show_dec n) = Some n).
  { unfold parse_digits. rewrite <-(app_nil_r (show_dec n)), read_digits_dec by done.
    rewrite show_dec_value by done. by destruct (Z.ltb_spec n bound); [|lia]. }
  destruct (show_dec n) as [|c s] eqn:Hs; [simpl in Hl; lia|].
  inversion Hd as [|? ? Hc _]; subst. unfold is_ascii_digit in Hc. bools.
  rewrite <-Hread. unfold parse_unsigned.
  destruct c as [|c|c]; [lia| |lia]. do 6 (destruct c as [c|c|]; try done; try lia).
Qed.

Lemma digits_value_nonneg ds acc : 0 ≤ acc → Forall (λ d, 0 ≤ d) ds → 0 ≤ foldl (λ acc d, acc * 10 + d) acc ds.
Proof. intros Ha Hd. revert acc Ha. induction Hd as [|d ds Hd Hds IH]; intros acc Ha; [done|]. simpl. apply IH. lia. Qed.

Lemma read_digits_nonneg s : Forall (λ d, 0 ≤ d) (read_digits 10 s).1.
Proof.
  induction s as [|c s IH]; cbn [read_digits]; [constructor|].
  destruct (to_digit 10 c) as [d|] eqn:Hc; [|constructor].
  destruct (read_digits 10 s) as [ds rest]. constructor; [|done].
  unfold to_digit, is_ascii_digit in Hc.
  destruct ((48 <=? c) && (c <=? 57)) eqn:H1; [|destruct ((97 <=? c) && (c <=? 122)) eqn:H2;
    [|destruct ((65 <=? c) && (c <=? 90)) eqn:H3; [|done]]]; cbn in Hc;
    case_match; simplify_eq; bools; lia.
Qed.

Lemma parse_unsigned_bound bound s n : parse_unsigned bound s = Some n → 0 ≤ n < bound.
Proof.
  destruct (parse_unsigned_cases bound s) as [->|[t ->]]; [done|]. unfold parse_digits.
  pose proof (read_digits_nonneg t) as Hn. destruct (read_digits 10 t) as [ds [|]]; [|done].
  destruct (Z.ltb_spec (digits_value 10 ds) bound); [|done]. intros [= <-].
  split; [apply digits_value_nonneg; [lia|done]|done].
Qed.

(** ** Hash maps *)

Lemma collect_map_snoc {A} (l : list (rstring * A)) kv : collect_map (l ++ [kv]) = <[kv.1 := kv.2]> (collect_map l).
Proof. unfold collect_map. by rewrite foldl_app. Qed.

Lemma collect_map_Some {A} (l : list (rstring * A)) k v : collect_map l !! k = Some v → (k, v) ∈ l.
Proof.
  induction l as [|[k' v'] l IH] using rev_ind; [done|]. rewrite collect_map_snoc. simpl.
  destruct (decide (k' = k)) as [->|Hne].
  - rewrite lookup_insert_eq. intros [= ->]. set_solver.
  - rewrite lookup_insert_ne by done. set_solver.
Qed.

Lemma collect_map_in {A} (l : list (rstring * A)) k v : (k, v) ∈ l → is_Some (collect_map l !! k).
Proof.
  induction l as [|[k' v'] l IH] using rev_ind; [set_solver|]. rewrite collect_map_snoc. simpl.
  rewrite elem_of_app, list_elem_of_singleton. destruct (decide (k' = k)) as [->|Hne].
  - rewrite lookup_insert_eq. eauto.
  - rewrite lookup_insert_ne by done. naive_solver.
Qed.

Lemma collect_map_lookup {A} (l : list (rstring * A)) k v :
  NoDup l.*1 → collect_map l !! k = Some v ↔ (k, v) ∈ l.
Proof.
  intros Hl. split; [apply collect_map_Some|]. intros Hin.
  destruct (collect_map_in _ _ _ Hin) as [v' Hv']. rewrite Hv'. f_equal. apply collect_map_Some in Hv'.
  assert ((k, v') = (k, v)) by (by eapply (NoDup_fmap_inj_on fst)). congruence.
Qed.

Lemma collect_map_perm {A} (l : list (rstring * A)) m : l ≡ₚ map_to_list m → collect_map l = m.
Proof.
  intros Hl. apply map_eq. intros k. apply option_eq. intros v. rewrite collect_map_lookup, Hl.
  - apply elem_of_map_to_list.
  - rewrite Hl. apply NoDup_fst_map_to_list.
Qed.

Section hash_order.
Context `{HashOrderLaws}.

Lemma elem_of_hash_iter {A} (m : gmap rstring A) k v : (k, v) ∈ hash_iter m ↔ m !! k = Some v.
Proof. rewrite hash_iter_perm. apply elem_of_map_to_list. Qed.

(** Rebuilding a map with its values changed does not depend on the order. *)
Lemma collect_fmap {A B} (f : A → B) (m : gmap rstring A) :
  collect_map ((λ kv, (kv.1, f kv.2)) <$> hash_iter m) = f <$> m.
Proof.
  apply map_eq. intros k. apply option_eq. intros v. rewrite collect_map_lookup, lookup_fmap, fmap_Some.
  - setoid_rewrite list_elem_of_fmap. split.
    + intros ([k' a] & [= -> ->] & Hin%elem_of_hash_iter). eauto.
    + intros (a & Ha & ->). exists (k, a). split; [done|]. by apply elem_of_hash_iter.
  - rewrite <-list_fmap_compose. change (_ ∘ _) with (@fst rstring A).
    rewrite hash_iter_perm. apply NoDup_fst_map_to_list.
Qed.
End hash_order.
