(* ===== verification/Identity.v ===== *)
(** * Identities, pairing and authentication

    Model of crates/core/src/identity (fingerprint.rs, sas.rs) and of
    crates/protocol-native-v1/src/pairing.rs and auth.rs.  The cryptographic
    primitives (SHA-256, HKDF, Ed25519) are the parameter [CryptoSuite]; what the
    program relies on is [CryptoLaws]. *)

From stdpp Require Import prelude strings pretty.
From Stdlib Require Import ZArith Lia.
From S2P Require Import Prelude RustStr Errors Dto Inet.

Local Open Scope Z_scope.

(** The primitives of the sha2, hkdf and ed25519-dalek crates. *)
Class CryptoSuite := {
  sha256 : bytes → bytes;
  hkdf_expand : bytes → bytes → nat → bytes;  (* key material, info, output length *)
  public_bytes : bytes → bytes;               (* of a secret key *)
  sign : bytes → bytes → bytes;               (* secret key, message *)
  signature_from_slice : bytes → option bytes;
  verifying_key_from_bytes : bytes → option bytes;
  verify_strict : bytes → bytes → bytes → bool (* public key, message, signature *)
}.

Class CryptoLaws `{CryptoSuite} := {
  sha256_length m : length (sha256 m) = 32%nat;
  sha256_bytes m : Forall byte_ok (sha256 m);
  hkdf_length ikm info n : length (hkdf_expand ikm info n) = n;
  hkdf_bytes ikm info n : Forall byte_ok (hkdf_expand ikm info n);
  public_length sk : length (public_bytes sk) = 32%nat;
  public_bytes_ok sk : Forall byte_ok (public_bytes sk);
  public_valid sk : verifying_key_from_bytes (public_bytes sk) = Some (public_bytes sk);
  sign_valid sk m : signature_from_slice (sign sk m) = Some (sign sk m);
  sign_verifies sk m : verify_strict (public_bytes sk) m (sign sk m) = true
}.

(** ** Fingerprints (fingerprint.rs) *)

(** Byte slicing of a [String], [&s[a..b]]: off a character boundary is a panic. *)
Fixpoint str_split (s : rstring) (n : Z) : option (rstring * rstring) :=
  if n =? 0 then Some ([], s)
  else if n <? 0 then None
  else
    match s with
    | [] => None
    | c :: s' => '(a, b) ← str_split s' (n - zlen (utf8_char c)); Some (c :: a, b)
    end.
Definition str_slice {E} (s : rstring) (a b : Z) : result E rstring :=
  match str_split s a with
  | Some (_, rest) => match str_split rest (b - a) with Some (r, _) => Ok r | None => Panic end
  | None => Panic
  end.

(** [u8::from_str_radix(src, 16)] *)
Definition u8_from_hex (src : rstring) : result CoreError Z :=
  let invalid := Err (CoreCrypto (str "invalid digit found in string")) in
  let parse (digits : rstring) :=
    v ← for_each (λ acc c, d ← ok_or (to_digit 16 c) (CoreCrypto (str "invalid digit found in string"));
                           Ok (acc * 16 + d)) 0 digits;
    _ ← ensure (v <? 256) (CoreCrypto (str "number too large to fit in target type"));
    Ok v in
  match src with
  | [] => Err (CoreCrypto (str "cannot parse integer from empty string"))
  | [43] | [45] => invalid
  | 43 :: digits => parse digits
  | _ => parse src
  end.

(** [Display]: four groups of two bytes. *)
Fixpoint show_fingerprint_loop (index : nat) (bs : bytes) : rstring :=
  match bs with
  | [] => []
  | b :: bs =>
    (if bool_decide (0 < index)%nat && Nat.even index then [45] else []) ++ hex_encode [b] ++
    show_fingerprint_loop (S index) bs
  end.
Definition show_fingerprint (fp : bytes) : rstring := show_fingerprint_loop 0 fp.

(** [FromStr]: the loop over the eight bytes. *)
Fixpoint parse_bytes (n : nat) (index : Z) (cleaned : rstring) : result CoreError bytes :=
  match n with
  | O => Ok []
  | S n =>
    s ← str_slice cleaned (index * 2) (index * 2 + 2);
    b ← u8_from_hex s;
    bs ← parse_bytes n (index + 1) cleaned;
    Ok (b :: bs)
  end.
Definition parse_fingerprint (value : rstring) : result CoreError bytes :=
  let cleaned := filter (λ c, c ≠ 45) value in
  _ ← ensure (str_len cleaned =? 16)
        (CoreCrypto (str "fingerprint must be 16 hex chars, got " ++ show_dec (str_len cleaned)));
  parse_bytes 8 0 cleaned.

(** [format!("{:06}", n)] *)
Definition show_padded (width : nat) (n : Z) : rstring :=
  replicate (width - length (show_dec n)) 48 ++ show_dec n.

Definition SAS_DIGITS : nat := 6.

Inductive TrustDecision := DecideAutoAccept | DecidePrompt | DecideBlock.

Record PairingState := mkPairing {
  ps_alias : rstring; ps_pubkey : bytes; ps_fingerprint : bytes; ps_sas : rstring }.

Section identity.
Context `{CryptoSuite}.

Definition from_pubkey (pubkey : bytes) : bytes := take 8 (sha256 pubkey).

(** ** Short authentication strings (sas.rs) *)
Definition compute_sas (pubkey_a pubkey_b nonce : bytes) : rstring :=
  let '(lo, hi) := if lex_leb pubkey_a pubkey_b then (pubkey_a, pubkey_b) else (pubkey_b, pubkey_a) in
  let output := hkdf_expand (lo ++ hi ++ nonce) (str "lsi-sas-v1") 4 in
  let value := from_be_bytes output in
  show_padded SAS_DIGITS (value mod 10 ^ Z.of_nat SAS_DIGITS).

(** ** Pairing (pairing.rs) *)
Definition push_nonce (nonce : bytes) : bytes := to_be_bytes 4 (zlen nonce) ++ nonce.

Definition combined_nonce (local_pubkey local_nonce remote_pubkey remote_nonce : bytes) : bytes :=
  if lex_leb local_pubkey remote_pubkey
  then push_nonce local_nonce ++ push_nonce remote_nonce
  else push_nonce remote_nonce ++ push_nonce local_nonce.

Definition pairing_sas (local_pubkey local_nonce remote_pubkey remote_nonce : bytes) : rstring :=
  compute_sas local_pubkey remote_pubkey
    (combined_nonce local_pubkey local_nonce remote_pubkey remote_nonce).

Definition validate_protocol_version (v : Z) : result NativeError unit :=
  ensure (v =? PROTOCOL_VERSION) (Protocol (str "unsupported native protocol version " ++ show_dec v)).

Definition validate_nonce (nonce : bytes) (name : string) : result NativeError unit :=
  ensure (negb (bool_decide (nonce = []))) (Protocol (str name ++ str " is required for pairing")).

Definition derive_state (local_pubkey local_nonce : bytes) (peer_alias : rstring)
    (peer_pubkey peer_nonce : bytes) : result NativeError PairingState :=
  _ ← validate_nonce local_nonce "local nonce";
  _ ← validate_nonce peer_nonce "peer nonce";
  Ok (mkPairing peer_alias peer_pubkey (from_pubkey peer_pubkey)
        (pairing_sas local_pubkey local_nonce peer_pubkey peer_nonce)).

Definition derive_from_hello (local_pubkey local_nonce : bytes) (hello : Hello) : result NativeError PairingState :=
  _ ← validate_protocol_version (hello_protocol_version hello);
  derive_state local_pubkey local_nonce (hello_alias hello) (hello_pubkey hello) (hello_nonce hello).

Definition derive_from_hello_ack (local_pubkey local_nonce : bytes) (ack : HelloAck) : result NativeError PairingState :=
  _ ← validate_protocol_version (ack_protocol_version ack);
  derive_state local_pubkey local_nonce (ack_alias ack) (ack_pubkey ack) (ack_nonce ack).

(** The text of a [CoreError] in a protocol error is left abstract. *)
Definition validate_peer_info_fingerprint (error_text : CoreError → rstring) (peer : NativePeerInfo) :
    result NativeError bytes :=
  advertised ← map_err (λ e, Protocol (error_text e)) (parse_fingerprint (pi_fingerprint peer));
  let derived := from_pubkey (pi_pubkey peer) in
  _ ← ensure (bool_decide (advertised = derived))
        (Protocol (str "fingerprint mismatch for peer " ++ pi_alias peer));
  Ok derived.

(** ** Proof of possession (auth.rs) *)
Definition IDENTITY_PROOF_CONTEXT : bytes := str "nightbridge-native-identity-proof-v1".

Definition identity_proof_message (peer_pubkey channel_binding : bytes) : bytes :=
  IDENTITY_PROOF_CONTEXT ++ peer_pubkey ++ channel_binding.

Definition sign_identity_proof (keypair channel_binding : bytes) : bytes :=
  sign keypair (identity_proof_message (public_bytes keypair) channel_binding).

Definition verify_identity_proof (peer_pubkey channel_binding signature_bytes : bytes) : result NativeError unit :=
  signature ← ok_or (signature_from_slice signature_bytes) (Crypto (str "invalid identity proof signature"));
  verifying_key ← ok_or (verifying_key_from_bytes peer_pubkey) (Crypto (str "invalid peer public key"));
  let message := identity_proof_message peer_pubkey channel_binding in
  ensure (verify_strict verifying_key message signature) (Crypto (str "identity proof verification failed")).

Definition build_authenticated_hello (keypair : bytes) (alias : rstring) (nonce : bytes)
    (extensions : list rstring) (channel_binding : bytes) : Hello :=
  mkHello PROTOCOL_VERSION alias (public_bytes keypair) nonce extensions
    (sign_identity_proof keypair channel_binding).

Definition authenticate_hello (hello : Hello) (channel_binding : bytes) : result NativeError unit :=
  verify_identity_proof (hello_pubkey hello) channel_binding (hello_identity_proof hello).
End identity.

(** ** Fingerprint text *)

Definition fingerprint_ok (fp : bytes) : Prop := length fp = 8%nat ∧ Forall byte_ok fp.

Lemma to_digit_hex n : 0 ≤ n < 16 → to_digit 16 (hex_char n) = Some n ∧ hex_char n ≠ 45 ∧ is_ascii (hex_char n) = true.
Proof.
  intros Hn. assert (Hall : Forall (λ n, to_digit 16 (hex_char n) = Some n ∧ hex_char n ≠ 45 ∧
    is_ascii (hex_char n) = true) (seqZ 0 16)) by (apply (bool_decide_unpack _); vm_compute; done).
  rewrite Forall_forall in Hall. apply Hall, elem_of_seqZ. lia.
Qed.

Lemma hex_digits b : byte_ok b → 0 ≤ b / 16 < 16 ∧ 0 ≤ b mod 16 < 16.
Proof.
  unfold byte_ok. intros. pose proof (Z.mod_pos_bound b 16 ltac:(lia)).
  split; [|lia]. split; [apply Z.div_pos; lia|apply Z.div_lt_upper_bound; lia].
Qed.

Lemma u8_from_hex_show b : byte_ok b → u8_from_hex (hex_encode [b]) = Ok b.
Proof.
  intros Hb. destruct (hex_digits b Hb) as [Hh Hl].
  destruct (to_digit_hex _ Hh) as (Dh & _ & _), (to_digit_hex _ Hl) as (Dl & _ & _).
  assert (hex_encode [b] = [hex_char (b / 16); hex_char (b mod 16)]) as -> by done.
  assert (Hne : hex_char (b / 16) ≠ 43) by (unfold hex_char; destruct (Z.ltb_spec (b / 16) 10); lia).
  assert (u8_from_hex [hex_char (b / 16); hex_char (b mod 16)] =
    (v ← for_each (λ acc c, d ← ok_or (to_digit 16 c) (CoreCrypto (str "invalid digit found in string"));
       Ok (acc * 16 + d)) 0 [hex_char (b / 16); hex_char (b mod 16)];
     _ ← ensure (v <? 256) (CoreCrypto (str "number too large to fit in target type")); Ok v)) as ->.
  { unfold u8_from_hex. destruct (hex_char (b / 16)) as [|p|p]; [done| |done].
    do 6 (destruct p as [p|p|]; try done). }
  cbn [for_each]. rewrite Dh, Dl. cbn [ok_or mbind result_bind].
  assert (Hv : (0 * 16 + b / 16) * 16 + b mod 16 = b) by (pose proof (Z.div_mod b 16); lia).
  rewrite Hv. unfold byte_ok in Hb. by destruct (Z.ltb_spec b 256); [|lia].
Qed.

Lemma hex_encode_cons b bs : hex_encode (b :: bs) = hex_encode [b] ++ hex_encode bs.
Proof. done. Qed.

Lemma zlen_hex_encode bs : zlen (hex_encode bs) = 2 * zlen bs.
Proof. induction bs as [|b bs IH]; [done|]. rewrite hex_encode_cons, zlen_app, zlen_cons, IH. change (zlen (hex_encode [b])) with 2. lia. Qed.

Lemma hex_encode_chars bs c :
  Forall byte_ok bs → c ∈ hex_encode bs → c ≠ 45 ∧ is_ascii c = true.
Proof.
  intros Hb (b & Hc & Hin)%list_elem_of_bind. rewrite Forall_forall in Hb.
  destruct (hex_digits b (Hb _ Hin)) as [Hh Hl]. 
  repeat (apply elem_of_cons in Hc as [->|Hc]; [by apply to_digit_hex|]). by apply elem_of_nil in Hc.
Qed.

Lemma show_fingerprint_cleaned index bs :
  Forall byte_ok bs → filter (λ c, c ≠ 45) (show_fingerprint_loop index bs) = hex_encode bs.
Proof.
  intros Hb. revert index. induction Hb as [|b bs Hb Hbs IH]; intros index; [done|].
  cbn [show_fingerprint_loop]. rewrite !filter_app, IH, (hex_encode_cons b bs).
  assert (filter (λ c, c ≠ 45) (hex_encode [b]) = hex_encode [b]) as ->.
  { destruct (hex_digits b Hb) as [Hh Hl]. unfold hex_encode. cbn [mbind list_bind app].
    rewrite !filter_cons_True by (by apply to_digit_hex). done. }
  by destruct (bool_decide (0 < index)%nat && Nat.even index).
Qed.

Lemma str_split_ascii s n :
  Forall (λ c, is_ascii c = true) s → 0 ≤ n ≤ zlen s →
  str_split s n = Some (take (Z.to_nat n) s, drop (Z.to_nat n) s).
Proof.
  intros Hs. revert n. induction Hs as [|c s Hc Hs IH]; intros n Hn.
  - change (zlen (@nil Z)) with 0 in Hn. assert (n = 0) as -> by lia. done.
  - cbn [str_split]. destruct (Z.eqb_spec n 0) as [->|Hne]; [done|].
    destruct (Z.ltb_spec n 0); [lia|]. rewrite zlen_cons in Hn.
    unfold is_ascii in Hc. unfold utf8_char. rewrite Hc. change (zlen [c]) with 1.
    rewrite IH by lia. cbn [mbind option_bind].
    replace (Z.to_nat n) with (S (Z.to_nat (n - 1))) by lia. done.
Qed.

Lemma str_slice_ascii {E} l k r :
  Forall (λ c, is_ascii c = true) (l ++ k ++ r) →
  @str_slice E (l ++ k ++ r) (zlen l) (zlen l + zlen k) = Ok k.
Proof.
  intros Ha. unfold str_slice. pose proof (zlen_nonneg l). pose proof (zlen_nonneg k). pose proof (zlen_nonneg r).
  rewrite str_split_ascii by (done || (rewrite !zlen_app; lia)).
  assert (Hd : drop (Z.to_nat (zlen l)) (l ++ k ++ r) = k ++ r)
    by (unfold zlen; rewrite Nat2Z.id; apply drop_app_length).
  rewrite Hd. apply Forall_app in Ha as [_ Ha].
  rewrite str_split_ascii by (done || (rewrite zlen_app; lia)).
  replace (zlen l + zlen k - zlen l) with (zlen k) by lia.
  unfold zlen. by rewrite Nat2Z.id, take_app_length.
Qed.

Lemma parse_bytes_hex pre bs index :
  Forall byte_ok (pre ++ bs) → index = zlen pre →
  parse_bytes (length bs) index (hex_encode (pre ++ bs)) = Ok bs.
Proof.
  revert pre index. induction bs as [|b bs IH]; intros pre index Hb ->; [done|]. cbn [parse_bytes length].
  assert (Hsl : str_slice (E := CoreError) (hex_encode (pre ++ b :: bs)) (zlen pre * 2) (zlen pre * 2 + 2) = Ok (hex_encode [b])).
  { assert (Happ : hex_encode (pre ++ b :: bs) = hex_encode pre ++ hex_encode [b] ++ hex_encode bs).
    { unfold hex_encode. rewrite bind_app. done. }
    rewrite Happ. replace (zlen pre * 2) with (zlen (hex_encode pre)) by (rewrite zlen_hex_encode; lia).
    apply (str_slice_ascii (hex_encode pre) (hex_encode [b])). rewrite <-Happ. apply Forall_forall.
    intros c Hc. by eapply hex_encode_chars. }
  rewrite Hsl. cbn [mbind result_bind].
  rewrite u8_from_hex_show by (apply Forall_app in Hb as [_ Hb]; by apply Forall_cons in Hb as [? _]).
  cbn [mbind result_bind]. rewrite (cons_middle b), app_assoc in Hb |- *.
  rewrite (IH (pre ++ [b])); [done|done|]. rewrite zlen_app. change (zlen [b]) with 1. done.
Qed.

Lemma parse_show_fingerprint fp :
  fingerprint_ok fp → parse_fingerprint (show_fingerprint fp) = Ok fp.
Proof.
  intros [Hl Hb]. unfold parse_fingerprint, show_fingerprint. rewrite show_fingerprint_cleaned by done.
  assert (Hlen : str_len (hex_encode fp) = 16).
  { unfold str_len. rewrite utf8_encode_ascii.
    - rewrite zlen_hex_encode. unfold zlen. rewrite Hl. done.
    - apply Forall_forall. intros c Hc. by eapply hex_encode_chars. }
  rewrite Hlen. cbn [Z.eqb Pos.eqb ensure mbind result_bind]. rewrite <-Hl.
  by apply (parse_bytes_hex [] fp 0).
Qed.

(** A fingerprint survives printing and parsing, the printed form is 19
    characters in four groups, and parsing ignores where dashes are put. *)
Theorem fingerprint_text_roundtrip fp :
  fingerprint_ok fp →
  parse_fingerprint (show_fingerprint fp) = Ok fp ∧ length (show_fingerprint fp) = 19%nat ∧
  ∀ s, filter (λ c, c ≠ 45) s = hex_encode fp → parse_fingerprint s = Ok fp.
Proof.
  intros Hfp. pose proof (parse_show_fingerprint fp Hfp) as Hp. pose proof Hfp as [Hl Hb].
  split_and!; [done| |].
  - do 8 (destruct fp as [|? fp]; [done|]). by destruct fp.
  - intros s Hs. rewrite <-Hp. unfold parse_fingerprint, show_fingerprint.
    rewrite show_fingerprint_cleaned by done. by rewrite Hs.
Qed.

(** Parsing slices the text by bytes: a character of several bytes across a
    boundary makes it panic instead of returning an error. *)
Theorem parse_fingerprint_panics : parse_fingerprint (97 :: 233 :: replicate 13 97) = Panic.
Proof. vm_compute. done. Qed.

(** ** Short authentication strings *)

Lemma pretty_N_go_bound k n s :
  (n < 10 ^ N.of_nat k)%N → (String.length (pretty_N_go n s) ≤ k + String.length s)%nat.
Proof.
  revert n s. induction k as [|k IH]; intros n s Hn.
  - change (10 ^ N.of_nat 0)%N with 1%N in Hn. assert (n = 0%N) as -> by lia. by rewrite pretty_N_go_0.
  - destruct (decide (n = 0%N)) as [->|Hne]; [rewrite pretty_N_go_0; lia|].
    rewrite pretty_N_go_step by lia. etransitivity; [apply IH|cbn [String.length]; lia].
    apply N.Div0.div_lt_upper_bound. rewrite Nat2N.inj_succ, N.pow_succ_r' in Hn. lia.
Qed.

Lemma show_dec_bound k n : (0 < k)%nat → 0 ≤ n < 10 ^ Z.of_nat k → (length (show_dec n) ≤ k)%nat.
Proof.
  intros Hk Hn. unfold show_dec. rewrite length_str. unfold pretty, pretty_N.
  case_decide; [cbn [String.length]; lia|]. rewrite pretty_N_go_bound with (k := k); [cbn [String.length]; lia|].
  apply N2Z.inj_lt. rewrite N2Z.inj_pow, Z2N.id, nat_N_Z by lia. lia.
Qed.

Lemma show_padded_digits k n :
  (0 < k)%nat → 0 ≤ n < 10 ^ Z.of_nat k →
  length (show_padded k n) = k ∧ Forall (λ c, is_ascii_digit c = true) (show_padded k n).
Proof.
  intros Hk Hn. pose proof (show_dec_bound k n Hk Hn). unfold show_padded. split.
  - rewrite length_app, length_replicate. lia.
  - apply Forall_app. split; [by apply Forall_replicate|apply show_dec_digits].
Qed.

Lemma lex_leb_refl a : lex_leb a a = true.
Proof. by destruct (lex_leb_total a a). Qed.

Section pairing.
Context `{CryptoLaws}.

Lemma compute_sas_shape a b n :
  length (compute_sas a b n) = 6%nat ∧ Forall (λ c, is_ascii_digit c = true) (compute_sas a b n).
Proof.
  unfold compute_sas. destruct (if lex_leb a b then (a, b) else (b, a)) as [lo hi].
  apply show_padded_digits; [unfold SAS_DIGITS; lia|]. apply Z.mod_pos_bound. done.
Qed.

Lemma pairing_sas_sym a na b nb : a ≠ b → pairing_sas a na b nb = pairing_sas b nb a na.
Proof.
  intros Hne. unfold pairing_sas, combined_nonce, compute_sas.
  destruct (lex_leb a b) eqn:Hab, (lex_leb b a) eqn:Hba; try done.
  - destruct Hne. by apply lex_leb_antisym.
  - destruct (lex_leb_total a b); congruence.
Qed.

(** Both ends of a pairing show the same six-digit code: what the responder
    derives from the initiator's hello and what the initiator derives from
    the responder's acknowledgement agree, and each records the other's key
    and fingerprint. *)
Theorem pairing_agrees hello ack a b :
  hello_pubkey hello ≠ ack_pubkey ack →
  derive_from_hello (ack_pubkey ack) (ack_nonce ack) hello = Ok a →
  derive_from_hello_ack (hello_pubkey hello) (hello_nonce hello) ack = Ok b →
  ps_sas a = ps_sas b ∧ length (ps_sas a) = 6%nat ∧
  Forall (λ c, is_ascii_digit c = true) (ps_sas a) ∧
  ps_fingerprint a = from_pubkey (hello_pubkey hello) ∧ ps_fingerprint b = from_pubkey (ack_pubkey ack).
Proof.
  intros Hne Ha Hb. unfold derive_from_hello, derive_from_hello_ack, derive_state in *. inv_ok. subst.
  cbn [ps_sas ps_fingerprint]. split_and!; [by apply pairing_sas_sym|apply compute_sas_shape..|done|done].
Qed.

(** The nonces of a session enter the code without ambiguity. *)
Lemma push_nonce_inj n1 n2 r1 r2 :
  zlen n1 < 2 ^ 32 → zlen n2 < 2 ^ 32 →
  push_nonce n1 ++ r1 = push_nonce n2 ++ r2 → n1 = n2 ∧ r1 = r2.
Proof.
  intros H1 H2 Heq. unfold push_nonce in Heq. rewrite <-!app_assoc in Heq.
  apply app_inj_1 in Heq as [Hl Heq]; [|by rewrite !length_to_be_bytes].
  apply (f_equal from_be_bytes) in Hl. rewrite !from_to_be in Hl by (pose proof (zlen_nonneg n1);
    pose proof (zlen_nonneg n2); simpl; lia).
  apply app_inj_1 in Heq; [done|]. unfold zlen in Hl. lia.
Qed.

Lemma built_hello_authenticates sk alias nonce ext binding :
  authenticate_hello (build_authenticated_hello sk alias nonce ext binding) binding = Ok tt.
Proof.
  unfold authenticate_hello, verify_identity_proof.
  cbn [build_authenticated_hello hello_pubkey hello_identity_proof]. unfold sign_identity_proof.
  rewrite sign_valid. cbn [ok_or mbind result_bind]. rewrite public_valid. cbn [ok_or mbind result_bind].
  by rewrite sign_verifies.
Qed.

End pairing.
