(* ===== verification/TrustStore.v ===== *)
(** * Trust store

    Model of crates/core/src/trust/store.rs over the tables of schema.sql, and
    of [trust_decision] of crates/protocol-native-v1/src/pairing.rs.  A table
    is a finite map from its primary key to the rest of the row; an upsert is
    an update of the row it conflicts with.  A statement that fails changes
    nothing.  [now] is the value of [now_unix()].  Opening the database
    file and migrating its schema are the subject of Databases.v; the order of
    rows that tie in an [ORDER BY] is the map's.

    [char::to_lowercase] follows the Unicode tables; it is the parameter
    [Lowercase], with what fingerprint normalization relies on as laws. *)

From stdpp Require Import prelude gmap strings sorting.
From Stdlib Require Import ZArith Lia.
From S2P Require Import Prelude RustStr Errors Identity.

Local Open Scope Z_scope.

Inductive PeerPolicy := AutoAccept | Prompt | Block.
#[export] Instance PeerPolicy_eq_dec : EqDecision PeerPolicy.
Proof. solve_decision. Defined.

Definition policy_as_str (p : PeerPolicy) : rstring :=
  match p with AutoAccept => str "auto_accept" | Prompt => str "prompt" | Block => str "block" end.
Definition policy_from_str (value : rstring) : result CoreError PeerPolicy :=
  if bool_decide (value = str "auto_accept") then Ok AutoAccept
  else if bool_decide (value = str "prompt") then Ok Prompt
  else if bool_decide (value = str "block") then Ok Block
  else Err (TrustStoreError (str "unknown policy " ++ [34] ++ value ++ [34])).

Record Peer := mkPeer {
  pr_fingerprint : bytes; pr_pubkey : bytes; pr_label : rstring; pr_trusted_at : Z;
  pr_last_seen : option Z; pr_native_certificate_fingerprint : option rstring; pr_policy : PeerPolicy }.

Inductive LocalSendPeerStatus := StPending | StTrusted | StBlocked.
#[export] Instance LocalSendPeerStatus_eq_dec : EqDecision LocalSendPeerStatus.
Proof. solve_decision. Defined.

Definition status_as_str (s : LocalSendPeerStatus) : rstring :=
  match s with StPending => str "pending" | StTrusted => str "trusted" | StBlocked => str "blocked" end.
Definition status_from_str (value : rstring) : result CoreError LocalSendPeerStatus :=
  if bool_decide (value = str "pending") then Ok StPending
  else if bool_decide (value = str "trusted") then Ok StTrusted
  else if bool_decide (value = str "blocked") then Ok StBlocked
  else Err (TrustStoreError (str "unknown LocalSend peer status " ++ [34] ++ value ++ [34])).

Record LocalSendPeer := mkLsPeer {
  ls_fingerprint : rstring; ls_alias : rstring; ls_label : option rstring; ls_status : LocalSendPeerStatus;
  ls_first_seen : Z; ls_last_seen : Z; ls_attempt_count : Z; ls_source_ip : option rstring }.

Record LocalSendLanPeer := mkLanPeer {
  lan_fingerprint : rstring; lan_alias : rstring; lan_source_ip : rstring; lan_port : Z;
  lan_protocol : rstring; lan_device_model : option rstring; lan_device_type : option rstring;
  lan_download : bool; lan_first_seen : Z; lan_last_seen : Z }.

(** Rows without their primary key. *)
Record peer_row := mkPeerRow {
  pw_pubkey : bytes; pw_label : rstring; pw_trusted_at : Z; pw_last_seen : option Z;
  pw_native_certificate_fingerprint : option rstring; pw_policy : rstring }.
Record ls_row := mkLsRow {
  lw_alias : rstring; lw_label : option rstring; lw_status : rstring; lw_first_seen : Z;
  lw_last_seen : Z; lw_attempt_count : Z; lw_source_ip : option rstring }.
Record lan_row := mkLanRow {
  nw_alias : rstring; nw_source_ip : rstring; nw_port : Z; nw_protocol : rstring;
  nw_device_model : option rstring; nw_device_type : option rstring; nw_download : Z;
  nw_first_seen : Z; nw_last_seen : Z }.

Record TrustStore := mkTrustStore {
  peers : gmap rstring peer_row;
  localsend_peers : gmap rstring ls_row;
  localsend_lan_peers : gmap rstring lan_row }.

Definition empty_trust_store : TrustStore := mkTrustStore ∅ ∅ ∅.
Definition set_peers (s : TrustStore) m := mkTrustStore m (localsend_peers s) (localsend_lan_peers s).
Definition set_localsend (s : TrustStore) m := mkTrustStore (peers s) m (localsend_lan_peers s).

(** [char::to_lowercase] *)
Class Lowercase := char_to_lowercase : Z → list Z.
Class LowercaseLaws `{Lowercase} := {
  lowercase_stable c d : d ∈ char_to_lowercase c → char_to_lowercase d = [d];
  lowercase_separators c d : d ∈ char_to_lowercase c → d = 58 ∨ d = 45 → c = d
}.

Definition store_error (message : string) : CoreError := TrustStoreError (str message).

Definition require_nonblank (label : string) (value : rstring) : result CoreError unit :=
  ensure (negb (is_blank value)) (TrustStoreError (str label ++ str " is required")).

Definition validate_certificate_fingerprint (value : rstring) : result CoreError unit :=
  ensure ((str_len value =? 64) && forallb (λ ch, is_ascii_hexdigit ch && negb (is_ascii_uppercase ch)) value)
    (store_error "native certificate fingerprint must be 64 lowercase hex characters").

Definition row_to_peer (fingerprint_text : rstring) (row : peer_row) : result CoreError Peer :=
  fingerprint ← parse_fingerprint fingerprint_text;
  _ ← ensure (bool_decide (length (pw_pubkey row) = 32%nat))
        (TrustStoreError (str "pubkey wrong length: " ++ show_dec (zlen (pw_pubkey row))));
  policy ← policy_from_str (pw_policy row);
  Ok (mkPeer fingerprint (pw_pubkey row) (pw_label row) (pw_trusted_at row) (pw_last_seen row)
        (pw_native_certificate_fingerprint row) policy).

Definition row_to_localsend_peer (fingerprint : rstring) (row : ls_row) : result CoreError LocalSendPeer :=
  status ← status_from_str (lw_status row);
  _ ← ensure (0 <=? lw_attempt_count row) (store_error "LocalSend attempt_count is negative");
  Ok (mkLsPeer fingerprint (lw_alias row) (lw_label row) status (lw_first_seen row) (lw_last_seen row)
        (lw_attempt_count row) (lw_source_ip row)).

Definition row_to_localsend_lan_peer (fingerprint : rstring) (row : lan_row) : result CoreError LocalSendLanPeer :=
  _ ← ensure ((0 <=? nw_port row) && (nw_port row <=? 65535))
        (store_error "LocalSend LAN peer port is out of range");
  Ok (mkLanPeer fingerprint (nw_alias row) (nw_source_ip row) (nw_port row) (nw_protocol row)
        (nw_device_model row) (nw_device_type row) (negb (nw_download row =? 0))
        (nw_first_seen row) (nw_last_seen row)).

(** The rows of a query mapped to values, the first failing row failing all. *)
Fixpoint collect_rows {R A} (f : rstring → R → result CoreError A) (rows : list (rstring * R)) :
    result CoreError (list A) :=
  match rows with
  | [] => Ok []
  | (k, r) :: rows => a ← f k r; rest ← collect_rows f rows; Ok (a :: rest)
  end.

(** [SELECT ... WHERE fingerprint = ?] *)
Definition select_one {R A} (f : rstring → R → result CoreError A) (m : gmap rstring R) (k : rstring) :
    result CoreError (option A) :=
  match m !! k with Some row => Some <$> f k row | None => Ok None end.

(** ** Native peers *)

(** The effect of the upsert of [trust]. *)
Definition upsert_peer (now : Z) (pubkey : bytes) (label : rstring) (policy : PeerPolicy) (old : option peer_row) :
    peer_row :=
  match old with
  | Some row => mkPeerRow (pw_pubkey row) label (pw_trusted_at row) (pw_last_seen row)
                  (pw_native_certificate_fingerprint row) (policy_as_str policy)
  | None => mkPeerRow pubkey label now None None (policy_as_str policy)
  end.

Definition get (s : TrustStore) (fingerprint : bytes) : result CoreError (option Peer) :=
  select_one row_to_peer (peers s) (show_fingerprint fingerprint).

(** A statement followed by reading the row back. *)
Definition then_get {A} (s' : TrustStore) (r : result CoreError (option A)) (gone : string) :
    result CoreError (A * TrustStore) :=
  o ← r; a ← ok_or o (store_error gone); Ok (a, s').

Section native.
Context `{CryptoSuite}.

Definition trust (s : TrustStore) (now : Z) (pubkey : bytes) (label : rstring) (policy : PeerPolicy) :
    result CoreError (Peer * TrustStore) :=
  let fingerprint := from_pubkey pubkey in
  let k := show_fingerprint fingerprint in
  let s' := set_peers s (<[k := upsert_peer now pubkey label policy (peers s !! k)]> (peers s)) in
  then_get s' (get s' fingerprint) "peer disappeared after insert".

Definition trust_with_native_certificate (s : TrustStore) (now : Z) (pubkey : bytes) (label : rstring)
    (policy : PeerPolicy) (certificate : rstring) : result CoreError (Peer * TrustStore) :=
  _ ← validate_certificate_fingerprint certificate;
  let fingerprint := from_pubkey pubkey in
  let k := show_fingerprint fingerprint in
  let row := upsert_peer now pubkey label policy (peers s !! k) in
  let row := mkPeerRow (pw_pubkey row) (pw_label row) (pw_trusted_at row) (pw_last_seen row)
               (Some certificate) (pw_policy row) in
  let s' := set_peers s (<[k := row]> (peers s)) in
  then_get s' (get s' fingerprint) "peer disappeared after insert".
End native.

(** Whether a row was removed, and the new store. *)
Definition untrust (s : TrustStore) (fingerprint : bytes) : bool * TrustStore :=
  let k := show_fingerprint fingerprint in
  (bool_decide (is_Some (peers s !! k)), set_peers s (delete k (peers s))).

(** [ORDER BY trusted_at ASC] *)
Definition list_peers (s : TrustStore) : result CoreError (list Peer) :=
  collect_rows row_to_peer
    (stable_sort (λ a b, pw_trusted_at a.2 <=? pw_trusted_at b.2) (map_to_list (peers s))).

Definition touch (s : TrustStore) (now : Z) (fingerprint : bytes) : TrustStore :=
  set_peers s (alter (λ row, mkPeerRow (pw_pubkey row) (pw_label row) (pw_trusted_at row) (Some now)
                               (pw_native_certificate_fingerprint row) (pw_policy row))
                 (show_fingerprint fingerprint) (peers s)).

(** [trust_decision] (pairing.rs) *)
Definition trust_decision (s : TrustStore) (fingerprint : bytes) : result CoreError TrustDecision :=
  o ← get s fingerprint;
  Ok (match o with
      | Some peer =>
        match pr_policy peer with
        | AutoAccept => DecideAutoAccept
        | Prompt => DecidePrompt
        | Block => DecideBlock
        end
      | None => DecidePrompt
      end).

(** ** LocalSend peers *)
Section localsend.
Context `{Lowercase}.

Definition normalize_localsend_fingerprint (fingerprint : rstring) : result CoreError rstring :=
  let normalized := filter (λ ch, ch ≠ 58 ∧ ch ≠ 45) fingerprint ≫= char_to_lowercase in
  _ ← ensure (negb (bool_decide (normalized = []))) (store_error "LocalSend fingerprint is required");
  Ok normalized.

Definition get_localsend_peer (s : TrustStore) (fingerprint : rstring) :
    result CoreError (option LocalSendPeer) :=
  k ← normalize_localsend_fingerprint fingerprint;
  select_one row_to_localsend_peer (localsend_peers s) k.

Definition coalesce {A} (a b : option A) : option A := match a with Some x => Some x | None => b end.

Definition record_pending_localsend_peer (s : TrustStore) (now : Z) (fingerprint alias : rstring)
    (source_ip : option rstring) : result CoreError (LocalSendPeer * TrustStore) :=
  k ← normalize_localsend_fingerprint fingerprint;
  _ ← require_nonblank "LocalSend alias" alias;
  let row := match localsend_peers s !! k with
             | Some row => mkLsRow alias (lw_label row) (lw_status row) (lw_first_seen row) now
                             (lw_attempt_count row + 1) (coalesce source_ip (lw_source_ip row))
             | None => mkLsRow alias None (status_as_str StPending) now now 1 source_ip
             end in
  let s' := set_localsend s (<[k := row]> (localsend_peers s)) in
  then_get s' (get_localsend_peer s' k) "LocalSend peer disappeared after insert".

Definition record_trusted_localsend_peer (s : TrustStore) (now : Z) (fingerprint alias : rstring)
    (source_ip : option rstring) : result CoreError (LocalSendPeer * TrustStore) :=
  k ← normalize_localsend_fingerprint fingerprint;
  _ ← require_nonblank "LocalSend alias" alias;
  let row := match localsend_peers s !! k with
             | Some row => mkLsRow alias (lw_label row) (lw_status row) (lw_first_seen row) now
                             (lw_attempt_count row) (coalesce source_ip (lw_source_ip row))
             | None => mkLsRow alias None (status_as_str StTrusted) now now 0 source_ip
             end in
  let s' := set_localsend s (<[k := row]> (localsend_peers s)) in
  then_get s' (get_localsend_peer s' k) "LocalSend peer disappeared after insert".

Definition trimmed_label (label : option rstring) : option rstring :=
  l ← label; let t := trim l in if bool_decide (t = []) then None else Some t.

Definition set_localsend_peer_status (s : TrustStore) (now : Z) (fingerprint : rstring)
    (status : LocalSendPeerStatus) (label : option rstring) : result CoreError (LocalSendPeer * TrustStore) :=
  k ← normalize_localsend_fingerprint fingerprint;
  let label := trimmed_label label in
  let row := match localsend_peers s !! k with
             | Some row => mkLsRow (lw_alias row) (coalesce label (lw_label row)) (status_as_str status)
                             (lw_first_seen row) now (lw_attempt_count row) (lw_source_ip row)
             | None => mkLsRow [] label (status_as_str status) now now 0 None
             end in
  let s' := set_localsend s (<[k := row]> (localsend_peers s)) in
  then_get s' (get_localsend_peer s' k) "LocalSend peer disappeared after update".

Definition approve_localsend_peer (s : TrustStore) (now : Z) (fingerprint : rstring) (label : option rstring) :=
  set_localsend_peer_status s now fingerprint StTrusted label.
Definition deny_localsend_peer (s : TrustStore) (now : Z) (fingerprint : rstring) :=
  set_localsend_peer_status s now fingerprint StBlocked None.

(** [WHERE status = ? ORDER BY last_seen DESC, first_seen DESC] *)
Definition list_localsend_peers_by_status (s : TrustStore) (status : LocalSendPeerStatus) :
    result CoreError (list LocalSendPeer) :=
  collect_rows row_to_localsend_peer
    (stable_sort (λ a b, lex_leb [- lw_last_seen a.2; - lw_first_seen a.2] [- lw_last_seen b.2; - lw_first_seen b.2])
       (filter (λ kr, lw_status kr.2 = status_as_str status) (map_to_list (localsend_peers s)))).

Definition list_pending_localsend_peers (s : TrustStore) := list_localsend_peers_by_status s StPending.
Definition list_trusted_localsend_peers (s : TrustStore) := list_localsend_peers_by_status s StTrusted.

Definition is_localsend_peer_blocked (s : TrustStore) (fingerprint : rstring) : result CoreError bool :=
  o ← get_localsend_peer s fingerprint;
  Ok (match o with Some p => bool_decide (ls_status p = StBlocked) | None => false end).

Definition trusted_localsend_fingerprints (s : TrustStore) : result CoreError (list rstring) :=
  list_localsend_peers_by_status s StTrusted ≫= λ l : list LocalSendPeer, Ok (ls_fingerprint <$> l).

Definition get_localsend_lan_peer (s : TrustStore) (fingerprint : rstring) :
    result CoreError (option LocalSendLanPeer) :=
  k ← normalize_localsend_fingerprint fingerprint;
  select_one row_to_localsend_lan_peer (localsend_lan_peers s) k.

Definition record_localsend_lan_peer (s : TrustStore) (now : Z) (peer : LocalSendLanPeer) :
    result CoreError (LocalSendLanPeer * TrustStore) :=
  k ← normalize_localsend_fingerprint (lan_fingerprint peer);
  _ ← require_nonblank "LocalSend alias" (lan_alias peer);
  _ ← require_nonblank "LocalSend source IP" (lan_source_ip peer);
  _ ← require_nonblank "LocalSend protocol" (lan_protocol peer);
  let first_seen := match localsend_lan_peers s !! k with Some row => nw_first_seen row | None => now end in
  let row := mkLanRow (lan_alias peer) (lan_source_ip peer) (lan_port peer) (lan_protocol peer)
               (lan_device_model peer) (lan_device_type peer) (if lan_download peer then 1 else 0)
               first_seen now in
  let s' := mkTrustStore (peers s) (localsend_peers s) (<[k := row]> (localsend_lan_peers s)) in
  then_get s' (get_localsend_lan_peer s' k) "LocalSend LAN peer disappeared after insert".

Definition list_localsend_lan_peers (s : TrustStore) : result CoreError (list LocalSendLanPeer) :=
  collect_rows row_to_localsend_lan_peer
    (stable_sort (λ a b, lex_leb [- nw_last_seen a.2; - nw_first_seen a.2] [- nw_last_seen b.2; - nw_first_seen b.2])
       (map_to_list (localsend_lan_peers s))).
End localsend.

(** ** Invariant *)

Lemma policy_str_roundtrip p : policy_from_str (policy_as_str p) = Ok p.
Proof. by destruct p. Qed.
Lemma status_str_roundtrip st : status_from_str (status_as_str st) = Ok st.
Proof. by destruct st. Qed.

Section invariant.
Context `{CryptoLaws} `{LowercaseLaws}.

(** What the tables hold at all times: every row reads back. *)
Record trust_wf (s : TrustStore) : Prop := {
  wf_peers k row : peers s !! k = Some row →
    (∃ fp, fingerprint_ok fp ∧ k = show_fingerprint fp) ∧ length (pw_pubkey row) = 32%nat ∧
    ∃ p, pw_policy row = policy_as_str p;
  wf_localsend k row : localsend_peers s !! k = Some row →
    normalize_localsend_fingerprint k = Ok k ∧ 0 ≤ lw_attempt_count row ∧
    ∃ st, lw_status row = status_as_str st;
  wf_lan k row : localsend_lan_peers s !! k = Some row →
    normalize_localsend_fingerprint k = Ok k ∧ 0 ≤ nw_port row ≤ 65535
}.

Lemma normalize_idem f k :
  normalize_localsend_fingerprint f = Ok k → normalize_localsend_fingerprint k = Ok k.
Proof.
  intros Hn. unfold normalize_localsend_fingerprint in *. inv_ok. bools. 
  set (l := filter _ f) in *.
  assert (Hl : ∀ c, c ∈ l → c ≠ 58 ∧ c ≠ 45) by (intros c [? _]%list_elem_of_filter; done).
  assert (Hgen : ∀ l, (∀ c, c ∈ l → c ≠ 58 ∧ c ≠ 45) →
    filter (λ ch, ch ≠ 58 ∧ ch ≠ 45) (l ≫= char_to_lowercase) ≫= char_to_lowercase = l ≫= char_to_lowercase).
  { clear -H2. induction l as [|c l IH]; intros Hc; [done|].
    cbn [mbind list_bind]. rewrite filter_app, bind_app. f_equal; [|apply IH; intros; apply Hc; by right].
    assert (Hd : Forall (λ d, (d ≠ 58 ∧ d ≠ 45) ∧ char_to_lowercase d = [d]) (char_to_lowercase c)).
    { apply Forall_forall. intros d Hd. split; [|by eapply lowercase_stable].
      destruct (Hc c) as [? ?]; [left|]. split; intros ->;
        pose proof (lowercase_separators c _ Hd) as Hs; naive_solver. }
    induction Hd as [|d ds [Hd1 Hd2] Hds IHd]; [done|]. rewrite filter_cons_True by done.
    cbn [mbind list_bind]. by rewrite Hd2, IHd. }
  rewrite <-Hn, Hgen by done. by rewrite bool_decide_false by done.
Qed.

Lemma from_pubkey_ok pk : fingerprint_ok (from_pubkey pk).
Proof.
  unfold fingerprint_ok, from_pubkey. rewrite length_take, sha256_length. split; [done|].
  apply Forall_take, sha256_bytes.
Qed.

Lemma show_fingerprint_inj f g :
  fingerprint_ok f → fingerprint_ok g → show_fingerprint f = show_fingerprint g → f = g.
Proof.
  intros Hf Hg Heq. apply (Ok_inj (E := CoreError)).
  by rewrite <-(parse_show_fingerprint f Hf), <-(parse_show_fingerprint g Hg), Heq.
Qed.

(** A well-formed row of the peers table reads back as a peer. *)
Definition peer_of (fp : bytes) (row : peer_row) (p : PeerPolicy) : Peer :=
  mkPeer fp (pw_pubkey row) (pw_label row) (pw_trusted_at row) (pw_last_seen row)
    (pw_native_certificate_fingerprint row) p.

Lemma row_to_peer_Ok fp row p :
  fingerprint_ok fp → length (pw_pubkey row) = 32%nat → pw_policy row = policy_as_str p →
  row_to_peer (show_fingerprint fp) row = Ok (peer_of fp row p).
Proof.
  intros Hfp Hl Hp. unfold row_to_peer. rewrite parse_show_fingerprint by done. cbn [mbind result_bind].
  rewrite bool_decide_true by done. cbn [ensure mbind result_bind].
  by rewrite Hp, policy_str_roundtrip.
Qed.

Lemma row_to_localsend_Ok k row st :
  lw_status row = status_as_str st → 0 ≤ lw_attempt_count row →
  row_to_localsend_peer k row = Ok (mkLsPeer k (lw_alias row) (lw_label row) st (lw_first_seen row)
    (lw_last_seen row) (lw_attempt_count row) (lw_source_ip row)).
Proof.
  intros Hs Ha. unfold row_to_localsend_peer. rewrite Hs, status_str_roundtrip. cbn [mbind result_bind].
  by destruct (Z.leb_spec 0 (lw_attempt_count row)); [|lia].
Qed.

Lemma peer_row_wf s k row :
  trust_wf s → length (pw_pubkey row) = 32%nat → (∃ p, pw_policy row = policy_as_str p) →
  (∃ fp, fingerprint_ok fp ∧ k = show_fingerprint fp) → trust_wf (set_peers s (<[k := row]> (peers s))).
Proof.
  intros [Hp Hl Hn] ? ? ?. split; simpl; [|done..]. intros k' row'. rewrite lookup_insert.
  case_decide; [|apply Hp]. intros [= <-]. by subst k'.
Qed.

Lemma ls_row_wf s k row :
  trust_wf s → normalize_localsend_fingerprint k = Ok k → 0 ≤ lw_attempt_count row →
  (∃ st, lw_status row = status_as_str st) → trust_wf (set_localsend s (<[k := row]> (localsend_peers s))).
Proof.
  intros [Hp Hl Hn] ? ? ?. split; simpl; [done| |done]. intros k' row'. rewrite lookup_insert.
  case_decide; [|apply Hl]. intros [= <-]. by subst k'.
Qed.

Lemma upsert_wf s now pk label policy k :
  trust_wf s → length pk = 32%nat →
  length (pw_pubkey (upsert_peer now pk label policy (peers s !! k))) = 32%nat ∧
  pw_policy (upsert_peer now pk label policy (peers s !! k)) = policy_as_str policy.
Proof.
  intros Hwf Hpk. destruct (peers s !! k) as [row|] eqn:Hr; simpl; [|done]. split; [|done].
  by apply (wf_peers _ Hwf _ _ Hr).
Qed.

(** One successful call of a method of the store.  A public key is 32 bytes
    and a port is a [u16] by their types. *)
Inductive trust_step : TrustStore → TrustStore → Prop :=
| step_trust s now pk label policy p s' :
    length pk = 32%nat → trust s now pk label policy = Ok (p, s') → trust_step s s'
| step_trust_certificate s now pk label policy cert p s' :
    length pk = 32%nat → trust_with_native_certificate s now pk label policy cert = Ok (p, s') → trust_step s s'
| step_untrust s fp : trust_step s (untrust s fp).2
| step_touch s now fp : trust_step s (touch s now fp)
| step_pending s now f alias ip p s' :
    record_pending_localsend_peer s now f alias ip = Ok (p, s') → trust_step s s'
| step_trusted s now f alias ip p s' :
    record_trusted_localsend_peer s now f alias ip = Ok (p, s') → trust_step s s'
| step_status s now f st label p s' :
    set_localsend_peer_status s now f st label = Ok (p, s') → trust_step s s'
| step_lan s now peer p s' :
    0 ≤ lan_port peer ≤ 65535 → record_localsend_lan_peer s now peer = Ok (p, s') → trust_step s s'.

Lemma then_get_Ok_inv {A} s' (r : result CoreError (option A)) g a s'' :
  then_get s' r g = Ok (a, s'') → s'' = s' ∧ r = Ok (Some a).
Proof. unfold then_get. intros Hg. inv_ok. by simplify_eq. Qed.

Lemma attempts_wf s k (row : ls_row) :
  trust_wf s → localsend_peers s !! k = Some row →
  0 ≤ lw_attempt_count row ∧ ∃ st, lw_status row = status_as_str st.
Proof. intros Hwf Hr. by apply (wf_localsend _ Hwf _ _ Hr). Qed.

Ltac ls_row_auto Hwf Hr :=
  try (destruct (attempts_wf _ _ _ Hwf Hr) as (? & ? & ?)); solve [lia | eauto].

Lemma trust_step_wf s s' : trust_step s s' → trust_wf s → trust_wf s'.
Proof.
  intros Hstep Hwf. destruct Hstep as [s now pk label policy p s' Hpk Ht|s now pk label policy cert p s' Hpk Ht|
    s fp|s now fp|s now f alias ip p s' Ht|s now f alias ip p s' Ht|s now f st label p s' Ht|s now peer p s' Hport Ht].
  - apply then_get_Ok_inv in Ht as [-> _]. destruct (upsert_wf s now pk label policy (show_fingerprint (from_pubkey pk)) Hwf Hpk) as [Hl Hp].
    apply peer_row_wf; eauto using from_pubkey_ok.
  - unfold trust_with_native_certificate in Ht. inv_ok. apply then_get_Ok_inv in Ht as [-> _].
    destruct (upsert_wf s now pk label policy (show_fingerprint (from_pubkey pk)) Hwf Hpk) as [Hl Hp].
    apply peer_row_wf; eauto using from_pubkey_ok.
  - destruct Hwf as [Hp Hl Hn]. split; simpl; [|done..]. intros k row [_ Hr]%lookup_delete_Some. by apply Hp.
  - destruct Hwf as [Hp Hl Hn]. split; simpl; [|done..]. intros k row Hr.
    apply lookup_alter_Some in Hr as [(<- & row0 & Hr & ->)|[_ Hr]]; by apply (Hp _ _ Hr).
  - unfold record_pending_localsend_peer in Ht. inv_ok. apply then_get_Ok_inv in Ht as [-> _].
    apply ls_row_wf; [done|by eapply normalize_idem|..];
      destruct (localsend_peers s !! _) as [row|] eqn:Hr; cbn [lw_attempt_count lw_status]; ls_row_auto Hwf Hr.
  - unfold record_trusted_localsend_peer in Ht. inv_ok. apply then_get_Ok_inv in Ht as [-> _].
    apply ls_row_wf; [done|by eapply normalize_idem|..];
      destruct (localsend_peers s !! _) as [row|] eqn:Hr; cbn [lw_attempt_count lw_status]; ls_row_auto Hwf Hr.
  - unfold set_localsend_peer_status in Ht. inv_ok. apply then_get_Ok_inv in Ht as [-> _].
    apply ls_row_wf; [done|by eapply normalize_idem|..];
      destruct (localsend_peers s !! _) as [row|] eqn:Hr; cbn [lw_attempt_count lw_status]; ls_row_auto Hwf Hr.
  - unfold record_localsend_lan_peer in Ht. inv_ok. apply then_get_Ok_inv in Ht as [-> _].
    destruct Hwf as [Hp Hl Hn]. split; simpl; [done..|]. intros k row. rewrite lookup_insert.
    case_decide; [|apply Hn]. intros [= <-]. subst. split; [by eapply normalize_idem|done].
Qed.

Lemma trust_steps_wf s s' : rtc trust_step s s' → trust_wf s → trust_wf s'.
Proof. induction 1; eauto using trust_step_wf. Qed.

Lemma trust_reachable_wf s : rtc trust_step empty_trust_store s → trust_wf s.
Proof. intros Hr. eapply trust_steps_wf; [done|by split]. Qed.

Lemma collect_rows_Ok {R A} (f : rstring → R → result CoreError A) rows :
  (∀ k r, (k, r) ∈ rows → ∃ a, f k r = Ok a) →
  ∃ l, collect_rows f rows = Ok l ∧ Forall2 (λ kr a, f kr.1 kr.2 = Ok a) rows l.
Proof.
  induction rows as [|[k r] rows IH]; intros Hall; simpl; [eauto|].
  destruct (Hall k r) as [a Ha]; [left|]. destruct IH as (l & Hl & HF); [intros; apply Hall; by right|].
  exists (a :: l). rewrite Ha. cbn [mbind result_bind]. rewrite Hl. eauto.
Qed.

Lemma peer_row_reads s k row : trust_wf s → peers s !! k = Some row → ∃ p, row_to_peer k row = Ok p.
Proof.
  intros Hwf Hr. destruct (wf_peers _ Hwf _ _ Hr) as ((fp & Hfp & ->) & Hl & p & Hp).
  rewrite (row_to_peer_Ok fp row p) by done. eauto.
Qed.
Lemma ls_row_reads s k row : trust_wf s → localsend_peers s !! k = Some row →
  ∃ p, row_to_localsend_peer k row = Ok p.
Proof.
  intros Hwf Hr. destruct (attempts_wf _ _ _ Hwf Hr) as (Ha & st & Hst).
  rewrite (row_to_localsend_Ok k row st) by done. eauto.
Qed.

Lemma select_one_total {R A} (f : rstring → R → result CoreError A) m k :
  (∀ row, m !! k = Some row → ∃ a, f k row = Ok a) → ∃ o, select_one f m k = Ok o.
Proof.
  intros Hf. unfold select_one. destruct (m !! k) as [row|]; [|eauto].
  destruct (Hf row) as [a ->]; simpl; eauto.
Qed.

(** Every state the methods reach reads back: no query fails. *)
Theorem trust_store_queries_total s :
  rtc trust_step empty_trust_store s →
  (∃ l, list_peers s = Ok l ∧ length l = size (peers s)) ∧
  (∀ fp, ∃ o, get s fp = Ok o) ∧
  (∀ fp, ∃ d, trust_decision s fp = Ok d) ∧
  (∀ st, ∃ l, list_localsend_peers_by_status s st = Ok l) ∧
  (∃ l, list_localsend_lan_peers s = Ok l ∧ length l = size (localsend_lan_peers s)).
Proof.
  intros Hwf%trust_reachable_wf.
  assert (Hget : ∀ fp, ∃ o, get s fp = Ok o).
  { intros fp. apply select_one_total. eauto using peer_row_reads. }
  split_and!.
  - edestruct (collect_rows_Ok row_to_peer) as (l & Hl & HF); [|exists l; split; [exact Hl|]].
    + intros k r ?%elem_of_stable_sort%elem_of_map_to_list. eauto using peer_row_reads.
    + by rewrite <-(Forall2_length _ _ _ HF), stable_sort_perm, length_map_to_list.
  - done.
  - intros fp. destruct (Hget fp) as [o Ho]. unfold trust_decision. rewrite Ho. cbn. eauto.
  - intros st. edestruct (collect_rows_Ok row_to_localsend_peer) as (l & Hl & HF); [|exists l; exact Hl].
    intros k r [_ ?%elem_of_map_to_list]%elem_of_stable_sort%list_elem_of_filter. eauto using ls_row_reads.
  - edestruct (collect_rows_Ok row_to_localsend_lan_peer) as (l & Hl & HF); [|exists l; split; [exact Hl|]].
    + intros k r Hr%elem_of_stable_sort%elem_of_map_to_list. destruct (wf_lan _ Hwf _ _ Hr) as [_ Hp].
      unfold row_to_localsend_lan_peer.
      by destruct (Z.leb_spec 0 (nw_port r)), (Z.leb_spec (nw_port r) 65535); try lia; eexists.
    + by rewrite <-(Forall2_length _ _ _ HF), stable_sort_perm, length_map_to_list.
Qed.

Definition decision_of (p : PeerPolicy) : TrustDecision :=
  match p with AutoAccept => DecideAutoAccept | Prompt => DecidePrompt | Block => DecideBlock end.

Lemma get_insert s fp row p :
  fingerprint_ok fp → length (pw_pubkey row) = 32%nat → pw_policy row = policy_as_str p →
  get (set_peers s (<[show_fingerprint fp := row]> (peers s))) fp = Ok (Some (peer_of fp row p)).
Proof.
  intros Hfp Hl Hp. unfold get, select_one. cbn [peers set_peers]. rewrite lookup_insert_eq.
  by rewrite (row_to_peer_Ok fp row p).
Qed.

Lemma get_insert_ne s fp fp' row :
  fingerprint_ok fp → fingerprint_ok fp' → fp ≠ fp' →
  get (set_peers s (<[show_fingerprint fp := row]> (peers s))) fp' = get s fp'.
Proof.
  intros Hf Hf' Hne. unfold get, select_one. cbn [peers set_peers]. rewrite lookup_insert_ne; [done|].
  intros Heq. by apply Hne, show_fingerprint_inj.
Qed.

(** [trust] on any reachable store succeeds and is a policy upsert on the
    fingerprint of the key: the label and the policy become the given ones
    and decide later requests; what was pinned first (key, time of trust,
    certificate) stays; other peers are untouched; [untrust] undoes it. *)
Theorem trust_upserts s now pk label policy :
  trust_wf s → length pk = 32%nat →
  let fp := from_pubkey pk in
  ∃ p s', trust s now pk label policy = Ok (p, s') ∧ get s' fp = Ok (Some p) ∧
    pr_fingerprint p = fp ∧ pr_label p = label ∧ trust_decision s' fp = Ok (decision_of policy) ∧
    (∀ old, get s fp = Ok (Some old) → pr_pubkey p = pr_pubkey old ∧ pr_trusted_at p = pr_trusted_at old ∧
       pr_native_certificate_fingerprint p = pr_native_certificate_fingerprint old) ∧
    (get s fp = Ok None → pr_pubkey p = pk ∧ pr_trusted_at p = now ∧
       pr_native_certificate_fingerprint p = None) ∧
    (∀ fp', fingerprint_ok fp' → fp' ≠ fp → get s' fp' = get s fp') ∧
    get (untrust s' fp).2 fp = Ok None.
Proof.
  intros Hwf Hpk fp. pose proof (from_pubkey_ok pk : fingerprint_ok fp) as Hfp.
  destruct (upsert_wf s now pk label policy (show_fingerprint fp) Hwf Hpk) as [Hl Hp].
  unfold trust. fold fp. set (row := upsert_peer _ _ _ _ _) in *.
  set (s' := set_peers s _). pose proof (get_insert s fp row policy Hfp Hl Hp) as Hget. fold s' in Hget.
  exists (peer_of fp row policy), s'. unfold then_get. rewrite Hget. split_and!; try done.
  - subst row. by destruct (peers s !! _).
  - unfold trust_decision. rewrite Hget. by destruct policy.
  - intros old Hold. unfold get, select_one in Hold. subst row.
    destruct (peers s !! _) as [row|] eqn:Hr; [|done].
    destruct (wf_peers _ Hwf _ _ Hr) as (_ & Hl' & p & Hp').
    rewrite (row_to_peer_Ok fp row p) in Hold by done. cbn in Hold. by simplify_eq.
  - intros Hnone. unfold get, select_one in Hnone. subst row.
    destruct (peers s !! _) as [row|] eqn:Hr; [|done]. by destruct (row_to_peer _ row).
  - intros fp' Hfp' Hne. by apply get_insert_ne.
  - unfold untrust, get, select_one. cbn [snd peers set_peers]. by rewrite lookup_delete_eq.
Qed.

Lemma get_localsend_insert s k row st :
  normalize_localsend_fingerprint k = Ok k → lw_status row = status_as_str st → 0 ≤ lw_attempt_count row →
  get_localsend_peer (set_localsend s (<[k := row]> (localsend_peers s))) k =
    Ok (Some (mkLsPeer k (lw_alias row) (lw_label row) st (lw_first_seen row)
      (lw_last_seen row) (lw_attempt_count row) (lw_source_ip row))).
Proof.
  intros Hk Hs Ha. unfold get_localsend_peer. rewrite Hk. cbn [mbind result_bind]. unfold select_one.
  cbn [localsend_peers set_localsend]. rewrite lookup_insert_eq.
  by rewrite (row_to_localsend_Ok k row st) by done.
Qed.

Lemma get_localsend_insert_ne s k k' f' row :
  normalize_localsend_fingerprint f' = Ok k' → k ≠ k' →
  get_localsend_peer (set_localsend s (<[k := row]> (localsend_peers s))) f' = get_localsend_peer s f'.
Proof.
  intros Hk Hne. unfold get_localsend_peer. rewrite Hk. cbn [mbind result_bind]. unfold select_one.
  cbn [localsend_peers set_localsend]. by rewrite lookup_insert_ne.
Qed.

Lemma get_localsend_row s f k :
  trust_wf s → normalize_localsend_fingerprint f = Ok k →
  match localsend_peers s !! k with
  | Some row => ∃ st, lw_status row = status_as_str st ∧ 0 ≤ lw_attempt_count row ∧
      get_localsend_peer s f = Ok (Some (mkLsPeer k (lw_alias row) (lw_label row) st (lw_first_seen row)
        (lw_last_seen row) (lw_attempt_count row) (lw_source_ip row)))
  | None => get_localsend_peer s f = Ok None
  end.
Proof.
  intros Hwf Hk. unfold get_localsend_peer. rewrite Hk. cbn [mbind result_bind]. unfold select_one.
  destruct (localsend_peers s !! k) as [row|] eqn:Hr; [|done].
  destruct (attempts_wf _ _ _ Hwf Hr) as (Ha & st & Hst). exists st. split_and!; [done..|].
  by rewrite (row_to_localsend_Ok k row st).
Qed.

(** What a call did to the LocalSend peers: the peer of [f] now has status
    [st] and has been tried [n] times, all other peers are as before. *)
Definition localsend_updated (s s' : TrustStore) (f : rstring) (st : LocalSendPeerStatus) (n : Z) : Prop :=
  (∃ p, get_localsend_peer s' f = Ok (Some p) ∧ ls_status p = st ∧ ls_attempt_count p = n ∧
     is_localsend_peer_blocked s' f = Ok (bool_decide (st = StBlocked))) ∧
  (∀ f' k k', normalize_localsend_fingerprint f = Ok k → normalize_localsend_fingerprint f' = Ok k' → k ≠ k' →
     get_localsend_peer s' f' = get_localsend_peer s f').

Lemma localsend_update_row (P : TrustStore → Prop) s f k row st n g :
  (∀ s', localsend_updated s s' f st n → P s') → normalize_localsend_fingerprint f = Ok k → lw_status row = status_as_str st →
  lw_attempt_count row = n → 0 ≤ n →
  ∃ p s', then_get (set_localsend s (<[k := row]> (localsend_peers s)))
      (get_localsend_peer (set_localsend s (<[k := row]> (localsend_peers s))) k) g = Ok (p, s') ∧ P s'.
Proof.
  intros HP Hk Hst Hn Hpos. set (s' := set_localsend s _). pose proof (normalize_idem _ _ Hk) as Hkk.
  pose proof (get_localsend_insert s k row st Hkk Hst ltac:(lia)) as Hget. fold s' in Hget.
  assert (Hf : get_localsend_peer s' f = get_localsend_peer s' k).
  { unfold get_localsend_peer. by rewrite Hk, Hkk. }
  unfold then_get. rewrite Hget. eexists _, s'. split; [done|]. apply HP. split.
  - rewrite Hf, Hget. eexists. split_and!; [done..|]. unfold is_localsend_peer_blocked.
    by rewrite Hf, Hget.
  - intros f' k1 k' Hk1 Hk' Hne. rewrite Hk in Hk1. injection Hk1 as <-.
    by apply (get_localsend_insert_ne s k k').
Qed.

(** The LocalSend approval state machine.  A contact attempt or an
    allowlisted transfer never changes the status of a known peer; an
    unknown peer becomes pending (first attempt) or trusted; only
    [approve]/[deny] change a status, to trusted and blocked. *)
Theorem localsend_status_machine s now f k :
  trust_wf s → normalize_localsend_fingerprint f = Ok k →
  let old := get_localsend_peer s f in
  (∀ alias ip, is_blank alias = false →
    (∃ p s', record_pending_localsend_peer s now f alias ip = Ok (p, s') ∧
      match old with
      | Ok (Some q) => localsend_updated s s' f (ls_status q) (ls_attempt_count q + 1)
      | _ => old = Ok None ∧ localsend_updated s s' f StPending 1
      end) ∧
    (∃ p s', record_trusted_localsend_peer s now f alias ip = Ok (p, s') ∧
      match old with
      | Ok (Some q) => localsend_updated s s' f (ls_status q) (ls_attempt_count q)
      | _ => old = Ok None ∧ localsend_updated s s' f StTrusted 0
      end)) ∧
  (∀ label, ∃ p s', approve_localsend_peer s now f label = Ok (p, s') ∧ ∃ n, localsend_updated s s' f StTrusted n) ∧
  (∃ p s', deny_localsend_peer s now f = Ok (p, s') ∧ ∃ n, localsend_updated s s' f StBlocked n).
Proof.
  intros Hwf Hk old. pose proof (get_localsend_row s f k Hwf Hk) as Hold. fold old in Hold.
  assert (Hset : ∀ st label, ∃ p s', set_localsend_peer_status s now f st label = Ok (p, s') ∧
      ∃ n, localsend_updated s s' f st n).
  { intros st label. unfold set_localsend_peer_status. rewrite Hk. cbn [mbind result_bind].
    destruct (localsend_peers s !! k) as [row|].
    - destruct Hold as (st0 & Hst0 & Ha & _). by eapply localsend_update_row; eauto.
    - eapply (localsend_update_row _ _ _ _ _ _ 0); eauto; done. }
  split_and!; [|by intros; apply Hset..].
  intros alias ip Hb. unfold record_pending_localsend_peer, record_trusted_localsend_peer, require_nonblank.
  rewrite Hk, Hb. cbn [mbind result_bind negb ensure].
  destruct (localsend_peers s !! k) as [row|].
  - destruct Hold as (st & Hst & Ha & ->). cbn [ls_status ls_attempt_count].
    split; eapply localsend_update_row; eauto; cbn [lw_attempt_count]; lia.
  - rewrite Hold. split; eapply localsend_update_row; eauto; done.
Qed.

Lemma status_as_str_inj a b : status_as_str a = status_as_str b → a = b.
Proof. intros Heq. apply (Ok_inj (E := CoreError)). by rewrite <-!status_str_roundtrip, Heq. Qed.

(** A listing by status holds exactly the peers whose row has it. *)
Lemma listed_by_status s st :
  trust_wf s →
  ∃ l, list_localsend_peers_by_status s st = Ok l ∧
    ∀ p, p ∈ l ↔ normalize_localsend_fingerprint (ls_fingerprint p) = Ok (ls_fingerprint p) ∧
                 get_localsend_peer s (ls_fingerprint p) = Ok (Some p) ∧ ls_status p = st.
Proof.
  intros Hwf. unfold list_localsend_peers_by_status. set (rows := stable_sort _ _).
  assert (Hrows : ∀ k r, (k, r) ∈ rows ↔ localsend_peers s !! k = Some r ∧ lw_status r = status_as_str st).
  { intros k r. subst rows. rewrite elem_of_stable_sort, list_elem_of_filter, elem_of_map_to_list. cbn. tauto. }
  destruct (collect_rows_Ok row_to_localsend_peer rows) as (l & Hl & HF).
  { intros k r [Hr _]%Hrows. eauto using ls_row_reads. }
  exists l. split; [exact Hl|]. intros p.
  assert (Hp : p ∈ l ↔ ∃ k r, (k, r) ∈ rows ∧ row_to_localsend_peer k r = Ok p).
  { clear Hrows Hl. clearbody rows. induction HF as [|[k r] a rows l Ha HF IH].
    - split; [intros []%not_elem_of_nil|intros (? & ? & []%not_elem_of_nil & _)].
    - cbn [fst snd] in Ha. rewrite elem_of_cons, IH. split.
      + intros [->|(k' & r' & ? & ?)]; [exists k, r|exists k', r']; rewrite elem_of_cons; auto.
      + intros (k' & r' & [Heq|?]%elem_of_cons & Hrow); [left|right; eauto]. simplify_eq. congruence. }
  rewrite Hp. split.
  - intros (k & r & [Hr Hst]%Hrows & Hrow). pose proof (wf_localsend _ Hwf _ _ Hr) as (Hkk & Ha & _).
    rewrite (row_to_localsend_Ok k r st Hst Ha) in Hrow. apply Ok_inj in Hrow as <-. cbn. split_and!; try done.
    pose proof (get_localsend_row s k k Hwf Hkk) as Hg. rewrite Hr in Hg. destruct Hg as (st' & Hst' & _ & Hg).
    rewrite Hst in Hst'. by apply status_as_str_inj in Hst' as <-.
  - intros (Hkk & Hg & Hst). pose proof (get_localsend_row s _ _ Hwf Hkk) as Hrow.
    destruct (localsend_peers s !! ls_fingerprint p) as [r|] eqn:Hr; [|congruence].
    destruct Hrow as (st' & Hst' & Ha & Hg'). exists (ls_fingerprint p), r.
    assert (Hpe : row_to_localsend_peer (ls_fingerprint p) r = Ok p).
    { rewrite (row_to_localsend_Ok _ r st' Hst' Ha). congruence. }
    split; [|done]. apply Hrows. split; [done|]. rewrite Hst'. f_equal.
    rewrite (row_to_localsend_Ok _ r st' Hst' Ha) in Hpe. apply Ok_inj in Hpe. rewrite <-Hst, <-Hpe. done.
Qed.

(** The allowlist handed to the LocalSend server is exactly the set of peers
    whose status is trusted, so a blocked or pending peer is never on it. *)
Lemma trusted_fingerprints_exact s :
  trust_wf s →
  ∃ l, trusted_localsend_fingerprints s = Ok l ∧
    ∀ k, k ∈ l ↔ ∃ p, get_localsend_peer s k = Ok (Some p) ∧ ls_fingerprint p = k ∧ ls_status p = StTrusted.
Proof.
  intros Hwf. destruct (listed_by_status s StTrusted Hwf) as (l & Hl & Hmem).
  unfold trusted_localsend_fingerprints. rewrite Hl. cbn [mbind result_bind]. eexists. split; [done|]. intros k.
  rewrite list_elem_of_fmap. split.
  - intros (p & -> & Hp). apply Hmem in Hp as (_ & ? & ?). eauto.
  - intros (p & Hg & <- & Hst). exists p. split; [done|]. apply Hmem. split; [|done].
    unfold get_localsend_peer in Hg. inv_ok. unfold select_one in Hg.
    destruct (localsend_peers s !! x) as [r|] eqn:Hr; [|done]. pose proof (wf_localsend _ Hwf _ _ Hr) as (Hkk & Ha & st & Hs).
    rewrite (row_to_localsend_Ok x r st) in Hg by done. assert (x = ls_fingerprint p) as <- by (cbn in Hg; simplify_eq; done). done.
Qed.
End invariant.
