(* ===== verification/Stun.v ===== *)
(** * STUN binding client

    Model of crates/protocol-native-v1/src/stun.rs: the binding request, the
    parser of binding responses (indexing and slicing may panic) and the
    checks around the exchange.  The UDP socket is not modelled. *)

From stdpp Require Import prelude strings.
From Stdlib Require Import ZArith Lia.
From S2P Require Import Prelude RustStr Errors Inet.

Local Open Scope Z_scope.

Definition BINDING_REQUEST : Z := 0x0001.
Definition BINDING_SUCCESS_RESPONSE : Z := 0x0101.
Definition XOR_MAPPED_ADDRESS : Z := 0x0020.
Definition MAGIC_COOKIE : Z := 0x2112a442.
Definition HEADER_LEN : Z := 20.

Definition stun_error {A} (message : string) : result NativeError A := Err (Transport (str message)).

Definition build_binding_request (transaction_id : bytes) : bytes :=
  to_be_bytes 2 BINDING_REQUEST ++ to_be_bytes 2 0 ++ to_be_bytes 4 MAGIC_COOKIE ++ transaction_id.

(** [(len + 3) & !3] *)
Definition padded_attr_len (len : Z) : Z := Z.land (len + 3) (Z.lnot 3).

(** [u16::from_be_bytes([l[i], l[i + 1]])] *)
Definition be16_at (l : bytes) (i : Z) : result NativeError Z :=
  a ← index l i; b ← index l (i + 1); Ok (from_be_bytes [a; b]).

Definition parse_xor_mapped_address (attribute : bytes) : result NativeError SocketAddr :=
  if zlen attribute <? 8 then stun_error "STUN XOR-MAPPED-ADDRESS is truncated"
  else
    family ← index attribute 1;
    if negb (family =? 0x01) then stun_error "STUN XOR-MAPPED-ADDRESS must be IPv4"
    else
      x_port ← be16_at attribute 2;
      let port := Z.lxor x_port (Z.shiftr MAGIC_COOKIE 16) in
      a ← index attribute 4; b ← index attribute 5; c ← index attribute 6; d ← index attribute 7;
      Ok (SockV4 (Z.lxor a 0x21) (Z.lxor b 0x12) (Z.lxor c 0xa4) (Z.lxor d 0x42) port).

(** The [while offset + 4 <= end] loop; running out of fuel counts as a panic. *)
Fixpoint attribute_loop (fuel : nat) (response : bytes) (offset end_ : Z) : result NativeError SocketAddr :=
  match fuel with
  | O => Panic
  | S fuel =>
    if offset + 4 <=? end_ then
      attr_type ← be16_at response offset;
      attr_len ← be16_at response (offset + 2);
      let offset := offset + 4 in
      if end_ <? offset + attr_len then stun_error "STUN attribute is truncated"
      else if attr_type =? XOR_MAPPED_ADDRESS then
        attribute ← slice_of response offset (offset + attr_len);
        parse_xor_mapped_address attribute
      else attribute_loop fuel response (offset + padded_attr_len attr_len) end_
    else stun_error "STUN response missing XOR-MAPPED-ADDRESS"
  end.

Definition parse_binding_response (response transaction_id : bytes) : result NativeError SocketAddr :=
  if zlen response <? HEADER_LEN then stun_error "STUN response is shorter than header"
  else
    message_type ← be16_at response 0;
    if negb (message_type =? BINDING_SUCCESS_RESPONSE) then
      stun_error "STUN response is not a binding success"
    else
      message_len ← be16_at response 2;
      if zlen response <? HEADER_LEN + message_len then stun_error "STUN response body is truncated"
      else
        c0 ← index response 4; c1 ← index response 5; c2 ← index response 6; c3 ← index response 7;
        if negb (from_be_bytes [c0; c1; c2; c3] =? MAGIC_COOKIE) then stun_error "STUN magic cookie mismatch"
        else
          id ← slice_of response 8 20;
          if negb (bool_decide (id = transaction_id)) then stun_error "STUN transaction id mismatch"
          else attribute_loop (S (length response)) response HEADER_LEN (HEADER_LEN + message_len).

(** ** No panic *)

Lemma be16_at_inv l i :
  Forall byte_ok l → 0 ≤ i → i + 1 < zlen l →
  ∃ x, be16_at l i = Ok x ∧ u16_ok x.
Proof.
  intros Hl Hi Hlen. unfold zlen in Hlen. unfold be16_at.
  destruct (index_in_range (E := NativeError) l i) as (a & -> & Ha); [lia|].
  destruct (index_in_range (E := NativeError) l (i + 1)) as (b & -> & Hb); [lia|].
  eexists. split; [done|]. rewrite Forall_forall in Hl.
  apply list_elem_of_lookup_2, Hl in Ha, Hb. unfold u16_ok.
  apply (from_be_bytes_bound [a; b]). by rewrite !Forall_cons, Forall_nil.
Qed.

Lemma padded_attr_len_eq n : padded_attr_len n = (n + 3) / 4 * 4.
Proof.
  unfold padded_attr_len. rewrite <-Z.ldiff_land. change 3 with (Z.ones 2) at 2.
  rewrite Z.ldiff_ones_r, Z.shiftl_mul_pow2, Z.shiftr_div_pow2 by lia. done.
Qed.

Lemma padded_attr_len_ge n : 0 ≤ n → n ≤ padded_attr_len n.
Proof. intros. rewrite padded_attr_len_eq. pose proof (Z.div_mod (n + 3) 4 ltac:(lia)).
  pose proof (Z.mod_pos_bound (n + 3) 4 ltac:(lia)). lia. Qed.

Ltac no_panic :=
  repeat first
    [ done
    | apply bind_no_panic; [apply index_no_panic; unfold zlen in *; lia|intros ? _]
    | match goal with |- (if ?b then _ else _) ≠ Panic => destruct b eqn:? end ].

Lemma parse_xor_no_panic attribute : Forall byte_ok attribute → parse_xor_mapped_address attribute ≠ Panic.
Proof.
  intros Hb. unfold parse_xor_mapped_address. destruct (Z.ltb_spec (zlen attribute) 8); [done|].
  apply bind_no_panic; [apply index_no_panic; unfold zlen in *; lia|intros f _].
  destruct (negb (f =? 1)); [done|].
  destruct (be16_at_inv attribute 2) as (x & -> & _); [done|lia|lia|]. cbn [mbind result_bind]. no_panic.
Qed.

Lemma attribute_loop_no_panic fuel response off end_ :
  Forall byte_ok response → 0 ≤ off → end_ ≤ zlen response →
  (0 < fuel)%nat → end_ - off < 4 * Z.of_nat fuel →
  attribute_loop fuel response off end_ ≠ Panic.
Proof.
  intros Hb Hoff Hend. revert off Hoff. induction fuel as [|fuel IH]; intros off Hoff H0 Hfuel; [lia|].
  cbn [attribute_loop]. destruct (Z.leb_spec (off + 4) end_); [|done].
  destruct (be16_at_inv response off) as (ty & -> & _); [done|lia|lia|].
  destruct (be16_at_inv response (off + 2)) as (n & -> & [Hn _]); [done|lia|lia|].
  cbn [mbind result_bind]. destruct (Z.ltb_spec end_ (off + 4 + n)); [done|].
  destruct (ty =? XOR_MAPPED_ADDRESS).
  - unfold zlen in *. rewrite slice_of_Ok by lia. cbn [mbind result_bind].
    apply parse_xor_no_panic. by apply Forall_take, Forall_drop.
  - pose proof (padded_attr_len_ge n Hn). apply IH; lia.
Qed.

(** No response, however malformed, makes the parser index or slice out of
    range, and its attribute loop always ends. *)
Theorem parse_binding_response_no_panic response transaction_id :
  Forall byte_ok response → parse_binding_response response transaction_id ≠ Panic.
Proof.
  intros Hb. unfold parse_binding_response, HEADER_LEN.
  destruct (Z.ltb_spec (zlen response) 20); [done|].
  destruct (be16_at_inv response 0) as (ty & -> & _); [done|lia|lia|]. cbn [mbind result_bind].
  destruct (negb (ty =? BINDING_SUCCESS_RESPONSE)); [done|].
  destruct (be16_at_inv response 2) as (n & -> & [Hn _]); [done|lia|lia|]. cbn [mbind result_bind].
  destruct (Z.ltb_spec (zlen response) (20 + n)); [done|].
  no_panic. apply bind_no_panic; [unfold zlen in *; by rewrite slice_of_Ok by lia|intros id _].
  destruct (negb (bool_decide (id = transaction_id))); [done|].
  apply attribute_loop_no_panic; [done|lia|lia|lia|]. unfold zlen in *. lia.
Qed.

(** ** Responses of a STUN server

    The reference encoding: an attribute is its type, the length of its value,
    the value, and padding to a multiple of four. *)
Definition encode_attr (attr : Z * bytes) : bytes :=
  to_be_bytes 2 attr.1 ++ to_be_bytes 2 (zlen attr.2) ++ attr.2 ++
  replicate (Z.to_nat (padded_attr_len (zlen attr.2) - zlen attr.2)) 0.

Definition encode_attrs (attrs : list (Z * bytes)) : bytes := attrs ≫= encode_attr.

Definition xor_mapped_value (a b c d port : Z) : bytes :=
  [0; 1] ++ to_be_bytes 2 (Z.lxor port 0x2112) ++
  [Z.lxor a 0x21; Z.lxor b 0x12; Z.lxor c 0xa4; Z.lxor d 0x42].

Definition encode_response (transaction_id body : bytes) : bytes :=
  to_be_bytes 2 BINDING_SUCCESS_RESPONSE ++ to_be_bytes 2 (zlen body) ++
  to_be_bytes 4 MAGIC_COOKIE ++ transaction_id ++ body.

(** An attribute the parser skips. *)
Definition other_attr (attr : Z * bytes) : Prop :=
  u16_ok attr.1 ∧ attr.1 ≠ XOR_MAPPED_ADDRESS ∧ zlen attr.2 < 2 ^ 16.

Lemma zlen_be n x : zlen (to_be_bytes n x) = Z.of_nat n.
Proof. unfold zlen. by rewrite length_to_be_bytes. Qed.

Lemma be2_split x : ∃ a b, to_be_bytes 2 x = [a; b].
Proof.
  pose proof (length_to_be_bytes 2 x) as Hl.
  destruct (to_be_bytes 2 x) as [|a [|b [|c l]]]; try done. eauto.
Qed.

Lemma be16_at_be l x r :
  u16_ok x → be16_at (l ++ to_be_bytes 2 x ++ r) (zlen l) = Ok x.
Proof.
  intros Hx. destruct (be2_split x) as (a & b & Heq). unfold be16_at, zlen. rewrite Heq. cbn [app].
  rewrite index_app. cbn [mbind result_bind].
  replace (Z.of_nat (length l) + 1) with (Z.of_nat (length (l ++ [a]))) by (rewrite length_app; simpl; lia).
  rewrite (cons_middle a), app_assoc, index_app. cbn [mbind result_bind].
  rewrite <-Heq, from_to_be; [done|]. exact Hx.
Qed.

Lemma lxor_bound n a b : 0 ≤ n → 0 ≤ a < 2 ^ n → 0 ≤ b < 2 ^ n → 0 ≤ Z.lxor a b < 2 ^ n.
Proof.
  intros Hn Ha Hb. assert (Z.lxor a b = Z.lxor a b mod 2 ^ n) as ->.
  { rewrite <-Z.land_ones by done. apply Z.bits_inj'. intros k Hk.
    rewrite Z.land_spec, Z.lxor_spec. destruct (Z.ltb_spec k n).
    - by rewrite Z.ones_spec_low, andb_true_r by lia.
    - rewrite <-(Z.mod_small a (2 ^ n)), <-(Z.mod_small b (2 ^ n)) by done.
      rewrite !Z.mod_pow2_bits_high by lia. done. }
  apply Z.mod_pos_bound. lia.
Qed.

Lemma lxor_twice x k : Z.lxor (Z.lxor x k) k = x.
Proof. by rewrite Z.lxor_assoc, Z.lxor_nilpotent, Z.lxor_0_r. Qed.

Lemma parse_xor_mapped_value a b c d port :
  u16_ok port → parse_xor_mapped_address (xor_mapped_value a b c d port) = Ok (SockV4 a b c d port).
Proof.
  intros Hp. pose proof (lxor_bound 16 port 0x2112 ltac:(lia) Hp ltac:(lia)) as Hx.
  unfold xor_mapped_value. unfold parse_xor_mapped_address.
  rewrite !zlen_app, zlen_be. change (zlen [0; 1]) with 2.
  change (zlen [Z.lxor a 33; Z.lxor b 18; Z.lxor c 164; Z.lxor d 66]) with 4.
  change (2 + (Z.of_nat 2 + 4) <? 8) with false. cbv iota.
  destruct (be2_split (Z.lxor port 8466)) as (x & y & Heq).
  pose proof (be16_at_be [0; 1] (Z.lxor port 8466)
    [Z.lxor a 33; Z.lxor b 18; Z.lxor c 164; Z.lxor d 66] Hx) as Hbe.
  change (zlen [0; 1]) with 2 in Hbe. rewrite Hbe. rewrite Heq. cbn [mbind result_bind app].
  change (Z.shiftr MAGIC_COOKIE 16) with 8466.
  rewrite <-(lxor_twice a 33) at 2. rewrite <-(lxor_twice b 18) at 2.
  rewrite <-(lxor_twice c 164) at 2. rewrite <-(lxor_twice d 66) at 2.
  by rewrite (lxor_twice port).
Qed.

(** The loop skips attributes of other types. *)
Lemma attribute_loop_skip fuel pre attr post :
  other_attr attr → (0 < fuel)%nat →
  let response := pre ++ encode_attr attr ++ post in
  ∀ end_, zlen pre + zlen (encode_attr attr) ≤ end_ →
  attribute_loop (S fuel) response (zlen pre) end_ =
  attribute_loop fuel response (zlen (pre ++ encode_attr attr)) end_.
Proof.
  intros (Hty & Hne & Hlen) Hfuel response end_ Hend. pose proof (zlen_nonneg attr.2) as H0.
  pose proof (padded_attr_len_ge _ H0) as Hpad.
  assert (Hsz : zlen (encode_attr attr) = 4 + padded_attr_len (zlen attr.2)).
  { unfold encode_attr. rewrite !zlen_app, !zlen_be. unfold zlen at 2. rewrite length_replicate. lia. }
  assert (Hb1 : be16_at response (zlen pre) = Ok attr.1).
  { unfold response, encode_attr. rewrite <-!app_assoc. by apply be16_at_be. }
  assert (Hb2 : be16_at response (zlen pre + 2) = Ok (zlen attr.2)).
  { unfold response, encode_attr. rewrite <-!app_assoc, app_assoc.
    replace (zlen pre + 2) with (zlen (pre ++ to_be_bytes 2 attr.1)) by (rewrite zlen_app, zlen_be; lia).
    apply be16_at_be. unfold u16_ok. lia. }
  change (attribute_loop (S fuel) response (zlen pre) end_) with
    (if zlen pre + 4 <=? end_ then
      attr_type ← be16_at response (zlen pre);
      attr_len ← be16_at response (zlen pre + 2);
      if end_ <? zlen pre + 4 + attr_len then stun_error "STUN attribute is truncated"
      else if attr_type =? XOR_MAPPED_ADDRESS then
        attribute ← slice_of response (zlen pre + 4) (zlen pre + 4 + attr_len);
        parse_xor_mapped_address attribute
      else attribute_loop fuel response (zlen pre + 4 + padded_attr_len attr_len) end_
    else stun_error "STUN response missing XOR-MAPPED-ADDRESS").
  rewrite Hb1, Hb2. cbn [mbind result_bind].
  destruct (Z.leb_spec (zlen pre + 4) end_); [|lia].
  destruct (Z.ltb_spec end_ (zlen pre + 4 + zlen attr.2)); [lia|].
  destruct (Z.eqb_spec attr.1 XOR_MAPPED_ADDRESS); [done|].
  f_equal. rewrite zlen_app. lia.
Qed.

Lemma attribute_loop_found fuel pre a b c d port post end_ :
  u16_ok port → zlen pre + 12 ≤ end_ →
  attribute_loop (S fuel) (pre ++ encode_attr (XOR_MAPPED_ADDRESS, xor_mapped_value a b c d port) ++ post)
    (zlen pre) end_ = Ok (SockV4 a b c d port).
Proof.
  intros Hp Hend. set (v := xor_mapped_value a b c d port).
  assert (Hv : zlen v = 8) by (unfold v, xor_mapped_value; rewrite !zlen_app, zlen_be; done).
  assert (Henc : encode_attr (XOR_MAPPED_ADDRESS, v) = to_be_bytes 2 XOR_MAPPED_ADDRESS ++ to_be_bytes 2 8 ++ v).
  { unfold encode_attr. cbn [fst snd]. rewrite Hv. change (Z.to_nat _) with O. by rewrite app_nil_r. }
  rewrite Henc, <-!app_assoc. cbn [attribute_loop].
  destruct (Z.leb_spec (zlen pre + 4) end_); [|lia].
  rewrite be16_at_be by done.
  assert (Hb2 : be16_at (pre ++ to_be_bytes 2 XOR_MAPPED_ADDRESS ++ to_be_bytes 2 8 ++ v ++ post) (zlen pre + 2) = Ok 8).
  { rewrite app_assoc.
    replace (zlen pre + 2) with (zlen (pre ++ to_be_bytes 2 XOR_MAPPED_ADDRESS)) by (rewrite zlen_app, zlen_be; lia).
    by apply be16_at_be. }
  rewrite Hb2. cbn [mbind result_bind].
  destruct (Z.ltb_spec end_ (zlen pre + 4 + 8)); [lia|].
  destruct (Z.eqb_spec XOR_MAPPED_ADDRESS XOR_MAPPED_ADDRESS); [|done].
  assert (Hs : slice_of (E := NativeError) (pre ++ to_be_bytes 2 XOR_MAPPED_ADDRESS ++ to_be_bytes 2 8 ++ v ++ post)
    (zlen pre + 4) (zlen pre + 4 + 8) = Ok v).
  { rewrite !app_assoc. rewrite <-(app_assoc _ v post).
    pose proof (slice_of_app (E := NativeError) ((pre ++ to_be_bytes 2 XOR_MAPPED_ADDRESS) ++ to_be_bytes 2 8) v post) as Hs.
    unfold zlen in *. rewrite Hv, !length_app, !length_to_be_bytes in Hs.
    replace (Z.of_nat (length pre) + 4) with (Z.of_nat (length pre + 2 + 2)) by lia. exact Hs. }
  rewrite Hs. cbn [mbind result_bind]. by apply parse_xor_mapped_value.
Qed.

Lemma attribute_loop_finds fuel pre attrs a b c d port post end_ :
  Forall other_attr attrs → u16_ok port → (length attrs < fuel)%nat →
  zlen pre + zlen (encode_attrs attrs) + 12 ≤ end_ →
  attribute_loop fuel
    (pre ++ encode_attrs attrs ++ encode_attr (XOR_MAPPED_ADDRESS, xor_mapped_value a b c d port) ++ post)
    (zlen pre) end_ = Ok (SockV4 a b c d port).
Proof.
  intros Ha Hp. revert fuel pre. induction Ha as [|attr attrs Hattr Ha IH]; intros fuel pre Hfuel Hend.
  - destruct fuel as [|fuel]; [simpl in Hfuel; lia|]. cbn [encode_attrs mbind list_bind app].
    apply attribute_loop_found; [done|]. change (zlen (encode_attrs [])) with 0 in Hend. lia.
  - destruct fuel as [|fuel]; [simpl in Hfuel; lia|]. cbn [length] in Hfuel.
    assert (Hcons : encode_attrs (attr :: attrs) = encode_attr attr ++ encode_attrs attrs) by done.
    rewrite Hcons in Hend |- *. rewrite zlen_app in Hend. rewrite <-app_assoc.
    pose proof (zlen_nonneg (encode_attrs attrs)).
    rewrite attribute_loop_skip by (done || lia). rewrite app_assoc.
    apply IH; [lia|]. rewrite zlen_app. lia.
Qed.

Lemma encode_attrs_length attrs : (length attrs ≤ length (encode_attrs attrs))%nat.
Proof.
  induction attrs as [|attr attrs IH]; [done|].
  change (encode_attrs (attr :: attrs)) with (encode_attr attr ++ encode_attrs attrs).
  unfold encode_attr. rewrite !length_app, length_to_be_bytes. cbn [length]. lia.
Qed.

(** The parser reads back the endpoint any conforming server encodes: after
    any attributes of other types, before any trailing bytes, and for every
    IPv4 address and port. *)
Theorem parse_binding_response_correct transaction_id attrs a b c d port post trailing :
  length transaction_id = 12%nat → Forall other_attr attrs → u16_ok port →
  let body := encode_attrs attrs ++
              encode_attr (XOR_MAPPED_ADDRESS, xor_mapped_value a b c d port) ++ post in
  zlen body < 2 ^ 16 →
  parse_binding_response (encode_response transaction_id body ++ trailing) transaction_id
    = Ok (SockV4 a b c d port).
Proof.
  intros Hid Ha Hp body Hbody. pose proof (zlen_nonneg trailing). pose proof (zlen_nonneg body) as Hb0.
  set (pre := to_be_bytes 2 BINDING_SUCCESS_RESPONSE ++ to_be_bytes 2 (zlen body) ++
              to_be_bytes 4 MAGIC_COOKIE ++ transaction_id).
  assert (Hpre : zlen pre = 20).
  { unfold pre. rewrite !zlen_app, !zlen_be. unfold zlen. rewrite Hid. done. }
  assert (Hresp : encode_response transaction_id body ++ trailing = pre ++ body ++ trailing).
  { unfold encode_response, pre. by rewrite <-!app_assoc. }
  assert (Hloop : attribute_loop (S (length (pre ++ body ++ trailing))) (pre ++ body ++ trailing) 20
    (20 + zlen body) = Ok (SockV4 a b c d port)).
  { rewrite <-Hpre at 1. unfold body at 1 2. rewrite <-!app_assoc.
    pose proof (encode_attrs_length attrs).
    assert (Hx : zlen (encode_attr (XOR_MAPPED_ADDRESS, xor_mapped_value a b c d port)) = 12).
    { unfold encode_attr, xor_mapped_value. cbn [fst snd]. rewrite !zlen_app, !zlen_be. done. }
    apply attribute_loop_finds; [done|done|rewrite !length_app; lia|].
    rewrite Hpre. unfold body. rewrite !zlen_app, Hx. pose proof (zlen_nonneg post). lia. }
  rewrite Hresp. unfold parse_binding_response, HEADER_LEN. rewrite !zlen_app, Hpre.
  destruct (Z.ltb_spec (20 + (zlen body + zlen trailing)) 20); [lia|].
  assert (Hty : be16_at (pre ++ body ++ trailing) 0 = Ok BINDING_SUCCESS_RESPONSE).
  { unfold pre. rewrite <-!app_assoc. by apply (be16_at_be []). }
  assert (Hml : be16_at (pre ++ body ++ trailing) 2 = Ok (zlen body)).
  { unfold pre. rewrite <-!app_assoc.
    apply (be16_at_be (to_be_bytes 2 BINDING_SUCCESS_RESPONSE)). unfold u16_ok. lia. }
  rewrite Hty, Hml. cbn [mbind result_bind]. rewrite Z.eqb_refl. cbn [negb].
  destruct (Z.ltb_spec (20 + (zlen body + zlen trailing)) (20 + zlen body)); [lia|].
  destruct (be2_split (zlen body)) as (l0 & l1 & Hl).
  assert (Hsplit : pre ++ body ++ trailing = [1; 1; l0; l1; 33; 18; 164; 66] ++ transaction_id ++ body ++ trailing).
  { unfold pre. rewrite Hl, <-!app_assoc. done. }
  assert (Hs : slice_of (E := NativeError) (pre ++ body ++ trailing) 8 20 = Ok transaction_id).
  { rewrite Hsplit. pose proof (slice_of_app (E := NativeError) [1; 1; l0; l1; 33; 18; 164; 66]
      transaction_id (body ++ trailing)) as Hs. rewrite Hid in Hs. exact Hs. }
  assert (Hi : ∀ i x, 0 ≤ i → [1; 1; l0; l1; 33; 18; 164; 66] !! Z.to_nat i = Some x →
    index (E := NativeError) (pre ++ body ++ trailing) i = Ok x).
  { intros i x ? Hx. apply index_Ok; [done|]. rewrite Hsplit. by apply lookup_app_l_Some. }
  rewrite Hs, (Hi 4 33), (Hi 5 18), (Hi 6 164), (Hi 7 66) by (done || lia). cbn [mbind result_bind].
  change (from_be_bytes [33; 18; 164; 66] =? MAGIC_COOKIE) with true. cbn [negb].
  rewrite bool_decide_true by done. exact Hloop.
Qed.
