(* ===== verification/Discovery.v ===== *)
(** * mDNS discovery of native peers

    Model of crates/protocol-native-v1/src/discovery.rs: the TXT properties a
    peer advertises and how they are read back, and the browser's loops over
    the events of the mDNS library.

    Of the mdns-sd crate: a resolved service is the data the program reads of
    it (type, properties in the order of the record, addresses in the order
    they are iterated); what the browser's channel yields is a list of events,
    each with the time at which the loop reads the clock before waiting for
    it, and the end of the list is a wait that fails (time-out or closed
    channel); making a service record is an argument. *)

From stdpp Require Import prelude gmap strings.
From Stdlib Require Import ZArith Lia.
From S2P Require Import Prelude RustStr Errors Dto Inet Text.

Local Open Scope Z_scope.

Definition NATIVE_MDNS_SERVICE_TYPE : rstring := str "_lsi-native._udp.local.".
Definition TXT_ALIAS : rstring := str "alias".
Definition TXT_FINGERPRINT : rstring := str "fingerprint".
Definition TXT_PUBKEY : rstring := str "pubkey".
Definition TXT_QUIC_PORT : rstring := str "quic_port".
Definition TXT_NATIVE_CERTIFICATE_FINGERPRINT : rstring := str "native_cert_fp".
Definition TXT_EXTENSIONS : rstring := str "extensions".

Record ResolvedNativePeer := mkResolved { rp_info : NativePeerInfo; rp_address : IpAddr }.

Record ResolvedService := mkService {
  sv_ty_domain : rstring; sv_properties : list (rstring * rstring); sv_addresses : list IpAddr }.

Inductive ServiceEvent := ServiceResolved (service : ResolvedService) | OtherEvent.

Definition discovery_error (message : rstring) : NativeError := Protocol message.

(** ** Validation *)

Definition validate_txt_value (field value : rstring) : result NativeError unit :=
  let value := trim value in
  _ ← ensure (negb (bool_decide (value = []))) (discovery_error (field ++ str " is required"));
  _ ← ensure (forallb is_ascii value) (discovery_error (field ++ str " must be ASCII"));
  ensure (str_len value <=? 255) (discovery_error (field ++ str " must fit in one TXT record")).

Definition validate_quic_port (port : Z) : result NativeError unit :=
  ensure (negb (port =? 0)) (discovery_error (str "quic_port must be non-zero")).

Definition validate_certificate_fingerprint (value : rstring) : result NativeError unit :=
  ensure ((str_len value =? 64) && forallb (λ ch, is_ascii_hexdigit ch && negb (is_ascii_uppercase ch)) value)
    (discovery_error (str "native certificate fingerprint must be 64 lowercase hex characters")).

Definition validate_extensions (extensions : list rstring) : result NativeError unit :=
  for_each (λ _ extension,
    let extension := trim extension in
    _ ← ensure (negb (bool_decide (extension = []))) (discovery_error (str "extension value is required"));
    ensure (forallb is_ascii extension && negb (bool_decide (44 ∈ extension)) && (str_len extension <=? 64))
      (discovery_error (str "invalid extension: " ++ extension))) tt extensions.

Definition validate_peer_info (info : NativePeerInfo) : result NativeError unit :=
  _ ← validate_txt_value TXT_ALIAS (pi_alias info);
  _ ← validate_txt_value TXT_FINGERPRINT (pi_fingerprint info);
  _ ← validate_quic_port (pi_quic_port info);
  validate_extensions (pi_extensions info).

(** ** Values *)

Definition parse_extensions (value : rstring) : result NativeError (list rstring) :=
  let extensions := filter (λ e, e ≠ []) (trim <$> split_on 44 value) in
  _ ← validate_extensions extensions;
  Ok extensions.

Definition decode_quic_port (value : rstring) : result NativeError Z :=
  port ← ok_or (parse_unsigned 65536 value) (discovery_error (str "quic_port is invalid: " ++ value));
  _ ← validate_quic_port port;
  Ok port.

Definition hex_nibble (byte : Z) : result NativeError Z :=
  if (48 <=? byte) && (byte <=? 57) then Ok (byte - 48)
  else if (97 <=? byte) && (byte <=? 102) then Ok (byte - 97 + 10)
  else if (65 <=? byte) && (byte <=? 70) then Ok (byte - 65 + 10)
  else Err (discovery_error (str "pubkey contains non-hex characters")).

(** The loop over [chunks_exact(2)]: a last single byte is not a chunk. *)
Fixpoint decode_chunks (bs : bytes) : result NativeError bytes :=
  match bs with
  | b0 :: b1 :: rest =>
    high ← hex_nibble b0;
    low ← hex_nibble b1;
    decoded ← decode_chunks rest;
    Ok (Z.lor (Z.shiftl high 4 mod 256) low :: decoded)
  | _ => Ok []
  end.
Definition decode_pubkey (value : rstring) : result NativeError bytes :=
  _ ← ensure (str_len value =? 64) (discovery_error (str "pubkey must be 64 hex characters"));
  decode_chunks (utf8_encode value).

Definition HEX : list Z := str "0123456789abcdef".
Definition encode_hex (bs : bytes) : rstring :=
  bs ≫= λ byte, [HEX !!! Z.to_nat (Z.shiftr byte 4); HEX !!! Z.to_nat (Z.land byte 0x0f)].

(** ** TXT properties *)

Definition peer_info_to_txt_properties (info : NativePeerInfo) : result NativeError (gmap rstring rstring) :=
  _ ← validate_peer_info info;
  let properties := <[TXT_QUIC_PORT := show_dec (pi_quic_port info)]>
    (<[TXT_PUBKEY := encode_hex (pi_pubkey info)]>
    (<[TXT_FINGERPRINT := trim (pi_fingerprint info)]>
    (<[TXT_ALIAS := trim (pi_alias info)]> ∅))) in
  properties ←
    match pi_native_certificate_fingerprint info with
    | Some fingerprint =>
      _ ← validate_certificate_fingerprint fingerprint;
      Ok (<[TXT_NATIVE_CERTIFICATE_FINGERPRINT := fingerprint]> properties)
    | None => Ok properties
    end;
  Ok (<[TXT_EXTENSIONS := join [44] (pi_extensions info)]> properties).

Definition txt_properties_to_map (properties : list (rstring * rstring)) : gmap rstring rstring :=
  collect_map properties.

Definition required_property (properties : gmap rstring rstring) (key : rstring) : result NativeError rstring :=
  ok_or (properties !! key ≫= λ value, if negb (is_blank value) then Some value else None)
    (discovery_error (key ++ str " is required")).

Section discovery.
Context `{HashOrder}.

Definition normalized_properties (properties : gmap rstring rstring) : gmap rstring rstring :=
  collect_map ((λ kv, (to_ascii_lowercase kv.1, trim kv.2)) <$> hash_iter properties).

Definition peer_info_from_txt_properties (properties : gmap rstring rstring) : result NativeError NativePeerInfo :=
  let properties := normalized_properties properties in
  alias ← required_property properties TXT_ALIAS;
  _ ← validate_txt_value TXT_ALIAS alias;
  fingerprint ← required_property properties TXT_FINGERPRINT;
  _ ← validate_txt_value TXT_FINGERPRINT fingerprint;
  pubkey ← required_property properties TXT_PUBKEY ≫= decode_pubkey;
  quic_port ← required_property properties TXT_QUIC_PORT ≫= decode_quic_port;
  native_certificate_fingerprint ←
    match properties !! TXT_NATIVE_CERTIFICATE_FINGERPRINT with
    | Some value => _ ← validate_certificate_fingerprint value; Ok (Some value)
    | None => Ok None
    end;
  extensions ← required_property properties TXT_EXTENSIONS ≫= parse_extensions;
  Ok (mkPeerInfo alias fingerprint pubkey quic_port native_certificate_fingerprint extensions).

Definition peer_info_from_mdns_txt (properties : list (rstring * rstring)) : result NativeError NativePeerInfo :=
  peer_info_from_txt_properties (txt_properties_to_map properties).

Definition peer_info_from_resolved_service (service : ResolvedService) : result NativeError (option NativePeerInfo) :=
  if negb (bool_decide (sv_ty_domain service = NATIVE_MDNS_SERVICE_TYPE)) then Ok None
  else info ← peer_info_from_mdns_txt (sv_properties service); Ok (Some info).

Definition resolved_peer_from_resolved_service (service : ResolvedService) :
    result NativeError (option ResolvedNativePeer) :=
  o ← peer_info_from_resolved_service service;
  match o with
  | None => Ok None
  | Some info =>
    match sv_addresses service with
    | [] => Ok None
    | address :: _ => Ok (Some (mkResolved info address))
    end
  end.

(** [new] stands for [ServiceInfo::new], given the type, the names, the address,
    the port and the properties. *)
Definition service_info_for_peer {Ip Service : Type}
    (new : rstring → rstring → rstring → Ip → Z → gmap rstring rstring → result rstring Service)
    (info : NativePeerInfo) (instance_name host_name : rstring) (ip : Ip) : result NativeError Service :=
  _ ← ensure (negb (is_blank instance_name)) (discovery_error (str "instance_name is required"));
  _ ← ensure (negb (is_blank host_name)) (discovery_error (str "host_name is required"));
  properties ← peer_info_to_txt_properties info;
  map_err (λ error, Transport (str "mdns discovery: " ++ error))
    (new NATIVE_MDNS_SERVICE_TYPE instance_name host_name ip (pi_quic_port info) properties).

(** The announcer keeps the full name of its service.  [daemon] stands for the
    mDNS daemon: whether it starts, and whether it takes the service. *)
Record NativeDiscoveryAnnouncer := mkAnnouncer { an_fullname : rstring }.
Definition announcer_register {Ip Service : Type}
    (new : rstring → rstring → rstring → Ip → Z → gmap rstring rstring → result rstring Service)
    (get_fullname : Service → rstring) (daemon : result rstring (Service → result rstring unit))
    (info : NativePeerInfo) (instance_name host_name : rstring) (ip : Ip) : result NativeError NativeDiscoveryAnnouncer :=
  service ← service_info_for_peer new info instance_name host_name ip;
  let fullname := get_fullname service in
  register ← map_err (λ error, Transport (str "mdns discovery: " ++ error)) daemon;
  _ ← map_err (λ error, Transport (str "mdns discovery: " ++ error)) (register service);
  Ok (mkAnnouncer fullname).

(** ** The browser *)

Fixpoint recv_resolved_timeout (deadline : Z) (events : list (Z * ServiceEvent)) :
    result NativeError (option ResolvedNativePeer * list (Z * ServiceEvent)) :=
  match events with
  | [] => Ok (None, [])
  | (now, event) :: rest =>
    if deadline <=? now then Ok (None, events)
    else
      match event with
      | ServiceResolved service =>
        o ← resolved_peer_from_resolved_service service;
        match o with
        | Some peer => Ok (Some peer, rest)
        | None => recv_resolved_timeout deadline rest
        end
      | OtherEvent => recv_resolved_timeout deadline rest
      end
  end.

Definition recv_timeout (deadline : Z) (events : list (Z * ServiceEvent)) :
    result NativeError (option NativePeerInfo * list (Z * ServiceEvent)) :=
  r ← recv_resolved_timeout deadline events; Ok (option_map rp_info r.1, r.2).

Fixpoint recv_resolved_loop (deadline : Z) (peers : list ResolvedNativePeer) (events : list (Z * ServiceEvent)) :
    result NativeError (list ResolvedNativePeer) :=
  match events with
  | [] => Ok peers
  | (now, event) :: rest =>
    if deadline <=? now then Ok peers
    else
      match event with
      | ServiceResolved service =>
        o ← resolved_peer_from_resolved_service service;
        recv_resolved_loop deadline (match o with Some peer => peers ++ [peer] | None => peers end) rest
      | OtherEvent => recv_resolved_loop deadline peers rest
      end
  end.
Definition recv_resolved_all (deadline : Z) (events : list (Z * ServiceEvent)) :
    result NativeError (list ResolvedNativePeer) :=
  recv_resolved_loop deadline [] events.
End discovery.

(** ** Validation, as predicates *)

Definition txt_value (s : rstring) : Prop :=
  trim s ≠ [] ∧ Forall (λ c, is_ascii c = true) (trim s) ∧ zlen (trim s) ≤ 255.
Definition extension_ok (e : rstring) : Prop :=
  trim e ≠ [] ∧ Forall (λ c, is_ascii c = true) (trim e) ∧ 44 ∉ e ∧ zlen (trim e) ≤ 64.
Definition certificate_ok (s : rstring) : Prop :=
  length s = 64%nat ∧ Forall (λ c, (is_ascii_hexdigit c && negb (is_ascii_uppercase c)) = true) s.

Lemma str_len_ascii s : Forall (λ c, is_ascii c = true) s → str_len s = zlen s.
Proof. intros Hs. unfold str_len. by rewrite utf8_encode_ascii. Qed.

Lemma comma_trim s : 44 ∈ trim s ↔ 44 ∈ s.
Proof. split; [apply elem_of_trim|]. intros ?. by apply elem_of_trim_inv. Qed.

Lemma validate_txt_value_Ok field s : validate_txt_value field s = Ok tt ↔ txt_value s.
Proof.
  unfold validate_txt_value, txt_value. rewrite !bind_ensure_Ok, ensure_Ok_inv, forallb_Forall, negb_true_iff, bool_decide_eq_false, Z.leb_le.
  apply and_iff_under. intros _. apply and_iff_under. intros Ha. by rewrite str_len_ascii.
Qed.

Lemma validate_quic_port_Ok port : validate_quic_port port = Ok tt ↔ port ≠ 0.
Proof. unfold validate_quic_port. rewrite ensure_Ok_inv, negb_true_iff, Z.eqb_neq. done. Qed.

Lemma hexdigit_ascii c : is_ascii_hexdigit c = true → is_ascii c = true ∧ is_whitespace c = false.
Proof. unfold is_ascii_hexdigit, is_ascii_digit, is_ascii, is_whitespace. intros. bools; split; lia. Qed.

Lemma validate_certificate_Ok s : validate_certificate_fingerprint s = Ok tt ↔ certificate_ok s.
Proof.
  unfold validate_certificate_fingerprint, certificate_ok. rewrite ensure_Ok_inv, andb_true_iff, forallb_Forall, Z.eqb_eq.
  rewrite (and_comm (str_len s = 64)), (and_comm (length s = 64%nat)). apply and_iff_under. intros Hs.
  rewrite str_len_ascii; [unfold zlen; lia|]. eapply Forall_impl; [done|]. intros c [Hc _]%andb_true_iff.
  by apply hexdigit_ascii.
Qed.

Lemma validate_extensions_Ok es : validate_extensions es = Ok tt ↔ Forall extension_ok es.
Proof.
  unfold validate_extensions. induction es as [|e es IH]; cbn [for_each]; [by split|].
  rewrite Forall_cons, <-IH, bind_Ok_inv.
  assert (Hstep : extension_ok e ↔ (_ ← ensure (negb (bool_decide (trim e = []))) (discovery_error (str "extension value is required"));
    ensure (forallb is_ascii (trim e) && negb (bool_decide (44 ∈ trim e)) && (str_len (trim e) <=? 64))
      (discovery_error (str "invalid extension: " ++ trim e))) = Ok tt).
  { rewrite bind_ensure_Ok, ensure_Ok_inv, !andb_true_iff, forallb_Forall, !negb_true_iff, !bool_decide_eq_false,
      comma_trim, Z.leb_le. unfold extension_ok.
    split; [intros (? & Ha & ? & ?)|intros (? & (Ha & ?) & Hl)]; [|rewrite str_len_ascii in Hl by done; done].
    by rewrite str_len_ascii. }
  rewrite Hstep. split; [by intros ([] & ? & ?)|]. intros [? ?]. by exists tt.
Qed.

(** ** Hexadecimal *)

Lemma encode_hex_eq bs : Forall byte_ok bs → encode_hex bs = hex_encode bs.
Proof.
  induction 1 as [|b bs Hb Hbs IH]; [done|].
  assert (Hall : Forall (λ b, [HEX !!! Z.to_nat (Z.shiftr b 4); HEX !!! Z.to_nat (Z.land b 0x0f)] =
    [hex_char (b / 16); hex_char (b mod 16)]) (seqZ 0 256)) by (apply (bool_decide_unpack _); vm_compute; done).
  rewrite Forall_forall in Hall. unfold encode_hex, hex_encode in *. cbn [mbind list_bind]. rewrite IH.
  f_equal. apply Hall, elem_of_seqZ. unfold byte_ok in Hb. lia.
Qed.

Lemma decode_pair b : byte_ok b →
  (high ← hex_nibble (hex_char (b / 16)); low ← hex_nibble (hex_char (b mod 16));
   Ok (Z.lor (Z.shiftl high 4 mod 256) low)) = Ok b.
Proof.
  intros Hb.
  assert (Hall : Forall (λ b, (high ← hex_nibble (hex_char (b / 16)); low ← hex_nibble (hex_char (b mod 16));
    Ok (Z.lor (Z.shiftl high 4 mod 256) low)) = Ok b) (seqZ 0 256)) by (apply (bool_decide_unpack _); vm_compute; done).
  rewrite Forall_forall in Hall. apply Hall, elem_of_seqZ. unfold byte_ok in Hb. lia.
Qed.

Lemma decode_chunks_hex bs : Forall byte_ok bs → decode_chunks (hex_encode bs) = Ok bs.
Proof.
  induction 1 as [|b bs Hb Hbs IH]; [done|].
  change (hex_encode (b :: bs)) with (hex_char (b / 16) :: hex_char (b mod 16) :: hex_encode bs).
  cbn [decode_chunks]. rewrite IH. pose proof (decode_pair b Hb) as Hp.
  destruct (hex_nibble (hex_char (b / 16))); [|done..]. cbn [mbind result_bind] in *.
  destruct (hex_nibble (hex_char (b mod 16))); [|done..]. cbn [mbind result_bind] in *. by simplify_eq.
Qed.

Lemma hex_nibble_Ok b n : hex_nibble b = Ok n → 0 ≤ n < 16 ∧ is_ascii_hexdigit b = true.
Proof.
  unfold hex_nibble, is_ascii_hexdigit, is_ascii_digit. repeat case_match; intros; simplify_eq; bools; split; lia.
Qed.

Lemma lor_nibbles high low : 0 ≤ high < 16 → 0 ≤ low < 16 → byte_ok (Z.lor (Z.shiftl high 4 mod 256) low).
Proof.
  intros Hh Hl.
  assert (Hall : Forall (λ h, Forall (λ l, byte_ok (Z.lor (Z.shiftl h 4 mod 256) l)) (seqZ 0 16)) (seqZ 0 16))
    by (apply (bool_decide_unpack _); vm_compute; done).
  rewrite Forall_forall in Hall. specialize (Hall high). rewrite Forall_forall in Hall.
  apply Hall; apply elem_of_seqZ; lia.
Qed.

Lemma decode_chunks_Ok n bs ks :
  length bs = (2 * n)%nat → decode_chunks bs = Ok ks → length ks = n ∧ Forall byte_ok ks.
Proof.
  revert bs ks. induction n as [|n IH]; intros bs ks Hl Hd.
  { destruct bs; [|simpl in Hl; lia]. simplify_eq/=. split; [done|constructor]. }
  destruct bs as [|b0 [|b1 bs]]; [simpl in Hl; lia..|]. cbn [decode_chunks] in Hd.
  inv_ok. match goal with Hr : decode_chunks bs = _ |- _ => apply IH in Hr as [? ?]; [|simpl in Hl; lia] end.
  subst ks. split; [simpl; lia|]. constructor; [|done].
  apply lor_nibbles; eapply hex_nibble_Ok; eauto.
Qed.

(** ** The advertisement read back *)

(** What a reader gets of an advertisement: the texts without the whitespace
    around them. *)
Definition advertised (info : NativePeerInfo) : NativePeerInfo :=
  mkPeerInfo (trim (pi_alias info)) (trim (pi_fingerprint info)) (pi_pubkey info) (pi_quic_port info)
    (pi_native_certificate_fingerprint info) (trim <$> pi_extensions info).

(** What every accepted advertisement satisfies. *)
Record peer_info_ok (info : NativePeerInfo) : Prop := {
  ok_alias : txt_value (pi_alias info);
  ok_fingerprint : txt_value (pi_fingerprint info);
  ok_pubkey : length (pi_pubkey info) = 32%nat ∧ Forall byte_ok (pi_pubkey info);
  ok_port : 0 < pi_quic_port info < 65536;
  ok_certificate c : pi_native_certificate_fingerprint info = Some c → certificate_ok c;
  ok_extensions : Forall extension_ok (pi_extensions info)
}.

Lemma to_txt_Ok info m :
  peer_info_to_txt_properties info = Ok m ↔
  (txt_value (pi_alias info) ∧ txt_value (pi_fingerprint info) ∧ pi_quic_port info ≠ 0 ∧
   Forall extension_ok (pi_extensions info) ∧
   (∀ c, pi_native_certificate_fingerprint info = Some c → certificate_ok c)) ∧
  m = <[TXT_EXTENSIONS := join [44] (pi_extensions info)]>
    (match pi_native_certificate_fingerprint info with
     | Some c => <[TXT_NATIVE_CERTIFICATE_FINGERPRINT := c]>
     | None => id
     end (<[TXT_QUIC_PORT := show_dec (pi_quic_port info)]> (<[TXT_PUBKEY := encode_hex (pi_pubkey info)]>
       (<[TXT_FINGERPRINT := trim (pi_fingerprint info)]> (<[TXT_ALIAS := trim (pi_alias info)]> ∅))))).
Proof.
  unfold peer_info_to_txt_properties, validate_peer_info. split.
  - intros Hm. inv_ok. destruct_all unit.
    repeat match goal with
    | H : validate_txt_value _ _ = _ |- _ => apply validate_txt_value_Ok in H
    | H : validate_quic_port _ = _ |- _ => apply validate_quic_port_Ok in H
    | H : validate_extensions _ = _ |- _ => apply validate_extensions_Ok in H
    end.
    destruct (pi_native_certificate_fingerprint info) as [c|]; inv_ok; destruct_all unit.
    + split; [|by subst]. split_and!; try done. intros c' [= <-]. by apply validate_certificate_Ok.
    + split; [|by subst]. by split_and!.
  - intros [(Ha & Hf & Hp & He & Hc) ->].
    rewrite (proj2 (validate_txt_value_Ok _ _) Ha). cbn [mbind result_bind].
    rewrite (proj2 (validate_txt_value_Ok _ _) Hf). cbn [mbind result_bind].
    rewrite (proj2 (validate_quic_port_Ok _) Hp). cbn [mbind result_bind].
    rewrite (proj2 (validate_extensions_Ok _) He). cbn [mbind result_bind].
    destruct (pi_native_certificate_fingerprint info) as [c|]; [|done].
    rewrite (proj2 (validate_certificate_Ok _) (Hc _ eq_refl)). done.
Qed.

Ltac txt_lookup :=
  repeat first [rewrite lookup_insert_eq | rewrite lookup_insert_ne by (vm_compute; discriminate)].

Lemma to_txt_lookup info m :
  peer_info_to_txt_properties info = Ok m →
  m !! TXT_ALIAS = Some (trim (pi_alias info)) ∧
  m !! TXT_FINGERPRINT = Some (trim (pi_fingerprint info)) ∧
  m !! TXT_PUBKEY = Some (encode_hex (pi_pubkey info)) ∧
  m !! TXT_QUIC_PORT = Some (show_dec (pi_quic_port info)) ∧
  m !! TXT_NATIVE_CERTIFICATE_FINGERPRINT = pi_native_certificate_fingerprint info ∧
  m !! TXT_EXTENSIONS = Some (join [44] (pi_extensions info)) ∧
  (∀ k v, m !! k = Some v → to_ascii_lowercase k = k).
Proof.
  intros [_ ->]%to_txt_Ok. destruct (pi_native_certificate_fingerprint info) as [c|]; unfold id;
    (split_and!; [by txt_lookup..|]); intros k v;
    repeat (rewrite lookup_insert_Some; intros [[<- _]|[_ Hv]]; [by vm_compute|]; revert Hv);
    by rewrite lookup_empty.
Qed.

Section reading.
Context `{HashOrderLaws}.

Lemma normalized_lowercase m :
  (∀ k v, m !! k = Some v → to_ascii_lowercase k = k) → normalized_properties m = trim <$> m.
Proof.
  intros Hk. unfold normalized_properties. rewrite <-collect_fmap. f_equal.
  apply list_fmap_ext. intros i [k v] Hkv. apply list_elem_of_lookup_2, elem_of_hash_iter in Hkv.
  cbn [fst snd]. by erewrite Hk.
Qed.

Lemma required_property_Ok m k v :
  required_property m k = Ok v ↔ m !! k = Some v ∧ is_blank v = false.
Proof.
  unfold required_property. rewrite ok_or_Ok_inv. destruct (m !! k) as [w|]; cbn [mbind option_bind]; [|by split; [|intros []]].
  destruct (is_blank w) eqn:Hw; cbn [negb]; split; [done|intros [[= ->] ?]; congruence|by intros [= ->]|by intros [[= ->] ?]].
Qed.

Lemma trim_not_blank s : trim s ≠ [] → is_blank (trim s) = false.
Proof. intros Hs. unfold is_blank. by rewrite trim_idem, bool_decide_false. Qed.

Lemma txt_value_trim s : txt_value s → txt_value (trim s).
Proof. unfold txt_value. by rewrite trim_idem. Qed.

Lemma Forall_no_ws_trim (f : Z → bool) s :
  (∀ c, f c = true → is_whitespace c = false) → Forall (λ c, f c = true) s → trim s = s.
Proof. intros Hf Hs. apply trim_no_ws. eapply Forall_impl; [done|]. eauto. Qed.

Lemma no_ws_not_blank s : trim s = s → s ≠ [] → is_blank s = false.
Proof. intros Hs Hne. unfold is_blank. by rewrite Hs, bool_decide_false. Qed.

Lemma digit_no_ws c : is_ascii_digit c = true → is_whitespace c = false.
Proof. unfold is_ascii_digit, is_whitespace. intros. bools; lia. Qed.

Lemma hex_encode_hexdigits bs :
  Forall byte_ok bs → Forall (λ c, (is_ascii_hexdigit c && negb (is_ascii_uppercase c)) = true) (hex_encode bs).
Proof.
  intros Hbs. apply Forall_forall. intros c (b & Hc & Hb)%list_elem_of_bind. rewrite Forall_forall in Hbs.
  specialize (Hbs b Hb).
  assert (Hall : Forall (λ b, Forall (λ c, (is_ascii_hexdigit c && negb (is_ascii_uppercase c)) = true)
    [hex_char (b / 16); hex_char (b mod 16)]) (seqZ 0 256)) by (apply (bool_decide_unpack _); vm_compute; done).
  rewrite Forall_forall in Hall. specialize (Hall b). rewrite Forall_forall in Hall.
  apply Hall; [|done]. apply elem_of_seqZ. unfold byte_ok in Hbs. lia.
Qed.

Lemma hex_lower_no_ws c : (is_ascii_hexdigit c && negb (is_ascii_uppercase c)) = true → is_whitespace c = false.
Proof. intros [Hc _]%andb_true_iff. by apply hexdigit_ascii. Qed.

Lemma length_hex_encode bs : length (hex_encode bs) = (2 * length bs)%nat.
Proof. unfold hex_encode. induction bs as [|b bs IH]; [done|]. cbn. rewrite IH. lia. Qed.

Lemma decode_pubkey_hex bs :
  length bs = 32%nat → Forall byte_ok bs → decode_pubkey (hex_encode bs) = Ok bs.
Proof.
  intros Hl Hb. unfold decode_pubkey. apply bind_ensure_Ok.
  assert (Ha : Forall (λ c, is_ascii c = true) (hex_encode bs)).
  { eapply Forall_impl; [by apply hex_encode_hexdigits|]. intros c [Hc _]%andb_true_iff. by apply hexdigit_ascii. }
  rewrite str_len_ascii, utf8_encode_ascii by done. split; [|by apply decode_chunks_hex].
  unfold zlen. rewrite length_hex_encode, Hl. done.
Qed.

Lemma filter_nonempty (l : list rstring) : Forall (λ e, e ≠ []) l → filter (λ e, e ≠ []) l = l.
Proof. induction 1 as [|e l He Hl IH]; [done|]. rewrite filter_cons_True by done. by rewrite IH. Qed.

Lemma extension_ok_trim e : extension_ok e → extension_ok (trim e).
Proof. unfold extension_ok. rewrite trim_idem. intros (? & ? & ? & ?). split_and!; try done. by rewrite comma_trim. Qed.

Lemma parse_extensions_join es :
  es ≠ [] → Forall extension_ok es → parse_extensions (trim (join [44] es)) = Ok (trim <$> es).
Proof.
  intros Hne Hes. unfold parse_extensions. rewrite split_trim by done.
  rewrite split_join by (done || (eapply Forall_impl; [done|]; by intros e (_ & _ & ? & _))).
  rewrite filter_nonempty by (apply Forall_fmap; eapply Forall_impl; [done|]; by intros e (? & _)).
  rewrite (proj2 (validate_extensions_Ok _)); [done|]. apply Forall_fmap.
  eapply Forall_impl; [done|]. intros e ?. by apply extension_ok_trim.
Qed.

Lemma join_not_blank es : es ≠ [] → Forall extension_ok es → is_blank (trim (join [44] es)) = false.
Proof.
  intros Hne Hes. destruct es as [|e es]; [done|]. inversion Hes as [|? ? (He & _) _]; subst.
  apply trim_not_blank. intros Hnil.
  assert (Hb : is_blank (join [44] (e :: es)) = true) by (by apply bool_decide_eq_true).
  rewrite is_blank_spec in Hb. apply He, (bool_decide_eq_true _), is_blank_spec.
  destruct es as [|e' es]; [done|]. change (blanks (e ++ [44] ++ join [44] (e' :: es))) in Hb.
  by apply Forall_app in Hb as [? _].
Qed.

(** Each property, read from the normalized map. *)
Lemma read_required m k v :
  m !! k = Some v → trim v ≠ [] → required_property (trim <$> m) k = Ok (trim v).
Proof. intros Hm Hv. apply required_property_Ok. rewrite lookup_fmap, Hm. split; [done|by apply trim_not_blank]. Qed.

Lemma read_txt m k s :
  m !! k = Some (trim s) → txt_value s →
  required_property (trim <$> m) k = Ok (trim s) ∧ ∀ field, validate_txt_value field (trim s) = Ok tt.
Proof.
  intros Hm Hs. split; [|intros; by apply validate_txt_value_Ok, txt_value_trim].
  rewrite (read_required _ _ _ Hm) by (rewrite trim_idem; apply Hs). by rewrite trim_idem.
Qed.

Lemma read_pubkey m k pk :
  m !! k = Some (encode_hex pk) → length pk = 32%nat → Forall byte_ok pk →
  required_property (trim <$> m) k ≫= decode_pubkey = Ok pk.
Proof.
  intros Hm Hlen Hpk. rewrite encode_hex_eq in Hm by done.
  pose proof (Forall_no_ws_trim _ _ hex_lower_no_ws (hex_encode_hexdigits _ Hpk)) as Ht.
  rewrite (read_required _ _ _ Hm), Ht; [by apply decode_pubkey_hex|].
  intros Hz%(f_equal length). rewrite Ht, length_hex_encode, Hlen in Hz. done.
Qed.

Lemma read_port m k port :
  m !! k = Some (show_dec port) → 0 < port < 65536 →
  required_property (trim <$> m) k ≫= decode_quic_port = Ok port.
Proof.
  intros Hm Hp. pose proof (Forall_no_ws_trim _ _ digit_no_ws (show_dec_digits port)) as Ht.
  pose proof (show_dec_length port) as Hlen. rewrite (read_required _ _ _ Hm), Ht.
  - cbn [mbind result_bind]. unfold decode_quic_port. rewrite parse_unsigned_show by lia.
    cbn [ok_or mbind result_bind]. by rewrite (proj2 (validate_quic_port_Ok _)) by lia.
  - rewrite Ht. intros Hz. rewrite Hz in Hlen. simpl in Hlen. lia.
Qed.

Lemma read_certificate (m : gmap rstring rstring) k cert :
  m !! k = cert → (∀ c, cert = Some c → certificate_ok c) →
  match (trim <$> m) !! k with
  | Some value => _ ← validate_certificate_fingerprint value; Ok (Some value)
  | None => Ok None
  end = Ok cert.
Proof.
  intros Hm Hc. rewrite lookup_fmap, Hm. destruct cert as [c|]; [|done]. cbn [fmap option_fmap option_map].
  rewrite (Forall_no_ws_trim _ _ hex_lower_no_ws (proj2 (Hc _ eq_refl))).
  by rewrite (proj2 (validate_certificate_Ok c) (Hc _ eq_refl)).
Qed.

Lemma read_extensions m k es :
  m !! k = Some (join [44] es) → Forall extension_ok es →
  required_property (trim <$> m) k ≫= parse_extensions =
    if bool_decide (es = []) then Err (discovery_error (k ++ str " is required")) else Ok (trim <$> es).
Proof.
  intros Hm Hes. case_bool_decide as Hne.
  - subst es. unfold required_property. rewrite lookup_fmap, Hm. done.
  - rewrite (read_required _ _ _ Hm); [by apply parse_extensions_join|].
    intros Hb. pose proof (join_not_blank es Hne Hes) as Hn. unfold is_blank in Hn. rewrite trim_idem, Hb in Hn. done.
Qed.

Lemma from_txt_roundtrip info m txt :
  peer_info_to_txt_properties info = Ok m → txt ≡ₚ map_to_list m →
  length (pi_pubkey info) = 32%nat → Forall byte_ok (pi_pubkey info) → 0 ≤ pi_quic_port info < 65536 →
  peer_info_from_mdns_txt txt =
    if bool_decide (pi_extensions info = []) then Err (discovery_error (TXT_EXTENSIONS ++ str " is required"))
    else Ok (advertised info).
Proof.
  intros Hm Htxt Hlen Hbytes Hport.
  destruct (to_txt_lookup _ _ Hm) as (Ha & Hf & Hk & Hp & Hc & He & Hlow).
  apply to_txt_Ok in Hm as [(Va & Vf & Vp & Ve & Vc) _].
  destruct (read_txt _ _ _ Ha Va) as [Ra Wa], (read_txt _ _ _ Hf Vf) as [Rf Wf].
  unfold peer_info_from_mdns_txt, peer_info_from_txt_properties, txt_properties_to_map.
  rewrite (collect_map_perm _ _ Htxt), normalized_lowercase by done.
  rewrite Ra. cbn [mbind result_bind]. rewrite Wa. cbn [mbind result_bind].
  rewrite Rf. cbn [mbind result_bind]. rewrite Wf. cbn [mbind result_bind].
  pose proof (read_pubkey _ _ _ Hk Hlen Hbytes) as ->. cbn [mbind result_bind].
  pose proof (read_port _ _ _ Hp ltac:(lia)) as ->. cbn [mbind result_bind].
  rewrite (read_certificate _ _ _ Hc Vc). cbn [mbind result_bind].
  pose proof (read_extensions _ _ _ He Ve) as ->. by case_bool_decide.
Qed.

(** C36: an advertisement made by [peer_info_to_txt_properties] and read from a
    TXT record that holds its properties in any order is the advertised peer,
    whatever the iteration order of the maps; only an empty list of extensions
    makes an advertisement that no reader accepts. *)
Theorem advertisement_roundtrip info m txt :
  peer_info_to_txt_properties info = Ok m → txt ≡ₚ map_to_list m →
  length (pi_pubkey info) = 32%nat → Forall byte_ok (pi_pubkey info) → 0 ≤ pi_quic_port info < 65536 →
  peer_info_from_mdns_txt txt =
    if bool_decide (pi_extensions info = []) then Err (discovery_error (TXT_EXTENSIONS ++ str " is required"))
    else Ok (advertised info).
Proof. apply from_txt_roundtrip. Qed.

Lemma normalized_trimmed m k v : normalized_properties m !! k = Some v → trim v = v.
Proof.
  intros ((k' & v') & [= _ ->] & _)%collect_map_Some%list_elem_of_fmap. apply trim_idem.
Qed.

Lemma required_trimmed m k v : required_property (normalized_properties m) k = Ok v → trim v = v.
Proof. intros [Hv _]%required_property_Ok. by eapply normalized_trimmed. Qed.

Lemma decode_pubkey_Ok v pk : decode_pubkey v = Ok pk → length pk = 32%nat ∧ Forall byte_ok pk.
Proof.
  unfold decode_pubkey. intros [Hl Hd]%bind_ensure_Ok. eapply decode_chunks_Ok; [|done].
  apply Z.eqb_eq in Hl. unfold str_len, zlen in Hl. lia.
Qed.

Lemma decode_port_Ok v port : decode_quic_port v = Ok port → 0 < port < 65536.
Proof.
  unfold decode_quic_port. intros Hd. inv_ok. destruct_all unit.
  repeat match goal with
  | H : parse_unsigned _ _ = _ |- _ => apply parse_unsigned_bound in H
  | H : validate_quic_port _ = _ |- _ => apply validate_quic_port_Ok in H
  end. subst. lia.
Qed.

Lemma parse_extensions_Ok v es : parse_extensions v = Ok es → Forall extension_ok es ∧ trim <$> es = es.
Proof.
  unfold parse_extensions. intros ([] & Hv%validate_extensions_Ok & [= <-])%bind_Ok_inv. split; [done|].
  etrans; [|apply list_fmap_id]. apply list_fmap_ext. intros i e He%list_elem_of_lookup_2.
  apply list_elem_of_filter in He as [_ (? & -> & _)%list_elem_of_fmap]. apply trim_idem.
Qed.

Lemma ok_or_no_panic {E A} (o : option A) (e : E) : ok_or o e ≠ Panic.
Proof. by destruct o. Qed.

Lemma decode_chunks_no_panic bs : decode_chunks bs ≠ Panic.
Proof.
  assert (Hn : ∀ b, hex_nibble b ≠ Panic) by (intros b; unfold hex_nibble; by repeat case_match).
  revert bs. fix IH 1. intros [|b0 [|b1 bs]]; [discriminate..|]. cbn [decode_chunks].
  apply bind_no_panic; [apply Hn|]. intros ? _. apply bind_no_panic; [apply Hn|]. intros ? _.
  apply bind_no_panic; [apply IH|]. discriminate.
Qed.

Lemma validate_extensions_no_panic es : validate_extensions es ≠ Panic.
Proof.
  unfold validate_extensions. induction es as [|e es IH]; cbn [for_each]; [done|].
  apply bind_no_panic; [auto 10 with night|]. by intros [] _.
Qed.

#[local] Hint Resolve ok_or_no_panic decode_chunks_no_panic validate_extensions_no_panic : night.

Lemma from_txt_no_panic m : peer_info_from_txt_properties m ≠ Panic.
Proof.
  unfold peer_info_from_txt_properties, validate_txt_value, required_property, decode_pubkey, decode_quic_port,
    validate_quic_port, validate_certificate_fingerprint, parse_extensions.
  repeat first [done | apply ok_or_no_panic | apply decode_chunks_no_panic | apply validate_extensions_no_panic
    | apply ensure_no_panic | apply bind_no_panic; [|intros ? _] | case_match].
Qed.

Lemma from_txt_Ok m info :
  peer_info_from_txt_properties m = Ok info → peer_info_ok info ∧ advertised info = info.
Proof.
  intros Hm.
  unfold peer_info_from_txt_properties in Hm. inv_ok. destruct_all unit.
  repeat match goal with
  | H : validate_txt_value _ _ = _ |- _ => apply validate_txt_value_Ok in H
  | H : decode_pubkey _ = _ |- _ => apply decode_pubkey_Ok in H
  | H : decode_quic_port _ = _ |- _ => apply decode_port_Ok in H
  | H : parse_extensions _ = _ |- _ => apply parse_extensions_Ok in H as [? ?]
  | H : required_property _ _ = _ |- _ => apply required_trimmed in H
  end. subst info. split.
  - split; cbn; try done. intros c ->.
    match goal with H : match ?o with _ => _ end = Ok _ |- _ => destruct o end; inv_ok; destruct_all unit; simplify_eq.
    by apply validate_certificate_Ok.
  - unfold advertised. cbn [pi_alias pi_fingerprint pi_pubkey pi_quic_port pi_native_certificate_fingerprint pi_extensions].
    congruence.
Qed.

(** whatever the TXT record holds, reading an advertisement never panics,
    and an accepted one is well-formed: alias and fingerprint are non-blank
    ASCII of at most 255 bytes, the key has 32 bytes, the port is a non-zero
    16-bit number, a certificate is 64 lower-case hex digits, extensions are
    valid, and every text is trimmed. *)
Theorem advertisement_sound txt :
  match peer_info_from_mdns_txt txt with
  | Ok info => peer_info_ok info ∧ advertised info = info
  | Err _ => True
  | Panic => False
  end.
Proof.
  unfold peer_info_from_mdns_txt. destruct (peer_info_from_txt_properties _) as [info| |] eqn:Hm; [|done|].
  - by eapply from_txt_Ok.
  - by apply from_txt_no_panic in Hm.
Qed.

(** ** Browsing *)

(** The services resolved before the deadline. *)
Fixpoint live (deadline : Z) (events : list (Z * ServiceEvent)) : list ResolvedService :=
  match events with
  | [] => []
  | (now, event) :: rest =>
    if deadline <=? now then []
    else match event with ServiceResolved service => [service] | OtherEvent => [] end ++ live deadline rest
  end.

Lemma recv_resolved_loop_spec deadline peers events :
  recv_resolved_loop deadline peers events =
    (λ os, peers ++ omap id os) <$> mapM resolved_peer_from_resolved_service (live deadline events).
Proof.
  revert peers. induction events as [|[now event] events IH]; intros peers; cbn [recv_resolved_loop live].
  { cbn. by rewrite app_nil_r. }
  destruct (deadline <=? now); [cbn; by rewrite app_nil_r|]. destruct event as [service|]; [|apply IH].
  cbn [app mapM]. destruct (resolved_peer_from_resolved_service service) as [o| |]; [|done..].
  cbn [mbind result_bind]. rewrite IH. destruct (mapM _ (live deadline events)) as [os| |]; [|done..].
  cbn. destruct o; cbn; [|done]. by rewrite <-app_assoc.
Qed.

Lemma recv_resolved_Ok deadline events peers :
  recv_resolved_all deadline events = Ok peers ↔
  ∃ os, Forall2 (λ s o, resolved_peer_from_resolved_service s = Ok o) (live deadline events) os ∧ peers = omap id os.
Proof.
  unfold recv_resolved_all. rewrite recv_resolved_loop_spec. setoid_rewrite <-mapM_Ok.
  destruct (mapM _ _); cbn; naive_solver.
Qed.

Lemma resolved_service_Ok service o :
  resolved_peer_from_resolved_service service = Ok o →
  match o with
  | Some peer => peer_info_ok (rp_info peer) ∧ advertised (rp_info peer) = rp_info peer ∧
      sv_ty_domain service = NATIVE_MDNS_SERVICE_TYPE ∧ head (sv_addresses service) = Some (rp_address peer) ∧
      peer_info_from_mdns_txt (sv_properties service) = Ok (rp_info peer)
  | None => True
  end.
Proof.
  unfold resolved_peer_from_resolved_service, peer_info_from_resolved_service. case_bool_decide as Hty; cbn; [|by intros [= <-]].
  destruct (peer_info_from_mdns_txt (sv_properties service)) as [info| |] eqn:Hm; [|done..].
  destruct (from_txt_Ok _ _ Hm) as [? ?]. cbn. destruct (sv_addresses service); intros [= <-]; cbn; [done|]. by split_and!.
Qed.
End reading.
