(* ===== verification/Candidates.v ===== *)
(** * WAN connection candidates and dialing

    Model of crates/protocol-native-v1/src/candidates.rs and of the pairing
    and result collection of hole_punch.rs (the dial of a pair is in
    PinnedTls.v).  What the operating system and the
    network answer is a parameter: the local address of a probe socket, the
    outcome of a STUN exchange per server, the outcome of dialing a pair, and
    the order in which concurrent attempts report. *)

From stdpp Require Import prelude strings sorting.
From Stdlib Require Import ZArith Lia.
From S2P Require Import Prelude RustStr Errors Inet.

Local Open Scope Z_scope.

Inductive CandidateKind := Local_ | ServerReflexive.
#[export] Instance CandidateKind_eq_dec : EqDecision CandidateKind.
Proof. solve_decision. Defined.

Record NativeCandidate := mkCandidate { nc_kind : CandidateKind; nc_address : SocketAddr; nc_priority : Z }.
#[export] Instance NativeCandidate_eq_dec : EqDecision NativeCandidate.
Proof. solve_decision. Defined.

(** What [dedupe_candidates] compares. *)
Definition candidate_key (c : NativeCandidate) : CandidateKind * SocketAddr := (nc_kind c, nc_address c).

(** The loop of [dedupe_candidates]; [seen] is the hash set. *)
Fixpoint dedupe_loop (seen : list (CandidateKind * SocketAddr)) (candidates : list NativeCandidate) :
    list NativeCandidate :=
  match candidates with
  | [] => []
  | c :: cs =>
    if bool_decide (candidate_key c ∈ seen) then dedupe_loop seen cs
    else c :: dedupe_loop (candidate_key c :: seen) cs
  end.
Definition dedupe_candidates (candidates : list NativeCandidate) : list NativeCandidate :=
  dedupe_loop [] candidates.

Definition candidate_kind_rank (kind : CandidateKind) : Z :=
  match kind with Local_ => 0 | ServerReflexive => 1 end.

(** The sort key [(Reverse(priority), rank, address)]. *)
Definition candidate_sort_key (c : NativeCandidate) : list Z :=
  - nc_priority c :: candidate_kind_rank (nc_kind c) :: sock_key (nc_address c).
Definition candidate_leb (a b : NativeCandidate) : bool :=
  lex_leb (candidate_sort_key a) (candidate_sort_key b).
Definition sort_candidates (candidates : list NativeCandidate) : list NativeCandidate :=
  stable_sort candidate_leb candidates.

(** The match at the end of [primary_ipv4_address], on the probe socket's
    local address (none when binding or connecting failed). *)
Definition primary_ipv4_address (probe : option IpAddr) : option (Z * Z * Z * Z) :=
  match probe with
  | Some (IpV4 a b c d) =>
    if negb (is_loopback (IpV4 a b c d)) && negb (is_unspecified (IpV4 a b c d))
    then Some (a, b, c, d) else None
  | _ => None
  end.

Definition local_candidates (probe : option IpAddr) (native_port : Z) :
    result NativeError (list NativeCandidate) :=
  _ ← ensure (negb (native_port =? 0))
        (Transport (str "native candidate port must be greater than zero"));
  let candidates :=
    mkCandidate Local_ (SockV4 127 0 0 1 native_port) 100 ::
    match primary_ipv4_address probe with
    | Some (a, b, c, d) => [mkCandidate Local_ (SockV4 a b c d native_port) 90]
    | None => []
    end in
  Ok (sort_candidates (dedupe_candidates candidates)).

Section gather.
(** The outcome of [discover_server_reflexive_candidate] per server. *)
Context (discover : SocketAddr → Z → result NativeError SocketAddr).

Definition gather_step (native_port : Z) (candidates : list NativeCandidate) (stun_server : SocketAddr) :
    list NativeCandidate :=
  match discover stun_server native_port with
  | Ok address => candidates ++ [mkCandidate ServerReflexive address 80]
  | _ => candidates
  end.

Definition gather_candidates (probe : option IpAddr) (native_port : Z) (stun_servers : list SocketAddr) :
    result NativeError (list NativeCandidate) :=
  candidates ← local_candidates probe native_port;
  let candidates := foldl (gather_step native_port) candidates stun_servers in
  Ok (sort_candidates (dedupe_candidates candidates)).
End gather.

(** ** Candidate pairs (hole_punch.rs) *)

Record CandidatePair := mkPair { cp_local : NativeCandidate; cp_remote : NativeCandidate; cp_priority : Z }.

(** [(u64::from(local) << 32) | u64::from(remote)] *)
Definition combined_priority (local remote : Z) : Z := Z.lor (Z.shiftl local 32 mod 2 ^ 64) remote.

Definition pair_leb (a b : CandidatePair) : bool :=
  (cp_priority b <? cp_priority a) ||
  ((cp_priority a =? cp_priority b) &&
   lex_leb (sock_key (nc_address (cp_remote a))) (sock_key (nc_address (cp_remote b)))).

Definition make_pair (local remote : NativeCandidate) : CandidatePair :=
  mkPair local remote (combined_priority (nc_priority local) (nc_priority remote)).

Definition candidate_pairs (local remote : list NativeCandidate) : list CandidatePair :=
  stable_sort pair_leb (local ≫= λ l, make_pair l <$> remote).

Definition kind_debug (kind : CandidateKind) : rstring :=
  match kind with Local_ => str "Local" | ServerReflexive => str "ServerReflexive" end.

Definition describe_pair (p : CandidatePair) : rstring :=
  kind_debug (nc_kind (cp_local p)) ++ str " " ++ show_sock (nc_address (cp_local p)) ++ str " -> " ++
  kind_debug (nc_kind (cp_remote p)) ++ str " " ++ show_sock (nc_address (cp_remote p)).

Definition no_direct_path_error (attempted_pairs : list rstring) (only_server_reflexive_failed : bool)
    (last_error : option rstring) : NativeError :=
  let hint :=
    if only_server_reflexive_failed then
      str "symmetric NAT or firewall likely. Relay is not available in the open-base v1 build."
    else
      str "firewall or routing policy likely. Relay is not available in the open-base v1 build." in
  NoDirectPath attempted_pairs hint last_error.

Definition only_server_reflexive_remote_candidates (pairs : list CandidatePair) : bool :=
  negb (bool_decide (pairs = [])) &&
  forallb (λ p, bool_decide (nc_kind (cp_remote p) = ServerReflexive)) pairs.

#[export] Instance CandidatePair_eq_dec : EqDecision CandidatePair.
Proof. solve_decision. Defined.

Section dial.
Context {Connection : Type}.
(** [error.to_string()], and the outcome of dialing one pair. *)
Context (error_text : NativeError → rstring).
Context (dial_pair : CandidatePair → result NativeError Connection).

(** The [while let Some(..) = rx.recv()] loop over the attempts in the order
    in which they report. *)
Fixpoint receive_loop (last_error : option rstring) (arrivals : list CandidatePair) :
    sum Connection (option rstring) :=
  match arrivals with
  | [] => inr last_error
  | p :: arrivals =>
    match dial_pair p with
    | Ok connection => inl connection
    | Err error => receive_loop (Some (error_text error)) arrivals
    | Panic => receive_loop last_error arrivals
    end
  end.

(** [arrive pairs] is the order in which the spawned attempts report. *)
Definition dial_candidates (arrive : list CandidatePair → list CandidatePair)
    (local remote : list NativeCandidate) : result NativeError Connection :=
  let pairs := candidate_pairs local remote in
  if bool_decide (pairs = []) then Err (no_direct_path_error [] false None)
  else
    match receive_loop None (arrive pairs) with
    | inl connection => Ok connection
    | inr last_error =>
      Err (no_direct_path_error (describe_pair <$> pairs)
             (only_server_reflexive_remote_candidates pairs) last_error)
    end.
End dial.

(** ** Deduplication and order *)

Lemma dedupe_loop_spec seen cs :
  NoDup (candidate_key <$> dedupe_loop seen cs) ∧
  (∀ k, k ∈ candidate_key <$> dedupe_loop seen cs ↔ k ∈ candidate_key <$> cs ∧ k ∉ seen) ∧
  dedupe_loop seen cs `sublist_of` cs.
Proof.
  revert seen. induction cs as [|c cs IH]; intros seen; cbn [dedupe_loop].
  { split_and!; [constructor|set_solver|done]. }
  case_bool_decide as Hc.
  - destruct (IH seen) as (Hn & Hk & Hs). split_and!; [done| |by constructor].
    intros k. rewrite Hk, fmap_cons, elem_of_cons. split; [tauto|]. intros [[->|?] ?]; done.
  - destruct (IH (candidate_key c :: seen)) as (Hn & Hk & Hs).
    rewrite !fmap_cons. split_and!.
    + apply NoDup_cons. split; [|done]. rewrite Hk, elem_of_cons. tauto.
    + intros k. rewrite !elem_of_cons, Hk, elem_of_cons. destruct (decide (k = candidate_key c)); naive_solver.
    + by constructor.
Qed.

(** The candidate kept for a key is the first one with that key. *)
Lemma dedupe_loop_first seen cs c :
  c ∈ dedupe_loop seen cs → ∃ before after, cs = before ++ c :: after ∧
    candidate_key c ∉ candidate_key <$> before.
Proof.
  revert seen. induction cs as [|x cs IH]; intros seen; cbn [dedupe_loop]; [by intros ?%elem_of_nil|].
  assert (Hrec : ∀ seen, c ∈ dedupe_loop seen cs → candidate_key x ∈ seen ∨ c = x →
    ∃ before after, x :: cs = before ++ c :: after ∧ candidate_key c ∉ candidate_key <$> before).
  { intros s Hc Hx. destruct (IH _ Hc) as (before & after & -> & Hb).
    destruct Hx as [Hx|<-]; [|exists [], (before ++ c :: after); split; [done|by apply not_elem_of_nil]].
    exists (x :: before), after. split; [done|]. rewrite fmap_cons, not_elem_of_cons. split; [|done].
    intros Heq. destruct (dedupe_loop_spec s (before ++ c :: after)) as (_ & Hk & _).
    apply (list_elem_of_fmap_2 candidate_key), Hk in Hc as [_ Hns]. congruence. }
  case_bool_decide; [intros Hc; apply (Hrec _ Hc); by left|].
  intros [->|Hc]%elem_of_cons.
  - exists [], cs. split; [done|]. apply not_elem_of_nil.
  - apply (Hrec _ Hc). left. left.
Qed.

Lemma candidate_leb_total a b : candidate_leb a b = true ∨ candidate_leb b a = true.
Proof. apply lex_leb_total. Qed.
Lemma candidate_leb_trans : Transitive (λ a b, candidate_leb a b = true).
Proof. intros a b c. apply lex_leb_trans. Qed.

(** Deduplicating and sorting: what [local_candidates] and
    [gather_candidates] both end with. *)
Lemma dedupe_sort_spec cs :
  let out := sort_candidates (dedupe_candidates cs) in
  NoDup (candidate_key <$> out) ∧ StronglySorted (λ a b, candidate_leb a b = true) out ∧
  (∀ k, k ∈ candidate_key <$> out ↔ k ∈ candidate_key <$> cs) ∧ (∀ c, c ∈ out → c ∈ cs).
Proof.
  intros out. destruct (dedupe_loop_spec [] cs) as (Hn & Hk & Hs). unfold out, sort_candidates.
  split_and!.
  - by rewrite stable_sort_perm.
  - apply stable_sort_sorted; [apply candidate_leb_total|apply candidate_leb_trans].
  - intros k. rewrite stable_sort_perm. unfold dedupe_candidates. rewrite Hk. split; [tauto|].
    intros ?. split; [done|apply not_elem_of_nil].
  - intros c. rewrite elem_of_stable_sort. intros Hc. by eapply elem_of_sublist.
Qed.

Lemma gather_steps discover port servers cs :
  foldl (gather_step discover port) cs servers =
  cs ++ omap (λ s, match discover s port with Ok a => Some (mkCandidate ServerReflexive a 80) | _ => None end) servers.
Proof.
  revert cs. induction servers as [|s servers IH]; intros cs; cbn [foldl]; [by rewrite app_nil_r|].
  rewrite IH. unfold gather_step. cbn [omap list_omap].
  destruct (discover s port); [by rewrite <-app_assoc|done..].
Qed.

(** Without an answer from a STUN server only local candidates remain. *)
Lemma gather_no_answer discover probe port servers :
  port ≠ 0 → (∀ s, is_ok (discover s port) = false) →
  ∃ cs, gather_candidates discover probe port servers = Ok cs ∧ Forall (λ c, nc_kind c = Local_) cs.
Proof.
  intros Hport Hno. unfold gather_candidates, local_candidates.
  destruct (Z.eqb_spec port 0); [done|]. cbn [negb ensure mbind result_bind]. eexists. split; [done|].
  rewrite gather_steps. set (first := sort_candidates (dedupe_candidates (_ :: _))).
  apply Forall_forall. intros c Hc. apply dedupe_sort_spec in Hc. apply elem_of_app in Hc as [Hc|Hc].
  - unfold first in Hc. apply dedupe_sort_spec in Hc. destruct (primary_ipv4_address probe) as [[[[a b] x] d]|]; set_solver.
  - apply list_elem_of_omap in Hc as (s & _ & Hs). specialize (Hno s). by destruct (discover s port).
Qed.

(** Gathering succeeds for a nonzero port whatever STUN servers do; the list
    has the loopback endpoint and the answer of every server that answered,
    each endpoint once per kind, by descending priority. *)
Theorem gather_candidates_correct discover probe port servers :
  port ≠ 0 →
  ∃ cs, gather_candidates discover probe port servers = Ok cs ∧
    NoDup (candidate_key <$> cs) ∧
    StronglySorted (λ a b, nc_priority b ≤ nc_priority a) cs ∧
    (Local_, SockV4 127 0 0 1 port) ∈ candidate_key <$> cs ∧
    ∀ a, (ServerReflexive, a) ∈ candidate_key <$> cs ↔ ∃ s, s ∈ servers ∧ discover s port = Ok a.
Proof.
  intros Hport. unfold gather_candidates, local_candidates.
  destruct (Z.eqb_spec port 0); [done|]. cbn [negb ensure mbind result_bind]. eexists. split; [done|].
  rewrite gather_steps. set (first := sort_candidates (dedupe_candidates (_ :: _))).
  destruct (dedupe_sort_spec (first ++ omap (λ s, match discover s port with
    Ok a => Some (mkCandidate ServerReflexive a 80) | _ => None end) servers)) as (Hn & Hsort & Hk & _).
  assert (Hloc : ∀ k, k ∈ candidate_key <$> first → k.1 = Local_).
  { intros k. destruct (dedupe_sort_spec (mkCandidate Local_ (SockV4 127 0 0 1 port) 100 ::
      match primary_ipv4_address probe with
      | Some (a, b, c, d) => [mkCandidate Local_ (SockV4 a b c d port) 90] | None => [] end)) as (_ & _ & Hk1 & _).
    unfold first. rewrite Hk1. destruct (primary_ipv4_address probe) as [[[[a b] c] d]|]; set_solver. }
  split_and!; [done| | |].
  - eapply StronglySorted_impl; [|exact Hsort]. intros x y Hxy. unfold candidate_leb, candidate_sort_key in Hxy.
    cbn [lex_leb] in Hxy. apply orb_true_iff in Hxy. rewrite andb_true_iff in Hxy.
    destruct Hxy as [Hxy|[Hxy _]]; bools; lia.
  - apply Hk. rewrite fmap_app, elem_of_app. left. unfold first.
    apply dedupe_sort_spec. left.
  - intros a. rewrite Hk, fmap_app, elem_of_app. split.
    + intros [Hin|Hin]; [by apply Hloc in Hin|].
      apply list_elem_of_fmap in Hin as (c & Hkey & Hin). apply list_elem_of_omap in Hin as (s & Hs & Hd).
      exists s. split; [done|]. destruct (discover s port); simplify_eq/=. unfold candidate_key in Hkey.
      simpl in Hkey. congruence.
    + intros (s & Hs & Hd). right. apply list_elem_of_fmap.
      exists (mkCandidate ServerReflexive a 80). split; [done|]. apply list_elem_of_omap.
      exists s. by rewrite Hd.
Qed.

(** ** Pairs *)

Lemma combined_priority_eq l r : u32_ok l → u32_ok r → combined_priority l r = l * 2 ^ 32 + r.
Proof.
  intros Hl Hr. unfold combined_priority. rewrite Z.shiftl_mul_pow2 by lia.
  unfold u32_ok in *. rewrite Z.mod_small by lia.
  symmetry. rewrite Z.add_nocarry_lxor.
  - apply Z.bits_inj'. intros k Hk. rewrite Z.lxor_spec, Z.lor_spec.
    destruct (Z.ltb_spec k 32).
    + rewrite Z.mul_pow2_bits_low by lia. by destruct (Z.testbit r k).
    + rewrite <-(Z.mod_small r (2 ^ 32)) by lia. rewrite Z.mod_pow2_bits_high by lia.
      by destruct (Z.testbit _ k).
  - apply Z.bits_inj'. intros k Hk. rewrite Z.land_spec, Z.bits_0. destruct (Z.ltb_spec k 32).
    + by rewrite Z.mul_pow2_bits_low by lia.
    + rewrite <-(Z.mod_small r (2 ^ 32)) by lia. rewrite Z.mod_pow2_bits_high by lia. apply andb_false_r.
Qed.

Lemma pair_leb_total a b : pair_leb a b = true ∨ pair_leb b a = true.
Proof.
  unfold pair_leb. destruct (lex_leb_total (sock_key (nc_address (cp_remote a)))
    (sock_key (nc_address (cp_remote b)))) as [H|H]; rewrite H;
  destruct (Z.ltb_spec (cp_priority b) (cp_priority a)), (Z.ltb_spec (cp_priority a) (cp_priority b)),
    (Z.eqb_spec (cp_priority a) (cp_priority b)), (Z.eqb_spec (cp_priority b) (cp_priority a)); simpl; auto; lia.
Qed.

Lemma pair_leb_trans : Transitive (λ a b, pair_leb a b = true).
Proof.
  intros a b c. unfold pair_leb. rewrite !orb_true_iff, !andb_true_iff, !Z.ltb_lt, !Z.eqb_eq.
  intros [?|[? Hab]] [?|[? Hbc]]; [left; lia..|]. right. split; [lia|]. by eapply lex_leb_trans.
Qed.

(** Every local candidate is paired once with every remote one, and pairs are
    tried by descending local priority, then descending remote priority, then
    remote address. *)
Theorem candidate_pairs_correct local remote :
  Forall (λ c, u32_ok (nc_priority c)) local → Forall (λ c, u32_ok (nc_priority c)) remote →
  candidate_pairs local remote ≡ₚ (local ≫= λ l, make_pair l <$> remote) ∧
  StronglySorted (λ a b,
    lex_leb (- nc_priority (cp_local a) :: - nc_priority (cp_remote a) :: sock_key (nc_address (cp_remote a)))
            (- nc_priority (cp_local b) :: - nc_priority (cp_remote b) :: sock_key (nc_address (cp_remote b))) = true)
    (candidate_pairs local remote).
Proof.
  intros Hl Hr. unfold candidate_pairs. split; [apply stable_sort_perm|].
  set (ps := local ≫= λ l, make_pair l <$> remote).
  assert (Hps : ∀ p, p ∈ stable_sort pair_leb ps → u32_ok (nc_priority (cp_local p)) ∧ u32_ok (nc_priority (cp_remote p)) ∧
    cp_priority p = nc_priority (cp_local p) * 2 ^ 32 + nc_priority (cp_remote p)).
  { intros p. rewrite elem_of_stable_sort. unfold ps.
    intros (l & Hp & Hin)%list_elem_of_bind. apply list_elem_of_fmap in Hp as (r & -> & Hr').
    rewrite Forall_forall in Hl, Hr. specialize (Hl _ Hin). specialize (Hr _ Hr').
    split_and!; [done..|]. by apply combined_priority_eq. }
  pose proof (stable_sort_sorted pair_leb ps pair_leb_total pair_leb_trans) as Hs.
  induction Hs as [|a l Hs IH Ha]; constructor.
  - apply IH. intros p Hp. apply Hps. by right.
  - rewrite Forall_forall in *. intros b Hb. specialize (Ha b Hb).
    destruct (Hps a) as (Hal & Har & Hap); [left|]. destruct (Hps b) as (Hbl & Hbr & Hbp); [by right|].
    unfold u32_ok in *. unfold pair_leb in Ha. cbn [lex_leb].
    rewrite !orb_true_iff, !andb_true_iff, !orb_true_iff, !andb_true_iff, !Z.ltb_lt, !Z.eqb_eq in *.
    destruct Ha as [Ha|[Ha Hlex]]; [|right; split; [|right; split; [|done]]]; nia.
Qed.

(** ** Dialing *)

Lemma receive_loop_spec {C} error_text (dial : CandidatePair → result NativeError C) last arrivals :
  match receive_loop error_text dial last arrivals with
  | inl c => ∃ p, p ∈ arrivals ∧ dial p = Ok c
  | inr _ => ∀ p, p ∈ arrivals → is_ok (dial p) = false
  end.
Proof.
  revert last. induction arrivals as [|p ps IH]; intros last; cbn [receive_loop]; [by intros p ?%elem_of_nil|].
  destruct (dial p) as [c|e|] eqn:Hd.
  - exists p. split; [left|done].
  - specialize (IH (Some (error_text e))). destruct (receive_loop _ _ _ ps).
    + destruct IH as (q & ? & ?). exists q. split; [by right|done].
    + intros q [->|?]%elem_of_cons; [by rewrite Hd|auto].
  - specialize (IH last). destruct (receive_loop _ _ _ ps).
    + destruct IH as (q & ? & ?). exists q. split; [by right|done].
    + intros q [->|?]%elem_of_cons; [by rewrite Hd|auto].
Qed.

(** Whatever the order in which concurrent attempts report, dialing connects
    exactly when some pair can connect, through such a pair, and otherwise
    fails with a no-direct-path error that lists every attempted pair in
    priority order. *)
Theorem dial_candidates_correct {C} error_text (dial : CandidatePair → result NativeError C) arrive local remote :
  (∀ pairs, arrive pairs ≡ₚ pairs) →
  match dial_candidates error_text dial arrive local remote with
  | Ok c => ∃ p, p ∈ candidate_pairs local remote ∧ dial p = Ok c
  | Err e => (∀ p, p ∈ candidate_pairs local remote → is_ok (dial p) = false) ∧
             ∃ hint last_error, e = NoDirectPath (describe_pair <$> candidate_pairs local remote) hint last_error
  | Panic => False
  end.
Proof.
  intros Harr. unfold dial_candidates. case_bool_decide as Hne.
  { rewrite Hne. split; [by intros p ?%elem_of_nil|]. by do 2 eexists. }
  pose proof (receive_loop_spec error_text dial None (arrive (candidate_pairs local remote))) as Hspec.
  destruct (receive_loop _ _ _ _) as [c|last].
  - destruct Hspec as (p & Hp & Hd). rewrite Harr in Hp. eauto.
  - split; [|by do 2 eexists]. intros p Hp. apply Hspec. by rewrite Harr.
Qed.
