(* ===== verification/Transport.v ===== *)
(** * Sockets, transport configuration and certificate pins

    Model of crates/protocol-native-v1/src/transport.rs (the configuration and
    the addresses), of the fingerprints and the pinning check of tls.rs, and of
    the exchange with a STUN server of stun.rs.  The sockets of a machine are
    the list of those that are bound; what goes over them is an argument. *)

From stdpp Require Import prelude strings.
From Stdlib Require Import ZArith Lia.
From S2P Require Import Prelude RustStr Errors Inet Identity Stun Candidates.

Local Open Scope Z_scope.

(** ** Sockets *)

Inductive Protocol := Tcp | Udp.
#[export] Instance Protocol_eq_dec : EqDecision Protocol.
Proof. solve_decision. Defined.
Record Socket := mkSocket { so_protocol : Protocol; so_addr : SocketAddr }.
#[export] Instance Socket_eq_dec : EqDecision Socket.
Proof. solve_decision. Defined.

(** Two sockets of one protocol and port exclude each other when their
    addresses are the same or one of them is the wildcard: the program sets no
    option to share them. *)
Definition conflicts (a b : Socket) : bool :=
  bool_decide (so_protocol a = so_protocol b) && (sock_port (so_addr a) =? sock_port (so_addr b)) &&
  (bool_decide (sock_ip (so_addr a) = sock_ip (so_addr b)) || is_unspecified (sock_ip (so_addr a))
   || is_unspecified (sock_ip (so_addr b))).

Definition with_port (a : SocketAddr) (port : Z) : SocketAddr :=
  match a with SockV4 a b c d _ => SockV4 a b c d port | SockV6 g _ f i => SockV6 g port f i end.

(** Port zero asks for any free port, which [ephemeral] chooses. *)
Definition bind (ephemeral : list Socket → Z) (protocol : Protocol) (addr : SocketAddr) (sockets : list Socket) :
    result io_error (SocketAddr * list Socket) :=
  let addr := if sock_port addr =? 0 then with_port addr (ephemeral sockets) else addr in
  if existsb (conflicts (mkSocket protocol addr)) sockets then Err OtherIo
  else Ok (addr, mkSocket protocol addr :: sockets).

(** ** Configuration (transport.rs) *)

Definition NATIVE_ALPN : bytes := str "lsi-native-v1".

Record NativeTransportConfig := mkTransportConfig {
  tc_alpn : bytes; tc_max_concurrent_bidi_streams : Z; tc_max_concurrent_uni_streams : Z;
  tc_max_idle_timeout_ms : Z; tc_keep_alive_interval_ms : option Z }.

Definition default_transport : NativeTransportConfig := mkTransportConfig NATIVE_ALPN 64 16 30000 (Some 10000).

Definition transport_error {A} (message : string) : result NativeError A := Err (Transport (str message)).
Definition transport_ensure (b : bool) (message : string) : result NativeError unit := ensure b (Transport (str message)).

Definition validate_transport (c : NativeTransportConfig) : result NativeError unit :=
  _ ← transport_ensure (negb (bool_decide (tc_alpn c = []))) "ALPN must not be empty";
  _ ← transport_ensure (negb (tc_max_concurrent_bidi_streams c =? 0)) "max_concurrent_bidi_streams must be greater than zero";
  _ ← transport_ensure (negb (tc_max_idle_timeout_ms c =? 0)) "max_idle_timeout_ms must be greater than zero";
  transport_ensure (negb (bool_decide (tc_keep_alive_interval_ms c = Some 0)))
    "keep_alive_interval_ms must be greater than zero when configured".

(** What is set of quinn's configuration; times in milliseconds. *)
Record QuinnTransportConfig := mkQuinn {
  qt_max_concurrent_bidi_streams : Z; qt_max_concurrent_uni_streams : Z; qt_max_idle_timeout : Z;
  qt_keep_alive_interval : option Z; qt_segmentation_offload : bool }.

(** An idle time-out is a variable-length integer of QUIC. *)
Definition build_quinn_transport_config (disable_gso : bool) (c : NativeTransportConfig) :
    result NativeError QuinnTransportConfig :=
  _ ← validate_transport c;
  _ ← transport_ensure (tc_max_idle_timeout_ms c <? 2 ^ 62) "invalid idle timeout";
  Ok (mkQuinn (tc_max_concurrent_bidi_streams c) (tc_max_concurrent_uni_streams c) (tc_max_idle_timeout_ms c)
        (tc_keep_alive_interval_ms c) (negb disable_gso)).

(** ** Addresses *)

(** [s.parse::<IpAddr>()] *)
Definition parse_ip_text (s : rstring) : option IpAddr :=
  match read_ipv4 s with
  | Some (a, b, c, d, rest) => if bool_decide (rest = []) then Some (IpV4 a b c d) else None
  | None => match read_ipv6 s with Some (g, []) => Some (IpV6 g) | _ => None end
  end.
Definition parse_ip (host : rstring) : result NativeError IpAddr :=
  ok_or (parse_ip_text host) (Transport (str "invalid IP address " ++ host)).

(** [NativeServerBind] and [NativeClientTarget] *)
Record HostPort := mkHostPort { hp_host : rstring; hp_port : Z }.

Definition validate_host_port (host : rstring) (port : Z) : result NativeError unit :=
  _ ← transport_ensure (negb (is_blank host)) "host must not be empty";
  _ ← transport_ensure (negb (port =? 0)) "port must be greater than zero";
  _ ← parse_ip host;
  Ok tt.
Definition socket_new (ip : IpAddr) (port : Z) : SocketAddr :=
  match ip with IpV4 a b c d => SockV4 a b c d port | IpV6 g => SockV6 g port 0 0 end.
Definition socket_addr (host : rstring) (port : Z) : result NativeError SocketAddr :=
  _ ← validate_host_port host port;
  ip ← parse_ip host;
  Ok (socket_new ip port).

(** [quinn::Endpoint::server]: the socket of the endpoint. *)
Definition endpoint_server (ephemeral : list Socket → Z) (addr : SocketAddr) : SE (list Socket) NativeError SocketAddr :=
  λ sockets, match bind ephemeral Udp addr sockets with
             | Ok (addr, sockets) => (Ok addr, sockets)
             | Err e => (Err (Io e), sockets)
             | Panic => (Panic, sockets)
             end.
Definition bind_server_endpoint (ephemeral : list Socket → Z) (b : HostPort) : SE (list Socket) NativeError SocketAddr :=
  addr ← lift (socket_addr (hp_host b) (hp_port b));
  endpoint_server ephemeral addr.

(** ** Certificates (tls.rs) *)

Section certificates.
Context `{CryptoSuite}.

Definition certificate_fingerprint_sha256_hex (cert_der : bytes) : rstring := hex_encode (sha256 cert_der).

(** The error of rustls, without the fingerprints rendered into it. *)
Definition verify_certificate_fingerprint (expected_certificate_fingerprint : rstring) (cert_der : bytes) :
    result rstring unit :=
  let actual := certificate_fingerprint_sha256_hex cert_der in
  ensure (bool_decide (actual = expected_certificate_fingerprint)) (str "native peer certificate fingerprint mismatch").
End certificates.

(** ** Asking a STUN server (stun.rs) *)

(** [exchange] sends the request and says what came back in time. *)
Definition discover_server_reflexive_candidate (ephemeral : list Socket → Z) (sockets : list Socket)
    (transaction_id : bytes) (exchange : SocketAddr → bytes → result io_error (option bytes)) (stun_server : SocketAddr)
    (local_port : Z) : result NativeError SocketAddr :=
  if local_port =? 0 then stun_error "STUN local port must be greater than zero"
  else
    _ ← map_err Io (bind ephemeral Udp (SockV4 0 0 0 0 local_port) sockets);
    let request := build_binding_request transaction_id in
    received ← map_err Io (exchange stun_server request);
    response ← ok_or received (Transport (str "STUN binding request timed out"));
    parse_binding_response (take 1500 response) transaction_id.

(** ** Correctness *)

Lemma transport_ensure_Ok b m : transport_ensure b m = Ok tt ↔ b = true.
Proof. apply ensure_Ok_inv. Qed.

(** The configurations that are accepted, and what is made of them. *)
Theorem transport_config_accepted disable_gso c q :
  build_quinn_transport_config disable_gso c = Ok q ↔
  tc_alpn c ≠ [] ∧ tc_max_concurrent_bidi_streams c ≠ 0 ∧ tc_max_idle_timeout_ms c ≠ 0 ∧
  tc_max_idle_timeout_ms c < 2 ^ 62 ∧ tc_keep_alive_interval_ms c ≠ Some 0 ∧
  q = mkQuinn (tc_max_concurrent_bidi_streams c) (tc_max_concurrent_uni_streams c) (tc_max_idle_timeout_ms c)
        (tc_keep_alive_interval_ms c) (negb disable_gso).
Proof.
  unfold build_quinn_transport_config, validate_transport, transport_ensure. split.
  - intros Hq. inv_ok. bools. repeat match goal with H : unit |- _ => destruct H end. by split_and!.
  - intros (Ha & Hb & Hi & Hm & Hk & ->). rewrite (bool_decide_false (tc_alpn c = [])) by done.
    apply Z.eqb_neq in Hb, Hi. rewrite Hb, Hi, (bool_decide_false (tc_keep_alive_interval_ms c = Some 0)) by done.
    apply Z.ltb_lt in Hm. cbn [negb ensure mbind result_bind]. by rewrite Hm.
Qed.

Lemma default_transport_ok disable_gso : is_ok (build_quinn_transport_config disable_gso default_transport) = true.
Proof. by destruct disable_gso. Qed.

Lemma digit_not_whitespace c : is_ascii_digit c = true → is_whitespace c = false.
Proof.
  unfold is_ascii_digit. intros Hd. bools.
  assert (Hall : Forall (λ c, is_whitespace c = false) (seqZ 48 10)) by (apply (bool_decide_unpack _); vm_compute; done).
  rewrite Forall_forall in Hall. apply Hall, elem_of_seqZ. lia.
Qed.

Lemma show_ipv4_not_blank a b c d : is_blank (show_ipv4 a b c d) = false.
Proof.
  apply not_true_iff_false. rewrite is_blank_spec. unfold show_ipv4.
  pose proof (show_dec_digits a) as Hd. pose proof (show_dec_length a) as Hl.
  destruct (show_dec a) as [|x l]; [simpl in Hl; lia|]. apply Forall_cons in Hd as [Hx _].
  cbn [app]. intros [Hw _]%Forall_cons. by rewrite digit_not_whitespace in Hw.
Qed.

Lemma parse_ip_show_v4 a b c d :
  octet a → octet b → octet c → octet d → parse_ip (show_ipv4 a b c d) = Ok (IpV4 a b c d).
Proof.
  intros Ha Hb Hc Hd. unfold parse_ip, parse_ip_text.
  pose proof (read_ipv4_show a b c d [] Ha Hb Hc Hd) as Hr. rewrite app_nil_r in Hr. rewrite Hr; [done|done].
Qed.

(** An address is used as it is written; port zero and other texts are
    refused before a socket is opened. *)
Theorem host_port_address a b c d port :
  octet a → octet b → octet c → octet d →
  socket_addr (show_ipv4 a b c d) port =
    if port =? 0 then transport_error "port must be greater than zero" else Ok (SockV4 a b c d port).
Proof.
  intros Ha Hb Hc Hd. unfold socket_addr, validate_host_port, transport_ensure. rewrite show_ipv4_not_blank.
  destruct (port =? 0); [done|]. cbn [negb ensure mbind result_bind]. by rewrite parse_ip_show_v4.
Qed.

(** *** Sockets *)

Lemma conflicts_self a : conflicts a a = true.
Proof. unfold conflicts. rewrite !bool_decide_true, Z.eqb_refl by done. done. Qed.

Lemma bind_Ok ephemeral protocol addr sockets addr' sockets' :
  bind ephemeral protocol addr sockets = Ok (addr', sockets') →
  sockets' = mkSocket protocol addr' :: sockets ∧ sock_ip addr' = sock_ip addr ∧
  (sock_port addr ≠ 0 → addr' = addr).
Proof.
  unfold bind. destruct (Z.eqb_spec (sock_port addr) 0) as [Hz|Hz]; destruct (existsb _ _); intros [= <- <-];
    split_and!; try done; by destruct addr.
Qed.

(** The port of a bound socket is never zero. *)
Lemma bind_port ephemeral protocol addr sockets addr' sockets' :
  (∀ l, ephemeral l ≠ 0) → bind ephemeral protocol addr sockets = Ok (addr', sockets') → sock_port addr' ≠ 0.
Proof.
  intros He. unfold bind. destruct (Z.eqb_spec (sock_port addr) 0) as [Hz|Hz]; destruct (existsb _ _); intros [= <- <-]; [|done].
  destruct addr; apply He.
Qed.

(** A port in use on the wildcard address cannot be bound again. *)
Lemma bind_taken ephemeral protocol addr sockets taken :
  taken ∈ sockets → so_protocol taken = protocol → sock_port (so_addr taken) = sock_port addr → sock_port addr ≠ 0 →
  is_unspecified (sock_ip addr) = true → bind ephemeral protocol addr sockets = Err OtherIo.
Proof.
  intros Hin Hp Hport Hne Hun. unfold bind. apply Z.eqb_neq in Hne. rewrite Hne.
  assert (Hex : existsb (conflicts (mkSocket protocol addr)) sockets = true); [|by rewrite Hex].
  apply existsb_exists. exists taken. split; [by apply list_elem_of_In|]. unfold conflicts. cbn [so_protocol so_addr].
  rewrite bool_decide_true by done. rewrite Hport, Z.eqb_refl, Hun. cbn [andb]. by rewrite orb_true_r.
Qed.

(** *** Pins *)

Section pins.
Context `{CryptoLaws}.

(** A pin admits the certificates with its digest and no others, and one that
    admits a certificate is 64 hexadecimal digits. *)
Theorem pin_admits expected cert :
  (verify_certificate_fingerprint expected cert = Ok tt ↔ expected = hex_encode (sha256 cert)) ∧
  (is_ok (verify_certificate_fingerprint expected cert) = true → length expected = 64%nat).
Proof.
  assert (Hiff : verify_certificate_fingerprint expected cert = Ok tt ↔ expected = hex_encode (sha256 cert)).
  { unfold verify_certificate_fingerprint. rewrite ensure_Ok_inv, bool_decide_eq_true. by split. }
  split; [exact Hiff|]. intros ([] & Hok)%is_ok_spec. apply Hiff in Hok as ->.
  pose proof (zlen_hex_encode (sha256 cert)) as Hz. unfold zlen in Hz. rewrite sha256_length in Hz. lia.
Qed.
End pins.

(** *** STUN *)

(** On a machine where the port is taken, asking a STUN server from it fails,
    whatever the server would say. *)
Lemma stun_port_taken ephemeral sockets transaction_id exchange server local_port taken :
  taken ∈ sockets → so_protocol taken = Udp → sock_port (so_addr taken) = local_port →
  is_err (discover_server_reflexive_candidate ephemeral sockets transaction_id exchange server local_port) = true.
Proof.
  intros Hin Hp Hport. unfold discover_server_reflexive_candidate. destruct (Z.eqb_spec local_port 0); [done|].
  by rewrite (bind_taken _ _ (SockV4 0 0 0 0 local_port) _ _ Hin Hp Hport).
Qed.
