(* ===== verification/Conversation.v ===== *)
(** * Two programs on one connection

    A program that works on the state of its own machine and talks over a
    bidirectional byte stream ([NativeControlStream] of
    crates/protocol-native-v1/src/transport.rs, a pair of QUIC streams), as a
    tree of effects; two of them connected, as a transition system in which
    either side may move next; and one of them against a peer that may send
    any bytes.  QUIC delivers the bytes written by one side to the other, in
    order and without loss; a read waits for the bytes it needs, and fails
    when the other side has ended without sending them. *)

From stdpp Require Import prelude strings relations.
From Stdlib Require Import ZArith Lia.
From S2P Require Import Prelude RustStr Errors Dto Framing ChunkFrame.

(** ** Errors of the binaries

    [anyhow::Error]: a message, a wrapped error of a crate, or an error with
    context. *)
Inductive anyhow :=
| Msg (m : rstring)
| OfNative (e : NativeError)
| OfCore (e : CoreError)
| Context (m : string) (e : anyhow).

Definition bail (m : string) : anyhow := Msg (str m).

(** ** Programs *)
Inductive prog (W A : Type) : Type :=
| Ret (a : A)
| Do (X : Type) (f : W → X * W) (k : X → prog W A)
| Write (bs : bytes) (k : prog W A)
| ReadControl (k : result NativeError ControlMessage → prog W A)
| ReadChunk (k : result NativeError TransferChunk → prog W A).
Arguments Ret {W A} a.
Arguments Do {W A X} f k.
Arguments Write {W A} bs k.
Arguments ReadControl {W A} k.
Arguments ReadChunk {W A} k.

Fixpoint prog_bind {W A B} (m : prog W A) (k : A → prog W B) : prog W B :=
  match m with
  | Ret a => k a
  | Do f c => Do f (λ x, prog_bind (c x) k)
  | Write bs c => Write bs (prog_bind c k)
  | ReadControl c => ReadControl (λ r, prog_bind (c r) k)
  | ReadChunk c => ReadChunk (λ r, prog_bind (c r) k)
  end.

(** Programs that return [anyhow::Result]. *)
Definition net (W A : Type) : Type := prog W (result anyhow A).

#[export] Instance net_ret {W} : MRet (net W) := λ A a, Ret (Ok a).
#[export] Instance net_bind {W} : MBind (net W) := λ A B f m,
  prog_bind m (λ r, match r with Ok a => f a | Err e => Ret (Err e) | Panic => Ret Panic end).

Section operations.
Context {W A : Type}.

Definition bails (e : anyhow) : net W A := Ret (Err e).
Definition pure (r : result anyhow A) : net W A := Ret r.

(** [m.context(text)]. *)
Definition context (text : string) (m : net W A) : net W A :=
  prog_bind m (λ r, Ret (map_err (Context text) r)).

(** An effect on the machine's state. *)
Definition effect {E} (wrap : E → anyhow) (f : SE W E A) : net W A :=
  Do f (λ r, Ret (map_err wrap r)).

Definition write_bytes (r : result NativeError bytes) : net W unit :=
  match r with
  | Ok bs => Write bs (Ret (Ok tt))
  | Err e => Ret (Err (OfNative e))
  | Panic => Ret Panic
  end.

Definition recv_control : net W ControlMessage := ReadControl (λ r, Ret (map_err OfNative r)).
Definition recv_chunk : net W TransferChunk := ReadChunk (λ r, Ret (map_err OfNative r)).
End operations.

(** [for a in l { f(a)? }] and [for _ in 0..n { f? }]. *)
Fixpoint for_N {W A} (f : A → net W unit) (l : list A) : net W unit :=
  match l with
  | [] => mret tt
  | a :: l => _ ← f a; for_N f l
  end.
Fixpoint repeat_N {W} (n : nat) (f : net W unit) : net W unit :=
  match n with
  | O => mret tt
  | S n => _ ← f; repeat_N n f
  end.

(** ** Execution *)

(** The two sides of a connection. *)
Record conf (W V A B : Type) := mkConf {
  c_prog : prog W A; c_world : W; c_in : bytes;
  s_prog : prog V B; s_world : V; s_in : bytes }.
Arguments mkConf {W V A B}.
Arguments c_prog {W V A B}. Arguments c_world {W V A B}. Arguments c_in {W V A B}.
Arguments s_prog {W V A B}. Arguments s_world {W V A B}. Arguments s_in {W V A B}.

Section execution.
Context `{!Json Hello, !Json HelloAck, !Json RequestTransfer, !Json AcceptTransfer,
          !Json ChunkAck, !Json CancelTransfer, !Json DoneTransfer, !Json ResumeRequest}.
Context {B3 : Blake3}.

(** What a read makes of the bytes that have arrived: [None] is waiting.  No
    program reads on after an error, so what an error leaves is not said. *)
Definition arrived {X} (parsed : result NativeError (X * bytes)) (inbuf : bytes) (closed : bool) :
    option (result NativeError X * bytes) :=
  match parsed with
  | Ok (x, rest) => Some (Ok x, rest)
  | Err (Io UnexpectedEof) => if closed then Some (Err (Io UnexpectedEof), inbuf) else None
  | Err e => Some (Err e, inbuf)
  | Panic => Some (Panic, inbuf)
  end.

(** One move of one side: the rest of the program, the machine's state, the
    bytes not read yet, and the bytes written. *)
Definition advance {W A} (p : prog W A) (w : W) (inbuf : bytes) (closed : bool) :
    option (prog W A * W * bytes * bytes) :=
  match p with
  | Ret _ => None
  | Do f k => let '(x, w') := f w in Some (k x, w', inbuf, [])
  | Write bs k => Some (k, w, inbuf, bs)
  | ReadControl k =>
    '(r, rest) ← arrived (read_control inbuf) inbuf closed; Some (k r, w, rest, [])
  | ReadChunk k =>
    '(r, rest) ← arrived (read_chunk_frame inbuf) inbuf closed; Some (k r, w, rest, [])
  end.

Definition ended {W A} (p : prog W A) : bool := match p with Ret _ => true | _ => false end.

Inductive step {W V A B} : relation (conf W V A B) :=
| client_moves p w i q v j p' w' i' out :
    advance p w i (ended q) = Some (p', w', i', out) →
    step (mkConf p w i q v j) (mkConf p' w' i' q v (j ++ out))
| server_moves p w i q v j q' v' j' out :
    advance q v j (ended p) = Some (q', v', j', out) →
    step (mkConf p w i q v j) (mkConf p w (i ++ out) q' v' j').

(** One side whatever the peer does: a read may return anything.  The state
    is the rest of the program, the machine and what was written so far. *)
Inductive reacts {W A} : relation (prog W A * W * bytes) :=
| reacts_do X (f : W → X * W) k w out : reacts (Do f k, w, out) (k (f w).1, (f w).2, out)
| reacts_write bs k w out : reacts (Write bs k, w, out) (k, w, out ++ bs)
| reacts_control k r w out : reacts (ReadControl k, w, out) (k r, w, out)
| reacts_chunk k r w out : reacts (ReadChunk k, w, out) (k r, w, out).

(** ** Reading from a stream that grows *)

(** More bytes change neither a result nor an error, only the waiting. *)
Definition streaming {X} (parse : bytes → result NativeError (X * bytes)) : Prop :=
  ∀ i x, match parse i with
         | Ok (a, rest) => parse (i ++ x) = Ok (a, rest ++ x)
         | Err (Io UnexpectedEof) => True
         | Err e => parse (i ++ x) = Err e
         | Panic => parse (i ++ x) = Panic
         end.

Lemma streaming_read_exact n : streaming (read_exact (Io UnexpectedEof) n).
Proof.
  intros i x. unfold read_exact.
  destruct (Z.leb_spec n (zlen i)) as [Hle|]; [|done]. rewrite zlen_app.
  destruct (Z.leb_spec n (zlen i + zlen x)); [|pose proof (zlen_nonneg x); lia].
  unfold zlen in Hle. by rewrite take_app_le, drop_app_le by lia.
Qed.

Lemma streaming_bind {X Y} (p : bytes → result NativeError (X * bytes)) (k : X * bytes → result NativeError (Y * bytes)) :
  streaming p → (∀ a, streaming (λ r, k (a, r))) → streaming (λ r, p r ≫= k).
Proof.
  intros Hp Hk i x. specialize (Hp i x).
  destruct (p i) as [[a rest]|e|]; cbn [mbind result_bind].
  - rewrite Hp. apply Hk.
  - destruct e as [[]| | | | | |]; try done; by rewrite Hp.
  - by rewrite Hp.
Qed.

Lemma streaming_guard {X Y} (g : result NativeError X) (k : X → bytes → result NativeError (Y * bytes)) :
  (∀ a, streaming (k a)) → streaming (λ r, g ≫= λ a, k a r).
Proof.
  intros Hk i x. destruct g as [a|e|]; cbn [mbind result_bind]; [apply Hk| |done].
  by destruct e as [[]| | | | | |].
Qed.

Lemma streaming_done {X} (a : X) : streaming (λ r, Ok (a, r)).
Proof. done. Qed.

#[local] Hint Resolve streaming_read_exact streaming_done : night.

Lemma streaming_uint n : streaming (read_uint n).
Proof. unfold read_uint. apply streaming_bind; [auto with night|]. intros b. apply streaming_done. Qed.

Lemma streaming_control : streaming read_control.
Proof.
  unfold read_control. apply streaming_bind; [auto with night|]. intros len.
  apply (streaming_guard (ensure _ _)). intros _. apply (streaming_guard (ensure _ _)). intros _.
  apply streaming_bind; [auto with night|]. intros frame.
  apply (streaming_guard (decode_frame frame)). intros m. apply streaming_done.
Qed.

Lemma streaming_chunk : streaming read_chunk_frame.
Proof.
  unfold read_chunk_frame. apply streaming_bind; [apply streaming_uint|]. intros frame_len.
  apply (streaming_guard (ensure _ _)). intros _. apply (streaming_guard (ensure _ _)). intros _.
  apply streaming_bind; [apply streaming_uint|]. intros id_len.
  apply (streaming_guard (ensure _ _)). intros _.
  apply streaming_bind; [auto with night|]. intros id. apply (streaming_guard (ok_or _ _)). intros id'.
  apply streaming_bind; [apply streaming_uint|]. intros off.
  apply streaming_bind; [auto with night|]. intros h. apply (streaming_guard (ok_or _ _)). intros h'.
  apply streaming_bind; [apply streaming_uint|]. intros len.
  apply (streaming_guard (ensure _ _)). intros _.
  apply streaming_bind; [auto with night|]. intros b. apply (streaming_guard (ensure _ _)). intros _.
  apply streaming_done.
Qed.

Lemma arrived_mono {X} (parse : bytes → result NativeError (X * bytes)) i x c c' r rest :
  streaming parse → arrived (parse i) i c = Some (r, rest) →
  (c = true → x = [] ∧ c' = true) → arrived (parse (i ++ x)) (i ++ x) c' = Some (r, rest ++ x).
Proof.
  intros Hs Ha Hc. specialize (Hs i x). unfold arrived in *.
  destruct (parse i) as [[a i']|e|] eqn:Hp.
  - rewrite Hs. by injection Ha as <- <-.
  - destruct e as [[]| | | | | |]; [|rewrite Hs; by injection Ha as <- <-..].
    destruct c; [|done]. destruct Hc as [-> ->]; [done|]. injection Ha as <- <-.
    by rewrite !app_nil_r, Hp.
  - rewrite Hs. by injection Ha as <- <-.
Qed.

(** What a side can do, it can still do after more bytes arrived. *)
Lemma advance_mono {W A} (p : prog W A) w i x c c' p' w' i' out :
  advance p w i c = Some (p', w', i', out) → (c = true → x = [] ∧ c' = true) →
  advance p w (i ++ x) c' = Some (p', w', i' ++ x, out).
Proof.
  intros Ha Hc. destruct p as [a|X f k|bs k|k|k]; cbn [advance] in *.
  - done.
  - destruct (f w) as [y w1]. by injection Ha as <- <- <- <-.
  - by injection Ha as <- <- <- <-.
  - apply bind_Some in Ha as ([r rest] & Ha & [= <- <- <- <-]).
    rewrite (arrived_mono _ _ _ _ _ _ _ streaming_control Ha Hc). done.
  - apply bind_Some in Ha as ([r rest] & Ha & [= <- <- <- <-]).
    rewrite (arrived_mono _ _ _ _ _ _ _ streaming_chunk Ha Hc). done.
Qed.

Lemma advance_ended {W A} (p : prog W A) w i c q : advance p w i c = Some q → ended p = false.
Proof. by destruct p. Qed.

(** The sides do not get in each other's way. *)
Lemma step_diamond {W V A B} (c c1 c2 : conf W V A B) :
  step c c1 → step c c2 → c1 = c2 ∨ ∃ c', step c1 c' ∧ step c2 c'.
Proof.
  assert (Hcs : ∀ p w i q v j p' w' i' out q' v' j' out',
    advance p w i (ended q) = Some (p', w', i', out) → advance q v j (ended p) = Some (q', v', j', out') →
    ∃ c' : conf W V A B, step (mkConf p' w' i' q v (j ++ out)) c' ∧ step (mkConf p w (i ++ out') q' v' j') c').
  { intros p w i q v j p' w' i' out q' v' j' out' Hc Hs.
    pose proof (advance_ended _ _ _ _ _ Hc) as Hp. pose proof (advance_ended _ _ _ _ _ Hs) as Hq.
    exists (mkConf p' w' (i' ++ out') q' v' (j' ++ out)). split; constructor.
    - eapply advance_mono; [exact Hs|]. by rewrite Hp.
    - eapply advance_mono; [exact Hc|]. by rewrite Hq. }
  intros H1 H2. destruct H1 as [p w i q v j p' w' i' out H1|p w i q v j q' v' j' out H1];
    inversion H2 as [? ? ? ? ? ? ? ? ? ? H3|? ? ? ? ? ? ? ? ? ? H3]; subst.
  - left. rewrite H1 in H3. by injection H3 as <- <- <- <-.
  - right. eauto.
  - right. destruct (Hcs _ _ _ _ _ _ _ _ _ _ _ _ _ _ H3 H1) as (c' & ? & ?). eauto.
  - left. rewrite H1 in H3. by injection H3 as <- <- <- <-.
Qed.

(** All executions end in the same way: when one execution of [n] steps ends
    in [f], every execution is part of one of [n] steps that ends in [f]. *)
Lemma step_random_descent {W V A B} n (c f : conf W V A B) :
  nsteps step n c f → nf step f → ∀ m c1, nsteps step m c c1 → ∃ k, (m + k = n)%nat ∧ nsteps step k c1 f.
Proof.
  intros Hn Hf.
  assert (Hone : ∀ n c c1, nsteps step n c f → step c c1 → ∃ k, n = S k ∧ nsteps step k c1 f).
  { clear n c Hn. induction n as [|n IH]; intros c c1 Hn Hs.
    - inversion Hn; subst. destruct Hf. by exists c1.
    - inversion Hn as [|? ? c2 ? Hs2 Hn2]; subst.
      destruct (step_diamond _ _ _ Hs Hs2) as [->|(c' & Hc1 & Hc2)]; [eauto|].
      destruct (IH _ _ Hn2 Hc2) as (k & -> & Hk). eexists. split; [done|]. by econstructor. }
  intros m. revert n c Hn. induction m as [|m IH]; intros n c Hn c1 Hm.
  - inversion Hm; subst. by exists n.
  - inversion Hm as [|? ? c2 ? Hs Hm2]; subst.
    destruct (Hone _ _ _ Hn Hs) as (k & -> & Hk). destruct (IH _ _ Hk _ Hm2) as (k' & <- & Hk'). eauto.
Qed.

(** ** Running one side *)

(** One side on its own until it waits: it consumes [i] down to [i'] and
    writes [out]. *)
Inductive solo {W A} : prog W A → W → bytes → bytes → prog W A → W → bytes → Prop :=
| solo_refl p w i : solo p w i [] p w i
| solo_step p w i p1 w1 i1 out out' p' w' i' :
    advance p w i false = Some (p1, w1, i1, out) → solo p1 w1 i1 out' p' w' i' →
    solo p w i (out ++ out') p' w' i'.

Lemma solo_trans {W A} (p : prog W A) w i out p1 w1 i1 out' p2 w2 i2 :
  solo p w i out p1 w1 i1 → solo p1 w1 i1 out' p2 w2 i2 → solo p w i (out ++ out') p2 w2 i2.
Proof. induction 1; [done|]. intros. rewrite <-app_assoc. econstructor; eauto. Qed.

Lemma solo_frame {W A} (p : prog W A) w i out p' w' i' x :
  solo p w i out p' w' i' → solo p w (i ++ x) out p' w' (i' ++ x).
Proof. induction 1; econstructor; [|done]. by eapply advance_mono. Qed.

Lemma advance_bind {W A B} (m : prog W A) (k : A → prog W B) w i c m' w' i' out :
  advance m w i c = Some (m', w', i', out) → advance (prog_bind m k) w i c = Some (prog_bind m' k, w', i', out).
Proof.
  destruct m as [a|X f c'|bs c'|c'|c']; cbn [advance prog_bind]; [done| | | |].
  - destruct (f w). by intros [= <- <- <- <-].
  - by intros [= <- <- <- <-].
  - intros ([r rest] & -> & [= <- <- <- <-])%bind_Some. done.
  - intros ([r rest] & -> & [= <- <- <- <-])%bind_Some. done.
Qed.

Lemma solo_bind {W A B} (m : prog W A) (k : A → prog W B) w i out m' w' i' :
  solo m w i out m' w' i' → solo (prog_bind m k) w i out (prog_bind m' k) w' i'.
Proof. induction 1; econstructor; [|done]. by apply advance_bind. Qed.

(** Moves of one side are moves of the connection. *)
Lemma solo_client {W V A B} (p : prog W A) w i out p' w' i' (q : prog V B) v j :
  solo p w i out p' w' i' → rtc step (mkConf p w i q v j) (mkConf p' w' i' q v (j ++ out)).
Proof.
  intros Hs. revert j. induction Hs as [p w i|p w i p1 w1 i1 out out' p' w' i' Ha Hs IH]; intros j.
  - by rewrite app_nil_r.
  - eapply rtc_l; [|rewrite app_assoc; apply IH]. constructor.
    pose proof (advance_mono _ _ _ [] _ (ended q) _ _ _ _ Ha ltac:(done)) as Ha'.
    by rewrite !app_nil_r in Ha'.
Qed.

Lemma solo_server {W V A B} (p : prog W A) w i (q : prog V B) v j out q' v' j' :
  solo q v j out q' v' j' → rtc step (mkConf p w i q v j) (mkConf p w (i ++ out) q' v' j').
Proof.
  intros Hs. revert i. induction Hs as [q v j|q v j q1 v1 j1 out out' q' v' j' Ha Hs IH]; intros i.
  - by rewrite app_nil_r.
  - eapply rtc_l; [|rewrite app_assoc; apply IH]. constructor.
    pose proof (advance_mono _ _ _ [] _ (ended p) _ _ _ _ Ha ltac:(done)) as Ha'.
    by rewrite !app_nil_r in Ha'.
Qed.

(** Running to a successful return. *)
Definition runs {W A} (m : net W A) (w : W) (i out : bytes) (a : A) (w' : W) (i' : bytes) : Prop :=
  solo m w i out (Ret (Ok a)) w' i'.

Lemma solo_net_bind {W A B} (m : net W A) (k : A → net W B) w i out a w1 i1 out' p' w' i' :
  runs m w i out a w1 i1 → solo (k a) w1 i1 out' p' w' i' → solo (m ≫= k) w i (out ++ out') p' w' i'.
Proof. intros Hm Hk. eapply solo_trans; [by apply solo_bind|done]. Qed.

(** The same when the first part writes nothing. *)
Lemma solo_quiet {W A B} (m : net W A) (k : A → net W B) w i a w1 i1 out p' w' i' :
  runs m w i [] a w1 i1 → solo (k a) w1 i1 out p' w' i' → solo (m ≫= k) w i out p' w' i'.
Proof. intros Hm Hk. exact (solo_net_bind m k _ _ [] _ _ _ _ _ _ _ Hm Hk). Qed.

Lemma solo_context {W A} text (m : net W A) w i out m' w' i' :
  solo m w i out m' w' i' → solo (context text m) w i out (context text m') w' i'.
Proof. apply solo_bind. Qed.

Lemma solo_context_quiet {W A B} text (m : net W A) (k : A → net W B) w i a w1 i1 out p' w' i' :
  runs m w i [] a w1 i1 → solo (context text (k a)) w1 i1 out p' w' i' →
  solo (context text (m ≫= k)) w i out p' w' i'.
Proof.
  intros Hm Hk. change out with ([] ++ out). eapply solo_trans; [|exact Hk].
  apply solo_context. exact (solo_bind _ _ _ _ _ _ _ _ Hm).
Qed.

Lemma runs_ret {W A} (a : A) (w : W) i : runs (mret a) w i [] a w i.
Proof. apply solo_refl. Qed.

Lemma runs_pure {W A} (r : result anyhow A) a (w : W) i : r = Ok a → runs (pure r) w i [] a w i.
Proof. intros ->. apply solo_refl. Qed.

Lemma runs_one {W A} (p : prog W (result anyhow A)) w i out a w' i' :
  advance p w i false = Some (Ret (Ok a), w', i', out) → runs p w i out a w' i'.
Proof. intros Ha. rewrite <-(app_nil_r out). econstructor; [exact Ha|]. apply solo_refl. Qed.

Lemma runs_effect {W A E} (wrap : E → anyhow) (f : SE W E A) w w' i a :
  f w = (Ok a, w') → runs (effect wrap f) w i [] a w' i.
Proof. intros Hf. apply runs_one. cbn [effect advance]. by rewrite Hf. Qed.

Lemma runs_write {W} r bs (w : W) i : r = Ok bs → runs (write_bytes r) w i bs tt w i.
Proof. intros ->. by apply runs_one. Qed.

Lemma runs_recv_control {W} (w : W) i m rest :
  read_control i = Ok (m, rest) → runs recv_control w i [] m w rest.
Proof. intros Hr. apply runs_one. cbn [recv_control advance]. by rewrite Hr. Qed.

Lemma runs_recv_chunk {W} (w : W) i c rest :
  read_chunk_frame i = Ok (c, rest) → runs recv_chunk w i [] c w rest.
Proof. intros Hr. apply runs_one. cbn [recv_chunk advance]. by rewrite Hr. Qed.

Lemma runs_context {W A} text (m : net W A) w i out a w' i' :
  runs m w i out a w' i' → runs (context text m) w i out a w' i'.
Proof.
  intros Hm. unfold runs, context. rewrite <-(app_nil_r out).
  eapply solo_trans; [by apply solo_bind|]. apply solo_refl.
Qed.

Lemma runs_bind {W A B} (m : net W A) (k : A → net W B) w i out a w1 i1 out' b w' i' :
  runs m w i out a w1 i1 → runs (k a) w1 i1 out' b w' i' → runs (m ≫= k) w i (out ++ out') b w' i'.
Proof. apply solo_net_bind. Qed.

(** A loop that writes [out a] for each element. *)
Lemma runs_for_write {W A} (f : A → net W unit) (out : A → bytes) l w i :
  (∀ a, a ∈ l → runs (f a) w i (out a) tt w i) → runs (for_N f l) w i (l ≫= out) tt w i.
Proof.
  induction l as [|a l IH]; intros Hf; cbn [for_N mbind list_bind]; [apply runs_ret|].
  eapply runs_bind; [apply Hf; left|]. apply IH. intros. apply Hf. by right.
Qed.

Lemma for_N_fmap {W A B} (f : B → net W unit) (g : A → B) l : for_N f (g <$> l) = for_N (λ a, f (g a)) l.
Proof. induction l as [|a l IH]; [done|]. cbn [fmap list_fmap for_N]. by rewrite IH. Qed.

(** A counted loop that reads one element of a list per round. *)
Lemma runs_repeat_read {W A} (f : net W unit) (input : A → bytes) (effect : A → SE W NativeError unit) l w w' i :
  (∀ a w w' rest, a ∈ l → effect a w = (Ok tt, w') → runs f w (input a ++ rest) [] tt w' rest) →
  for_M effect l w = (Ok tt, w') → runs (repeat_N (length l) f) w ((l ≫= input) ++ i) [] tt w' i.
Proof.
  revert w. induction l as [|a l IH]; intros w Hf.
  - intros [= <-]. apply runs_ret.
  - cbn [for_M]. intros ([] & w1 & Ha & Hl)%SE_bind_Ok. cbn [length repeat_N mbind list_bind].
    rewrite <-app_assoc. change (@nil Z) with (@nil Z ++ []).
    eapply runs_bind; [eapply Hf; [left|exact Ha]|]. apply IH; [|done].
    intros. eapply Hf; [by right|done].
Qed.

(** ** One side against any peer *)

(** Every effect of the program relates the states before and after by [R]. *)
Fixpoint keeps {W A} (R : relation W) (p : prog W A) : Prop :=
  match p with
  | Ret _ => True
  | Do f k => (∀ w, R w (f w).2) ∧ ∀ x, keeps R (k x)
  | Write _ k => keeps R k
  | ReadControl k => ∀ r, keeps R (k r)
  | ReadChunk k => ∀ r, keeps R (k r)
  end.

Lemma keeps_bind {W A B} (R : relation W) (m : prog W A) (k : A → prog W B) :
  keeps R m → (∀ a, keeps R (k a)) → keeps R (prog_bind m k).
Proof.
  intros Hm Hk. induction m as [a|X f c IH|bs c IH|c IH|c IH]; cbn [keeps prog_bind] in *; [done| |auto..].
  destruct Hm. split; auto.
Qed.

Lemma keeps_net_bind {W A B} (R : relation W) (m : net W A) (k : A → net W B) :
  keeps R m → (∀ a, keeps R (k a)) → keeps R (m ≫= k).
Proof. intros Hm Hk. apply keeps_bind; [done|]. by intros []. Qed.

Lemma keeps_context {W A} (R : relation W) text (m : net W A) : keeps R m → keeps R (context text m).
Proof. intros Hm. by apply keeps_bind. Qed.

Lemma keeps_write {W} (R : relation W) r : keeps R (write_bytes r).
Proof. by destruct r. Qed.

Lemma keeps_repeat {W} (R : relation W) n (f : net W unit) : keeps R f → keeps R (repeat_N n f).
Proof. intros Hf. induction n; [done|]. by apply keeps_net_bind. Qed.

Lemma reacts_keeps {W A} (R : relation W) `{!PreOrder R} (p p' : prog W A) w w' out out' :
  keeps R p → rtc reacts (p, w, out) (p', w', out') → R w w'.
Proof.
  intros Hk Hr.
  remember (p, w, out) as s eqn:Hs. remember (p', w', out') as s' eqn:Hs'.
  revert p w out Hs Hk. induction Hr as [s|s s1 s2 Hstep Hr IH]; intros p w out -> Hk.
  - injection Hs' as -> -> ->. done.
  - inversion Hstep; subst; cbn [keeps] in Hk.
    + destruct Hk as [Hf Hk]. etrans; [apply Hf|]. by eapply IH.
    + by eapply IH.
    + by eapply IH.
    + by eapply IH.
Qed.

Lemma reacts_inv {W A} (s s' : prog W A * W * bytes) :
  reacts s s' →
  match s with
  | (Ret _, _, _) => False
  | (Do f k, w, out) => s' = (k (f w).1, (f w).2, out)
  | (Write bs k, w, out) => s' = (k, w, out ++ bs)
  | (ReadControl k, w, out) => ∃ r, s' = (k r, w, out)
  | (ReadChunk k, w, out) => ∃ r, s' = (k r, w, out)
  end.
Proof. destruct 1; eauto. Qed.

(** The first part of a sequence is still running, or it returned. *)
Lemma reacts_bind {W A B} (m : prog W A) (k : A → prog W B) w out p w' out' :
  rtc reacts (prog_bind m k, w, out) (p, w', out') →
  (∃ m', p = prog_bind m' k ∧ rtc reacts (m, w, out) (m', w', out')) ∨
  ∃ a w1 out1, rtc reacts (m, w, out) (Ret a, w1, out1) ∧ rtc reacts (k a, w1, out1) (p, w', out').
Proof.
  intros Hr. remember (prog_bind m k, w, out) as s eqn:Hs. remember (p, w', out') as s' eqn:Hs'.
  revert m w out Hs. induction Hr as [s|s s1 s2 Hstep Hr IH]; intros m w out ->.
  { injection Hs' as <- <- <-. left. by exists m. }
  specialize (IH Hs'). subst s2.
  destruct m as [a|X f c|bs c|c|c]; cbn [prog_bind] in Hstep.
  { right. exists a, w, out. split; [done|]. by eapply rtc_l. }
  all: apply reacts_inv in Hstep; cbv beta iota in Hstep; try match type of Hstep with ∃ _, _ => destruct Hstep as [r Hstep] end;
    destruct (IH _ _ _ Hstep) as [(m' & Hp & Hm)|(a & w1 & out1 & Hm & Hk)];
    [left; exists m'; split; [done|]|right; exists a, w1, out1; split; [|done]].
  all: eapply rtc_l; [|exact Hm]; constructor.
Qed.

Lemma reacts_ret {W A} (a : A) (w : W) out s : rtc reacts (Ret a, w, out) s → s = (Ret a, w, out).
Proof.
  intros Hr. remember (Ret a, w, out) as s0 eqn:Hs. destruct Hr as [|s0 s1 s2 Hstep Hr]; [done|].
  subst. by apply reacts_inv in Hstep.
Qed.

Lemma reacts_net_bind {W A B} (m : net W A) (k : A → net W B) w out p w' out' :
  rtc reacts (m ≫= k, w, out) (p, w', out') →
  (∃ m', rtc reacts (m, w, out) (m', w', out')) ∨
  (∃ a w1 out1, rtc reacts (m, w, out) (Ret (Ok a), w1, out1) ∧ rtc reacts (k a, w1, out1) (p, w', out')).
Proof.
  intros [(m' & _ & Hm)|([a|e|] & w1 & out1 & Hm & Hk)]%reacts_bind; [left; eauto| |left..].
  - right. eauto.
  - apply reacts_ret in Hk. injection Hk as -> -> ->. eauto.
  - apply reacts_ret in Hk. injection Hk as -> -> ->. eauto.
Qed.

(** A sequence that returned successfully: so did its parts. *)
Lemma reacts_net_returns {W A B} (m : net W A) (k : A → net W B) w out b w' out' :
  rtc reacts (m ≫= k, w, out) (Ret (Ok b), w', out') →
  ∃ a w1 out1, rtc reacts (m, w, out) (Ret (Ok a), w1, out1) ∧
    rtc reacts (k a, w1, out1) (Ret (Ok b), w', out').
Proof.
  intros [(m' & Hp & Hm)|([a|e|] & w1 & out1 & Hm & Hk)]%reacts_bind.
  - destruct m' as [[a|e|]|X f c|bs c|c|c]; cbn [prog_bind] in Hp; try done.
    exists a, w', out'. split; [done|]. rewrite <-Hp. done.
  - eauto.
  - by apply reacts_ret in Hk.
  - by apply reacts_ret in Hk.
Qed.

(** Whatever program is on the other side, a side behaves as one that gets
    some answer to every read. *)
Lemma conversation_reacts {W V A B} (c c' : conf W V A B) out :
  rtc step c c' →
  ∃ sent, rtc reacts (s_prog c, s_world c, out) (s_prog c', s_world c', out ++ sent).
Proof.
  intros Hr. revert out. induction Hr as [c|c c1 c2 Hs Hr IH]; intros out.
  { exists []. by rewrite app_nil_r. }
  destruct Hs as [p w i q v j p' w' i' o Ha|p w i q v j q' v' j' o Ha]; [apply IH|].
  destruct (IH (out ++ o)) as [sent Hsent]. exists (o ++ sent). rewrite app_assoc.
  eapply rtc_l; [|exact Hsent]. cbn [s_prog s_world].
  destruct q as [a|X f k|bs k|k|k]; cbn [advance] in Ha.
  - done.
  - destruct (f v) as [x v1] eqn:Hf. injection Ha as <- <- <- <-. rewrite app_nil_r.
    pose proof (reacts_do X f k v out) as Hd. by rewrite Hf in Hd.
  - injection Ha as <- <- <- <-. constructor.
  - apply bind_Some in Ha as ([r rest] & _ & [= <- <- <- <-]). rewrite app_nil_r. constructor.
  - apply bind_Some in Ha as ([r rest] & _ & [= <- <- <- <-]). rewrite app_nil_r. constructor.
Qed.
End execution.
