(* ===== verification/NativeNet.v ===== *)
(** * A native transfer over the network

    Model of the sending client (crates/protocol-native-v1/src/client.rs) and
    of the daemon's connection handler (crates/daemon/src/main.rs) as the two
    sides of a connection (Conversation.v), each on its own machine.

    The network is a parameter: the outcome of connecting to an address or to
    a pair of candidates, and the keying material a TLS session exports (the
    channel binding, the same on both sides of the session).  Of the nonce of
    the acknowledgement only its presence matters; it is an argument. *)

From stdpp Require Import prelude gmap strings relations.
From Stdlib Require Import ZArith Lia.
From S2P Require Import Prelude RustStr Errors Ranges Chunk Dto Framing Manifest Fs ChunkFrame Transfer Receiver Delivery Inet Identity TrustStore Candidates Conversation.

Local Open Scope Z_scope.

(** [path.is_file()] *)
Definition is_file (t : fs) (p : path) : bool :=
  match t !! resolve p with Some (File _) => true | _ => false end.

(** [s.strip_prefix(p)] *)
Definition strip_prefix (p s : rstring) : option rstring :=
  if bool_decide (take (length p) s = p) then Some (drop (length p) s) else None.

(** [a.div_ceil(b)] on [u64]. *)
Definition div_ceil (a b : Z) : Z := a / b + (if a mod b =? 0 then 0 else 1).

Definition native_socket_addr (url : rstring) : result anyhow SocketAddr :=
  match strip_prefix (str "quic://") url with
  | None => Err (bail "native --url must start with quic://")
  | Some address =>
    match parse_sock address with
    | Some a => Ok a
    | None => Err (bail "native --url must be a quic://host:port socket address")
    end
  end.

(** The machine of the daemon. *)
Record Daemon := mkDaemon { d_world : World; d_trust : TrustStore }.

Section native_net.
Context `{!Json Hello, !Json HelloAck, !Json RequestTransfer, !Json AcceptTransfer,
          !Json ChunkAck, !Json CancelTransfer, !Json DoneTransfer, !Json ResumeRequest}.
Context {B3 : Blake3} {U : Uuid} `{CryptoSuite}.

(** ** The client *)

Definition send_control {W} (message : ControlMessage) : net W unit := write_bytes (write_control message).

(** Body of the loop over the ranges of [send_file_chunks]. *)
Definition send_chunk (p : path) (file_id : rstring) (range : ChunkRange) : net World unit :=
  _ ← effect OfNative (lift (map_err Io (seek (offset range))));
  bytes ← effect OfNative (io_read (λ t, read_range t p (offset range) (len range)));
  write_bytes (write_chunk_frame (mkChunk file_id (offset range) (blake3_hex bytes) bytes)).

Definition send_file_chunks (p : path) (file_id : rstring) (file_size chunk_size : Z) : net World unit :=
  _ ← effect OfNative (io_read (λ t, open_file t p));
  ranges ← pure (map_err OfNative (plan_chunks file_size chunk_size));
  for_N (send_chunk p file_id) ranges.

Definition send_prepared_native_files (channel_binding : bytes) (request : RequestTransfer)
    (paths : list path) (keypair : bytes) : net World unit :=
  let hello := build_authenticated_hello keypair (str "night-bridge") (utf8_encode (rt_transfer_id request))
                 default_extensions channel_binding in
  _ ← send_control (CHello hello);
  m ← recv_control;
  _ ← match m with
      | CHelloAck _ => mret tt
      | _ => bails (bail "native peer returned unexpected hello response")
      end;
  _ ← send_control (CRequestTransfer request);
  m ← recv_control;
  accepted ← match m with
             | CAccept accepted =>
               if bool_decide (at_transfer_id accepted = rt_transfer_id request) then mret accepted
               else bails (bail "native peer returned unexpected transfer response")
             | _ => bails (bail "native peer returned unexpected transfer response")
             end;
  _ ← for_N (λ '(file, p), send_file_chunks p (fo_file_id file) (fo_size file) (at_chunk_size accepted))
        (zip (rt_files request) paths);
  let done := mkDoneTransfer (rt_transfer_id request) in
  _ ← send_control (CDone done);
  m ← recv_control;
  match m with
  | CDone ack =>
    if bool_decide (dt_transfer_id ack = dt_transfer_id done) then mret tt
    else bails (bail "native peer returned unexpected completion response")
  | _ => bails (bail "native peer returned unexpected completion response")
  end.

(** The check of the paths both entry points start with. *)
Definition check_files (paths : list path) : net World unit :=
  for_N (λ p, exists_ ← effect OfNative (gets (λ w, is_file (w_fs w) p));
              if exists_ : bool then mret tt else bails (bail "native send file does not exist")) paths.

Section connect.
Context {Connection : Type} (channel_binding_of : Connection → bytes).
Context (connect : SocketAddr → result anyhow Connection).
Context (error_text : NativeError → rstring) (dial_pair : CandidatePair → result NativeError Connection)
  (arrive : list CandidatePair → list CandidatePair).

Definition send_native_files (target : SocketAddr) (paths : list path) (keypair : bytes) : net World unit :=
  request ← context "preparing native transfer" (effect OfNative (prepare_request paths));
  connection ← pure (connect target);
  send_prepared_native_files (channel_binding_of connection) request paths keypair.

Definition send_files_to_url (url : rstring) (paths : list path) (keypair : bytes) : net World unit :=
  target ← pure (native_socket_addr url);
  _ ← check_files paths;
  context "sending native files" (send_native_files target paths keypair).

Definition send_native_files_over_connection (connection : Connection) (paths : list path) (keypair : bytes) :
    net World unit :=
  request ← context "preparing native transfer" (effect OfNative (prepare_request paths));
  send_prepared_native_files (channel_binding_of connection) request paths keypair.

Definition send_files_to_candidates (remote_candidates : list NativeCandidate) (paths : list path)
    (keypair : bytes) : net World unit :=
  _ ← check_files paths;
  let local_candidates := [mkCandidate Local_ (SockV4 0 0 0 0 0) 100] in
  connection ← context "dialing native WAN candidates"
    (pure (map_err OfNative (dial_candidates error_text dial_pair arrive local_candidates remote_candidates)));
  send_native_files_over_connection connection paths keypair.
End connect.

(** ** The daemon *)

(** An operation of the receiver on the daemon's machine. *)
Definition on_world {A} (m : M A) : SE Daemon NativeError A := λ d,
  let '(r, w) := m (d_world d) in (r, mkDaemon w (d_trust d)).

Definition ensure_native_peer_trusted (peer : NativePeerInfo) : net Daemon unit :=
  fingerprint ← context "invalid native peer fingerprint"
    (pure (map_err OfCore (parse_fingerprint (pi_fingerprint peer))));
  found ← effect OfCore (λ d, (get (d_trust d) fingerprint, d));
  match found with
  | None => bails (Msg (str "native peer is not trusted: " ++ pi_fingerprint peer))
  | Some trusted =>
    match pr_policy trusted with
    | AutoAccept => mret tt
    | Prompt => bails (Msg (str "native peer requires prompt before receive: " ++ pi_fingerprint peer))
    | Block => bails (Msg (str "native peer is blocked: " ++ pi_fingerprint peer))
    end
  end.

Definition MAX_NATIVE_TRANSFER_BYTES : Z := 64 * 1024 * 1024 * 1024.

Definition checked_declared_transfer_bytes (request : RequestTransfer) : result anyhow Z :=
  total ← for_each (λ acc file, ok_or (checked_add_u64 acc (fo_size file))
                                  (bail "native transfer declared size overflows u64"))
            0 (rt_files request);
  _ ← ensure (negb (MAX_NATIVE_TRANSFER_BYTES <? total)) (bail "native transfer declared size exceeds maximum");
  Ok total.

Definition expected_chunk_count (request : RequestTransfer) (chunk_size : Z) : Z :=
  foldl add_u64 0 ((λ file, if fo_size file =? 0 then 0 else div_ceil (fo_size file) chunk_size)
                     <$> rt_files request).

(** Body of the chunk loop of [receive_native_transfer]. *)
Definition receive_one_chunk (receiver : NativeTransferReceiver) (transfer_id : rstring) : net Daemon unit :=
  chunk ← context "failed to read native chunk" recv_chunk;
  context "failed to receive native chunk" (effect OfNative (on_world
    (receive_chunk_with_hash receiver transfer_id (tc_file_id chunk) (tc_offset chunk)
       (tc_bytes chunk) (tc_blake3 chunk)))).

Definition receive_native_transfer (inbox_dir : path) (peer : NativePeerInfo) (request : RequestTransfer) :
    net Daemon unit :=
  _ ← pure (checked_declared_transfer_bytes request);
  let receiver := trusted inbox_dir (pi_fingerprint peer) in
  accepted ← context "failed to accept native transfer"
    (effect OfNative (on_world (accept_transfer receiver peer request)));
  _ ← context "failed to write native transfer acceptance" (send_control (CAccept accepted));
  _ ← repeat_N (Z.to_nat (expected_chunk_count request (at_chunk_size accepted)))
        (receive_one_chunk receiver (rt_transfer_id request));
  m ← context "failed to read native transfer completion" recv_control;
  done ← match m with
         | CDone done =>
           if bool_decide (dt_transfer_id done = rt_transfer_id request) then mret done
           else bails (bail "native transfer did not finish with Done")
         | _ => bails (bail "native transfer did not finish with Done")
         end;
  _ ← context "failed to publish native files"
        (effect OfNative (on_world (finish_transfer receiver (rt_transfer_id request))));
  context "failed to write native completion ack" (send_control (CDone done)).

Definition handle_native_connection (channel_binding nonce : bytes) (alias : rstring) (pubkey : bytes)
    (inbox_dir : path) : net Daemon unit :=
  message ← context "failed to read native control message" recv_control;
  match message with
  | CHello hello =>
    _ ← context "native peer failed identity proof of possession"
          (pure (map_err OfNative (authenticate_hello hello channel_binding)));
    let peer := mkPeerInfo (hello_alias hello) (show_fingerprint (from_pubkey (hello_pubkey hello)))
                  (hello_pubkey hello) 0 None (hello_extensions hello) in
    _ ← ensure_native_peer_trusted peer;
    let ack := mkHelloAck PROTOCOL_VERSION alias pubkey nonce
                 (negotiate_extensions default_extensions (hello_extensions hello)) in
    _ ← context "failed to write native hello ack" (send_control (CHelloAck ack));
    message ← context "failed to read native transfer request" recv_control;
    match message with
    | CRequestTransfer request => receive_native_transfer inbox_dir peer request
    | _ => mret tt
    end
  | _ => mret tt
  end.
End native_net.

(** ** Chunk frames of a file *)

(** [blake3_hex] is 64 hexadecimal digits. *)
Class Blake3Hex `{Blake3} := {
  blake3_hex_length b : zlen (blake3_hex b) = 64;
  blake3_hex_digits b : forallb is_ascii_hexdigit (blake3_hex b) = true
}.

Section frames.
Context `{Blake3Hex}.

Definition chunk_of (j : job) (rg : ChunkRange) : TransferChunk :=
  mkChunk (jid j) (offset rg) (blake3_hex (slice (jb_content j) (offset rg) (len rg)))
    (slice (jb_content j) (offset rg) (len rg)).
Definition frame_of (j : job) (rg : ChunkRange) : bytes :=
  match write_chunk_frame (chunk_of j rg) with Ok bs => bs | _ => [] end.
Definition plan_of (j : job) : list ChunkRange :=
  plan_loop (plan_fuel (zlen (jb_content j)) DEFAULT_CHUNK_SIZE) (zlen (jb_content j)) DEFAULT_CHUNK_SIZE 0.

(** A file that fits the chunk frames. *)
Record wire_job (j : job) : Prop := {
  wire_id : cleaned (jid j) ≠ [];
  wire_id_text : Forall scalar (jid j);
  wire_id_len : str_len (jid j) < 2 ^ 10;
  wire_size : 0 < zlen (jb_content j) < 2 ^ 63;
  wire_offer : fo_size (jb_offer j) = zlen (jb_content j)
}.

Lemma plan_of_tiles j : wire_job j → tiles 0 (zlen (jb_content j)) (plan_of j).
Proof. intros Hj. destruct (wire_size _ Hj). apply plan_tiles; [unfold u64_ok; lia|by unfold DEFAULT_CHUNK_SIZE]. Qed.

Lemma plan_of_range j rg :
  wire_job j → rg ∈ plan_of j → valid_range (zlen (jb_content j)) rg ∧ len rg ≤ DEFAULT_CHUNK_SIZE.
Proof.
  intros Hj Hrg. destruct (tiles_bounds _ _ _ _ (plan_of_tiles _ Hj) Hrg) as (? & ? & ?).
  split; [unfold valid_range; auto|by eapply plan_loop_len].
Qed.

Lemma frame_of_ok j rg :
  wire_job j → rg ∈ plan_of j →
  write_chunk_frame (chunk_of j rg) = Ok (frame_of j rg) ∧
  ∀ rest, read_chunk_frame (frame_of j rg ++ rest) = Ok (chunk_of j rg, rest).
Proof.
  intros Hj Hrg. destruct (plan_of_range _ _ Hj Hrg) as [(Hoff & Hlen & Hend) Hmax]. unfold rend in Hend.
  pose proof (zlen_slice (jb_content j) (offset rg) (len rg) Hoff ltac:(lia) Hend) as Hsl.
  pose proof (wire_id_len _ Hj) as Hidl. unfold DEFAULT_CHUNK_SIZE in Hmax.
  destruct (write_chunk_frame_succeeds (chunk_of j rg)) as (bs & Hw & Hbs); cbn [chunk_of tc_file_id tc_blake3 tc_bytes].
  - apply cleaned_not_blank, Hj.
  - lia.
  - unfold str_len. rewrite hex_ascii by apply blake3_hex_digits. apply blake3_hex_length.
  - apply blake3_hex_digits.
  - intros Heq. rewrite Heq in Hsl. change (zlen []) with 0 in Hsl. lia.
  - done.
  - rewrite Hsl. unfold MAX_CHUNK_FRAME_BYTES. lia.
  - unfold frame_of. rewrite Hw. split; [done|]. intros rest. rewrite (read_write_chunk_frame _ _ _ Hw).
    + destruct (Z.leb_spec (zlen bs) (4 + MAX_CHUNK_FRAME_BYTES)); [done|lia].
    + cbn [chunk_of tc_offset]. pose proof (wire_size _ Hj). unfold u64_ok. lia.
    + apply Hj.
Qed.
End frames.

(** ** Counting *)

Definition total_size (jobs : list job) : Z := foldr (λ j acc, zlen (jb_content j) + acc) 0 jobs.

(** All chunks of a request, in the order in which they are sent. *)
Definition all_chunks (jobs : list job) : list (job * ChunkRange) :=
  jobs ≫= λ j, (λ rg, (j, rg)) <$> plan_of j.

Lemma div_ceil_eq a b : 0 ≤ a → 0 < b → div_ceil a b = (a + b - 1) / b.
Proof.
  intros Ha Hb. unfold div_ceil. pose proof (Z.div_mod a b ltac:(lia)) as Hdm.
  pose proof (Z.mod_pos_bound a b Hb).
  destruct (Z.eqb_spec (a mod b) 0).
  - apply Z.div_unique with (b - 1); lia.
  - apply Z.div_unique with (a mod b - 1); lia.
Qed.

Lemma plan_of_length j : wire_job j →
  zlen (plan_of j) = div_ceil (zlen (jb_content j)) DEFAULT_CHUNK_SIZE ∧ 0 ≤ zlen (plan_of j) ≤ zlen (jb_content j).
Proof.
  intros Hj. pose proof (wire_size _ Hj) as Hsz. unfold plan_of. set (chunk := DEFAULT_CHUNK_SIZE).
  assert (Hc : 0 < chunk) by done.
  rewrite plan_loop_length by (lia || (apply plan_fuel_enough; lia)).
  rewrite Z.sub_0_r, div_ceil_eq by lia. split; [done|]. split; [apply Z.div_pos; lia|].
  apply Z.div_le_upper_bound; nia.
Qed.

Lemma total_size_nonneg jobs : 0 ≤ total_size jobs.
Proof. induction jobs as [|j jobs IH]; [done|]. cbn [total_size foldr]. fold (total_size jobs). pose proof (zlen_nonneg (jb_content j)). lia. Qed.

(** Total and chunk count of declared files, on unbounded integers. *)
Definition declared_total (files : list FileOffer) : Z := foldr (λ f acc, fo_size f + acc) 0 files.
Definition chunk_total (files : list FileOffer) : Z :=
  foldr (λ f acc, div_ceil (fo_size f) DEFAULT_CHUNK_SIZE + acc) 0 files.

Lemma div_ceil_bounds a b : 0 ≤ a → 0 < b → 0 ≤ div_ceil a b ≤ a ∧ b * div_ceil a b ≤ a + b - 1.
Proof.
  intros Ha Hb. rewrite div_ceil_eq by done.
  pose proof (Z.mul_div_le (a + b - 1) b Hb). pose proof (Z.div_pos (a + b - 1) b ltac:(lia) Hb).
  split; [|done]. split; [done|]. apply Z.lt_succ_r, Z.div_lt_upper_bound; nia.
Qed.

Lemma declared_total_bounds files :
  Forall (λ f, u64_ok (fo_size f)) files → 0 ≤ declared_total files ∧
  0 ≤ chunk_total files ≤ declared_total files ∧
  DEFAULT_CHUNK_SIZE * chunk_total files ≤ declared_total files + zlen files * (DEFAULT_CHUNK_SIZE - 1).
Proof.
  induction 1 as [|f files [Hf _] Hfs IH]; [done|]. cbn [declared_total chunk_total foldr].
  fold (declared_total files) (chunk_total files). rewrite zlen_cons.
  pose proof (div_ceil_bounds (fo_size f) DEFAULT_CHUNK_SIZE Hf ltac:(done)) as Hd.
  set (n := div_ceil (fo_size f) DEFAULT_CHUNK_SIZE) in *. unfold DEFAULT_CHUNK_SIZE in *. lia.
Qed.

Lemma checked_sum files acc :
  Forall (λ f, u64_ok (fo_size f)) files → 0 ≤ acc < 2 ^ 64 →
  for_each (λ acc file, ok_or (checked_add_u64 acc (fo_size file))
    (bail "native transfer declared size overflows u64")) acc files
  = if acc + declared_total files <? 2 ^ 64 then Ok (acc + declared_total files)
    else Err (bail "native transfer declared size overflows u64").
Proof.
  intros Hfs. revert acc. induction Hfs as [|f files [Hf _] Hfs IH]; intros acc Hacc.
  { cbn. rewrite Z.add_0_r. by destruct (Z.ltb_spec acc (2 ^ 64)); [|lia]. }
  destruct (declared_total_bounds _ Hfs) as (Hpos & _).
  cbn [for_each declared_total foldr]. fold (declared_total files). unfold checked_add_u64.
  destruct (Z.ltb_spec (acc + fo_size f) (2 ^ 64)); cbn [ok_or mbind result_bind].
  - rewrite IH, Z.add_assoc by lia. done.
  - destruct (Z.ltb_spec (acc + (fo_size f + declared_total files)) (2 ^ 64)); [lia|done].
Qed.

Lemma declared_bytes_spec request :
  Forall (λ f, u64_ok (fo_size f)) (rt_files request) →
  if MAX_NATIVE_TRANSFER_BYTES <? declared_total (rt_files request)
  then ∃ e, checked_declared_transfer_bytes request = Err e
  else checked_declared_transfer_bytes request = Ok (declared_total (rt_files request)).
Proof.
  intros Hfs. unfold checked_declared_transfer_bytes. rewrite checked_sum, Z.add_0_l by done.
  unfold MAX_NATIVE_TRANSFER_BYTES. set (cap := 64 * 1024 * 1024 * 1024).
  assert (Hcap : cap = 2 ^ 36) by reflexivity.
  destruct (Z.ltb_spec cap (declared_total (rt_files request)));
    destruct (Z.ltb_spec (declared_total (rt_files request)) (2 ^ 64)); cbn [mbind result_bind]; try lia.
  all: try destruct (Z.ltb_spec cap (declared_total (rt_files request))); try lia; cbn; eauto.
Qed.

Lemma expected_chunk_count_spec request :
  Forall (λ f, u64_ok (fo_size f)) (rt_files request) → declared_total (rt_files request) < 2 ^ 64 →
  expected_chunk_count request DEFAULT_CHUNK_SIZE = chunk_total (rt_files request).
Proof.
  unfold expected_chunk_count. intros Hfs Hlt.
  enough (∀ acc, 0 ≤ acc → acc + declared_total (rt_files request) < 2 ^ 64 →
    foldl add_u64 acc ((λ file, if fo_size file =? 0 then 0 else div_ceil (fo_size file) DEFAULT_CHUNK_SIZE)
      <$> rt_files request) = acc + chunk_total (rt_files request)) as Hgen by (rewrite Hgen; lia).
  clear Hlt. induction Hfs as [|f files [Hf Hf'] Hfs IH]; intros acc Hacc Hlt.
  { cbn. by rewrite Z.add_0_r. }
  cbn [declared_total chunk_total foldr fmap list_fmap foldl] in *.
  fold (declared_total files) (chunk_total files) in *.
  destruct (declared_total_bounds _ Hfs) as (? & ? & _).
  pose proof (div_ceil_bounds (fo_size f) DEFAULT_CHUNK_SIZE Hf ltac:(done)) as [? _].
  assert ((if fo_size f =? 0 then 0 else div_ceil (fo_size f) DEFAULT_CHUNK_SIZE)
    = div_ceil (fo_size f) DEFAULT_CHUNK_SIZE) as ->.
  { destruct (Z.eqb_spec (fo_size f) 0) as [->|]; [done|done]. }
  rewrite add_u64_small by lia. etrans; [apply IH; lia|]. lia.
Qed.

Lemma jobs_declared jobs :
  (∀ j, j ∈ jobs → wire_job j) →
  Forall (λ f, u64_ok (fo_size f)) (jb_offer <$> jobs) ∧
  declared_total (jb_offer <$> jobs) = total_size jobs ∧ chunk_total (jb_offer <$> jobs) = zlen (all_chunks jobs).
Proof.
  induction jobs as [|j jobs IH]; intros Hj; [done|].
  assert (Hwj : wire_job j) by (apply Hj; left). destruct IH as (IH1 & IH2 & IH3); [intros; apply Hj; by right|].
  pose proof (wire_size _ Hwj). destruct (plan_of_length _ Hwj) as [Hpl _].
  cbn [fmap list_fmap declared_total chunk_total total_size foldr].
  fold (declared_total (jb_offer <$> jobs)) (chunk_total (jb_offer <$> jobs)) (total_size jobs).
  rewrite (wire_offer _ Hwj), <-Hpl. split_and!.
  - constructor; [|done]. rewrite (wire_offer _ Hwj). unfold u64_ok. lia.
  - by f_equal.
  - unfold all_chunks in *. cbn [mbind list_bind]. rewrite zlen_app. etrans; [by rewrite IH3|].
    unfold zlen. by rewrite length_fmap.
Qed.

Lemma declared_bytes_ok t jobs :
  (∀ j, j ∈ jobs → wire_job j) → total_size jobs ≤ MAX_NATIVE_TRANSFER_BYTES →
  checked_declared_transfer_bytes (mkRequestTransfer t (jb_offer <$> jobs)) = Ok (total_size jobs).
Proof.
  intros Hj Hmax. destruct (jobs_declared _ Hj) as (Hfs & Htot & _).
  pose proof (declared_bytes_spec (mkRequestTransfer t (jb_offer <$> jobs)) Hfs) as Hspec.
  cbn [rt_files] in Hspec. rewrite Htot in Hspec.
  by destruct (Z.ltb_spec MAX_NATIVE_TRANSFER_BYTES (total_size jobs)); [lia|].
Qed.

Lemma expected_chunks_ok t jobs :
  (∀ j, j ∈ jobs → wire_job j) → total_size jobs < 2 ^ 64 →
  expected_chunk_count (mkRequestTransfer t (jb_offer <$> jobs)) DEFAULT_CHUNK_SIZE = zlen (all_chunks jobs).
Proof.
  intros Hj Hmax. destruct (jobs_declared _ Hj) as (Hfs & Htot & <-).
  apply expected_chunk_count_spec; [done|]. cbn [rt_files]. lia.
Qed.

(** ** The two sides *)
Section sides.
Context `{!Json Hello, !Json HelloAck, !Json RequestTransfer, !Json AcceptTransfer,
          !Json ChunkAck, !Json CancelTransfer, !Json DoneTransfer, !Json ResumeRequest}.
Context `{!JsonRoundtrip Hello, !JsonRoundtrip HelloAck, !JsonRoundtrip RequestTransfer,
          !JsonRoundtrip AcceptTransfer, !JsonRoundtrip ChunkAck, !JsonRoundtrip CancelTransfer,
          !JsonRoundtrip DoneTransfer, !JsonRoundtrip ResumeRequest}.
Context `{Blake3Hex} {U : Uuid} `{CryptoLaws}.

(** The bytes of all chunks. *)
Definition chunk_stream (jobs : list job) : bytes := all_chunks jobs ≫= λ '(j, rg), frame_of j rg.

Lemma runs_recv_written {W} (w : W) m bs rest : write_control m = Ok bs → runs recv_control w (bs ++ rest) [] m w rest.
Proof. intros Hw. by apply runs_recv_control, read_write_control. Qed.

Lemma send_chunk_runs w i j rg :
  wire_job j → w_fs w !! resolve (jb_path j) = Some (File (jb_content j)) → rg ∈ plan_of j →
  runs (send_chunk (jb_path j) (jid j) rg) w i (frame_of j rg) tt w i.
Proof.
  intros Hj Hsrc Hrg. destruct (plan_of_range _ _ Hj Hrg) as [Hv _]. pose proof (wire_size _ Hj).
  unfold send_chunk. eapply solo_quiet.
  { apply runs_effect. unfold lift, seek. destruct Hv as (? & ? & ?). unfold rend in *.
    destruct (Z.ltb_spec (offset rg) (2 ^ 63)); [done|lia]. }
  eapply solo_quiet.
  { apply runs_effect. apply io_read_Ok. by rewrite (read_range_slice _ _ (jb_content j)). }
  apply runs_write. by apply frame_of_ok.
Qed.

Lemma send_file_chunks_runs w i j :
  wire_job j → w_fs w !! resolve (jb_path j) = Some (File (jb_content j)) →
  runs (send_file_chunks (jb_path j) (jid j) (fo_size (jb_offer j)) DEFAULT_CHUNK_SIZE) w i
    (plan_of j ≫= frame_of j) tt w i.
Proof.
  intros Hj Hsrc. unfold send_file_chunks. eapply solo_quiet.
  { apply runs_effect, io_read_Ok. unfold open_file. by rewrite Hsrc. }
  eapply solo_quiet.
  { apply runs_pure. rewrite (wire_offer _ Hj), plan_chunks_Ok by done. done. }
  cbv beta. fold (plan_of j). apply runs_for_write. intros rg Hrg. by apply send_chunk_runs.
Qed.

Lemma send_all_chunks_runs w i jobs :
  (∀ j, j ∈ jobs → wire_job j ∧ w_fs w !! resolve (jb_path j) = Some (File (jb_content j))) →
  runs (for_N (λ '(file, p), send_file_chunks p (fo_file_id file) (fo_size file) DEFAULT_CHUNK_SIZE)
         (zip (jb_offer <$> jobs) (jb_path <$> jobs))) w i (chunk_stream jobs) tt w i.
Proof.
  intros Hj.
  assert (zip (jb_offer <$> jobs) (jb_path <$> jobs) = (λ j, (jb_offer j, jb_path j)) <$> jobs) as ->.
  { clear. induction jobs as [|j jobs IH]; [done|]. cbn [fmap list_fmap zip_with]. by f_equal. }
  assert (chunk_stream jobs = jobs ≫= λ j, plan_of j ≫= frame_of j) as ->.
  { clear. induction jobs as [|j jobs IH]; [done|]. unfold chunk_stream, all_chunks in *. cbn [mbind list_bind].
    rewrite bind_app. f_equal; [|exact IH]. clear. generalize (plan_of j). intros l.
    induction l as [|rg l IH]; [done|]. cbn. by f_equal. }
  rewrite for_N_fmap. apply runs_for_write. intros j (? & ?)%Hj. by apply send_file_chunks_runs.
Qed.

(** The daemon receives the frames of a file's chunks. *)
Lemma receive_one_chunk_runs r t d w' j rg rest :
  wire_job j → rg ∈ plan_of j → receive_range r t (jid j) (jb_content j) rg (d_world d) = (Ok tt, w') →
  runs (receive_one_chunk r t) d (frame_of j rg ++ rest) [] tt (mkDaemon w' (d_trust d)) rest.
Proof.
  intros Hj Hrg Hrecv. unfold receive_one_chunk. eapply solo_quiet.
  { apply runs_context, runs_recv_chunk. by apply frame_of_ok. }
  apply runs_context, runs_effect. cbn [chunk_of tc_file_id tc_offset tc_bytes tc_blake3].
  unfold on_world. unfold receive_range in Hrecv. by rewrite Hrecv.
Qed.

Lemma for_M_bind {S E A B} (f : B → SE S E unit) (g : A → list B) l s :
  for_M f (l ≫= g) s = for_M (λ a, for_M f (g a)) l s.
Proof.
  assert (Happ : ∀ l1 l2 s, for_M f (l1 ++ l2) s = (_ ← for_M f l1; for_M f l2) s).
  { induction l1 as [|b l1 IH]; intros l2 s1; [done|]. cbn [app for_M].
    unfold mbind, SE_bind in *. destruct (f b s1) as [[] s2]; [apply IH|done..]. }
  revert s. induction l as [|a l IH]; intros s; [done|]. cbn [mbind list_bind for_M].
  rewrite Happ. unfold mbind, SE_bind. destruct (for_M f (g a) s) as [[] s2]; [apply IH|done..].
Qed.

Lemma for_M_on_world {A} (f : A → M unit) l d :
  for_M (λ a, on_world (f a)) l d = on_world (for_M f l) d.
Proof.
  revert d. induction l as [|a l IH]; intros d; [by destruct d|]. cbn [for_M].
  unfold mbind, SE_bind, on_world in *. destruct (f a (d_world d)) as [[] w]; [|done..].
  by rewrite IH.
Qed.

Definition receive_pair (r : NativeTransferReceiver) (t : rstring) (x : job * ChunkRange) : M unit :=
  receive_range r t (jid x.1) (jb_content x.1) x.2.

(** Receiving every chunk of every file of a new transfer. *)
Lemma receive_all_chunks r t jobs w w1 :
  session_new r t jobs w w1 → (∀ j, j ∈ jobs → wire_job j) →
  ∃ w2, for_M (receive_pair r t) (all_chunks jobs) w1 = (Ok tt, w2) ∧
    frames r t jobs w1 w2 ∧ ∀ j, j ∈ jobs → job_done r t w2 j.
Proof.
  intros (Hopen & _ & Hnv & _) Hw. unfold all_chunks. rewrite for_M_bind.
  apply complete_jobs; [done|]. intros done j rest w2 Heq Hfr Hdir Hwf Hj Hv.
  assert (Hwj : wire_job j) by (apply Hw; rewrite Heq; set_solver).
  destruct (receive_missing (receive_range r t (jid j) (jb_content j)) r t (jid j) (jb_content j) w2 (plan_of j))
    as (w3 & Hrun & Hfr3 & Hps & Hall); [done|apply Hopen|apply Hj|done|by eapply open_row_state|apply Hj| | |done|].
  - pose proof (open_size _ _ _ _ Hj). lia.
  - exists (plan_of j). split_and!; [by apply plan_of_tiles|done|]. intros c. split; [|tauto].
    intros Hc. split; [done|]. exists (offset c).
    destruct (plan_of_range _ _ Hwj Hc) as [(? & ? & ?) _]. split; [unfold covers, rend in *; lia|].
    rewrite Hv. apply Hnv.
  - exists w3. split; [by rewrite for_M_fmap|]. split; [done|]. split; [|done].
    apply part_state_full; [apply Hwj|done..].
Qed.

(** *** The messages of a transfer *)
Section messages.
Context (binding nonce : bytes) (keypair : bytes) (alias : rstring) (pubkey : bytes) (inbox : path)
  (t : rstring) (jobs : list job).

Definition the_request : RequestTransfer := mkRequestTransfer t (jb_offer <$> jobs).
Definition the_hello : Hello :=
  build_authenticated_hello keypair (str "night-bridge") (utf8_encode t) default_extensions binding.
Definition the_peer : NativePeerInfo :=
  mkPeerInfo (str "night-bridge") (show_fingerprint (from_pubkey (public_bytes keypair))) (public_bytes keypair)
    0 None default_extensions.
Definition the_ack : HelloAck :=
  mkHelloAck PROTOCOL_VERSION alias pubkey nonce (negotiate_extensions default_extensions default_extensions).
Definition the_receiver : NativeTransferReceiver := trusted inbox (pi_fingerprint the_peer).

(** The messages fit their frames. *)
Record messages_fit (hello ack request accept done : bytes) : Prop := {
  fit_hello : write_control (CHello the_hello) = Ok hello;
  fit_ack : write_control (CHelloAck the_ack) = Ok ack;
  fit_request : write_control (CRequestTransfer the_request) = Ok request;
  fit_accept : write_control (CAccept (mkAcceptTransfer t DEFAULT_CHUNK_SIZE)) = Ok accept;
  fit_done : write_control (CDone (mkDoneTransfer t)) = Ok done
}.

Context (hello ack request accept done : bytes) (Hfit : messages_fit hello ack request accept done).

Lemma client_script w :
  (∀ j, j ∈ jobs → wire_job j ∧ w_fs w !! resolve (jb_path j) = Some (File (jb_content j))) →
  ∃ p1 p2 p3,
    solo (send_prepared_native_files binding the_request (jb_path <$> jobs) keypair) w [] hello p1 w [] ∧
    solo p1 w ack request p2 w [] ∧
    solo p2 w accept (chunk_stream jobs ++ done) p3 w [] ∧
    solo p3 w done [] (Ret (Ok tt)) w [].
Proof.
  intros Hj. destruct Hfit as [Hh Ha Hr Hc Hd]. do 3 eexists. split; [|split; [|split]].
  - unfold send_prepared_native_files. rewrite <-(app_nil_r hello). cbn [the_request rt_transfer_id].
    eapply solo_net_bind; [by apply runs_write|]. apply solo_refl.
  - cbv beta. rewrite <-(app_nil_r ack).
    eapply solo_quiet; [by apply runs_recv_written|]. eapply solo_quiet; [apply runs_ret|]. cbv beta.
    rewrite <-(app_nil_r request). eapply solo_net_bind; [by apply runs_write|]. apply solo_refl.
  - cbv beta. rewrite <-(app_nil_r accept).
    eapply solo_quiet; [by apply runs_recv_written|]. cbn [at_transfer_id rt_transfer_id the_request].
    rewrite bool_decide_true by done. eapply solo_quiet; [apply runs_ret|].
    cbn [rt_files the_request at_chunk_size].
    eapply solo_net_bind; [by apply send_all_chunks_runs|].
    rewrite <-(app_nil_r done). eapply solo_net_bind; [by apply runs_write|]. apply solo_refl.
  - cbv beta. rewrite <-(app_nil_r done).
    eapply solo_quiet; [by apply runs_recv_written|]. cbn [dt_transfer_id rt_transfer_id the_request].
    rewrite bool_decide_true by done. apply solo_refl.
Qed.

Lemma receive_stream_runs d d1 w2 :
  (∀ j, j ∈ jobs → wire_job j) → total_size jobs ≤ MAX_NATIVE_TRANSFER_BYTES →
  for_M (receive_pair the_receiver t) (all_chunks jobs) (d_world d1) = (Ok tt, w2) →
  runs (repeat_N (Z.to_nat (expected_chunk_count the_request DEFAULT_CHUNK_SIZE)) (receive_one_chunk the_receiver t))
    d1 (chunk_stream jobs ++ d) [] tt (mkDaemon w2 (d_trust d1)) d.
Proof.
  intros Hw Hmax Hrecv. unfold the_request.
  rewrite expected_chunks_ok by (done || (unfold MAX_NATIVE_TRANSFER_BYTES in Hmax; lia)).
  unfold zlen. rewrite Nat2Z.id.
  apply (runs_repeat_read _ _ (λ x, on_world (receive_pair the_receiver t x))).
  - intros [j rg] da db rest Hin Heff. apply list_elem_of_bind in Hin as (j' & Hin & Hj').
    apply list_elem_of_fmap in Hin as (rg' & [= <- <-] & Hrg).
    unfold on_world in Heff. destruct (receive_pair the_receiver t (j, rg) (d_world da)) as [res w] eqn:Hrp.
    injection Heff as -> <-. by apply receive_one_chunk_runs; [apply Hw| |].
  - rewrite for_M_on_world. unfold on_world. by rewrite Hrecv.
Qed.

(** The daemon trusts the key. *)
Definition auto_accepts (d : Daemon) (pk : bytes) : Prop :=
  ∃ peer, get (d_trust d) (from_pubkey pk) = Ok (Some peer) ∧ pr_policy peer = AutoAccept.

Lemma trusted_runs d i : auto_accepts d (public_bytes keypair) → runs (ensure_native_peer_trusted the_peer) d i [] tt d i.
Proof.
  intros (peer & Hget & Hpol). unfold ensure_native_peer_trusted. cbn [the_peer pi_fingerprint].
  eapply solo_quiet.
  { apply runs_context, runs_pure. by rewrite parse_show_fingerprint by apply from_pubkey_ok. }
  eapply solo_quiet; [apply runs_effect; by rewrite Hget|]. cbv beta iota. rewrite Hpol. apply runs_ret.
Qed.

Lemma server_script d :
  (∀ j, j ∈ jobs → wire_job j) → total_size jobs ≤ MAX_NATIVE_TRANSFER_BYTES →
  auto_accepts d (public_bytes keypair) → recv_ready the_receiver the_peer t jobs (d_world d) →
  ∃ q1 q2 d1 d',
    solo (handle_native_connection binding nonce alias pubkey inbox) d hello ack q1 d [] ∧
    solo q1 d request accept q2 d1 [] ∧
    solo q2 d1 (chunk_stream jobs ++ done) done (Ret (Ok tt)) d' [] ∧
    (∀ j, j ∈ jobs → w_fs (d_world d') !! jtarget the_receiver j = Some (File (jb_content j))) ∧
    state (w_store (d_world d')) t = Ok (Some Completed).
Proof.
  intros Hw Hmax Htrust Hrecv. pose proof Hfit as [Hh Ha Hr Hc Hd].
  destruct (accept_ready _ _ _ _ _ Hrecv) as (w1 & Hacc & Hnew).
  destruct (receive_all_chunks _ _ _ _ _ Hnew Hw) as (w2 & Hrun & Hfr & Hdone).
  destruct Hnew as (Hopen & Hfree & _).
  destruct (finish_succeeds the_receiver t jobs w2) as (w3 & Hfin & Hout);
    [eapply session_open_done; [done|apply Hrecv|done..]|by eapply inbox_free_frames|].
  exists (context "failed to read native transfer request" recv_control ≫= λ message,
            match message with CRequestTransfer request => receive_native_transfer inbox the_peer request | _ => mret tt end).
  eexists _, (mkDaemon w1 (d_trust d)), (mkDaemon w3 (d_trust d)).
  split; [|split; [|split; [|exact Hout]]].
  - unfold handle_native_connection. rewrite <-(app_nil_r hello).
    eapply solo_quiet; [by apply runs_context, runs_recv_written|]. cbv beta iota.
    eapply solo_quiet.
    { apply runs_context, runs_pure. unfold the_hello. by rewrite built_hello_authenticates. }
    eapply solo_quiet; [by apply trusted_runs|]. rewrite <-(app_nil_r ack).
    eapply solo_net_bind; [by apply runs_context, runs_write|]. apply solo_refl.
  - rewrite <-(app_nil_r request). eapply solo_quiet; [by apply runs_context, runs_recv_written|]. cbv beta iota.
    unfold receive_native_transfer. eapply solo_quiet; [apply runs_pure; by apply declared_bytes_ok|].
    fold the_receiver. eapply solo_quiet.
    { apply runs_context, runs_effect. unfold on_world, the_request. by rewrite Hacc. }
    cbv beta. rewrite <-(app_nil_r accept).
    eapply solo_net_bind; [by apply runs_context, runs_write|]. apply solo_refl.
  - cbn [at_chunk_size rt_transfer_id the_request rc_chunk_size the_receiver trusted].
    eapply solo_quiet; [by apply receive_stream_runs|]. rewrite <-(app_nil_r done) at 1.
    eapply solo_quiet; [by apply runs_context, runs_recv_written|]. cbn [dt_transfer_id].
    rewrite bool_decide_true by done. eapply solo_quiet; [apply runs_ret|].
    eapply solo_quiet.
    { apply runs_context, runs_effect. unfold on_world. cbn [d_world]. by rewrite Hfin. }
    by apply runs_context, runs_write.
Qed.
End messages.

(** A conversation that follows the two scripts, and every other execution of
    it. *)
Lemma scripts_meet {W V A B} (p0 p1 p2 p3 : prog W A) (q0 q1 q2 : prog V B) a b cw w d d1 d' hello ack request accept stream done :
  solo p0 cw [] hello p1 w [] → solo p1 w ack request p2 w [] → solo p2 w accept stream p3 w [] →
  solo p3 w done [] (Ret a) w [] →
  solo q0 d hello ack q1 d [] → solo q1 d request accept q2 d1 [] → solo q2 d1 stream done (Ret b) d' [] →
  ∃ n, ∀ m c, nsteps step m (mkConf p0 cw [] q0 d []) c →
    ∃ k, (m + k = n)%nat ∧ nsteps step k c (mkConf (Ret a) w [] (Ret b) d' []).
Proof.
  intros C0 C1 C2 C3 S0 S1 S2.
  assert (Hrun : rtc step (mkConf p0 cw [] q0 d []) (mkConf (Ret a) w [] (Ret b) d' [])).
  { etrans; [exact (solo_client _ _ _ _ _ _ _ q0 d [] C0)|].
    etrans; [exact (solo_server p1 w [] _ _ _ _ _ _ _ S0)|].
    etrans; [exact (solo_client _ _ _ _ _ _ _ q1 d [] C1)|].
    etrans; [exact (solo_server p2 w [] _ _ _ _ _ _ _ S1)|].
    etrans; [exact (solo_client _ _ _ _ _ _ _ q2 d1 [] C2)|].
    etrans; [exact (solo_server p3 w [] _ _ _ _ _ _ _ S2)|].
    exact (solo_client _ _ _ _ _ _ _ (Ret b) d' [] C3). }
  apply rtc_nsteps in Hrun as [n Hn]. exists n. apply step_random_descent; [done|].
  intros [c Hc]. inversion Hc as [? ? ? ? ? ? ? ? ? ? Ha|? ? ? ? ? ? ? ? ? ? Ha]; subst; done.
Qed.

(** *** Files prepared by the client *)

Lemma jobs_from_index index sources j :
  j ∈ jobs_from index sources → ∃ k, index ≤ k < index + zlen sources ∧ jid j = str "file-" ++ show_dec k.
Proof.
  revert index. induction sources as [|[p c] sources IH]; intros index; [by intros ?%elem_of_nil|].
  rewrite zlen_cons. pose proof (zlen_nonneg sources). intros [->|Hj]%elem_of_cons.
  - exists index. split; [lia|done].
  - destruct (IH _ Hj) as (k & ? & ?). exists k. split; [lia|done].
Qed.

Lemma length_le_total jobs : (∀ j, j ∈ jobs → 0 < zlen (jb_content j)) → zlen jobs ≤ total_size jobs.
Proof.
  induction jobs as [|j jobs IH]; intros Hj; [done|]. rewrite zlen_cons. cbn [total_size foldr].
  fold (total_size jobs). pose proof (Hj j ltac:(left)). specialize (IH ltac:(intros; apply Hj; by right)). lia.
Qed.

Lemma jobs_from_zlen index sources : zlen (jobs_from index sources) = zlen sources.
Proof.
  revert index. induction sources as [|[p c] sources IH]; intros index; [done|].
  cbn [jobs_from]. by rewrite !zlen_cons, IH.
Qed.

Lemma prepared_wire r peer t sources w :
  recv_ready r peer t (jobs_from 0 sources) w → total_size (jobs_from 0 sources) ≤ MAX_NATIVE_TRANSFER_BYTES →
  ∀ j, j ∈ jobs_from 0 sources → wire_job j.
Proof.
  intros Hr Hmax j Hj. destruct (recv_jobs _ _ _ _ _ Hr j Hj) as (Hid & Hsz & Hfs & _).
  assert (Hlen : zlen sources ≤ MAX_NATIVE_TRANSFER_BYTES).
  { rewrite <-(jobs_from_zlen 0). etrans; [apply length_le_total|done]. intros j' Hj'. by apply (recv_jobs _ _ _ _ _ Hr). }
  unfold MAX_NATIVE_TRANSFER_BYTES in Hlen.
  destruct (jobs_from_index _ _ _ Hj) as (k & Hk & Hjid).
  pose proof (show_dec_bound 11 k ltac:(lia) ltac:(simpl; lia)) as Hkl.
  pose proof (show_dec_digits k) as Hdig. split; [done| | |lia|done].
  - rewrite Hjid. apply Forall_app. split; [by apply (bool_decide_unpack _)|].
    eapply Forall_impl; [exact Hdig|]. intros c Hc. unfold is_ascii_digit in Hc. bools. unfold scalar. lia.
  - unfold str_len. rewrite utf8_encode_ascii.
    + rewrite Hjid, zlen_app. change (zlen (str "file-")) with 5. unfold zlen. lia.
    + rewrite Hjid. apply Forall_app. split; [by repeat constructor|].
      eapply Forall_impl; [exact Hdig|]. intros c Hc. unfold is_ascii_digit in Hc. bools.
      unfold is_ascii. apply Z.ltb_lt. lia.
Qed.

(** ** Delivery over the network *)
Section delivers.
Context {Connection : Type} (channel_binding_of : Connection → bytes).
Context (keypair nonce : bytes) (alias : rstring) (pubkey : bytes) (inbox : path).

(** What the transfer needs on both machines: readable sources that fit the
    limits, a daemon that trusts the key and is ready for the request, and
    messages that fit their frames. *)
Record net_ready (connection : Connection) (sources : list (path * bytes)) (cw : World) (d : Daemon) : Prop := {
  nr_sources p c : (p, c) ∈ sources → w_fs cw !! resolve p = Some (File c) ∧ is_ok (file_name p) = true;
  nr_total : total_size (jobs_from 0 sources) ≤ MAX_NATIVE_TRANSFER_BYTES;
  nr_trust : auto_accepts d (public_bytes keypair);
  nr_recv : recv_ready (the_receiver keypair inbox) (the_peer keypair) (new_v4 (w_uuid cw))
              (jobs_from 0 sources) (d_world d);
  nr_fit : ∃ hello ack request accept done,
    messages_fit (channel_binding_of connection) nonce keypair alias pubkey (new_v4 (w_uuid cw))
      (jobs_from 0 sources) hello ack request accept done
}.

(** The files are on the daemon's machine and both sides returned. *)
Definition delivered (sources : list (path * bytes)) (cw : World)
    (c : conf World Daemon (result anyhow unit) (result anyhow unit)) : Prop :=
  c_prog c = Ret (Ok tt) ∧ s_prog c = Ret (Ok tt) ∧
  (∀ j, j ∈ jobs_from 0 sources →
     w_fs (d_world (s_world c)) !! jtarget (the_receiver keypair inbox) j = Some (File (jb_content j))) ∧
  state (w_store (d_world (s_world c))) (new_v4 (w_uuid cw)) = Ok (Some Completed) ∧
  w_fs (c_world c) = w_fs cw.

Definition prepared (w : World) : World := mkWorld (w_fs w) (w_store w) (S (w_uuid w)) (w_now w).

Lemma check_files_runs w i sources :
  (∀ p c, (p, c) ∈ sources → w_fs w !! resolve p = Some (File c)) → runs (check_files (sources.*1)) w i [] tt w i.
Proof.
  intros Hs. unfold check_files. rewrite for_N_fmap.
  replace [] with (sources ≫= λ _, @nil Z) by (clear; by induction sources).
  apply runs_for_write. intros [p c] Hin. eapply solo_quiet; [by apply runs_effect|]. cbv beta. cbn [fst].
  unfold is_file. rewrite (Hs p c Hin). apply runs_ret.
Qed.

(** Any client that prepares the files and sends them over the connection. *)
Lemma prepared_delivers connection sources cw d (p0 : net World unit)
    (wrap : net World unit → net World unit) :
  (∀ m w i out m' w' i', solo m w i out m' w' i' → solo (wrap m) w i out (wrap m') w' i') →
  wrap (Ret (Ok tt)) = Ret (Ok tt) →
  net_ready connection sources cw d →
  (∀ out p' w', solo (wrap (send_prepared_native_files (channel_binding_of connection)
       (the_request (new_v4 (w_uuid cw)) (jobs_from 0 sources)) (sources.*1) keypair)) (prepared cw) [] out p' w' [] →
     solo p0 cw [] out p' w' []) →
  ∃ n final, delivered sources cw final ∧
    ∀ m c, nsteps step m (mkConf p0 cw []
             (handle_native_connection (channel_binding_of connection) nonce alias pubkey inbox) d []) c →
           ∃ k, (m + k = n)%nat ∧ nsteps step k c final.
Proof.
  intros Hwrap Hret [Hsrc Hmax Htrust Hrecv (hello & ack & request & accept & done & Hfit)] Hp0.
  pose proof (prepared_wire _ _ _ _ _ Hrecv Hmax) as Hw.
  destruct (client_script _ _ _ _ _ _ _ _ _ _ _ _ Hfit (prepared cw)) as (p1 & p2 & p3 & C0 & C1 & C2 & C3).
  { intros j Hj. split; [by apply Hw|]. destruct (jobs_from_elem 0 sources j) as (_ & Hin & _); [lia|done|].
    by apply (Hsrc _ _ Hin). }
  destruct (server_script _ _ _ _ _ _ _ _ _ _ _ _ _ Hfit d Hw Hmax Htrust Hrecv)
    as (q1 & q2 & d1 & d' & S0 & S1 & S2 & Hout & Hst).
  rewrite jobs_from_sources in C0.
  destruct (scripts_meet _ _ _ _ _ _ _ _ _ _ _ _ _ _ _ _ _ _ _ _ (Hp0 _ _ _ (Hwrap _ _ _ _ _ _ _ C0))
    (Hwrap _ _ _ _ _ _ _ C1) (Hwrap _ _ _ _ _ _ _ C2) ltac:(rewrite <-Hret; exact (Hwrap _ _ _ _ _ _ _ C3))
    S0 S1 S2) as [n Hn].
  eexists n, _. split; [|exact Hn]. by split_and!.
Qed.

(** C1: Sending files to a daemon over the network delivers them: however the
    steps of the two machines interleave, every execution ends after the same
    number of steps, with both sides reporting success, every file in the
    daemon's inbox under its name with the sender's bytes, the transfer marked
    completed, and the sender's files as they were. *)
Theorem network_transfer_delivers connect url target connection sources cw d :
  native_socket_addr url = Ok target → connect target = Ok connection →
  net_ready connection sources cw d →
  ∃ n final, delivered sources cw final ∧
    ∀ m c, nsteps step m
             (mkConf (send_files_to_url channel_binding_of connect url (sources.*1) keypair) cw []
                (handle_native_connection (channel_binding_of connection) nonce alias pubkey inbox) d []) c →
           ∃ k, (m + k = n)%nat ∧ nsteps step k c final.
Proof.
  intros Haddr Hconn Hready.
  apply (prepared_delivers connection sources cw d _ (context "sending native files")); [|done|done|].
  { intros. by apply solo_context. }
  intros out p' w' Hsolo. unfold send_files_to_url.
  eapply solo_quiet; [by apply runs_pure|]. eapply solo_quiet.
  { apply check_files_runs. intros p c Hin. by apply (nr_sources _ _ _ _ Hready). }
  apply (solo_context_quiet _ _ _ _ _ (the_request (new_v4 (w_uuid cw)) (jobs_from 0 sources)) (prepared cw) []).
  { apply runs_context, runs_effect, prepare_request_Ok, Hready. }
  by apply (solo_context_quiet _ _ _ _ _ connection (prepared cw) []); [apply runs_pure|].
Qed.

(** The same when the connection comes from dialing the peer's candidates. *)
Theorem candidates_transfer_delivers error_text dial_pair arrive remote connection sources cw d :
  dial_candidates error_text dial_pair arrive [mkCandidate Local_ (SockV4 0 0 0 0 0) 100] remote = Ok connection →
  net_ready connection sources cw d →
  ∃ n final, delivered sources cw final ∧
    ∀ m c, nsteps step m
             (mkConf (send_files_to_candidates channel_binding_of error_text dial_pair arrive remote (sources.*1) keypair)
                cw [] (handle_native_connection (channel_binding_of connection) nonce alias pubkey inbox) d []) c →
           ∃ k, (m + k = n)%nat ∧ nsteps step k c final.
Proof.
  intros Hdial Hready.
  apply (prepared_delivers connection sources cw d _ id); [done|done|done|].
  intros out p' w' Hsolo. unfold send_files_to_candidates, send_native_files_over_connection. eapply solo_quiet.
  { apply check_files_runs. intros p c Hin. by apply (nr_sources _ _ _ _ Hready). }
  eapply solo_quiet; [apply runs_context, runs_pure; by rewrite Hdial|].
  eapply solo_quiet; [|exact Hsolo]. apply runs_context, runs_effect, prepare_request_Ok, Hready.
Qed.
End delivers.
End sides.
