(* ===== verification/NativeGuard.v ===== *)
(** * The daemon's native listener against any peer

    What a peer can make [handle_native_connection] (NativeNet.v) do, whatever
    it sends and whenever it stops: nothing at all without the proof of a
    trusted key, and with it only changes inside the receiving area of the
    inbox and new files in the inbox. *)

From stdpp Require Import prelude gmap strings relations.
From Stdlib Require Import ZArith Lia.
From S2P Require Import Prelude RustStr Errors Chunk Dto Framing Manifest Fs ChunkFrame Transfer Receiver Identity TrustStore Conversation NativeNet.

Local Open Scope Z_scope.

(** ** What receiving may change on disk *)

(** Where transfers under way are kept. *)
Definition native_dir (inbox : path) : path := inbox ++ [str ".incoming"; str "native"].

(** Outside the receiving area an entry stays, or it is new: a directory on
    the way to the area or an entry of the inbox. *)
Definition confined (inbox : path) (t t' : fs) : Prop :=
  ∀ q, ¬ native_dir inbox `prefix_of` q →
    t' !! q = t !! q ∨
    (t !! q = None ∧ (q `prefix_of` native_dir inbox ∨ ∃ base, q = inbox ++ [base])).

#[export] Instance confined_preorder inbox : PreOrder (confined inbox).
Proof.
  split; [by left|]. intros t1 t2 t3 H12 H23 q Hq.
  destruct (H12 q Hq) as [He|?]; [|by right]. rewrite <-He. apply (H23 q Hq).
Qed.

(** Running [m] from a state with [P] changes the disk only as allowed, and a
    result it returns satisfies [Q]. *)
Definition guarded {A} (inbox : path) (P : World → Prop) (m : M A) (Q : A → World → Prop) : Prop :=
  ∀ w, P w → confined inbox (w_fs w) (w_fs (m w).2) ∧ ∀ a, (m w).1 = Ok a → Q a (m w).2.

Section guarded.
Context {A B : Type} (inbox : path).
Implicit Types (P : World → Prop).

Lemma guarded_bind P (m : M A) (k : A → M B) Q S :
  guarded inbox P m Q → (∀ a, guarded inbox (Q a) (k a) S) → guarded inbox P (m ≫= k) S.
Proof.
  intros Hm Hk w Hw. destruct (Hm w Hw) as [Hc Hq]. unfold mbind, SE_bind.
  destruct (m w) as [[a|e|] w1]; cbn [fst snd] in *; [|by split..].
  destruct (Hk a w1 (Hq a eq_refl)) as [Hc' Hs]. split; [by etrans|done].
Qed.

Lemma guarded_same P (m : M A) (Q : A → World → Prop) :
  (∀ w, P w → w_fs (m w).2 = w_fs w ∧ ∀ a, (m w).1 = Ok a → Q a (m w).2) → guarded inbox P m Q.
Proof. intros Hm w Hw. destruct (Hm w Hw) as [-> Hq]. by split. Qed.

Lemma guarded_weaken (P P' : World → Prop) (m : M A) (Q Q' : A → World → Prop) :
  guarded inbox P m Q → (∀ w, P' w → P w) → (∀ a w, Q a w → Q' a w) → guarded inbox P' m Q'.
Proof. intros Hm HP HQ w Hw. destruct (Hm w (HP w Hw)) as [? Hq]. split; [done|]. eauto. Qed.

(** Operations that leave the disk alone, from states described by the disk. *)
Implicit Types (F : fs → Prop).

Lemma guarded_lift F (r : result NativeError A) : guarded inbox (F ∘ w_fs) (lift r) (λ _, F ∘ w_fs).
Proof. by apply guarded_same. Qed.
Lemma guarded_store_get F (f : ManifestStore → result NativeError A) :
  guarded inbox (F ∘ w_fs) (store_get f) (λ _, F ∘ w_fs).
Proof. by apply guarded_same. Qed.
Lemma guarded_io_read F (f : fs → result io_error A) : guarded inbox (F ∘ w_fs) (io_read f) (λ _, F ∘ w_fs).
Proof. by apply guarded_same. Qed.
Lemma guarded_gets F (f : World → A) : guarded inbox (F ∘ w_fs) (gets f) (λ _, F ∘ w_fs).
Proof. by apply guarded_same. Qed.
Lemma guarded_ret F (a : A) : guarded inbox (F ∘ w_fs) (mret a) (λ _, F ∘ w_fs).
Proof. by apply guarded_same. Qed.
Lemma guarded_fail F (e : NativeError) (Q : A → World → Prop) : guarded inbox (F ∘ w_fs) (fail e) Q.
Proof. by apply guarded_same. Qed.
End guarded.

Lemma guarded_store_put (inbox : path) (F : fs → Prop) f : guarded inbox (F ∘ w_fs) (store_put f) (λ _, F ∘ w_fs).
Proof. apply guarded_same. intros w Hw. unfold store_put. by destruct (f (w_store w) (w_now w)). Qed.

Lemma guarded_io_fs (inbox : path) (F F' : fs → Prop) (f : fs → result io_error fs) :
  (∀ t t', F t → f t = Ok t' → confined inbox t t' ∧ F' t') →
  guarded inbox (F ∘ w_fs) (io_fs f) (λ _, F' ∘ w_fs).
Proof.
  intros Hf w Hw. unfold io_fs. destruct (f (w_fs w)) as [t'|e|] eqn:Ht; cbn [fst snd].
  - destruct (Hf _ _ Hw Ht). by split.
  - by split.
  - by split.
Qed.

Lemma guarded_for_M {A} inbox P (f : A → M unit) l :
  (∀ a, guarded inbox P (f a) (λ _, P)) → guarded inbox P (for_M f l) (λ _, P).
Proof.
  intros Hf. induction l as [|a l IH]; cbn [for_M].
  - by apply guarded_same.
  - by eapply guarded_bind.
Qed.

(** ** Paths and the file system *)

(** UUIDs are not special names. *)
Class UuidPlain `{Uuid} := new_v4_plain : ∀ n, plain (new_v4 n).

Lemma confined_ready inbox t t' : confined inbox t t' → dir_ready t inbox → dir_ready t' inbox.
Proof.
  intros Hc [Hp Hd]. split; [done|]. intros q Hq Hpre. pose proof (Hd q Hq Hpre) as Hdir.
  destruct (Hc q) as [->|[Hn _]]; [|done|congruence].
  intros Hnd. apply prefix_length in Hpre, Hnd. unfold native_dir in Hnd. rewrite length_app in Hnd. simpl in Hnd. lia.
Qed.

Lemma confined_at inbox t q x : native_dir inbox `prefix_of` q → confined inbox t (partial_alter (λ _, x) q t).
Proof. intros Hq q' Hq'. left. apply lookup_partial_alter_ne. by intros ->. Qed.

Lemma confined_create_dir_all inbox t t' p :
  native_dir inbox `prefix_of` resolve p ∨ resolve p `prefix_of` native_dir inbox →
  create_dir_all t p = Ok t' → confined inbox t t'.
Proof.
  intros Hp Hmk q Hq. rewrite (create_dir_all_Ok _ _ _ Hmk). case_decide as Hd; [|by left].
  destruct Hd as [Hne Hpre]. pose proof (λ b, create_dir_all_no_file _ _ _ _ b Hmk Hne Hpre) as Hnf.
  destruct (t !! q) as [[b|]|]; [by destruct (Hnf b)|by left|]. right. split; [done|]. left.
  destruct Hp as [Hp|Hp]; [|by etrans]. destruct (prefix_weak_total _ _ _ Hpre Hp) as [|]; [done|done].
Qed.

Lemma confined_open_create inbox t t' p :
  native_dir inbox `prefix_of` resolve p → open_create t p = Ok t' → confined inbox t t'.
Proof.
  intros Hp. unfold open_create. destruct (t !! resolve p) as [[b|]|]; [by intros [= ->]|done|].
  intros Ho. inv_ok. subst t'. by apply confined_at.
Qed.

Lemma confined_write inbox t t' p off b :
  native_dir inbox `prefix_of` resolve p → write_all_at t p off b = Ok t' → confined inbox t t'.
Proof.
  intros Hp. unfold write_all_at. destruct (t !! resolve p) as [[old|]|]; [|done..].
  intros [= <-]. by apply confined_at.
Qed.

Lemma confined_rename inbox t t' src base :
  native_dir inbox `prefix_of` resolve src → Forall plain inbox → plain base → t !! (inbox ++ [base]) = None →
  rename t src (inbox ++ [base]) = Ok t' → confined inbox t t'.
Proof.
  intros Hsrc Hin Hb Hnone. unfold rename.
  rewrite (resolve_plain (inbox ++ [base])), Hnone by (apply Forall_app; auto).
  destruct (t !! resolve src) as [[c|]|]; [|done..]. intros Hr. inv_ok. subst t'. intros q Hq.
  destruct (decide (q = inbox ++ [base])) as [->|Hne]; [right; eauto|].
  left. rewrite lookup_insert_ne, lookup_delete_ne by (done || by intros <-). done.
Qed.

(** No condition. *)
Definition any_world : World → Prop := (λ _ : fs, True) ∘ w_fs.

(** ** The receiver *)
Section receiver_guard.
Context {B3 : Blake3} {U : Uuid} {UP : UuidPlain}.
Context (r : NativeTransferReceiver) (Hplain : Forall plain (rc_inbox_dir r)).
Abbreviation inbox := (rc_inbox_dir r).


Lemma guarded_any {A} (m : M A) : guarded inbox any_world m (λ _, any_world) ↔ ∀ w, confined inbox (w_fs w) (w_fs (m w).2).
Proof. split; [intros Hm w; by apply Hm|]. intros Hm w _. by split. Qed.

(** A path inside the receiving area. *)
Definition in_area (p : path) : Prop := native_dir inbox `prefix_of` resolve p.

Lemma safe_component_guard (F : fs → Prop) value :
  guarded inbox (F ∘ w_fs) (safe_component value) (λ c w, plain c ∧ F (w_fs w)).
Proof.
  apply guarded_same. intros w Hw. unfold safe_component, uuid. case_bool_decide as Hc; cbn; split; try done.
  - intros a [= <-]. split; [apply new_v4_plain|done].
  - intros a [= <-]. split; [by apply cleaned_plain|done].
Qed.

Lemma part_plain c : plain (c ++ str ".part").
Proof. split; intros Heq%(f_equal length); rewrite length_app in Heq; simpl in Heq; lia. Qed.

Lemma in_area_plain rest : Forall plain rest → in_area (native_dir inbox ++ rest).
Proof.
  intros Hr. unfold in_area. rewrite resolve_plain; [by apply prefix_app_r|].
  apply Forall_app. split; [|done]. apply Forall_app. split; [done|]. by apply (bool_decide_unpack _).
Qed.

Lemma incoming_dir_guard (F : fs → Prop) t :
  guarded inbox (F ∘ w_fs) (incoming_dir r t) (λ p w, (∃ c, plain c ∧ p = native_dir inbox ++ [c]) ∧ F (w_fs w)).
Proof.
  unfold incoming_dir. eapply guarded_bind; [apply safe_component_guard|]. intros c.
  apply guarded_same. intros w [Hc Hw]. split; [done|]. intros a [= <-]. split; [|done].
  exists c. split; [done|]. unfold native_dir. by rewrite <-app_assoc.
Qed.

Lemma incoming_file_path_guard (F : fs → Prop) t f :
  guarded inbox (F ∘ w_fs) (incoming_file_path r t f)
    (λ p w, (in_area p ∧ in_area (removelast p)) ∧ F (w_fs w)).
Proof.
  unfold incoming_file_path. eapply guarded_bind; [apply incoming_dir_guard|]. intros p.
  eapply guarded_bind.
  { eapply (guarded_weaken _ ((λ t, (∃ c, plain c ∧ p = native_dir inbox ++ [c]) ∧ F t) ∘ w_fs));
      [apply safe_component_guard|done|done]. }
  intros c. apply guarded_same. intros w (Hc & (d & Hd & ->) & Hw). split; [done|]. intros a [= <-].
  split; [|done]. rewrite removelast_last. split; [|apply in_area_plain; by constructor].
  rewrite <-app_assoc. apply in_area_plain. constructor; [done|]. constructor; [apply part_plain|done].
Qed.

Lemma accept_transfer_guard peer request : guarded inbox any_world (accept_transfer r peer request) (λ _, any_world).
Proof.
  unfold accept_transfer. unfold any_world.
  do 3 (eapply guarded_bind; [apply guarded_lift|intros ?]).
  eapply guarded_bind; [apply incoming_dir_guard|]. intros dir.
  eapply guarded_bind.
  { apply (guarded_io_fs _ (λ t, (∃ c, plain c ∧ dir = native_dir inbox ++ [c]) ∧ True) (λ _, True)).
    intros t t' [(c & Hc & ->) _] Hmk. split; [|done].
    eapply confined_create_dir_all; [|exact Hmk]. left. apply in_area_plain. by constructor. }
  intros ?. eapply guarded_bind; [apply guarded_store_get|]. intros st.
  eapply guarded_bind; [destruct st; [apply guarded_ret|apply guarded_store_put]|]. intros ?.
  eapply guarded_bind; [apply guarded_store_put|]. intros ?. apply guarded_ret.
Qed.

Lemma receive_chunk_guard t f off bytes h : guarded inbox any_world (receive_chunk_with_hash r t f off bytes h) (λ _, any_world).
Proof.
  unfold receive_chunk_with_hash. unfold any_world.
  do 2 (eapply guarded_bind; [apply guarded_lift|intros ?]).
  eapply guarded_bind; [apply incoming_file_path_guard|]. intros p.
  set (F := λ _ : fs, (in_area p ∧ in_area (removelast p)) ∧ True).
  change (guarded inbox (F ∘ w_fs) (_ ← io_fs (λ t, create_dir_all t (removelast p)); _ ← io_fs (λ t, open_create t p);
    _ ← lift (map_err Io (seek off)); _ ← io_fs (λ t, write_all_at t p off bytes);
    store_put (λ s now, record_verified_chunk s now t f off (zlen bytes) (blake3_hex bytes))) (λ _, any_world)).
  eapply guarded_bind.
  { apply (guarded_io_fs _ F F). intros x x' HF Hmk. split; [|done].
    eapply confined_create_dir_all; [|exact Hmk]. left. apply HF. }
  intros ?. eapply guarded_bind.
  { apply (guarded_io_fs _ F F). intros x x' HF Ho. split; [|done].
    eapply confined_open_create; [|exact Ho]. apply HF. }
  intros ?. eapply guarded_bind; [apply guarded_lift|]. intros ?. eapply guarded_bind.
  { apply (guarded_io_fs _ F (λ _, True)). intros x x' HF Hw. split; [|done].
    eapply confined_write; [|exact Hw]. apply HF. }
  intros ?. apply guarded_store_put.
Qed.

Lemma verify_file_guard (F : fs → Prop) t file : guarded inbox (F ∘ w_fs) (verify_file r t file) (λ _, F ∘ w_fs).
Proof.
  unfold verify_file. eapply guarded_bind.
  { eapply guarded_weaken; [apply (incoming_file_path_guard F)|done|]. intros p w [_ Hw].
    exact (Hw : (F ∘ w_fs) w). }
  intros p. eapply guarded_bind; [apply guarded_io_read|]. intros b.
  assert (Hfail : ∀ m, guarded inbox (F ∘ w_fs) (_ ← store_put (λ s now, set_state s now t Failed); fail (transfer_error m))
    (λ _ : unit, F ∘ w_fs)).
  { intros m. eapply guarded_bind; [apply guarded_store_put|]. intros ?. apply guarded_fail. }
  destruct (negb (zlen b =? mf_size file)); [apply Hfail|].
  destruct (mf_blake3 file); [|apply guarded_ret]. destruct (negb _); [apply Hfail|apply guarded_ret].
Qed.

Lemma publish_file_guard t file :
  let ready := λ w, dir_ready (w_fs w) inbox in guarded inbox ready (publish_file r t file) (λ _, ready).
Proof.
  intros ready. unfold publish_file. set (F := λ t : fs, dir_ready t inbox). change ready with (F ∘ w_fs).
  eapply guarded_bind; [apply (incoming_file_path_guard F)|]. intros p.
  set (G := λ target (t : fs), in_area p ∧ F t ∧ available_target_path t inbox (mf_file_name file) = Ok target).
  eapply (guarded_bind _ _ _ _ (λ target, G target ∘ w_fs)).
  { apply guarded_same. intros w [[Hp _] Hw]. split; [done|]. intros target Ht. done. }
  intros target. apply guarded_io_fs. intros x x' (Hp & Hx & Hav) Hren.
  destruct (available_target_path_Ok _ _ _ _ Hx Hav) as (base & -> & Hb & _ & Hnone).
  pose proof (confined_rename _ _ _ _ _ Hp Hplain Hb Hnone Hren) as Hc. split; [done|].
  by eapply confined_ready.
Qed.

Lemma finish_transfer_guard t : guarded inbox any_world (finish_transfer r t) (λ _, any_world).
Proof.
  unfold finish_transfer. unfold any_world.
  eapply guarded_bind; [apply guarded_gets|]. intros complete. destruct (negb complete).
  { eapply guarded_bind; [apply guarded_store_put|]. intros ?. apply guarded_fail. }
  eapply guarded_bind; [apply guarded_gets|]. intros fl.
  eapply guarded_bind; [apply guarded_for_M; intros; apply verify_file_guard|]. intros ?.
  eapply guarded_bind.
  { apply (guarded_io_fs _ (λ _, True) (λ t, dir_ready t inbox)). intros x x' _ Hmk. split.
    - eapply confined_create_dir_all; [right|exact Hmk]. rewrite resolve_plain by done.
      unfold native_dir. by apply prefix_app_r.
    - by apply (create_inbox_ready _ _ _ Hplain Hmk). }
  intros ?. eapply guarded_bind; [apply guarded_for_M; intros; apply publish_file_guard|]. intros ?.
  eapply guarded_weaken; [apply (guarded_store_put _ (λ _, True))|done|done].
Qed.
End receiver_guard.

(** ** The listener *)

(** The trust database stays and the disk changes only as allowed. *)
Definition daemon_confined (inbox : path) (d d' : Daemon) : Prop :=
  d_trust d' = d_trust d ∧ confined inbox (w_fs (d_world d)) (w_fs (d_world d')).

#[export] Instance daemon_confined_preorder inbox : PreOrder (daemon_confined inbox).
Proof.
  split; [by split|]. intros d1 d2 d3 [Ht Hc] [Ht' Hc']. split; [congruence|]. by etrans.
Qed.

Section listener.
Context `{!Json Hello, !Json HelloAck, !Json RequestTransfer, !Json AcceptTransfer,
          !Json ChunkAck, !Json CancelTransfer, !Json DoneTransfer, !Json ResumeRequest}.
Context {B3 : Blake3} {U : Uuid} {UP : UuidPlain} `{CryptoLaws}.
Context (binding nonce : bytes) (alias : rstring) (pubkey : bytes) (inbox : path) (Hplain : Forall plain inbox).

Lemma keeps_on_world {A} (m : M A) :
  guarded inbox any_world m (λ _, any_world) → keeps (daemon_confined inbox) (effect OfNative (on_world m)).
Proof.
  intros Hm. cbn [effect keeps]. split; [|done]. intros d. destruct (Hm (d_world d)) as [Hc _]; [done|].
  unfold on_world. by destruct (m (d_world d)).
Qed.

Lemma keeps_send {W} (R : relation W) m : keeps R (send_control m).
Proof. apply keeps_write. Qed.

Lemma receive_native_transfer_keeps peer request :
  keeps (daemon_confined inbox) (receive_native_transfer inbox peer request).
Proof.
  unfold receive_native_transfer. set (r := trusted inbox (pi_fingerprint peer)).
  assert (Hin : Forall plain (rc_inbox_dir r)) by done.
  apply keeps_net_bind; [done|]. intros _.
  apply keeps_net_bind; [apply keeps_context, keeps_on_world; by apply (accept_transfer_guard r)|]. intros accepted.
  apply keeps_net_bind; [apply keeps_context, keeps_send|]. intros _.
  apply keeps_net_bind.
  { apply keeps_repeat, keeps_net_bind; [by apply keeps_context|]. intros chunk.
    apply keeps_context, keeps_on_world. by apply (receive_chunk_guard r). }
  intros _. apply keeps_net_bind; [by apply keeps_context|]. intros m.
  apply keeps_net_bind; [destruct m; try done; by case_bool_decide|]. intros done_.
  apply keeps_net_bind; [apply keeps_context, keeps_on_world; by apply (finish_transfer_guard r)|]. intros _.
  apply keeps_context, keeps_send.
Qed.

Lemma ensure_trusted_keeps (R : relation Daemon) `{!Reflexive R} peer : keeps R (ensure_native_peer_trusted peer).
Proof.
  unfold ensure_native_peer_trusted. apply keeps_net_bind; [by apply keeps_context|]. intros fp.
  apply keeps_net_bind; [cbn; by split|]. intros [p|]; [by destruct (pr_policy p)|done].
Qed.

Lemma handler_keeps : keeps (daemon_confined inbox) (handle_native_connection binding nonce alias pubkey inbox).
Proof.
  unfold handle_native_connection.
  apply keeps_net_bind; [by apply keeps_context|]. intros [hello| | | | | | |]; try done.
  apply keeps_net_bind; [by apply keeps_context|]. intros _.
  apply keeps_net_bind; [apply ensure_trusted_keeps, _|]. intros _.
  apply keeps_net_bind; [apply keeps_context, keeps_send|]. intros _.
  apply keeps_net_bind; [by apply keeps_context|]. intros [| |request| | | | |]; try done.
  apply receive_native_transfer_keeps.
Qed.

(** Whatever a peer sends over a native connection and whenever it
    stops, the trust database stays as it is, no file outside the receiving
    area of the inbox is changed or removed, and new entries are only those of
    that area, the directories leading to it, and direct children of the
    inbox. *)
Theorem native_listener_confined d p d' out :
  rtc reacts (handle_native_connection binding nonce alias pubkey inbox, d, []) (p, d', out) →
  daemon_confined inbox d d'.
Proof.
  apply reacts_keeps; [apply _|]. apply handler_keeps.
Qed.


(** *** What the listener does before it trusts *)

(** No effect on the machine and nothing written. *)
Fixpoint silent {W A} (p : prog W A) : Prop :=
  match p with
  | Ret _ => True
  | Do f k => (∀ w, (f w).2 = w) ∧ ∀ x, silent (k x)
  | Write _ _ => False
  | ReadControl k => ∀ r, silent (k r)
  | ReadChunk k => ∀ r, silent (k r)
  end.

Lemma silent_bind {W A B} (m : prog W A) (k : A → prog W B) :
  silent m → (∀ a, silent (k a)) → silent (prog_bind m k).
Proof.
  intros Hm Hk. induction m as [a|X f c IH|bs c IH|c IH|c IH]; cbn [silent prog_bind] in *; [done| |done|auto..].
  destruct Hm. split; auto.
Qed.

Lemma silent_net_bind {W A B} (m : net W A) (k : A → net W B) :
  silent m → (∀ a, silent (k a)) → silent (m ≫= k).
Proof. intros Hm Hk. apply silent_bind; [done|]. by intros []. Qed.

Lemma silent_context {W A} text (m : net W A) : silent m → silent (context text m).
Proof. intros Hm. by apply silent_bind. Qed.

Lemma silent_reacts {W A} (p p' : prog W A) w w' out out' :
  rtc reacts (p, w, out) (p', w', out') → silent p → w' = w ∧ out' = out.
Proof.
  intros Hr Hp. remember (p, w, out) as s eqn:Hs. remember (p', w', out') as s' eqn:Hs'.
  revert p w out Hs Hp. induction Hr as [s|s s1 s2 Hstep Hr IH]; intros p w out -> Hp.
  - by injection Hs' as -> -> ->.
  - apply reacts_inv in Hstep. destruct p as [a|X f k|bs k|k|k]; cbn [silent] in Hp; try done.
    + destruct Hp as [Hf Hk]. destruct (IH Hs' _ _ _ Hstep (Hk _)) as [-> ->]. by rewrite Hf.
    + destruct Hstep as [r Hstep]. by apply (IH Hs' _ _ _ Hstep).
    + destruct Hstep as [r Hstep]. by apply (IH Hs' _ _ _ Hstep).
Qed.

Lemma ensure_trusted_silent peer : silent (ensure_native_peer_trusted peer).
Proof.
  unfold ensure_native_peer_trusted. apply silent_net_bind; [by apply silent_context|]. intros fp.
  apply silent_net_bind; [cbn; by split|]. intros [p|]; [by destruct (pr_policy p)|done].
Qed.

(** After a silent part, the state is as it was. *)
Ltac quiet H :=
  let H' := fresh in
  pose proof H as H'; apply silent_reacts in H' as [-> ->];
  [|first [by apply silent_context | apply ensure_trusted_silent]].

Lemma reacts_pure {W A} (r : result anyhow A) text (a : A) (w w' : W) out out' :
  rtc reacts (context text (pure r), w, out) (Ret (Ok a), w', out') → r = Ok a.
Proof. intros Hr%reacts_ret. destruct r; cbn in Hr; congruence. Qed.

(** The check lets a peer pass only if its key is trusted with automatic
    acceptance. *)
Lemma ensure_trusted_passes d d' out out' (pk : bytes) a e :
  rtc reacts (ensure_native_peer_trusted (mkPeerInfo a (show_fingerprint (from_pubkey pk)) pk 0 None e), d, out)
    (Ret (Ok tt), d', out') → auto_accepts d pk.
Proof.
  intros Hr. unfold ensure_native_peer_trusted in Hr. cbn [pi_fingerprint] in Hr.
  apply reacts_net_returns in Hr as (fp & d1 & o1 & Hp & Hr).
  quiet Hp.
  apply reacts_pure in Hp. rewrite parse_show_fingerprint in Hp by apply from_pubkey_ok.
  injection Hp as <-.
  apply reacts_net_returns in Hr as (found & d1 & o1 & Hg & Hr).
  apply rtc_inv in Hg as [|(s & Hs & Hg)]; [done|]. apply reacts_inv in Hs. cbn in Hs. subst s.
  apply reacts_ret in Hg. destruct (get (d_trust d) (from_pubkey pk)) as [o| |] eqn:Hget; [|done..].
  injection Hg as -> -> ->. cbv beta in Hr.
  destruct o as [peer|]; [|by apply reacts_ret in Hr].
  exists peer. split; [done|]. by destruct (pr_policy peer); [|apply reacts_ret in Hr..].
Qed.

(** Whatever a peer sends over a native connection, the daemon changes
    nothing and writes nothing unless the peer has sent a hello that proves,
    for this session, a key the trust database accepts automatically. *)
Theorem native_listener_needs_trust d p d' out :
  rtc reacts (handle_native_connection binding nonce alias pubkey inbox, d, []) (p, d', out) →
  (d' = d ∧ out = []) ∨
  ∃ hello, authenticate_hello hello binding = Ok tt ∧ auto_accepts d (hello_pubkey hello).
Proof.
  unfold handle_native_connection.
  intros [(m' & Hm)|(message & d1 & o1 & Hm & Hr)]%reacts_net_bind;
    quiet Hm; [by left|].
  destruct message as [hello| | | | | | |]; try (apply reacts_ret in Hr; injection Hr as -> -> ->; by left).
  apply reacts_net_bind in Hr as [(m' & Ha)|([] & d1 & o1 & Ha & Hr)];
    quiet Ha; [by left|].
  apply reacts_pure in Ha.
  apply reacts_net_bind in Hr as [(m' & Ht)|([] & d1 & o1 & Ht & Hr)];
    quiet Ht; [by left|].
  right. exists hello. split; [|by eapply ensure_trusted_passes].
  by destruct (authenticate_hello hello binding) as [[]| |].
Qed.
End listener.
