(* ===== verification/NativeListener.v ===== *)
(** * The native accept loop with many connections

    Model of [native_accept_loop] of crates/daemon/src/main.rs: each accepted
    connection runs [handle_native_connection] in a task of its own on the
    one daemon, their steps interleave in any order, and the loop ends at the
    shutdown or with the endpoint while the tasks go on.  A connection comes
    with the channel binding of its session and the nonce drawn for it; what
    its peer sends is anything, and the messages its handler has read are
    kept. *)

From stdpp Require Import prelude gmap strings relations.
From Stdlib Require Import ZArith Lia.
From S2P Require Import Prelude RustStr Errors Chunk Dto Framing Manifest Fs ChunkFrame Transfer Receiver Identity TrustStore Conversation NativeNet NativeGuard.

Local Open Scope Z_scope.

Section listener.
Context `{!Json Hello, !Json HelloAck, !Json RequestTransfer, !Json AcceptTransfer,
          !Json ChunkAck, !Json CancelTransfer, !Json DoneTransfer, !Json ResumeRequest}.
Context {B3 : Blake3} {U : Uuid} {UP : UuidPlain} `{CryptoLaws}.
Context (alias : rstring) (pubkey : bytes) (inbox : path).

Record NativeConn := mkNativeConn {
  nc_binding : bytes; nc_prog : net Daemon unit; nc_out : bytes; nc_heard : list (result NativeError ControlMessage) }.

(** A connection moves, on the daemon as it is then. *)
Inductive conn_step : NativeConn * Daemon → NativeConn * Daemon → Prop :=
| conn_does b X (f : Daemon → X * Daemon) k out heard d :
    conn_step (mkNativeConn b (Do f k) out heard, d) (mkNativeConn b (k (f d).1) out heard, (f d).2)
| conn_writes b bs k out heard d :
    conn_step (mkNativeConn b (Write bs k) out heard, d) (mkNativeConn b k (out ++ bs) heard, d)
| conn_hears b k r out heard d :
    conn_step (mkNativeConn b (ReadControl k) out heard, d) (mkNativeConn b (k r) out (heard ++ [r]), d)
| conn_takes_chunk b k r out heard d :
    conn_step (mkNativeConn b (ReadChunk k) out heard, d) (mkNativeConn b (k r) out heard, d).

Record NativeListener := mkListener { nl_daemon : Daemon; nl_conns : list NativeConn; nl_ended : bool }.

(** A turn of the loop, or a move of one of the tasks it has spawned. *)
Inductive native_accept_loop : NativeListener → NativeListener → Prop :=
| loop_accepts d conns binding nonce :
    native_accept_loop (mkListener d conns false)
      (mkListener d (conns ++ [mkNativeConn binding (handle_native_connection binding nonce alias pubkey inbox) [] []]) false)
| loop_returns d conns : native_accept_loop (mkListener d conns false) (mkListener d conns true)
| loop_task d conns ended i c c' d' :
    conns !! i = Some c → conn_step (c, d) (c', d') →
    native_accept_loop (mkListener d conns ended) (mkListener d' (<[i := c']> conns) ended).

Definition start_listener (d : Daemon) : NativeListener := mkListener d [] false.

(** ** Who may do anything *)

(** The first message of the peer proves, for its session, a key that the
    trust database accepts automatically. *)
Definition proved (d : Daemon) (binding : bytes) (heard : list (result NativeError ControlMessage)) : Prop :=
  ∃ hello rest, heard = Ok (CHello hello) :: rest ∧ authenticate_hello hello binding = Ok tt ∧
    auto_accepts d (hello_pubkey hello).

(** A program that neither writes nor changes anything before that. *)
Fixpoint waits {A} (d0 : Daemon) (binding : bytes) (heard : list (result NativeError ControlMessage)) (p : prog Daemon A) : Prop :=
  proved d0 binding heard ∨
  match p with
  | Ret _ => True
  | Do f k => (∀ d, (f d).2 = d) ∧ ∀ d, d_trust d = d_trust d0 → waits d0 binding heard (k (f d).1)
  | Write _ _ => False
  | ReadControl k => ∀ r, waits d0 binding (heard ++ [r]) (k r)
  | ReadChunk k => ∀ r, waits d0 binding heard (k r)
  end.

Lemma waits_proved {A} d0 binding heard (p : prog Daemon A) : proved d0 binding heard → waits d0 binding heard p.
Proof. intros Hp. destruct p; by left. Qed.

Lemma waits_recv {A} d0 binding heard text (k : ControlMessage → net Daemon A) :
  (∀ m, waits d0 binding (heard ++ [Ok m]) (k m)) → waits d0 binding heard (context text recv_control ≫= k).
Proof. intros Hk. right. intros [m|e|]; [apply Hk|by right..]. Qed.

Lemma waits_pure {A B} d0 binding heard text (r : result anyhow A) (k : A → net Daemon B) :
  (∀ a, r = Ok a → waits d0 binding heard (k a)) → waits d0 binding heard (context text (pure r) ≫= k).
Proof. intros Hk. destruct r as [a|e|]; [by apply (Hk a)|by right..]. Qed.

(** Past the check of the trust database only a trusted key gets. *)
Lemma waits_trust {A} d0 binding heard a (pk : bytes) e (k : unit → net Daemon A) :
  (auto_accepts d0 pk → proved d0 binding heard) →
  waits d0 binding heard (ensure_native_peer_trusted (mkPeerInfo a (show_fingerprint (from_pubkey pk)) pk 0 None e) ≫= k).
Proof.
  intros Hp. unfold ensure_native_peer_trusted, context, pure, effect. cbn [pi_fingerprint prog_bind].
  rewrite parse_show_fingerprint by apply from_pubkey_ok. cbn [map_err].
  unfold mbind, net_bind. cbn [prog_bind]. right. split; [done|]. intros d Hd. cbn [fst]. rewrite Hd.
  destruct (get (d_trust d0) (from_pubkey pk)) as [[peer|]|err|] eqn:Hget; cbn [map_err prog_bind]; try (by right).
  destruct (pr_policy peer) eqn:Hpol; try (by right). apply waits_proved, Hp. by exists peer.
Qed.

Lemma handler_waits d0 binding nonce : waits d0 binding [] (handle_native_connection binding nonce alias pubkey inbox).
Proof.
  unfold handle_native_connection. apply waits_recv. intros [hello| | | | | | |]; try (by right).
  apply waits_pure. intros [] Ha. apply waits_trust. intros Ht. exists hello, []. split_and!; [done| |done].
  by destruct (authenticate_hello hello binding) as [[]| |].
Qed.

(** ** The loop *)

Context (Hplain : Forall plain inbox).

(** What holds of every connection. *)
Definition conn_ok (d0 : Daemon) (c : NativeConn) : Prop :=
  keeps (daemon_confined inbox) (nc_prog c) ∧
  (proved d0 (nc_binding c) (nc_heard c) ∨ nc_out c = [] ∧ waits d0 (nc_binding c) (nc_heard c) (nc_prog c)).

Lemma conn_step_ok d0 c d c' d' :
  conn_step (c, d) (c', d') → d_trust d = d_trust d0 → conn_ok d0 c →
  conn_ok d0 c' ∧ daemon_confined inbox d d' ∧ (proved d0 (nc_binding c) (nc_heard c) ∨ d' = d).
Proof.
  intros Hstep Ht [Hk Hw].
  assert (Hmono : ∀ b heard r, proved d0 b heard → proved d0 b (heard ++ [r])).
  { intros b heard r (hello & rest & -> & ?). by exists hello, (rest ++ [r]). }
  inversion Hstep; subst; cbn [nc_prog nc_binding nc_heard nc_out keeps waits] in *; unfold conn_ok; cbn [nc_prog nc_binding nc_heard nc_out].
  - destruct Hk as [Hf Hk]. split; [split; [apply Hk|]|split; [apply Hf|]].
    + destruct Hw as [?|[? [?|[_ Hw]]]]; auto.
    + destruct Hw as [?|[? [?|[Hw _]]]]; auto.
  - split; [split; [done|]|split; [done|by right]]. destruct Hw as [?|[_ [?|[]]]]; auto.
  - split; [split; [apply Hk|]|split; [done|by right]]. destruct Hw as [?|[? [?|Hw]]]; auto.
  - split; [split; [apply Hk|]|split; [done|by right]]. destruct Hw as [?|[? [?|Hw]]]; auto.
Qed.

Lemma listener_inv d0 l :
  rtc native_accept_loop (start_listener d0) l → daemon_confined inbox d0 (nl_daemon l) ∧ Forall (conn_ok d0) (nl_conns l).
Proof.
  apply (rtc_ind_r (λ l, daemon_confined inbox d0 (nl_daemon l) ∧ Forall (conn_ok d0) (nl_conns l))); [by split|].
  intros l1 l2 _ Hstep [Hd Hc]. destruct Hstep as [d conns binding nonce|d conns|d conns ended i c c' d' Hi Hstep]; cbn in *.
  - split; [done|]. apply Forall_app. split; [done|]. apply Forall_singleton. split; [by apply handler_keeps|].
    right. split; [done|]. apply handler_waits.
  - done.
  - assert (Hci : conn_ok d0 c) by (rewrite Forall_lookup in Hc; eauto).
    destruct (conn_step_ok d0 c d c' d' Hstep) as (Hc' & Hd' & _); [apply Hd|done|].
    split; [by etrans|]. by apply Forall_insert.
Qed.

(** A run of one handler is one of the loop in which only it moves. *)
Lemma lift_reacts p d out p' d' out' :
  rtc reacts (p, d, out) (p', d', out') → ∀ conns i b heard ended, conns !! i = Some (mkNativeConn b p out heard) →
  ∃ heard', rtc native_accept_loop (mkListener d conns ended)
              (mkListener d' (<[i := mkNativeConn b p' out' heard']> conns) ended).
Proof.
  intros Hr. remember (p, d, out) as s eqn:Hs. remember (p', d', out') as s' eqn:Hs'. revert p d out Hs.
  induction Hr as [s|s s1 s2 Hstep Hr IH]; intros p d out ->  conns i b heard ended Hi.
  { injection Hs' as -> -> ->. exists heard. by rewrite list_insert_id. }
  assert (Hi' : ∀ c, <[i := c]> conns !! i = Some c) by (intros c; apply list_lookup_insert_eq; by eapply lookup_lt_Some).
  assert (Hgo : ∀ p1 d1 out1 heard1, s1 = (p1, d1, out1) →
    conn_step (mkNativeConn b p out heard, d) (mkNativeConn b p1 out1 heard1, d1) →
    ∃ heard', rtc native_accept_loop (mkListener d conns ended) (mkListener d' (<[i := mkNativeConn b p' out' heard']> conns) ended)).
  { intros p1 d1 out1 heard1 Hs1 Hc. destruct (IH Hs' _ _ _ Hs1 _ i b heard1 ended (Hi' _)) as [heard' Hr'].
    exists heard'. rewrite list_insert_insert_eq in Hr'. eapply rtc_l; [by eapply loop_task|exact Hr']. }
  inversion Hstep; subst; eapply Hgo; try reflexivity; constructor.
Qed.

(** C3: Whatever the peers of any number of connections send, and however
    their handlers interleave, a handler that writes or changes anything has
    read, as the first message of its peer, a hello that proves for this very
    session a key the trust database accepts automatically; and all of them
    together leave the trust database and every file outside the receiving
    area as they are. *)
Theorem listener_acts_on_proof d0 l l' :
  rtc native_accept_loop (start_listener d0) l → native_accept_loop l l' →
  daemon_confined inbox d0 (nl_daemon l') ∧
  (∀ c, c ∈ nl_conns l' → nc_out c ≠ [] → proved d0 (nc_binding c) (nc_heard c)) ∧
  (nl_daemon l' ≠ nl_daemon l → ∃ i c, nl_conns l !! i = Some c ∧ proved d0 (nc_binding c) (nc_heard c) ∧
     ∀ j, j ≠ i → nl_conns l' !! j = nl_conns l !! j).
Proof.
  intros Hr Hstep. pose proof (listener_inv _ _ (rtc_r _ _ _ Hr Hstep)) as [Hd' Hc']. split; [done|]. split.
  - intros c Hc Hout. rewrite Forall_forall in Hc'. destruct (Hc' c Hc) as [_ [?|[? _]]]; done.
  - apply listener_inv in Hr as [Hd Hc]. destruct Hstep as [d conns binding nonce|d conns|d conns ended i c c' d' Hi Hstep]; cbn in *; try done.
    intros Hne. assert (Hci : conn_ok d0 c) by (rewrite Forall_lookup in Hc; eauto).
    destruct (conn_step_ok d0 c d c' d' Hstep) as (_ & _ & [Hp|?]); [apply Hd|done| |done].
    exists i, c. split_and!; [done..|]. intros j Hj. by apply list_lookup_insert_ne.
Qed.
End listener.
