(* ===== verification/NativeLan.v ===== *)
(** * Native peers of the local network

    Model of crates/daemon/src/native_lan.rs (discovering peers, choosing one
    by name, trusting it) and of what the daemon announces
    ([native_peer_info] and [mdns_hostname] of crates/daemon/src/main.rs).

    The outcome of starting to browse is an argument: an error, or the events
    the browser's channel will yield (Discovery.v). *)

From stdpp Require Import prelude gmap strings.
From Stdlib Require Import ZArith Lia.
From S2P Require Import Prelude RustStr Errors Dto Fs Inet Text Identity TrustStore Discovery Conversation NativeNet.

Local Open Scope Z_scope.

Definition DEFAULT_ALIAS : rstring := str "night-bridge".

Record NativeLanPeer := mkLan {
  nl_alias : rstring; nl_address : IpAddr; nl_port : Z; nl_fingerprint : rstring; nl_pubkey : bytes;
  nl_native_certificate_fingerprint : option rstring; nl_extensions : list rstring }.

#[export] Instance NativeLanPeer_eq_dec : EqDecision NativeLanPeer.
Proof. solve_decision. Defined.

(** The host name a daemon announces. *)
Definition mdns_hostname (alias : rstring) : rstring :=
  let trimmed := trim alias in
  let base :=
    match strip_suffix (str ".local.") trimmed with
    | Some base => base
    | None => match strip_suffix (str ".local") trimmed with Some base => base | None => trimmed end
    end in
  let host := trim_matches 45
    ((λ ch, if is_ascii_alphanumeric ch || (ch =? 45) then ch else 45) <$> trim base) in
  let host := if bool_decide (host = []) then DEFAULT_ALIAS else host in
  host ++ str ".local.".

Section native_lan.
Context `{HashOrder} `{CryptoSuite} `{Lowercase} (error_text : CoreError → rstring).

(** What a daemon announces of itself. *)
Definition native_peer_info (alias : rstring) (identity : bytes) (quic_port : Z)
    (native_certificate_fingerprint : rstring) : NativePeerInfo :=
  mkPeerInfo alias (show_fingerprint (from_pubkey (public_bytes identity))) (public_bytes identity) quic_port
    (Some native_certificate_fingerprint) default_extensions.

Definition normalize_peer_ref (value : rstring) : rstring :=
  filter (λ ch, ch ≠ 58 ∧ ch ≠ 45) value ≫= char_to_lowercase.

Definition map_resolved_peer (peer : ResolvedNativePeer) : result anyhow (option NativeLanPeer) :=
  let info := rp_info peer in
  if pi_quic_port info =? 0 then Ok None
  else
    match validate_peer_info_fingerprint error_text info with
    | Panic => Panic
    | Err _ => Ok None
    | Ok _ => Ok (Some (mkLan (pi_alias info) (rp_address peer) (pi_quic_port info) (pi_fingerprint info)
                          (pi_pubkey info) (pi_native_certificate_fingerprint info) (pi_extensions info)))
    end.

(** Body of the loop over the resolved peers. *)
Definition discover_insert (local_fingerprint : rstring) (peers : gmap rstring NativeLanPeer)
    (peer : ResolvedNativePeer) : result anyhow (gmap rstring NativeLanPeer) :=
  o ← map_resolved_peer peer;
  Ok (match o with
      | Some peer =>
        if bool_decide (normalize_peer_ref (nl_fingerprint peer) = local_fingerprint) then peers
        else <[nl_fingerprint peer := peer]> peers
      | None => peers
      end).

(** The closure of [spawn_blocking]; a panic inside it is an error of the join. *)
Definition discover (deadline : Z) (browse : result NativeError (list (Z * ServiceEvent)))
    (local_fingerprint : rstring) : result anyhow (list NativeLanPeer) :=
  let local_fingerprint := normalize_peer_ref local_fingerprint in
  let task :=
    events ← map_err (λ e, Context "starting native LAN discovery" (OfNative e)) browse;
    resolved ← map_err (λ e, Context "discovering native LAN peers" (OfNative e)) (recv_resolved_all deadline events);
    peers ← for_each (discover_insert local_fingerprint) ∅ resolved;
    Ok (snd <$> hash_iter peers) in
  match task with Panic => Err (bail "native LAN discovery task panicked") | r => r end.

Definition trust_discovered_peer (store : TrustStore) (now : Z) (peer : NativeLanPeer) (label : option rstring)
    (policy : PeerPolicy) : result anyhow (Peer * TrustStore) :=
  cert ← ok_or (nl_native_certificate_fingerprint peer)
    (Msg (str "native peer " ++ nl_alias peer ++
          str " did not advertise certificate metadata; restart it with alpha native discovery"));
  let label := default (nl_alias peer) label in
  map_err (λ e, Context "trusting native LAN peer" (OfCore e))
    (trust_with_native_certificate store now (nl_pubkey peer) label policy cert).

(** Whether [resolve_peer_ref] takes the peer for the one asked for. *)
Definition peer_matches (peer_ref : rstring) (peer : NativeLanPeer) : bool :=
  bool_decide (normalize_peer_ref (nl_fingerprint peer) = normalize_peer_ref peer_ref)
  || eq_ignore_ascii_case (nl_alias peer) peer_ref.

Definition resolve_peer_ref (peers : list NativeLanPeer) (peer_ref : rstring) : result anyhow NativeLanPeer :=
  if bool_decide (normalize_peer_ref peer_ref = []) then Err (bail "native peer is required")
  else
    match filter (λ peer, peer_matches peer_ref peer = true) peers with
    | [] => Err (Msg (str "native LAN peer " ++ peer_ref ++ str " was not discovered"))
    | [peer] => Ok peer
    | _ => Err (Msg (str "native LAN peer " ++ peer_ref ++ str " is ambiguous; use its fingerprint"))
    end.
End native_lan.

(** ** Fingerprints of ASCII text do not panic *)

Lemma u8_from_hex_no_panic s : u8_from_hex s ≠ Panic.
Proof.
  assert (Hp : ∀ ds : rstring, (v ← for_each (λ acc c,
      d ← ok_or (to_digit 16 c) (CoreCrypto (str "invalid digit found in string")); Ok (acc * 16 + d)) 0 ds;
    _ ← ensure (v <? 256) (CoreCrypto (str "number too large to fit in target type")); Ok v) ≠ Panic).
  { intros ds. apply bind_no_panic; [|intros v _; apply bind_no_panic; [apply ensure_no_panic|done]].
    generalize 0. induction ds as [|d ds IH]; intros acc; cbn [for_each]; [done|].
    destruct (to_digit 16 d); cbn; [apply IH|done]. }
  unfold u8_from_hex. repeat case_match; try done; apply Hp.
Qed.

Lemma parse_bytes_no_panic n index s :
  Forall (λ c, is_ascii c = true) s → 0 ≤ index → (index + Z.of_nat n) * 2 ≤ zlen s → parse_bytes n index s ≠ Panic.
Proof.
  intros Ha. revert index. induction n as [|n IH]; intros index Hi Hl; cbn [parse_bytes]; [done|].
  apply bind_no_panic.
  - unfold str_slice. rewrite str_split_ascii by (done || lia).
    rewrite str_split_ascii; [done|by apply Forall_drop|]. unfold zlen. rewrite length_drop. unfold zlen in Hl. lia.
  - intros x _. apply bind_no_panic; [apply u8_from_hex_no_panic|]. intros b _.
    apply bind_no_panic; [apply IH; lia|done].
Qed.

Lemma parse_fingerprint_no_panic s : Forall (λ c, is_ascii c = true) s → parse_fingerprint s ≠ Panic.
Proof.
  intros Hs. unfold parse_fingerprint. set (cleaned := filter _ s).
  assert (Ha : Forall (λ c, is_ascii c = true) cleaned) 
    by (rewrite Forall_forall in Hs |- *; intros c [_ Hc]%list_elem_of_filter; by apply Hs).
  destruct (Z.eqb_spec (str_len cleaned) 16) as [Hl|]; [|done].
  apply (parse_bytes_no_panic 8 0); [done|lia|]. unfold str_len in Hl. rewrite utf8_encode_ascii in Hl by done. lia.
Qed.

(** The two crates validate certificate fingerprints alike. *)
Lemma validate_core_certificate c : TrustStore.validate_certificate_fingerprint c = Ok tt ↔ certificate_ok c.
Proof.
  rewrite <-validate_certificate_Ok. unfold TrustStore.validate_certificate_fingerprint, validate_certificate_fingerprint.
  by rewrite !ensure_Ok_inv.
Qed.

(** ** Discovery *)

Section discovery_correct.
Context `{HashOrderLaws} `{CryptoLaws} `{LowercaseLaws} (error_text : CoreError → rstring).
Abbreviation map_resolved_peer := (map_resolved_peer error_text).
Abbreviation discover := (discover error_text).

Definition lan_peer_of (peer : ResolvedNativePeer) : NativeLanPeer :=
  let info := rp_info peer in
  mkLan (pi_alias info) (rp_address peer) (pi_quic_port info) (pi_fingerprint info)
    (pi_pubkey info) (pi_native_certificate_fingerprint info) (pi_extensions info).

(** The advertised fingerprint is that of the advertised key. *)
Definition honest (info : NativePeerInfo) : Prop :=
  parse_fingerprint (pi_fingerprint info) = Ok (from_pubkey (pi_pubkey info)).

#[export] Instance honest_dec info : Decision (honest info).
Proof. unfold honest. apply _. Defined.

Lemma txt_value_ascii s : txt_value s → trim s = s → Forall (λ c, is_ascii c = true) s.
Proof. by intros (_ & Ha & _) <-. Qed.

Lemma map_resolved_peer_eq peer :
  peer_info_ok (rp_info peer) → advertised (rp_info peer) = rp_info peer →
  map_resolved_peer peer = Ok (if decide (honest (rp_info peer)) then Some (lan_peer_of peer) else None).
Proof.
  intros Hok Hadv. unfold NativeLan.map_resolved_peer, validate_peer_info_fingerprint.
  destruct (Z.eqb_spec (pi_quic_port (rp_info peer)) 0); [pose proof (ok_port _ Hok); lia|].
  assert (Hf : trim (pi_fingerprint (rp_info peer)) = pi_fingerprint (rp_info peer)) by (rewrite <-Hadv at 2; done).
  pose proof (parse_fingerprint_no_panic _ (txt_value_ascii _ (ok_fingerprint _ Hok) Hf)) as Hnp.
  destruct (decide (honest (rp_info peer))) as [Hh|Hh]; unfold honest in Hh.
  - rewrite Hh. cbn [map_err mbind result_bind]. by rewrite bool_decide_true.
  - destruct (parse_fingerprint _) as [fp|e|]; cbn [map_err mbind result_bind]; [|done..].
    rewrite bool_decide_false by congruence. done.
Qed.

(** The peers a run of the loop keeps: honest, and not the daemon itself. *)
Definition kept (local_fingerprint : rstring) (peer : ResolvedNativePeer) : Prop :=
  honest (rp_info peer) ∧ normalize_peer_ref (pi_fingerprint (rp_info peer)) ≠ local_fingerprint.

#[export] Instance kept_dec local peer : Decision (kept local peer).
Proof. unfold kept. apply _. Defined.

Lemma discover_insert_eq local m p :
  peer_info_ok (rp_info p) → advertised (rp_info p) = rp_info p →
  discover_insert error_text local m p =
    Ok (if decide (kept local p) then <[pi_fingerprint (rp_info p) := lan_peer_of p]> m else m).
Proof.
  intros Hok Hadv. unfold discover_insert. rewrite map_resolved_peer_eq by done. cbn [mbind result_bind].
  destruct (decide (honest (rp_info p))) as [Hh|Hh]; [|by rewrite decide_False by (unfold kept; tauto)].
  cbn [nl_fingerprint lan_peer_of]. case_bool_decide as Hn.
  - by rewrite decide_False by (unfold kept; tauto).
  - by rewrite decide_True.
Qed.

Lemma discover_loop local resolved :
  Forall (λ p, peer_info_ok (rp_info p) ∧ advertised (rp_info p) = rp_info p) resolved →
  for_each (discover_insert error_text local) ∅ resolved =
    Ok (collect_map ((λ p, (pi_fingerprint (rp_info p), lan_peer_of p)) <$> filter (kept local) resolved)).
Proof.
  unfold collect_map. generalize (∅ : gmap rstring NativeLanPeer) as m. intros m Hr. revert m.
  induction Hr as [|p resolved [Hok Hadv] Hr IH]; intros m; [done|]. cbn [for_each].
  rewrite discover_insert_eq by done. cbn [mbind result_bind]. rewrite filter_cons, IH.
  by destruct (decide (kept local p)).
Qed.

(** All advertisements seen before the deadline can be read. *)
Definition readable (deadline : Z) (events : list (Z * ServiceEvent)) : Prop :=
  Forall (λ s, is_ok (resolved_peer_from_resolved_service s) = true) (live deadline events).

#[export] Instance readable_dec deadline events : Decision (readable deadline events).
Proof. unfold readable. apply _. Defined.

Lemma discover_readable deadline events local :
  readable deadline events →
  ∃ resolved,
    recv_resolved_all deadline events = Ok resolved ∧
    (∀ p, p ∈ resolved ↔ ∃ s, s ∈ live deadline events ∧ resolved_peer_from_resolved_service s = Ok (Some p)) ∧
    discover deadline (Ok events) local =
      Ok (snd <$> hash_iter (collect_map ((λ p, (pi_fingerprint (rp_info p), lan_peer_of p)) <$>
            filter (kept (normalize_peer_ref local)) resolved))).
Proof.
  intros Hr.
  assert (∃ os, Forall2 (λ s o, resolved_peer_from_resolved_service s = Ok o) (live deadline events) os) as [os Hos].
  { induction Hr as [|s l Hs Hl (os & IH)]; [by exists []|]. apply is_ok_spec in Hs as [o Ho]. exists (o :: os). by constructor. }
  assert (Hin : ∀ p, p ∈ omap id os ↔ ∃ s, s ∈ live deadline events ∧ resolved_peer_from_resolved_service s = Ok (Some p)).
  { intros p. rewrite list_elem_of_omap. split.
    - intros (o & Ho & Hp). simpl in Hp. subst o. apply (proj2 (Forall2_elem_of _ _ _ Hos)) in Ho as (s & Hs & ?). eauto.
    - intros (s & Hs & Hp). destruct (proj1 (Forall2_elem_of _ _ _ Hos) _ Hs) as (o & Ho & Hso). exists o.
      split; [done|]. simpl. congruence. }
  assert (Hrecv : recv_resolved_all deadline events = Ok (omap id os)) by (apply recv_resolved_Ok; eauto).
  exists (omap id os). split_and!; [done|done|]. unfold NativeLan.discover. cbn [map_err mbind result_bind].
  rewrite Hrecv. cbn [map_err mbind result_bind]. rewrite discover_loop; [done|].
  apply Forall_forall. intros p (s & _ & Hs%resolved_service_Ok)%Hin. by destruct Hs as (? & ? & _).
Qed.

Lemma discover_peers local (resolved : list ResolvedNativePeer) p :
  p ∈ snd <$> hash_iter (collect_map ((λ p, (pi_fingerprint (rp_info p), lan_peer_of p)) <$> filter (kept local) resolved)) →
  ∃ r, p = lan_peer_of r ∧ r ∈ resolved ∧ kept local r.
Proof.
  intros ([k q] & -> & Hq%elem_of_hash_iter%collect_map_Some)%list_elem_of_fmap.
  apply list_elem_of_fmap in Hq as (r & [= -> ->] & [Hk Hr]%list_elem_of_filter). by exists r.
Qed.

Lemma discover_fingerprints local (resolved : list ResolvedNativePeer) :
  NoDup (nl_fingerprint <$> (snd <$> hash_iter
    (collect_map ((λ p, (pi_fingerprint (rp_info p), lan_peer_of p)) <$> filter (kept local) resolved)))).
Proof.
  set (m := collect_map _). rewrite <-list_fmap_compose.
  rewrite (list_fmap_ext (nl_fingerprint ∘ snd) fst).
  - rewrite hash_iter_perm. apply NoDup_fst_map_to_list.
  - intros i [k q] Hq%list_elem_of_lookup_2%elem_of_hash_iter%collect_map_Some.
    apply list_elem_of_fmap in Hq as (r & [= -> ->] & _). done.
Qed.

Lemma unreadable_fails deadline events local :
  ¬ readable deadline events → ∃ e, discover deadline (Ok events) local = Err e.
Proof.
  intros Hn. unfold NativeLan.discover. cbn [map_err mbind result_bind].
  destruct (recv_resolved_all deadline events) as [resolved|e|] eqn:Hr; [|by eexists..].
  destruct Hn. apply recv_resolved_Ok in Hr as (os & Hos & _). apply Forall_forall. intros s Hs.
  destruct (proj1 (Forall2_elem_of _ _ _ Hos) _ Hs) as (o & _ & Ho). by rewrite Ho.
Qed.

Lemma discover_no_panic deadline browse local : discover deadline browse local ≠ Panic.
Proof. unfold NativeLan.discover. by destruct (_ ≫= _). Qed.

(** What is known of every peer discovery returns. *)
Definition lan_peer_ok (deadline : Z) (events : list (Z * ServiceEvent)) (local : rstring) (p : NativeLanPeer) : Prop :=
  parse_fingerprint (nl_fingerprint p) = Ok (from_pubkey (nl_pubkey p)) ∧ length (nl_pubkey p) = 32%nat ∧
  0 < nl_port p < 65536 ∧ normalize_peer_ref (nl_fingerprint p) ≠ normalize_peer_ref local ∧
  (∀ c, nl_native_certificate_fingerprint p = Some c → certificate_ok c) ∧
  ∃ s, s ∈ live deadline events ∧ sv_ty_domain s = NATIVE_MDNS_SERVICE_TYPE ∧
    head (sv_addresses s) = Some (nl_address p).

Lemma discover_Ok deadline browse local peers :
  discover deadline browse local = Ok peers →
  ∃ events, browse = Ok events ∧ readable deadline events ∧ NoDup (nl_fingerprint <$> peers) ∧
    ∀ p, p ∈ peers → lan_peer_ok deadline events local p.
Proof.
  intros Hd. destruct browse as [events|e|]; [|done..]. exists events.
  destruct (decide (readable deadline events)) as [Hr|Hr];
    [|by destruct (unreadable_fails deadline events local Hr) as [e He]; rewrite He in Hd].
  destruct (discover_readable deadline events local Hr) as (resolved & _ & Hin & Hd').
  rewrite Hd' in Hd. apply Ok_inj in Hd as <-. split_and!; [done|done|apply discover_fingerprints|].
  intros p (r & -> & (s & Hs & Hres)%Hin & [Hh Hn])%discover_peers.
  apply resolved_service_Ok in Hres as (Hok & _ & Hty & Haddr & _). unfold lan_peer_ok. split_and!; try done.
  - apply Hok.
  - apply (ok_port _ Hok).
  - apply (ok_port _ Hok).
  - apply (ok_certificate _ Hok).
  - by exists s.
Qed.

(** C16: discovery on the local network, whatever is announced there, never
    panics; it succeeds exactly when every announcement received in time can
    be read; and each peer it returns announced, under the native service
    type, a fingerprint that is the fingerprint of its 32-byte key, with a
    usable port, is not the daemon itself, and is listed once. *)
Theorem discovery_sound deadline events local :
  match discover deadline (Ok events) local with
  | Ok peers =>
    readable deadline events ∧ NoDup (nl_fingerprint <$> peers) ∧
    ∀ p, p ∈ peers → lan_peer_ok deadline events local p
  | Err _ => ¬ readable deadline events
  | Panic => False
  end.
Proof.
  destruct (discover deadline (Ok events) local) as [peers|e|] eqn:Hd.
  - by destruct (discover_Ok _ _ _ _ Hd) as (events' & [= <-] & Hrest).
  - intros Hr. destruct (discover_readable deadline events local Hr) as (? & _ & _ & Hd'). congruence.
  - by apply discover_no_panic in Hd.
Qed.

(** ** Trusting *)

Lemma trust_certificate_pins store now pk label policy c :
  trust_wf store → length pk = 32%nat → certificate_ok c →
  ∃ peer store', trust_with_native_certificate store now pk label policy c = Ok (peer, store') ∧
    get store' (from_pubkey pk) = Ok (Some peer) ∧ pr_policy peer = policy ∧ pr_label peer = label ∧
    pr_native_certificate_fingerprint peer = Some c ∧ trust_wf store' ∧
    ∀ fp, fingerprint_ok fp → fp ≠ from_pubkey pk → get store' fp = get store fp.
Proof.
  intros Hwf Hpk Hc. pose proof (from_pubkey_ok pk) as Hfp.
  destruct (upsert_wf store now pk label policy (show_fingerprint (from_pubkey pk)) Hwf Hpk) as [Hl Hp].
  set (old := upsert_peer _ _ _ _ _) in *.
  set (row := mkPeerRow (pw_pubkey old) (pw_label old) (pw_trusted_at old) (pw_last_seen old) (Some c) (pw_policy old)).
  set (store' := set_peers store (<[show_fingerprint (from_pubkey pk) := row]> (peers store))).
  pose proof (get_insert store (from_pubkey pk) row policy Hfp Hl Hp) as Hget. fold store' in Hget.
  assert (Ht : trust_with_native_certificate store now pk label policy c = Ok (peer_of (from_pubkey pk) row policy, store')).
  { unfold trust_with_native_certificate. rewrite (proj2 (validate_core_certificate _) Hc).
    cbn [mbind result_bind]. fold old row store'. unfold then_get. by rewrite Hget. }
  exists (peer_of (from_pubkey pk) row policy), store'. split_and!; try done.
  - cbn. subst old. by destruct (peers store !! _).
  - eapply trust_step_wf; [eapply step_trust_certificate; [exact Hpk|exact Ht]|done].
  - intros fp Hfp' Hne. by apply get_insert_ne.
Qed.

Lemma resolve_unique peers p ref :
  NoDup peers → p ∈ peers → normalize_peer_ref ref ≠ [] →
  (∀ q, q ∈ peers → peer_matches ref q = true ↔ q = p) → resolve_peer_ref peers ref = Ok p.
Proof.
  intros Hnd Hp Hne Hm. unfold resolve_peer_ref. rewrite bool_decide_false by done.
  assert (filter (λ q, peer_matches ref q = true) peers = [p]) as ->; [|done].
  apply Permutation_singleton_r, NoDup_Permutation; [by apply NoDup_filter|apply NoDup_singleton|].
  intros q. rewrite list_elem_of_filter, list_elem_of_singleton. split.
  - intros [Hq Hin]. by apply Hm.
  - intros ->. split; [by apply Hm|done].
Qed.

Lemma show_fingerprint_no_ws fp :
  fingerprint_ok fp → Forall (λ c, is_whitespace c = false) (show_fingerprint fp).
Proof.
  intros [_ Hb]. apply Forall_forall. intros c Hc. destruct (decide (c = 45)) as [->|Hne]; [done|].
  assert (Hin : c ∈ filter (λ c, c ≠ 45) (show_fingerprint fp)) by (by apply list_elem_of_filter).
  unfold show_fingerprint in Hin. rewrite show_fingerprint_cleaned in Hin by done.
  pose proof (hex_encode_hexdigits _ Hb) as Hh. rewrite Forall_forall in Hh. by apply hex_lower_no_ws, Hh.
Qed.

Lemma advertised_native alias identity port cert :
  advertised (native_peer_info alias identity port cert) =
    mkPeerInfo (trim alias) (show_fingerprint (from_pubkey (public_bytes identity))) (public_bytes identity) port
      (Some cert) default_extensions.
Proof.
  unfold advertised, native_peer_info.
  cbn [pi_alias pi_fingerprint pi_pubkey pi_quic_port pi_native_certificate_fingerprint pi_extensions].
  f_equal. by apply trim_no_ws, show_fingerprint_no_ws, from_pubkey_ok.
Qed.

Lemma announced_resolves alias identity port cert m s addr :
  peer_info_to_txt_properties (native_peer_info alias identity port cert) = Ok m → 0 ≤ port < 65536 →
  sv_ty_domain s = NATIVE_MDNS_SERVICE_TYPE → sv_properties s ≡ₚ map_to_list m → head (sv_addresses s) = Some addr →
  resolved_peer_from_resolved_service s =
    Ok (Some (mkResolved (advertised (native_peer_info alias identity port cert)) addr)).
Proof.
  intros Hm Hport Hty Htxt Haddr.
  unfold resolved_peer_from_resolved_service, peer_info_from_resolved_service. rewrite bool_decide_true by done.
  cbn [negb]. rewrite (from_txt_roundtrip _ _ _ Hm Htxt); [|apply public_length|apply public_bytes_ok|done].
  cbn. destruct (sv_addresses s); cbn in Haddr; [done|]. by simplify_eq.
Qed.

Lemma discover_lists local resolved r :
  r ∈ resolved → kept local r →
  (∀ q, q ∈ resolved → pi_fingerprint (rp_info q) = pi_fingerprint (rp_info r) → q = r) →
  lan_peer_of r ∈ snd <$> hash_iter (collect_map
    ((λ p, (pi_fingerprint (rp_info p), lan_peer_of p)) <$> filter (kept local) resolved)).
Proof.
  intros Hr Hk Huniq. set (l := _ <$> filter _ _).
  assert (Hl : (pi_fingerprint (rp_info r), lan_peer_of r) ∈ l).
  { apply list_elem_of_fmap. exists r. split; [done|]. by apply list_elem_of_filter. }
  destruct (collect_map_in _ _ _ Hl) as [q Hq]. apply list_elem_of_fmap. exists (pi_fingerprint (rp_info r), q).
  split; [|by apply elem_of_hash_iter].
  apply collect_map_Some, list_elem_of_fmap in Hq as (r' & [= Hfp ->] & [_ Hr']%list_elem_of_filter).
  cbn. by rewrite (Huniq r').
Qed.

(** C8: a daemon that announces itself on the local network is found by
    another one, as long as every announcement can be read and nobody else
    announces its fingerprint: discovery returns it with the address it
    announced from, any name that matches it alone selects it, and trusting it
    pins the announced certificate to the fingerprint of its key, after which
    its connections are accepted; nobody else's trust changes. *)
Theorem announced_peer_trusted deadline events local alias identity port cert m s addr store now label policy :
  peer_info_to_txt_properties (native_peer_info alias identity port cert) = Ok m → 0 ≤ port < 65536 →
  s ∈ live deadline events → sv_ty_domain s = NATIVE_MDNS_SERVICE_TYPE →
  sv_properties s ≡ₚ map_to_list m → head (sv_addresses s) = Some addr →
  readable deadline events →
  (∀ s' p, s' ∈ live deadline events → resolved_peer_from_resolved_service s' = Ok (Some p) →
     pi_fingerprint (rp_info p) = show_fingerprint (from_pubkey (public_bytes identity)) → s' = s) →
  normalize_peer_ref (show_fingerprint (from_pubkey (public_bytes identity))) ≠ normalize_peer_ref local →
  trust_wf store →
  let p := mkLan (trim alias) addr port (show_fingerprint (from_pubkey (public_bytes identity)))
             (public_bytes identity) (Some cert) default_extensions in
  ∃ peers peer store',
    discover deadline (Ok events) local = Ok peers ∧ p ∈ peers ∧
    (∀ ref, normalize_peer_ref ref ≠ [] → (∀ q, q ∈ peers → peer_matches ref q = true ↔ q = p) →
       resolve_peer_ref peers ref = Ok p) ∧
    trust_discovered_peer store now p label policy = Ok (peer, store') ∧
    pr_policy peer = policy ∧ pr_label peer = default (trim alias) label ∧
    pr_native_certificate_fingerprint peer = Some cert ∧ trust_wf store' ∧
    (policy = AutoAccept → ∀ w, auto_accepts (mkDaemon w store') (public_bytes identity)) ∧
    (∀ fp, fingerprint_ok fp → fp ≠ from_pubkey (public_bytes identity) → get store' fp = get store fp).
Proof.
  intros Hm Hport Hs Hty Htxt Haddr Hread Huniq Hlocal Hwf p.
  destruct (discover_readable deadline events local Hread) as (resolved & _ & Hin & Hd).
  set (r := mkResolved (advertised (native_peer_info alias identity port cert)) addr).
  assert (Hres : resolved_peer_from_resolved_service s = Ok (Some r)) by (by eapply announced_resolves).
  set (peers := snd <$> _) in Hd.
  assert (Hp : p ∈ peers).
  { assert (p = lan_peer_of r) as -> by (unfold lan_peer_of, r; by rewrite advertised_native).
    apply discover_lists; [apply Hin; eauto| |].
    { unfold r, kept, honest. rewrite advertised_native. split; [|done].
      apply parse_show_fingerprint, from_pubkey_ok. }
    intros q (s' & Hs' & Hq)%Hin Hfp. unfold r in Hfp. rewrite advertised_native in Hfp.
    rewrite (Huniq s' q Hs' Hq Hfp) in Hq. congruence. }
  assert (Hcert : certificate_ok cert) by (apply to_txt_Ok in Hm as [(_ & _ & _ & _ & Hc) _]; by apply Hc).
  destruct (trust_certificate_pins store now (public_bytes identity) (default (trim alias) label) policy cert)
    as (peer & store' & Ht & Hget & Hpol & Hlab & Hpin & Hwf' & Hothers); [done|apply public_length|done|].
  exists peers, peer, store'. split_and!; try done.
  - intros ref Hne Hmatch. apply resolve_unique; try done. eapply NoDup_fmap_1, discover_fingerprints.
  - unfold trust_discovered_peer. cbn. by rewrite Ht.
  - intros -> w. by exists peer.
Qed.
End discovery_correct.
