(* ===== verification/Rendezvous.v ===== *)
(** * Rendezvous service

    Model of crates/rendezvous/src: protocol.rs (messages and validation),
    registry.rs (the in-memory registry), the message handling and framing of
    server.rs and the request functions of client.rs.

    Instants are nanoseconds as integers ([Instant + Duration] does not
    overflow within the lifetime of a server); a [Duration] from [n] seconds
    is [n * 10^9].  The registry is behind a mutex, so requests of concurrent
    connections are a sequence of steps.  JSON encoding is the parameter
    [RvJson].  A stream is its bytes; the client's
    connection is in PinnedTls.v. *)

From stdpp Require Import prelude gmap strings fin_maps.
From Stdlib Require Import ZArith Lia.
From S2P Require Import Prelude RustStr Inet.

Local Open Scope Z_scope.

(** ** Protocol (protocol.rs) *)

Inductive ProtocolError :=
| Required (name : rstring)
| EmptyCandidates
| InvalidTtl
| InvalidCandidateAddress
| InvalidCandidatePort.

Inductive RvCandidateKind := RvLocal | RvServerReflexive.
Record Candidate := mkRvCandidate { cd_kind : RvCandidateKind; cd_address : rstring; cd_priority : Z }.

Record RegisterRequest := mkRegister {
  rg_alias : rstring; rg_pubkey : bytes; rg_candidates : list Candidate; rg_ttl_seconds : Z }.
Record LookupRequest := mkLookup { lk_requester_pubkey : bytes; lk_target_pubkey : bytes }.
Record NotifyRequest := mkNotify { nt_requester_pubkey : bytes; nt_target_pubkey : bytes }.
Record RegisteredResponse := mkRegistered { rd_ttl_seconds : Z; rd_expires_at_unix_seconds : Z }.
Record LookupPeer := mkLookupPeer {
  lp_alias : rstring; lp_pubkey : bytes; lp_candidates : list Candidate; lp_last_seen_unix_seconds : Z }.
Record LookupResponse := mkLookupResponse { lr_peer : option LookupPeer }.
Record NotifyQueuedResponse := mkNotifyQueued { nq_target_pubkey : bytes }.
Record PeerNotification := mkPeerNotification { pn_requester_pubkey : bytes }.
Record ErrorResponse := mkErrorResponse { er_code : rstring; er_message : rstring }.

Inductive ClientMessage :=
| Register_ (r : RegisterRequest)
| Lookup_ (r : LookupRequest)
| Notify_ (r : NotifyRequest)
| Ping.

Inductive ServerMessage :=
| Registered (r : RegisteredResponse)
| LookupResult (r : LookupResponse)
| NotifyQueued (r : NotifyQueuedResponse)
| PeerNotification_ (r : PeerNotification)
| Pong
| ErrorMessage (r : ErrorResponse).

Definition require_nonblank (name : string) (value : rstring) : result ProtocolError unit :=
  ensure (negb (is_blank value)) (Required (str name)).

(** [Candidate::validate] *)
Definition validate_candidate (c : Candidate) : result ProtocolError unit :=
  address ← ok_or (parse_sock (cd_address c)) InvalidCandidateAddress;
  ensure (negb (sock_port address =? 0)) InvalidCandidatePort.

(** [RegisterRequest::validate] *)
Definition validate_register (r : RegisterRequest) : result ProtocolError unit :=
  _ ← require_nonblank "alias" (rg_alias r);
  _ ← ensure (negb (bool_decide (rg_candidates r = []))) EmptyCandidates;
  _ ← ensure (negb (rg_ttl_seconds r =? 0)) InvalidTtl;
  for_each (λ _ c, validate_candidate c) tt (rg_candidates r).

(** ** Registry (registry.rs) *)

Inductive RegistryError :=
| RegProtocol (e : ProtocolError)
| TargetNotRegistered.

Record RegistryEntry := mkEntry {
  re_alias : rstring; re_pubkey : bytes; re_candidates : list Candidate;
  re_registered_at : Z; re_expires_at : Z; re_last_seen : Z }.

Record Registry := mkRegistry {
  max_ttl : Z;
  entries : gmap bytes RegistryEntry;
  notifications : gmap bytes (list PeerNotification) }.

Definition new_registry (max_ttl : Z) : Registry := mkRegistry max_ttl ∅ ∅.

(** [Duration::from_secs] and [Duration::as_secs]. *)
Definition from_secs (n : Z) : Z := n * 10 ^ 9.
Definition as_secs (d : Z) : Z := d / 10 ^ 9.

Definition capped_ttl (g : Registry) (requested_seconds : Z) : Z :=
  Z.min (from_secs requested_seconds) (max_ttl g).

(** [later.duration_since(earlier)], zero when [later] is earlier. *)
Definition duration_since (later earlier : Z) : Z := Z.max 0 (later - earlier).

Definition to_lookup_peer (e : RegistryEntry) : LookupPeer :=
  mkLookupPeer (re_alias e) (re_pubkey e) (re_candidates e)
    (as_secs (duration_since (re_last_seen e) (re_registered_at e))).

Definition live (now : Z) (e : RegistryEntry) : Prop := now < re_expires_at e.
#[export] Instance live_dec now e : Decision (live now e).
Proof. unfold live. apply _. Defined.

Definition prune_expired (now : Z) (g : Registry) : Registry :=
  let kept := filter (λ kv, live now kv.2) (entries g) in
  let pruned := dom (entries g) ∖ dom kept in
  mkRegistry (max_ttl g) kept (filter (λ kv, kv.1 ∉ pruned) (notifications g)).

Arguments prune_expired : simpl never.

(** The number of entries [prune_expired] reports. *)
Definition prune_count (now : Z) (g : Registry) : nat :=
  size (entries g) - size (entries (prune_expired now g)).

Definition register (now : Z) (request : RegisterRequest) (g : Registry) :
    result RegistryError RegisteredResponse * Registry :=
  match validate_register request with
  | Ok _ =>
    let ttl := capped_ttl g (rg_ttl_seconds request) in
    let ttl_seconds := as_secs ttl in
    let expires_at := now + ttl in
    let entry := mkEntry (rg_alias request) (rg_pubkey request) (rg_candidates request) now expires_at now in
    (Ok (mkRegistered ttl_seconds ttl_seconds),
     mkRegistry (max_ttl g) (<[rg_pubkey request := entry]> (entries g)) (notifications g))
  | Err e => (Err (RegProtocol e), g)
  | Panic => (Panic, g)
  end.

Definition lookup_peer (now : Z) (pubkey : bytes) (g : Registry) : option LookupPeer * Registry :=
  let g := prune_expired now g in
  match entries g !! pubkey with
  | None => (None, g)
  | Some e =>
    let e := mkEntry (re_alias e) (re_pubkey e) (re_candidates e) (re_registered_at e) (re_expires_at e) now in
    (Some (to_lookup_peer e), mkRegistry (max_ttl g) (<[pubkey := e]> (entries g)) (notifications g))
  end.

Definition lookup_request (now : Z) (request : LookupRequest) (g : Registry) :
    result RegistryError LookupResponse * Registry :=
  let '(peer, g) := lookup_peer now (lk_target_pubkey request) g in
  (Ok (mkLookupResponse peer), g).

Definition queue_notify (now : Z) (request : NotifyRequest) (g : Registry) :
    result RegistryError NotifyQueuedResponse * Registry :=
  match lookup_peer now (nt_target_pubkey request) g with
  | (None, g) => (Err TargetNotRegistered, g)
  | (Some _, g) =>
    let queue := default [] (notifications g !! nt_target_pubkey request) in
    (Ok (mkNotifyQueued (nt_target_pubkey request)),
     mkRegistry (max_ttl g) (entries g)
       (<[nt_target_pubkey request := queue ++ [mkPeerNotification (nt_requester_pubkey request)]]>
          (notifications g)))
  end.

Definition drain_notifications (now : Z) (target_pubkey : bytes) (g : Registry) :
    list PeerNotification * Registry :=
  match lookup_peer now target_pubkey g with
  | (None, g) => ([], g)
  | (Some _, g) =>
    (default [] (notifications g !! target_pubkey),
     mkRegistry (max_ttl g) (entries g) (delete target_pubkey (notifications g)))
  end.

(** ** Server (server.rs) *)

Definition protocol_error_text (e : ProtocolError) : rstring :=
  match e with
  | Required name => name ++ str " is required"
  | EmptyCandidates => str "register request must include at least one candidate"
  | InvalidTtl => str "ttl_seconds must be greater than zero"
  | InvalidCandidateAddress => str "candidate address must be host:port"
  | InvalidCandidatePort => str "candidate port must be greater than zero"
  end.

Definition registry_error_text (e : RegistryError) : rstring :=
  match e with
  | RegProtocol e => protocol_error_text e
  | TargetNotRegistered => str "target peer is not registered"
  end.

Definition registry_error_response (e : RegistryError) : ServerMessage :=
  ErrorMessage (mkErrorResponse (str "registry_error") (registry_error_text e)).

(** The answer to a registry call. *)
Definition respond {A} (f : A → ServerMessage) (r : result RegistryError A) : result RegistryError ServerMessage :=
  match r with
  | Ok a => Ok (f a)
  | Err e => Ok (registry_error_response e)
  | Panic => Panic
  end.

Definition handle_message (now : Z) (message : ClientMessage) (g : Registry) :
    result RegistryError ServerMessage * Registry :=
  match message with
  | Register_ request => let '(r, g) := register now request g in (respond Registered r, g)
  | Lookup_ request => let '(r, g) := lookup_request now request g in (respond LookupResult r, g)
  | Notify_ request => let '(r, g) := queue_notify now request g in (respond NotifyQueued r, g)
  | Ping => (Ok Pong, g)
  end.

Definition MAX_FRAME_BYTES : Z := 1024 * 1024.
Definition frame_too_large : rstring := str "rendezvous frame exceeds 1048576 bytes".

Definition read_frame (recv : bytes) : result rstring (bytes * bytes) :=
  '(n, recv) ← read_exact (str "read rendezvous frame length") 4 recv;
  let n := from_be_bytes n in
  _ ← ensure (negb (MAX_FRAME_BYTES <? n)) frame_too_large;
  read_exact (str "read rendezvous frame body") n recv.

Definition write_frame (b : bytes) : result rstring bytes :=
  _ ← ensure (negb (MAX_FRAME_BYTES <? zlen b)) frame_too_large;
  Ok (to_be_bytes 4 (zlen b) ++ b).

(** [serde_json::to_vec] and [from_slice] at a message type. *)
Class RvJson (A : Type) := { rv_to_vec : A → option bytes; rv_from_slice : bytes → option A }.
Class RvRoundtrip (A : Type) `{RvJson A} :=
  rv_roundtrip : ∀ a bs, rv_to_vec a = Some bs → rv_from_slice bs = Some a.

Section stream.
Context `{!RvJson ClientMessage, !RvJson ServerMessage}.

Definition read_client_message (recv : bytes) : result rstring (ClientMessage * bytes) :=
  '(b, recv) ← read_frame recv;
  m ← ok_or (rv_from_slice b) (str "decode rendezvous client message");
  Ok (m, recv).
Definition read_server_message (recv : bytes) : result rstring (ServerMessage * bytes) :=
  '(b, recv) ← read_frame recv;
  m ← ok_or (rv_from_slice b) (str "decode rendezvous server message");
  Ok (m, recv).
Definition write_server_message (m : ServerMessage) : result rstring bytes :=
  b ← ok_or (rv_to_vec m) (str "encode rendezvous server message"); write_frame b.
Definition write_client_message (m : ClientMessage) : result rstring bytes :=
  b ← ok_or (rv_to_vec m) (str "encode rendezvous client message"); write_frame b.

(** One stream of a connection: the bytes of the request in, the bytes of
    the response out (nothing when the response cannot be written). *)
Definition handle_stream (now : Z) (recv : bytes) (g : Registry) : bytes * Registry :=
  let '(response, g) :=
    match read_client_message recv with
    | Ok (message, _) => handle_message now message g
    | Err error => (Ok (ErrorMessage (mkErrorResponse (str "bad_request") error)), g)
    | Panic => (Panic, g)
    end in
  match response with
  | Ok response =>
    match write_server_message response with Ok b => (b, g) | _ => ([], g) end
  | _ => ([], g)
  end.

(** ** Client (client.rs) *)

Definition server_error (e : ErrorResponse) : rstring :=
  str "rendezvous server error " ++ er_code e ++ str ": " ++ er_message e.

(** A request over a fresh stream to a server with registry [g]. *)
Definition request (now : Z) (message : ClientMessage) (g : Registry) :
    result rstring ServerMessage * Registry :=
  match write_client_message message with
  | Ok sent =>
    let '(received, g) := handle_stream now sent g in
    (fst <$> read_server_message received, g)
  | Err e => (Err e, g)
  | Panic => (Panic, g)
  end.

(** The match on the response; the debug text of an unexpected message is
    left out of the error. *)
Definition expect {A} (what : string) (pick : ServerMessage → option A) (r : result rstring ServerMessage) :
    result rstring A :=
  m ← r;
  match pick m with
  | Some a => Ok a
  | None => match m with ErrorMessage e => Err (server_error e) | _ => Err (str what) end
  end.

Definition client_register (now : Z) (r : RegisterRequest) (g : Registry) :
    result rstring RegisteredResponse * Registry :=
  let '(m, g) := request now (Register_ r) g in
  (expect "unexpected rendezvous register response" (λ m, match m with Registered x => Some x | _ => None end) m, g).
Definition client_lookup (now : Z) (r : LookupRequest) (g : Registry) :
    result rstring LookupResponse * Registry :=
  let '(m, g) := request now (Lookup_ r) g in
  (expect "unexpected rendezvous lookup response" (λ m, match m with LookupResult x => Some x | _ => None end) m, g).
Definition client_notify (now : Z) (r : NotifyRequest) (g : Registry) :
    result rstring NotifyQueuedResponse * Registry :=
  let '(m, g) := request now (Notify_ r) g in
  (expect "unexpected rendezvous notify response" (λ m, match m with NotifyQueued x => Some x | _ => None end) m, g).
End stream.

Definition strip_prefix (prefix s : rstring) : option rstring :=
  if bool_decide (take (length prefix) s = prefix) then Some (drop (length prefix) s) else None.

Definition parse_rendezvous_url (url : rstring) : result rstring SocketAddr :=
  address ← ok_or (strip_prefix (str "quic://") url) (str "rendezvous URL must start with quic://");
  ok_or (parse_sock address) (str "rendezvous URL must be quic://host:port").

(** ** Invariant *)

(** What holds of the registry at all times: entries are filed under their
    key, no entry outlives the cap, and only registered peers have a queue. *)
Record registry_wf (g : Registry) : Prop := {
  wf_key k e : entries g !! k = Some e → re_pubkey e = k;
  wf_ttl k e : entries g !! k = Some e → re_expires_at e ≤ re_registered_at e + max_ttl g;
  wf_queue k q : notifications g !! k = Some q → is_Some (entries g !! k)
}.

Lemma prune_entries now g k e :
  entries (prune_expired now g) !! k = Some e ↔ entries g !! k = Some e ∧ live now e.
Proof. unfold prune_expired. simpl. by rewrite map_lookup_filter_Some. Qed.

Lemma prune_notifications now g k q :
  notifications (prune_expired now g) !! k = Some q ↔
  notifications g !! k = Some q ∧ (is_Some (entries g !! k) → is_Some (entries (prune_expired now g) !! k)).
Proof.
  unfold prune_expired. simpl. rewrite map_lookup_filter_Some. simpl.
  rewrite not_elem_of_difference, !elem_of_dom. apply and_iff_compat_l.
  destruct (entries g !! k) as [e|] eqn:He.
  - split; [intros [Hn|?] ?; [by destruct Hn|done]|]. right. eauto.
  - split; [intros _ [??]; done|]. intros _. left. by intros [??].
Qed.

Lemma prune_wf now g : registry_wf g → registry_wf (prune_expired now g).
Proof.
  intros [Hk Ht Hq]. split.
  - intros k e [??]%prune_entries. eauto.
  - intros k e [??]%prune_entries. by apply Ht with k.
  - intros k q [Hn Hi]%prune_notifications. eauto.
Qed.

(** Refreshing the last-seen time of an entry. *)
Lemma lookup_peer_cases now k g :
  match entries g !! k with
  | Some e =>
    if decide (live now e) then
      let e' := mkEntry (re_alias e) (re_pubkey e) (re_candidates e) (re_registered_at e) (re_expires_at e) now in
      lookup_peer now k g =
        (Some (to_lookup_peer e'),
         mkRegistry (max_ttl g) (<[k := e']> (entries (prune_expired now g))) (notifications (prune_expired now g)))
    else lookup_peer now k g = (None, prune_expired now g)
  | None => lookup_peer now k g = (None, prune_expired now g)
  end.
Proof.
  unfold lookup_peer. destruct (entries g !! k) as [e|] eqn:He.
  - case_decide as Hl.
    + rewrite (proj2 (prune_entries now g k e)) by done. done.
    + destruct (entries (prune_expired now g) !! k) as [e'|] eqn:He'; [|done].
      apply prune_entries in He' as [??]. by simplify_eq.
  - destruct (entries (prune_expired now g) !! k) as [e'|] eqn:He'; [|done].
    apply prune_entries in He' as [??]. simplify_eq.
Qed.

Lemma lookup_peer_wf now k g : registry_wf g → registry_wf (lookup_peer now k g).2.
Proof.
  intros Hwf. pose proof (prune_wf now g Hwf) as Hpr. pose proof (lookup_peer_cases now k g) as Hc.
  destruct (entries g !! k) as [e|] eqn:He; [|by rewrite Hc]. case_decide as Hl; [|by rewrite Hc].
  rewrite Hc. simpl. destruct Hwf as [Hk Ht Hq]. split; simpl.
  - intros k' e'. rewrite lookup_insert. case_decide; [|by apply Hpr]. intros [= <-]. simpl.
    subst k'. by eapply Hk.
  - intros k' e'. rewrite lookup_insert. case_decide; [|by apply (wf_ttl _ Hpr k')].
    intros [= <-]. simpl. by apply Ht with k.
  - intros k' q Hn. rewrite lookup_insert. case_decide; [done|]. by apply (wf_queue _ Hpr k' q).
Qed.

Lemma register_wf now r g : registry_wf g → registry_wf (register now r g).2.
Proof.
  intros [Hk Ht Hq]. unfold register. destruct (validate_register r); [|done..]. simpl. split; simpl.
  - intros k e. rewrite lookup_insert. case_decide; [|apply Hk]. by intros [= <-].
  - intros k e. rewrite lookup_insert. case_decide; [|apply Ht]. intros [= <-]. simpl.
    unfold capped_ttl. lia.
  - intros k q Hn. rewrite lookup_insert. case_decide; [done|]. by eapply Hq.
Qed.

Lemma queue_notify_wf now r g : registry_wf g → registry_wf (queue_notify now r g).2.
Proof.
  intros Hwf. unfold queue_notify. pose proof (lookup_peer_wf now (nt_target_pubkey r) g Hwf) as Hl.
  destruct (lookup_peer now (nt_target_pubkey r) g) as [[p|] g'] eqn:Heq; simpl in *; [|done].
  destruct Hl as [Hk Ht Hq]. split; simpl; [done..|]. intros k q.
  rewrite lookup_insert. case_decide as Hk'; [|by apply Hq]. intros _. subst k.
  pose proof (lookup_peer_cases now (nt_target_pubkey r) g) as Hc.
  destruct (entries g !! nt_target_pubkey r); [|congruence]. case_decide; [|congruence].
  rewrite Hc in Heq. injection Heq as <- <-. simpl. by rewrite lookup_insert_eq.
Qed.

Lemma drain_wf now k g : registry_wf g → registry_wf (drain_notifications now k g).2.
Proof.
  intros Hwf. unfold drain_notifications. pose proof (lookup_peer_wf now k g Hwf) as Hl.
  destruct (lookup_peer now k g) as [[p|] g']; simpl in *; [|done]. destruct Hl as [Hk Ht Hq].
  split; simpl; [done..|]. intros k' q. rewrite lookup_delete. case_decide; [done|]. apply Hq.
Qed.

Lemma handle_message_wf now m g : registry_wf g → registry_wf (handle_message now m g).2.
Proof.
  intros Hwf. destruct m as [r|r|r|]; simpl; [..|done].
  - pose proof (register_wf now r g Hwf). by destruct (register now r g).
  - unfold lookup_request. pose proof (lookup_peer_wf now (lk_target_pubkey r) g Hwf).
    by destruct (lookup_peer now (lk_target_pubkey r) g).
  - pose proof (queue_notify_wf now r g Hwf). by destruct (queue_notify now r g).
Qed.

(** One step of a running server.  Each request reads the clock before it
    waits for the lock, so the times of consecutive steps are in no order. *)
Inductive server_step : Registry → Registry → Prop :=
| StepMessage now m g : server_step g (handle_message now m g).2
| StepDrain now k g : server_step g (drain_notifications now k g).2
| StepPrune now g : server_step g (prune_expired now g).

(** Every registry a server can reach, whatever the clients send and however
    requests interleave with pruning, is well formed. *)
Theorem registry_reachable_wf max g :
  rtc server_step (new_registry max) g → registry_wf g.
Proof.
  apply (rtc_ind_r registry_wf).
  - split; intros *; simpl; by rewrite lookup_empty.
  - intros g1 g2 _ Hstep Hwf. destruct Hstep; eauto using handle_message_wf, drain_wf, prune_wf.
Qed.

(** ** Registrations *)

(** What a registration of [r] at time [t0] is in the registry. *)
Definition registered_as (r : RegisterRequest) (t0 expires : Z) (g : Registry) : Prop :=
  ∃ seen, entries g !! rg_pubkey r =
    Some (mkEntry (rg_alias r) (rg_pubkey r) (rg_candidates r) t0 expires seen).

Lemma prune_keeps r t0 expires now g :
  now < expires → registered_as r t0 expires g → registered_as r t0 expires (prune_expired now g).
Proof. intros Hlt [seen He]. exists seen. by apply prune_entries. Qed.

Lemma lookup_peer_keeps r t0 expires now k g :
  now < expires → registered_as r t0 expires g → registered_as r t0 expires (lookup_peer now k g).2.
Proof.
  intros Hlt Hr. destruct (prune_keeps _ _ _ _ _ Hlt Hr) as [seen Hp]. destruct Hr as [seen' He].
  pose proof (lookup_peer_cases now k g) as Hc.
  destruct (entries g !! k) as [e|] eqn:Hek; [|rewrite Hc; by exists seen].
  case_decide; rewrite Hc; [|by exists seen]. unfold registered_as. simpl.
  rewrite lookup_insert. case_decide as Hk; [|by exists seen]. subst k.
  rewrite He in Hek. injection Hek as <-. by eexists.
Qed.

(** A step at a time before [expires] that is not a registration of [k]. *)
Inductive other_step (k : bytes) (expires : Z) : Registry → Registry → Prop :=
| OtherMessage now m g :
    now < expires → (∀ r, m = Register_ r → rg_pubkey r ≠ k) →
    other_step k expires g (handle_message now m g).2
| OtherDrain now k' g : now < expires → other_step k expires g (drain_notifications now k' g).2
| OtherPrune now g : now < expires → other_step k expires g (prune_expired now g).

Lemma other_step_keeps r t0 expires g g' :
  other_step (rg_pubkey r) expires g g' → registered_as r t0 expires g → registered_as r t0 expires g'.
Proof.
  intros Hstep Hr. destruct Hstep as [now m g Hlt Hm|now k g Hlt|now g Hlt]; [| |by apply prune_keeps].
  - destruct m as [q|q|q|]; simpl; [| | |done].
    + unfold register. destruct (validate_register q); [|done..]. simpl.
      destruct Hr as [seen He]. exists seen. simpl. rewrite lookup_insert_ne; [done|]. by apply Hm.
    + unfold lookup_request. pose proof (lookup_peer_keeps _ _ _ now (lk_target_pubkey q) _ Hlt Hr).
      by destruct (lookup_peer now (lk_target_pubkey q) g).
    + unfold queue_notify. pose proof (lookup_peer_keeps _ _ _ now (nt_target_pubkey q) _ Hlt Hr) as Hl.
      by destruct (lookup_peer now (nt_target_pubkey q) g) as [[?|] ?].
  - unfold drain_notifications. pose proof (lookup_peer_keeps _ _ _ now k _ Hlt Hr).
    by destruct (lookup_peer now k g) as [[?|] ?].
Qed.

(** A valid registration is found by every lookup until its capped lifetime
    ends, with the alias and candidates it registered, through any
    interleaving of other requests and pruning; from then on it is not found. *)
Theorem registration_lifetime now r g resp g1 g2 :
  let expires := now + Z.min (from_secs (rg_ttl_seconds r)) (max_ttl g) in
  register now r g = (Ok resp, g1) →
  rtc (other_step (rg_pubkey r) expires) g1 g2 →
  ∀ now', (lookup_peer now' (rg_pubkey r) g2).1 =
    if decide (now' < expires)
    then Some (mkLookupPeer (rg_alias r) (rg_pubkey r) (rg_candidates r) (as_secs (duration_since now' now)))
    else None.
Proof.
  intros expires Hreg Hsteps now'.
  assert (Hr : registered_as r now expires g1).
  { unfold register in Hreg. destruct (validate_register r); [|done..]. injection Hreg as _ <-.
    exists now. simpl. by rewrite lookup_insert_eq. }
  assert (Hr2 : registered_as r now expires g2).
  { clear Hreg. induction Hsteps; [done|]. eauto using other_step_keeps. }
  destruct Hr2 as [seen He]. pose proof (lookup_peer_cases now' (rg_pubkey r) g2) as Hc.
  rewrite He in Hc. destruct (decide (now' < expires)).
  - rewrite decide_True in Hc by done. by rewrite Hc.
  - rewrite decide_False in Hc by done. by rewrite Hc.
Qed.

(** ** Notifications *)

(** Draining the queue of an entry that is still live. *)
Lemma drain_insert now k e q m es ns :
  now < re_expires_at e →
  let g := mkRegistry m (<[k := e]> es) (<[k := q]> ns) in
  (drain_notifications now k g).1 = q ∧
  ∀ now', (drain_notifications now' k (drain_notifications now k g).2).1 = [].
Proof.
  intros Hlive g. pose proof (lookup_peer_cases now k g) as Hc.
  assert (Heg : entries g !! k = Some e) by (unfold g; simpl; by rewrite lookup_insert_eq).
  assert (Hng : notifications (prune_expired now g) !! k = Some q).
  { apply prune_notifications. split; [unfold g; simpl; by rewrite lookup_insert_eq|].
    intros _. exists e. by apply prune_entries. }
  rewrite Heg, decide_True in Hc by done. remember (prune_expired now g) as gp eqn:Hgp. clear Hgp.
  unfold drain_notifications at 1 3. rewrite Hc. cbn [fst snd notifications entries]. split; [by rewrite Hng|].
  intros now'. unfold drain_notifications. set (g2 := mkRegistry _ _ (delete _ _)).
  pose proof (lookup_peer_cases now' k g2) as Hc2.
  assert (Hn2 : notifications (prune_expired now' g2) !! k = None).
  { destruct (notifications (prune_expired now' g2) !! k) as [x|] eqn:Hx; [|done].
    apply prune_notifications in Hx as [Hx _]. unfold g2 in Hx. simpl in Hx. by rewrite lookup_delete_eq in Hx. }
  remember (prune_expired now' g2) as gp2 eqn:Hgp2. clear Hgp2.
  destruct (entries g2 !! k); [|by rewrite Hc2]. case_decide; rewrite Hc2; [|done].
  cbn [fst notifications]. by rewrite Hn2.
Qed.

(** Queued notifications of a registered peer are drained once, in the order
    in which they were queued. *)
Theorem notifications_fifo now r g resp g1 now' :
  registry_wf g → queue_notify now r g = (Ok resp, g1) →
  (∃ e, entries g !! nt_target_pubkey r = Some e ∧ now' < re_expires_at e) →
  (drain_notifications now' (nt_target_pubkey r) g1).1 =
    default [] (notifications g !! nt_target_pubkey r) ++ [mkPeerNotification (nt_requester_pubkey r)] ∧
  ∀ now'', (drain_notifications now'' (nt_target_pubkey r)
              (drain_notifications now' (nt_target_pubkey r) g1).2).1 = [].
Proof.
  set (k := nt_target_pubkey r). intros Hwf Hq (e & He & Hlive).
  unfold queue_notify in Hq. fold k in Hq. pose proof (lookup_peer_cases now k g) as Hc.
  rewrite He in Hc. case_decide as Hl; [|by rewrite Hc in Hq].
  assert (Hkeep : notifications (prune_expired now g) !! k = notifications g !! k).
  { apply option_eq. intros q. rewrite prune_notifications. split; [tauto|]. intros Hn. split; [done|].
    intros _. exists e. by apply prune_entries. }
  remember (prune_expired now g) as gp eqn:Hgp. clear Hgp.
  rewrite Hc in Hq. injection Hq as _ <-. rewrite Hkeep. clear Hc.
  set (q := default [] (notifications g !! k) ++ _). set (e1 := mkEntry _ _ _ _ _ _).
  pose proof (drain_insert now' k e1 q (max_ttl g) (entries gp) (notifications gp) Hlive) as [-> Hd].
  done.
Qed.

(** ** Client and server together *)

Lemma read_write_frame b bs rest : write_frame b = Ok bs → read_frame (bs ++ rest) = Ok (b, rest).
Proof.
  unfold write_frame, read_frame, MAX_FRAME_BYTES. intros H. inv_ok. bools. subst bs.
  pose proof (zlen_nonneg b).
  rewrite <-app_assoc, read_exact_app by (unfold zlen; by rewrite length_to_be_bytes). cbn [mbind result_bind].
  rewrite from_to_be by (simpl; lia). destruct (Z.ltb_spec (1024 * 1024) (zlen b)); [lia|].
  cbn [negb ensure mbind result_bind]. by apply read_exact_app.
Qed.

(** What a registry call looks like to the caller. *)
Definition call_result {A} (r : result RegistryError A) : result rstring A :=
  match r with
  | Ok a => Ok a
  | Err e => Err (server_error (mkErrorResponse (str "registry_error") (registry_error_text e)))
  | Panic => Panic
  end.

Section rpc.
Context `{!RvJson ClientMessage, !RvJson ServerMessage,
          !RvRoundtrip ClientMessage, !RvRoundtrip ServerMessage}.

Lemma request_spec now m g resp g' sent answer :
  write_client_message m = Ok sent → handle_message now m g = (Ok resp, g') →
  write_server_message resp = Ok answer →
  request now m g = (Ok resp, g').
Proof.
  intros Hw Hh Ha. unfold request. rewrite Hw. unfold handle_stream, read_client_message.
  unfold write_client_message in Hw. inv_ok. rewrite <-(app_nil_r sent), (read_write_frame x sent []) by done.
  cbn [mbind result_bind]. rewrite (rv_roundtrip _ _ H). cbn [ok_or mbind result_bind]. rewrite Hh, Ha.
  unfold read_server_message. unfold write_server_message in Ha. inv_ok.
  rewrite <-(app_nil_r answer), (read_write_frame x0 answer []) by done. cbn [mbind result_bind].
  by rewrite (rv_roundtrip _ _ H0).
Qed.

Lemma validate_register_no_panic r : validate_register r ≠ Panic.
Proof.
  unfold validate_register, require_nonblank. repeat (apply bind_no_panic; [apply ensure_no_panic|intros _ _]).
  induction (rg_candidates r) as [|c cs IH]; simpl; [done|]. apply bind_no_panic; [|by intros []].
  unfold validate_candidate. destruct (parse_sock (cd_address c)); [apply ensure_no_panic|done].
Qed.

(** The request and its answer both fit a frame. *)
Definition fits (now : Z) (m : ClientMessage) (g : Registry) : Prop :=
  is_ok (write_client_message m) = true ∧
  ∀ resp, (handle_message now m g).1 = Ok resp → is_ok (write_server_message resp) = true.

Lemma request_fits now m g resp g' :
  fits now m g → handle_message now m g = (Ok resp, g') → request now m g = (Ok resp, g').
Proof.
  intros [(sent & Hsent)%is_ok_spec Hans] Hh. rewrite Hh in Hans.
  destruct (proj1 (is_ok_spec _) (Hans resp eq_refl)) as [b Hb]. by eapply request_spec.
Qed.

Lemma client_lookup_refines now r g :
  fits now (Lookup_ r) g →
  client_lookup now r g = (call_result (lookup_request now r g).1, (lookup_request now r g).2).
Proof.
  intros Hfits. unfold client_lookup. destruct (lookup_request now r g) as [res g'] eqn:Hreg.
  assert (Hh : handle_message now (Lookup_ r) g = (respond LookupResult res, g')) by (simpl; by rewrite Hreg).
  unfold lookup_request in Hreg. destruct (lookup_peer now (lk_target_pubkey r) g). simplify_eq.
  by rewrite (request_fits _ _ _ _ _ Hfits Hh).
Qed.

(** C39: A call through the client, the two frame encodings and the server is the
    registry operation: same effect on the registry, same answer, and a
    registry error arrives as the error text. *)
Theorem client_calls_refine_registry now g :
  (∀ r, fits now (Register_ r) g →
     client_register now r g = (call_result (register now r g).1, (register now r g).2)) ∧
  (∀ r, fits now (Lookup_ r) g →
     client_lookup now r g = (call_result (lookup_request now r g).1, (lookup_request now r g).2)) ∧
  (∀ r, fits now (Notify_ r) g →
     client_notify now r g = (call_result (queue_notify now r g).1, (queue_notify now r g).2)).
Proof.
  split_and!; intros r Hfits.
  - unfold client_register. destruct (register now r g) as [res g'] eqn:Hreg.
    assert (Hnp : res ≠ Panic).
    { unfold register in Hreg. pose proof (validate_register_no_panic r).
      destruct (validate_register r); simplify_eq; done. }
    assert (Hh : handle_message now (Register_ r) g = (respond Registered res, g')) by (simpl; by rewrite Hreg).
    destruct res as [a|e|]; [| |done]; by rewrite (request_fits _ _ _ _ _ Hfits Hh).
  - by apply client_lookup_refines.
  - unfold client_notify. destruct (queue_notify now r g) as [res g'] eqn:Hreg.
    assert (Hh : handle_message now (Notify_ r) g = (respond NotifyQueued res, g')) by (simpl; by rewrite Hreg).
    unfold queue_notify in Hreg. destruct (lookup_peer now (nt_target_pubkey r) g) as [[p|] g1]; simplify_eq;
      by rewrite (request_fits _ _ _ _ _ Hfits Hh).
Qed.
End rpc.
