(* ===== verification/RendezvousServer.v ===== *)
(** * The rendezvous server as it runs

    Model of the accept loop, the connections, the configuration and the start
    and stop of crates/rendezvous/src/server.rs, and of the program around it
    (crates/rendezvous/src/main.rs), over the registry and the messages of
    Rendezvous.v.  A run is a fold over events: what a turn of the [select!]
    finds ready, how the handshake of a connection ends, the requests that
    arrive on its streams.  Connections and their streams are tasks of their
    own and go on when the loop has ended, until the endpoint is closed.  The
    handler of a stream locks the registry once.  The TLS configuration
    is in PinnedTls.v; the QUIC endpoint and its handshakes are quinn's and
    rustls's. *)

From stdpp Require Import prelude gmap strings.
From Stdlib Require Import ZArith Lia.
From S2P Require Import Prelude RustStr Inet Text Rendezvous.

Local Open Scope Z_scope.

(** ** Configuration *)

Record RendezvousServerConfig := mkServerConfig {
  sc_bind_addr : SocketAddr; sc_max_ttl : Z; sc_prune_interval : Z }.

Definition default_server_config : RendezvousServerConfig :=
  mkServerConfig (SockV4 0 0 0 0 53410) (from_secs 300) (from_secs 30).

(** The command line: each option may be absent. *)
Record Args := mkArgs { ar_bind : SocketAddr; ar_max_ttl_seconds : Z }.
Definition parse_args (bind max_ttl_seconds : option rstring) : option Args :=
  bind ← parse_sock (default (str "0.0.0.0:53410") bind);
  seconds ← match max_ttl_seconds with None => Some 300 | Some s => parse_unsigned (2 ^ 64) s end;
  Some (mkArgs bind seconds).
Definition server_config (args : Args) : RendezvousServerConfig :=
  mkServerConfig (ar_bind args) (from_secs (ar_max_ttl_seconds args)) (from_secs 30).

(** ** The server *)

Inductive Phase := Connecting | Open | Gone.

(** [rs_result] is how the accept loop ended, when it has. *)
Record RunningServer := mkRunning {
  rs_local_addr : SocketAddr; rs_registry : Registry; rs_conns : list Phase;
  rs_result : option (result rstring unit) }.

Inductive Event :=
| ShutdownChanged (value : option bool)
| PruneTick (now : Z)
| Incoming (incoming : bool)
| Established (conn : nat) (ok : bool)
| StreamOpened (conn : nat) (now : Z) (recv : bytes)
| ConnectionLost (conn : nat).

Section server.
Context `{!RvJson ClientMessage, !RvJson ServerMessage}.

Definition set_registry (s : RunningServer) (g : Registry) : RunningServer :=
  mkRunning (rs_local_addr s) g (rs_conns s) (rs_result s).
Definition set_conns (s : RunningServer) (conns : list Phase) : RunningServer :=
  mkRunning (rs_local_addr s) (rs_registry s) conns (rs_result s).
Definition finish (s : RunningServer) (r : result rstring unit) : RunningServer :=
  mkRunning (rs_local_addr s) (rs_registry s) (rs_conns s) (Some r).

(** A turn of the loop. *)
Definition run_server (s : RunningServer) (event : Event) : RunningServer :=
  match event with
  | ShutdownChanged value => if default true value then finish s (Ok tt) else s
  | PruneTick now => set_registry s (prune_expired now (rs_registry s))
  | Incoming true => set_conns s (rs_conns s ++ [Connecting])
  | Incoming false => finish s (Ok tt)
  | _ => s
  end.

(** The task of a connection, and those of its streams. *)
Definition handle_connection (s : RunningServer) (event : Event) : RunningServer :=
  match event with
  | Established conn ok =>
    set_conns s (alter (λ p, match p with Connecting => if ok : bool then Open else Gone | p => p end) conn (rs_conns s))
  | StreamOpened conn now recv =>
    match rs_conns s !! conn with
    | Some Open => set_registry s (handle_stream now recv (rs_registry s)).2
    | _ => s
    end
  | ConnectionLost conn => set_conns s (<[conn := Gone]> (rs_conns s))
  | _ => s
  end.

Definition step (s : RunningServer) (event : Event) : RunningServer :=
  handle_connection (match rs_result s with None => run_server s event | Some _ => s end) event.

(** The certificate and the endpoint, or why there is none; an interval of
    zero makes tokio's timer panic in the task of the loop. *)
Context (rendezvous_server_config : result rstring unit) (endpoint_server : SocketAddr → result rstring SocketAddr).

Definition bind (config : RendezvousServerConfig) : result rstring RunningServer :=
  _ ← rendezvous_server_config;
  local_addr ← endpoint_server (sc_bind_addr config);
  Ok (mkRunning local_addr (new_registry (sc_max_ttl config)) []
        (if sc_prune_interval config =? 0 then Some Panic else None)).

Definition stop (s : RunningServer) : result rstring unit * RunningServer :=
  let s := step s (ShutdownChanged (Some true)) in
  let s := set_conns s ((λ _, Gone) <$> rs_conns s) in
  (match rs_result s with Some Panic | None => Err (str "rendezvous server task panicked") | Some r => r end, s).

(** The program: from the command line to the signal that ends it. *)
Definition main (args : Args) (events : list Event) : result rstring unit :=
  server ← bind (server_config args);
  (stop (foldl step server events)).1.

(** ** What a lookup answers

    The acts of a run on the registry, in the order in which they lock it. *)

Inductive Act := Handled (now : Z) (message : ClientMessage) | Pruned (now : Z).

Definition act (a : Act) (g : Registry) : Registry :=
  match a with Handled now message => (handle_message now message g).2 | Pruned now => prune_expired now g end.

Definition event_act (s : RunningServer) (event : Event) : option Act :=
  match event with
  | PruneTick now => match rs_result s with None => Some (Pruned now) | Some _ => None end
  | StreamOpened conn now recv =>
    match rs_conns s !! conn, read_client_message recv with
    | Some Open, Ok (message, _) => Some (Handled now message)
    | _, _ => None
    end
  | _ => None
  end.

(** Newest first. *)
Fixpoint acts (s : RunningServer) (events : list Event) (before : list Act) : list Act :=
  match events with
  | [] => before
  | event :: events =>
    acts (step s event) events (match event_act s event with Some a => a :: before | None => before end)
  end.

(** An accepted registration of a key, and the clock reading an act prunes by. *)
Definition registers (k : bytes) (a : Act) : option (Z * RegisterRequest) :=
  match a with
  | Handled now (Register_ r) => if bool_decide (rg_pubkey r = k) && is_ok (validate_register r) then Some (now, r) else None
  | _ => None
  end.
Definition reading (a : Act) : list Z :=
  match a with Handled now (Lookup_ _) | Handled now (Notify_ _) | Pruned now => [now] | _ => [] end.

(** The last accepted registration of a key and the readings since. *)
Fixpoint latest (k : bytes) (acts : list Act) : option (Z * RegisterRequest * list Z) :=
  match acts with
  | [] => None
  | a :: acts =>
    match registers k a with
    | Some (now, r) => Some (now, r, [])
    | None => '(now, r, readings) ← latest k acts; Some (now, r, reading a ++ readings)
    end
  end.

(** The specification: the last registration of the key, while no clock
    reading since, that of the lookup included, has reached its end. *)
Definition lookup_spec (cap : Z) (acts : list Act) (now : Z) (k : bytes) : option LookupPeer :=
  '(t, r, readings) ← latest k acts;
  if decide (Forall (λ c, c < t + Z.min (from_secs (rg_ttl_seconds r)) cap) (now :: readings)) then
    Some (mkLookupPeer (rg_alias r) (rg_pubkey r) (rg_candidates r) (as_secs (duration_since now t)))
  else None.
End server.

(** ** Correctness *)

(** The options' defaults are those of the library. *)
Lemma default_args : server_config <$> parse_args None None = Some default_server_config.
Proof. vm_compute. reflexivity. Qed.

(** Lookups and prunings change the entry of a key only by its last-seen
    reading, and by dropping it. *)
Lemma lookup_entries now k g k' :
  entries (lookup_peer now k g).2 !! k' =
    (λ e, if decide (k = k') then mkEntry (re_alias e) (re_pubkey e) (re_candidates e) (re_registered_at e) (re_expires_at e) now
          else e) <$> entries (prune_expired now g) !! k'.
Proof.
  unfold lookup_peer. cbv zeta. destruct (entries (prune_expired now g) !! k) as [e|] eqn:He; cbn [snd entries].
  - rewrite lookup_insert. case_decide; [subst; by rewrite He|]. by destruct (_ !! k').
  - case_decide; [subst; by rewrite He|]. by destruct (_ !! k').
Qed.

(** What the history of a key says its entry is. *)
Definition entry_as (cap : Z) (h : option (Z * RegisterRequest * list Z)) (k : bytes) (g : Registry) : Prop :=
  match h with
  | None => entries g !! k = None
  | Some (t, r, readings) =>
    rg_pubkey r = k ∧
    let expires := t + Z.min (from_secs (rg_ttl_seconds r)) cap in
    if decide (Forall (λ c, c < expires) readings) then registered_as r t expires g else entries g !! k = None
  end.

Definition read_later (now : Z) (h : option (Z * RegisterRequest * list Z)) : option (Z * RegisterRequest * list Z) :=
  '(t, r, readings) ← h; Some (t, r, now :: readings).

Lemma pruned_as cap h k g now : entry_as cap h k g → entry_as cap (read_later now h) k (prune_expired now g).
Proof.
  destruct h as [[[t r] readings]|]; cbn.
  - intros [Hk He]. split; [done|]. revert He. set (expires := t + _).
    destruct (decide (now < expires)) as [Hnow|Hnow].
    + destruct (decide (Forall _ readings)) as [Hall|Hall].
      * rewrite decide_True by (by constructor). by apply prune_keeps.
      * rewrite decide_False by (by intros [_ ?]%Forall_cons). intros Hn. apply eq_None_not_Some.
        intros [e [He _]%prune_entries]. congruence.
    + rewrite (decide_False (P := Forall _ (now :: _))) by (by intros [? _]%Forall_cons). intros He. apply eq_None_not_Some.
      intros [e [He' Hl]%prune_entries]. destruct (decide (Forall _ readings)); [|congruence].
      destruct He as [seen He]. rewrite Hk in He. rewrite He in He'. injection He' as <-. exact (Hnow Hl).
  - intros Hn. apply eq_None_not_Some. intros [e [He _]%prune_entries]. congruence.
Qed.

Lemma looked_up_as cap h k g now k' :
  entry_as cap h k (prune_expired now g) → entry_as cap h k (lookup_peer now k' g).2.
Proof.
  destruct h as [[[t r] readings]|]; cbn; [|intros Hn; by rewrite lookup_entries, Hn].
  intros [Hk He]. split; [done|]. destruct (decide (Forall _ readings)).
  - destruct He as [seen He]. unfold registered_as. rewrite lookup_entries, He. cbn [fmap option_fmap option_map].
    case_decide; by eexists.
  - by rewrite lookup_entries, He.
Qed.

Lemma lookup_max now k g : max_ttl (lookup_peer now k g).2 = max_ttl g.
Proof. unfold lookup_peer. cbv zeta. by destruct (entries (prune_expired now g) !! k). Qed.

Lemma queue_notify_lookup now r g :
  entries (queue_notify now r g).2 = entries (lookup_peer now (nt_target_pubkey r) g).2 ∧
  max_ttl (queue_notify now r g).2 = max_ttl (lookup_peer now (nt_target_pubkey r) g).2.
Proof. unfold queue_notify. by destruct (lookup_peer _ _ _) as [[?|] ?]. Qed.

Lemma act_max a g : max_ttl (act a g) = max_ttl g.
Proof.
  destruct a as [now [r|r|r|]|now]; cbn [act handle_message]; [| | |done|done].
  - unfold register. by destruct (validate_register r).
  - unfold lookup_request. pose proof (lookup_max now (lk_target_pubkey r) g). by destruct (lookup_peer _ _ _).
  - pose proof (queue_notify_lookup now r g) as [_ Hm]. rewrite lookup_max in Hm. by destruct (queue_notify now r g).
Qed.

Lemma entry_as_entries cap h k g g' : entries g' = entries g → entry_as cap h k g → entry_as cap h k g'.
Proof. unfold entry_as, registered_as. by intros ->. Qed.

Lemma registered_act now r k g h :
  entry_as (max_ttl g) h k g →
  entry_as (max_ttl g)
    match registers k (Handled now (Register_ r)) with Some (t, r) => Some (t, r, []) | None => h end k (register now r g).2.
Proof.
  intros He. cbn [registers]. unfold register. destruct (validate_register r); cbn [is_ok]; rewrite ?andb_false_r; try done.
  rewrite andb_true_r. cbn [snd]. case_bool_decide as Hk.
  - cbn. split; [done|]. exists now. cbn. by rewrite lookup_insert_eq.
  - destruct h as [[[t r0] readings]|]; cbn in *; [|by rewrite lookup_insert_ne].
    destruct He as [<- He]. split; [done|]. destruct (decide (Forall _ readings)); [|by rewrite lookup_insert_ne].
    destruct He as [seen He]. exists seen. cbn. by rewrite lookup_insert_ne.
Qed.

Lemma act_as k a g h :
  entry_as (max_ttl g) h k g →
  entry_as (max_ttl g)
    match registers k a with
    | Some (t, r) => Some (t, r, [])
    | None => '(t, r, readings) ← h; Some (t, r, reading a ++ readings)
    end k (act a g).
Proof.
  intros He.
  assert (Hsame : ('(t, r, readings) ← h; Some (t, r, [] ++ readings)) = h) by (by destruct h as [[[]]|]).
  destruct a as [now [r|r|r|]|now]; cbn [act handle_message reading].
  - rewrite Hsame. pose proof (registered_act now r k g h He) as Hr. revert Hr. destruct (register now r g). exact id.
  - cbn [registers]. unfold lookup_request. pose proof (looked_up_as _ _ _ _ _ (lk_target_pubkey r) (pruned_as _ _ _ _ now He)) as Hl.
    revert Hl. destruct (lookup_peer _ _ _). exact id.
  - cbn [registers]. pose proof (looked_up_as _ _ _ _ _ (nt_target_pubkey r) (pruned_as _ _ _ _ now He)) as Hl.
    pose proof (queue_notify_lookup now r g) as [Hq _]. destruct (queue_notify now r g). eapply entry_as_entries; [exact Hq|exact Hl].
  - cbn [registers]. by rewrite Hsame.
  - cbn [registers]. by apply pruned_as.
Qed.

(** The lookup of a key whose entry is what the history says. *)
Lemma lookup_as cap h now k g :
  entry_as cap h k g →
  (lookup_peer now k g).1 =
    '(t, r, readings) ← h;
    if decide (Forall (λ c, c < t + Z.min (from_secs (rg_ttl_seconds r)) cap) (now :: readings)) then
      Some (mkLookupPeer (rg_alias r) (rg_pubkey r) (rg_candidates r) (as_secs (duration_since now t)))
    else None.
Proof.
  intros He%(pruned_as _ _ _ _ now). unfold lookup_peer. cbv zeta.
  destruct h as [[[t r] readings]|]; cbn [mbind option_bind entry_as read_later] in *; [|by rewrite He].
  destruct He as [Hk He]. case_decide; [|by rewrite He].
  destruct He as [seen He]. rewrite <-Hk, He. done.
Qed.

Section history.
Context `{!RvJson ClientMessage, !RvJson ServerMessage}.

Lemma step_act s event :
  rs_registry (step s event) = match event_act s event with Some a => act a (rs_registry s) | None => rs_registry s end.
Proof.
  unfold step, event_act. destruct event as [v|now|[]|conn ok|conn now recv|conn]; cbn [handle_connection];
    try (by destruct (rs_result s)).
  - destruct (rs_result s); [done|]. cbn [run_server]. by destruct (default true v).
  - assert (rs_conns (match rs_result s with None => run_server s (StreamOpened conn now recv) | Some _ => s end) = rs_conns s
      ∧ rs_registry (match rs_result s with None => run_server s (StreamOpened conn now recv) | Some _ => s end) = rs_registry s)
      as [-> ->] by (by destruct (rs_result s)).
    destruct (rs_conns s !! conn) as [[]|]; try (by destruct (rs_result s)).
    cbn [set_registry rs_registry]. unfold handle_stream.
    destruct (read_client_message recv) as [[message rest]|e|]; [|by destruct (rs_result s); cbn; destruct (write_server_message _)|by destruct (rs_result s)].
    cbn [act]. destruct (handle_message now message (rs_registry s)) as [[resp| |] g]; cbn; [by destruct (write_server_message resp)|done..].
Qed.

Lemma acts_as cap s events before k :
  max_ttl (rs_registry s) = cap → entry_as cap (latest k before) k (rs_registry s) →
  entry_as cap (latest k (acts s events before)) k (rs_registry (foldl step s events)).
Proof.
  revert s before. induction events as [|event events IH]; intros s before Hcap He; [done|]. cbn [foldl acts].
  apply IH; rewrite step_act; destruct (event_act s event) as [a|]; [by rewrite act_max|done| |done].
  cbn [latest]. subst cap. pose proof (act_as k a _ _ He) as Ha. revert Ha. by destruct (registers k a) as [[]|].
Qed.

(** The accept loop panics only at its start and never fails. *)
Definition runs_well (s : RunningServer) : Prop := rs_result s = None ∨ rs_result s = Some (Ok tt).

Lemma step_result s event :
  rs_result (step s event) =
    match rs_result s, event with
    | None, ShutdownChanged v => if default true v then Some (Ok tt) else None
    | None, Incoming false => Some (Ok tt)
    | r, _ => r
    end.
Proof.
  unfold step. destruct (rs_result s) eqn:Hr; destruct event as [v|now|[]|conn ok|conn now recv|conn]; cbn;
    try done; try (by destruct (rs_conns s !! conn) as [[]|]). by destruct (default true v).
Qed.

Lemma step_well s event : runs_well s → runs_well (step s event).
Proof.
  unfold runs_well. rewrite step_result. intros [-> | ->]; [|by right].
  destruct event as [v|now|[]|conn ok|conn now recv|conn]; try (by left); [|by right]. destruct (default true v); auto.
Qed.

(** Once its endpoint is bound the program ends well, whatever happens. *)
Theorem main_ends_well certificate endpoint args events s :
  bind certificate endpoint (server_config args) = Ok s → main certificate endpoint args events = Ok tt.
Proof.
  intros Hb. unfold main. rewrite Hb. cbn [mbind result_bind].
  assert (Hw : runs_well s).
  { unfold bind in Hb. destruct certificate; [|done..]. cbn [mbind result_bind] in Hb.
    destruct (endpoint _); [|done..]. injection Hb as <-. by left. }
  clear Hb. revert s Hw. induction events as [|event events IH]; intros s Hw; [|by apply IH, step_well].
  cbn [foldl]. unfold stop. cbn [fst set_conns rs_result]. rewrite step_result. by destruct Hw as [-> | ->].
Qed.

(** A stopped server answers nothing and changes nothing any more. *)
Definition silent (s : RunningServer) : Prop := Forall (λ p, p = Gone) (rs_conns s) ∧ is_Some (rs_result s).

Lemma silent_step s event : silent s → silent (step s event) ∧ rs_registry (step s event) = rs_registry s.
Proof.
  intros [Hgone [r Hr]]. rewrite step_act. unfold silent, event_act. rewrite step_result. unfold step. rewrite Hr.
  assert (Hg : ∀ c p, rs_conns s !! c = Some p → p = Gone) by (by apply Forall_lookup).
  destruct event as [v|now|[]|c ok|c now recv|c]; cbn; try done.
  - split; [|done]. split; [|done]. apply Forall_lookup. intros i p. rewrite list_lookup_alter.
    case_decide; [|by apply Hg]. intros (q & Hq & ->)%fmap_Some. by rewrite (Hg _ _ Hq).
  - destruct (rs_conns s !! c) as [p|] eqn:Hc; [|done]. by rewrite (Hg _ _ Hc).
  - split; [|done]. split; [|done]. by apply Forall_insert.
Qed.

Theorem stopped_is_silent s events conn :
  let s' := foldl step (stop s).2 events in
  rs_registry s' = rs_registry s ∧ rs_conns s' !! conn ≠ Some Open.
Proof.
  assert (Hs : silent (stop s).2 ∧ rs_registry (stop s).2 = rs_registry s).
  { unfold stop, silent. cbn [snd set_conns rs_registry rs_conns rs_result]. rewrite step_act, step_result.
    split; [|done]. split; [by apply Forall_fmap, Forall_true|]. destruct (rs_result s); by eexists. }
  destruct Hs as [Hs <-]. generalize dependent (stop s).2. clear s. cbv zeta.
  induction events as [|event events IH]; intros s Hs; cbn [foldl].
  - split; [done|]. intros Ho. destruct Hs as [Hgone _]. rewrite Forall_lookup in Hgone. by apply Hgone in Ho.
  - destruct (silent_step s event Hs) as [Hs' <-]. by apply IH.
Qed.

Lemma run_lookup certificate endpoint config s events now k :
  bind certificate endpoint config = Ok s →
  (lookup_peer now k (rs_registry (foldl step s events))).1 = lookup_spec (sc_max_ttl config) (acts s events []) now k.
Proof.
  intros Hb. apply (lookup_as (sc_max_ttl config)). unfold bind in Hb. destruct certificate; [|done..].
  cbn [mbind result_bind] in Hb. destruct (endpoint (sc_bind_addr config)); [|done..]. injection Hb as <-.
  by apply acts_as.
Qed.

(** C37: What the running server answers to a lookup, whatever was connected,
    requested and pruned before, in whatever order the requests reached the
    registry: the last registration of the key it accepted, with the
    candidates it named, exactly as long as no clock reading since has
    reached its end; the reply on the stream is that answer. *)
Theorem lookup_answers_history certificate endpoint config s events now recv q rest conn :
  bind certificate endpoint config = Ok s →
  read_client_message recv = Ok (Lookup_ q, rest) →
  let s' := foldl step s events in
  let found := lookup_spec (sc_max_ttl config) (acts s events []) now (lk_target_pubkey q) in
  rs_conns s' !! conn = Some Open →
  (handle_stream now recv (rs_registry s')).1 =
    match write_server_message (LookupResult (mkLookupResponse found)) with Ok b => b | _ => [] end ∧
  rs_registry (step s' (StreamOpened conn now recv)) = (lookup_peer now (lk_target_pubkey q) (rs_registry s')).2.
Proof.
  intros Hb Hr s' found Hc.
  pose proof (run_lookup _ _ _ _ events now (lk_target_pubkey q) Hb) as Hf. fold s' found in Hf.
  assert (Hh : handle_message now (Lookup_ q) (rs_registry s') =
    (Ok (LookupResult (mkLookupResponse found)), (lookup_peer now (lk_target_pubkey q) (rs_registry s')).2)).
  { cbn [handle_message]. unfold lookup_request. rewrite <-Hf. by destruct (lookup_peer _ _ _). }
  split.
  - unfold handle_stream. rewrite Hr, Hh. by destruct (write_server_message _).
  - rewrite step_act. cbn [event_act]. rewrite Hc, Hr. cbn [act]. by rewrite Hh.
Qed.
End history.
