(* ===== verification/Wan.v ===== *)
(** * WAN registration and lookup

    Model of crates/daemon/src/wan.rs: the conversion of native candidates to
    and from the rendezvous protocol, the registration request and its
    lifetime, the register loop and the candidate lookup.  Name resolution,
    candidate gathering, the rendezvous call and the wait for the next round
    or for shutdown are what the environment answers in each round. *)

From stdpp Require Import prelude gmap strings.
From Stdlib Require Import ZArith Lia.
From S2P Require Import Prelude RustStr Errors Inet Candidates Rendezvous.

Local Open Scope Z_scope.

(** [register_interval_seconds.saturating_mul(3).max(1)] *)
Definition registration_ttl_seconds (register_interval_seconds : Z) : Z :=
  Z.max (Z.min (register_interval_seconds * 3) (2 ^ 64 - 1)) 1.

Definition candidate_to_rendezvous (c : NativeCandidate) : Candidate :=
  mkRvCandidate (match nc_kind c with Local_ => RvLocal | ServerReflexive => RvServerReflexive end)
    (show_sock (nc_address c)) (nc_priority c).

Definition candidate_from_rendezvous (c : Candidate) : result rstring NativeCandidate :=
  address ← ok_or (parse_sock (cd_address c)) (str "invalid rendezvous candidate address " ++ cd_address c);
  Ok (mkCandidate (match cd_kind c with RvLocal => Local_ | RvServerReflexive => ServerReflexive end)
        address (cd_priority c)).

(** [iter().map(f).collect::<Result<Vec<_>>>()] *)
Fixpoint collect {E A B} (f : A → result E B) (l : list A) : result E (list B) :=
  match l with
  | [] => Ok []
  | a :: l => b ← f a; bs ← collect f l; Ok (b :: bs)
  end.

Definition build_register_request (alias : rstring) (public_bytes : bytes)
    (candidates : list NativeCandidate) (ttl_seconds : Z) : RegisterRequest :=
  mkRegister alias public_bytes (candidate_to_rendezvous <$> candidates) ttl_seconds.

(** [lookup_peer_candidates] after the rendezvous answer. *)
Definition lookup_peer_candidates (response : result rstring LookupResponse) :
    result rstring (list NativeCandidate) :=
  response ← response;
  peer ← ok_or (lr_peer response) (str "WAN peer is not registered with rendezvous");
  collect candidate_from_rendezvous (lp_candidates peer).

(** [resolve_stun_servers], with the resolver as a parameter. *)
Definition resolve_stun_servers (lookup_host : rstring → option (list SocketAddr)) (servers : list rstring) :
    result rstring (list SocketAddr) :=
  for_each (λ resolved server,
    addrs ← ok_or (lookup_host server) (str "failed to resolve STUN server " ++ server);
    _ ← ensure (negb (bool_decide (addrs = []))) (str "STUN server resolved no addresses: " ++ server);
    Ok (resolved ++ addrs)) [] servers.

(** One round of the register loop as the environment plays it: what gathering
    returned, whether the rendezvous call succeeded, and whether the wait
    ended with a shutdown. *)
Record round := mkRound {
  rn_gathered : result NativeError (list NativeCandidate);
  rn_registered : result rstring RegisteredResponse;
  rn_shutdown : bool }.

(** [run_register_loop_with_register] over a sequence of rounds; also returns
    the requests that were sent. *)
Fixpoint run_register_loop (alias : rstring) (public_bytes : bytes) (ttl_seconds : Z)
    (rounds : list round) : result NativeError unit * list RegisterRequest :=
  match rounds with
  | [] => (Ok tt, [])
  | r :: rounds =>
    match rn_gathered r with
    | Ok candidates =>
      let request := build_register_request alias public_bytes candidates ttl_seconds in
      if rn_shutdown r then (Ok tt, [request])
      else
        let '(result, requests) := run_register_loop alias public_bytes ttl_seconds rounds in
        (result, request :: requests)
    | Err e => (Err e, [])
    | Panic => (Panic, [])
    end
  end.

(** ** Correctness *)

(** An IPv4 endpoint with a usable port. *)
Definition v4_endpoint (s : SocketAddr) : Prop :=
  match s with
  | SockV4 a b c d p => octet a ∧ octet b ∧ octet c ∧ octet d ∧ u16_ok p ∧ p ≠ 0
  | SockV6 _ _ _ _ => False
  end.

Lemma candidate_roundtrip c :
  v4_endpoint (nc_address c) → candidate_from_rendezvous (candidate_to_rendezvous c) = Ok c.
Proof.
  destruct c as [kind [a b c d p|] prio]; [|done]. intros (? & ? & ? & ? & ? & ?).
  unfold candidate_from_rendezvous, candidate_to_rendezvous. cbn [cd_address nc_address nc_kind cd_kind nc_priority].
  rewrite parse_show_v4 by done. by destruct kind.
Qed.

Lemma collect_roundtrip cs :
  Forall (λ c, v4_endpoint (nc_address c)) cs →
  collect candidate_from_rendezvous (candidate_to_rendezvous <$> cs) = Ok cs.
Proof.
  induction 1 as [|c cs Hc Hcs IH]; [done|]. cbn [fmap list_fmap collect].
  rewrite candidate_roundtrip by done. cbn [mbind result_bind]. by rewrite IH.
Qed.

Lemma validate_candidates_ok cs :
  Forall (λ c, v4_endpoint (nc_address c)) cs →
  for_each (λ _ c, validate_candidate c) tt (candidate_to_rendezvous <$> cs) = Ok tt.
Proof.
  induction 1 as [|[kind [a b c d p|] prio] cs Hc Hcs IH]; [done| |done]. cbn [fmap list_fmap for_each].
  destruct Hc as (? & ? & ? & ? & ? & ?).
  assert (validate_candidate (candidate_to_rendezvous (mkCandidate kind (SockV4 a b c d p) prio)) = Ok tt) as ->.
  { unfold validate_candidate, candidate_to_rendezvous. cbn [cd_address nc_address].
    rewrite parse_show_v4 by done. cbn [ok_or mbind result_bind sock_port].
    destruct (Z.eqb_spec p 0); done. }
  exact IH.
Qed.

Lemma registration_ttl_pos n : 0 ≤ n → 1 ≤ registration_ttl_seconds n < 2 ^ 64.
Proof. unfold registration_ttl_seconds. lia. Qed.

(** The registry accepts what a daemon sends. *)
Lemma build_register_valid alias key cs ttl :
  is_blank alias = false → cs ≠ [] → Forall (λ c, v4_endpoint (nc_address c)) cs → 0 < ttl →
  validate_register (build_register_request alias key cs ttl) = Ok tt.
Proof.
  intros Halias Hne Hcs Httl. unfold validate_register, require_nonblank, build_register_request.
  cbn [rg_alias rg_candidates rg_ttl_seconds]. rewrite Halias. cbn [negb ensure mbind result_bind].
  rewrite bool_decide_false by (by destruct cs). cbn [negb ensure mbind result_bind].
  destruct (Z.eqb_spec ttl 0); [lia|]. by apply validate_candidates_ok.
Qed.

(** What a registration leaves for a lookup in time. *)
Lemma wan_registered now now' alias key cs interval g :
  is_blank alias = false → cs ≠ [] → Forall (λ c, v4_endpoint (nc_address c)) cs → u64_ok interval →
  let ttl := registration_ttl_seconds interval in
  ∃ answer g1, register now (build_register_request alias key cs ttl) g = (Ok answer, g1) ∧
    (now' < now + Z.min (from_secs ttl) (max_ttl g) →
     ∃ seen, (lookup_peer now' key g1).1 = Some (mkLookupPeer alias key (candidate_to_rendezvous <$> cs) seen)).
Proof.
  intros Halias Hne Hcs [Hi _] ttl. pose proof (registration_ttl_pos interval Hi) as Httl. fold ttl in Httl.
  set (request := build_register_request alias key cs ttl).
  assert (Hv : validate_register request = Ok tt) by (apply build_register_valid; [done..|lia]).
  unfold register. rewrite Hv. eexists _, _. split; [reflexivity|]. intros Hlive.
  set (e := mkEntry _ _ _ _ _ _). set (g1 := mkRegistry _ _ _).
  pose proof (lookup_peer_cases now' key g1) as Hc.
  assert (Heg : entries g1 !! key = Some e) by (unfold g1; simpl; by rewrite lookup_insert_eq).
  rewrite Heg, decide_True in Hc by (unfold live; exact Hlive). rewrite Hc. by eexists.
Qed.

(** A daemon's registration is accepted by the rendezvous registry, and until
    it expires a peer that looks the daemon up gets its candidates back exactly
    as they were gathered. *)
Theorem wan_register_lookup now now' alias key cs interval g :
  is_blank alias = false → cs ≠ [] → Forall (λ c, v4_endpoint (nc_address c)) cs → u64_ok interval →
  let ttl := registration_ttl_seconds interval in
  let request := build_register_request alias key cs ttl in
  let '(answer, g1) := register now request g in
  is_ok answer = true ∧
  (now' < now + Z.min (from_secs ttl) (max_ttl g) →
   lookup_peer_candidates (Ok (mkLookupResponse (lookup_peer now' key g1).1)) = Ok cs).
Proof.
  intros Halias Hne Hcs Hi ttl request.
  destruct (wan_registered now now' alias key cs interval g Halias Hne Hcs Hi) as (answer & g1 & Hreg & Hlook).
  fold ttl request in Hreg, Hlook. rewrite Hreg. split; [done|]. intros Hlive. destruct (Hlook Hlive) as [seen ->].
  by apply collect_roundtrip.
Qed.

(** The register loop keeps registering after failed calls: it sends one
    request per round until a shutdown or a gathering error ends it. *)
Theorem register_loop_retries alias key ttl before last after :
  Forall (λ r, is_ok (rn_gathered r) = true ∧ rn_shutdown r = false) before →
  is_ok (rn_gathered last) = true → rn_shutdown last = true →
  (run_register_loop alias key ttl (before ++ last :: after)).1 = Ok tt ∧
  length (run_register_loop alias key ttl (before ++ last :: after)).2 = S (length before).
Proof.
  intros Hb Hok Hsd. induction Hb as [|r before [Hr Hs] Hb IH]; cbn [app run_register_loop].
  - apply is_ok_spec in Hok as [cs ->]. by rewrite Hsd.
  - apply is_ok_spec in Hr as [cs ->]. rewrite Hs. destruct IH as [IH1 IH2].
    destruct (run_register_loop alias key ttl (before ++ last :: after)) as [res reqs]. simpl in *. auto.
Qed.
