(* ===== verification/WanService.v ===== *)
(** * A daemon registered with a rendezvous server

    Model of the rendezvous calls of crates/daemon/src/wan.rs ([connect_client],
    [notify_peer], the call and the wait of the register loop), and of the
    register loop of a daemon joined to a running server: which acts on the
    registry the rounds of the loop are, between those of everybody else. *)

From stdpp Require Import prelude gmap strings.
From Stdlib Require Import ZArith Lia.
From S2P Require Import Prelude RustStr Errors Inet Text Candidates Rendezvous RendezvousServer Wan.

Local Open Scope Z_scope.

(** ** Calls *)

Section calls.
(** A connection to a URL, and a call over it. *)
Context {Client : Type} (connect : rstring → result rstring Client) (call : Client → ClientMessage → result rstring ServerMessage).

Definition connect_client (rendezvous_url : option rstring) : result rstring Client :=
  url ← ok_or rendezvous_url (str "rendezvous_url is required for WAN lookup"); connect url.

Definition notify_peer (rendezvous_url : option rstring) (public_bytes target_pubkey : bytes) : result rstring unit :=
  client ← connect_client rendezvous_url;
  _ ← expect "unexpected rendezvous notify response" (λ m, match m with NotifyQueued r => Some r | _ => None end)
        (call client (Notify_ (mkNotify public_bytes target_pubkey)));
  Ok tt.

(** The closure [run_register_loop] passes: a connection for every call. *)
Definition register_call (rendezvous_url : rstring) (request : RegisterRequest) : result rstring RegisteredResponse :=
  client ← connect rendezvous_url;
  expect "unexpected rendezvous register response" (λ m, match m with Registered r => Some r | _ => None end) (call client (Register_ request)).
End calls.

(** What ends the wait between two rounds: the shutdown channel changed (or
    its sender is gone), or the interval is over. *)
Inductive Wait := Changed (value : option bool) | Elapsed.
Definition wait_for_register_interval (w : Wait) : bool :=
  match w with Changed value => default true value | Elapsed => false end.

(** ** The loop against a server *)

(** A round: what was gathered, when the request reached the registry if it
    did, how the wait ended, and what others did in the meantime, in order. *)
Record WanRound := mkWanRound {
  wr_gathered : result NativeError (list NativeCandidate); wr_reached : option Z; wr_answer : result rstring RegisteredResponse;
  wr_wait : Wait; wr_others : list Act }.

Definition as_round (r : WanRound) : round :=
  mkRound (wr_gathered r) (wr_answer r) (wait_for_register_interval (wr_wait r)).

(** The acts of a round, newest first. *)
Definition round_acts (r : WanRound) (request : RegisterRequest) : list Act :=
  reverse (wr_others r) ++ match wr_reached r with Some t => [Handled t (Register_ request)] | None => [] end.

(** The acts of the rounds of a daemon, newest first: one request a round. *)
Definition loop_acts (alias : rstring) (public_bytes : bytes) (ttl_seconds : Z) (rounds : list WanRound) : list Act :=
  foldl (λ before '(r, request), round_acts r request ++ before) []
    (zip rounds (run_register_loop alias public_bytes ttl_seconds (as_round <$> rounds)).2).

(** ** Correctness *)

Definition gathers (r : WanRound) : list NativeCandidate := match wr_gathered r with Ok cs => cs | _ => [] end.
(** The loop goes on after the round. *)
Definition goes_on (r : WanRound) : Prop :=
  is_ok (wr_gathered r) = true ∧ wait_for_register_interval (wr_wait r) = false.

Lemma loop_requests alias key ttl rounds :
  Forall goes_on rounds →
  (run_register_loop alias key ttl (as_round <$> rounds)).2 =
    (λ r, build_register_request alias key (gathers r) ttl) <$> rounds.
Proof.
  induction 1 as [|r rounds [Hok Hwait] _ IH]; [done|]. cbn [fmap list_fmap run_register_loop as_round rn_gathered rn_shutdown].
  rewrite Hwait. unfold gathers at 1. destruct (wr_gathered r); [|done..]. rewrite <-IH. by destruct (run_register_loop _ _ _ _).
Qed.

Lemma zip_fmap_r {A B} (f : A → B) l : zip l (f <$> l) = (λ a, (a, f a)) <$> l.
Proof. induction l as [|a l IH]; [done|]. cbn. by rewrite IH. Qed.

(** The acts of the rounds after the last that reached the server. *)
Lemma missed_acts alias key ttl missed before :
  Forall (λ m, wr_reached m = None) missed →
  foldl (λ before '(r, request), round_acts r request ++ before) before
    ((λ r, (r, build_register_request alias key (gathers r) ttl)) <$> missed) =
  reverse (missed ≫= wr_others) ++ before.
Proof.
  intros Hm. revert before. induction Hm as [|m missed Hm _ IH]; intros before; [done|].
  cbn [fmap list_fmap foldl]. rewrite IH. unfold round_acts. rewrite Hm, app_nil_r.
  cbn [mbind list_bind]. by rewrite reverse_app, <-app_assoc.
Qed.

Lemma loop_acts_last alias key ttl before r missed t :
  Forall goes_on (before ++ r :: missed) → wr_reached r = Some t → Forall (λ m, wr_reached m = None) missed →
  ∃ older, loop_acts alias key ttl (before ++ r :: missed) =
    reverse (wr_others r ++ (missed ≫= wr_others)) ++
    Handled t (Register_ (build_register_request alias key (gathers r) ttl)) :: older.
Proof.
  intros Hgo Ht Hm. unfold loop_acts. rewrite loop_requests by done. rewrite zip_fmap_r, fmap_app, foldl_app.
  cbn [fmap list_fmap foldl]. rewrite missed_acts by done. unfold round_acts. rewrite Ht.
  eexists. rewrite reverse_app, <-!app_assoc. reflexivity.
Qed.

(** The last registration in a history. *)
Lemma latest_app k acts t r older :
  Forall (λ a, registers k a = None) acts → registers k (Handled t (Register_ r)) = Some (t, r) →
  latest k (acts ++ Handled t (Register_ r) :: older) = Some (t, r, acts ≫= reading).
Proof.
  intros Ha Hr. induction Ha as [|a acts Ha _ IH]; cbn [app latest]; [by rewrite Hr|]. rewrite Ha, IH. done.
Qed.

