(* ===== verification/LocalSession.v ===== *)
(** * LocalSend upload sessions

    Model of crates/protocol-localsend-v2/src/session.rs over the data of
    dto.rs.  A [BTreeMap] is a finite map iterated in key order.  The session
    table is one component of the server's world; an [Instant] is a number of
    nanoseconds and every operation is given the clock reading it takes.  The
    mutex is never poisoned: no operation panics while it holds the lock. *)

From stdpp Require Import prelude gmap strings sorting.
From Stdlib Require Import ZArith Lia.
From S2P Require Import Prelude RustStr Errors Fs Transfer TrustStore.

Local Open Scope Z_scope.

(** ** Data (dto.rs) *)

Record DeviceInfo := mkDeviceInfo {
  di_alias : rstring; di_version : rstring; di_device_model : option rstring;
  di_device_type : option rstring; di_fingerprint : rstring; di_port : Z;
  di_protocol : rstring; di_download : bool }.

(** [serde_json::Value]; the program only carries it. *)
#[warnings="-register-all"]
Inductive JsonValue :=
| JNull | JBool (b : bool) | JNumber (text : rstring) | JString (s : rstring)
| JArray (l : list JsonValue) | JObject (l : list (rstring * JsonValue)).

Record FileMeta := mkFileMeta {
  fm_id : rstring; fm_file_name : rstring; fm_size : Z; fm_file_type : option rstring;
  fm_sha256 : option rstring; fm_preview : option rstring;
  fm_metadata : option (list (rstring * JsonValue)) }.

Record PrepareUploadRequest := mkPrepareUpload {
  pu_info : DeviceInfo; pu_files : gmap rstring FileMeta }.

(** ** State *)

Record SessionFile := mkSessionFile { sf_token : rstring; sf_meta : FileMeta; sf_uploaded : bool }.
Record Session := mkSession { se_expires_at : Z; se_files : gmap rstring SessionFile }.

Record PreparedSession := mkPrepared { ps_session_id : rstring; ps_files : gmap rstring rstring }.
Record AuthorizedUpload := mkAuthorized {
  au_session_id : rstring; au_file_id : rstring; au_token : rstring; au_meta : FileMeta }.

(** What the server's handlers share: the file system, the session table, the
    trust database ([None] when it cannot be opened) and the UUIDs drawn. *)
Record LsWorld := mkLsWorld {
  l_fs : fs; l_sessions : gmap rstring Session; l_trust : option TrustStore; l_uuid : nat }.

Abbreviation LM := (SE LsWorld LocalSendError).

Definition set_l_fs (w : LsWorld) t := mkLsWorld t (l_sessions w) (l_trust w) (l_uuid w).
Definition set_l_sessions (w : LsWorld) m := mkLsWorld (l_fs w) m (l_trust w) (l_uuid w).
Definition set_l_trust (w : LsWorld) s := mkLsWorld (l_fs w) (l_sessions w) s (l_uuid w).
Definition bump (w : LsWorld) (n : nat) := mkLsWorld (l_fs w) (l_sessions w) (l_trust w) (l_uuid w + n).

Definition session_error (message : string) : LocalSendError := LsSession (str message).

(** [BTreeMap::iter] *)
Definition key_leb {A} (a b : rstring * A) : bool := lex_leb a.1 b.1.
Definition btree_iter {A} (m : gmap rstring A) : list (rstring * A) := stable_sort key_leb (map_to_list m).

(** ** Operations *)

Fixpoint validate_loop (entries : list (rstring * FileMeta)) (seen : gset rstring) : result LocalSendError unit :=
  match entries with
  | [] => Ok tt
  | (file_id, meta) :: entries =>
    _ ← ensure (bool_decide (file_id = fm_id meta)) (session_error "file id does not match map key");
    _ ← ensure (negb (bool_decide (fm_id meta ∈ seen))) (session_error "duplicate file id");
    validate_loop entries ({[fm_id meta]} ∪ seen)
  end.
Definition validate_file_ids (request : PrepareUploadRequest) : result LocalSendError unit :=
  validate_loop (btree_iter (pu_files request)) ∅.

(** The sessions [prune_expired_locked] keeps, and how many it removes. *)
Definition prune_expired_locked (now : Z) (sessions : gmap rstring Session) : gmap rstring Session :=
  filter (λ kv, now < se_expires_at kv.2) sessions.
Definition prune_removed (now : Z) (sessions : gmap rstring Session) : nat :=
  (size sessions - size (prune_expired_locked now sessions))%nat.

Arguments prune_expired_locked : simpl never.

Definition prune (now : Z) : LM unit := modify (λ w, set_l_sessions w (prune_expired_locked now (l_sessions w))).

Section sessions.
Context {U : Uuid}.

Definition ls_new_v4 : LM rstring := λ w, (Ok (new_v4 (l_uuid w)), bump w 1).

(** The loop of [prepare] over the files of the request. *)
Fixpoint prepare_files (entries : list (rstring * FileMeta)) (prepared : gmap rstring rstring)
    (session : gmap rstring SessionFile) : LM (gmap rstring rstring * gmap rstring SessionFile) :=
  match entries with
  | [] => mret (prepared, session)
  | (file_id, meta) :: entries =>
    token ← ls_new_v4;
    prepare_files entries (<[file_id := token]> prepared) (<[file_id := mkSessionFile token meta false]> session)
  end.

Definition prepare (ttl now : Z) (request : PrepareUploadRequest) : LM PreparedSession :=
  _ ← lift (validate_file_ids request);
  session_id ← ls_new_v4;
  '(prepared, session) ← prepare_files (btree_iter (pu_files request)) ∅ ∅;
  _ ← modify (λ w, set_l_sessions w (<[session_id := mkSession (now + ttl) session]> (l_sessions w)));
  mret (mkPrepared session_id prepared).
End sessions.

Definition authorize_upload (now : Z) (session_id file_id token : rstring) : LM AuthorizedUpload :=
  _ ← prune now;
  sessions ← gets l_sessions;
  session ← lift (ok_or (sessions !! session_id) (session_error "unknown session"));
  file ← lift (ok_or (se_files session !! file_id) (session_error "unknown file"));
  _ ← lift (ensure (negb (sf_uploaded file)) (session_error "file already uploaded"));
  _ ← lift (ensure (bool_decide (sf_token file = token)) (session_error "invalid upload token"));
  mret (mkAuthorized session_id file_id token (sf_meta file)).

Definition mark_uploaded (now : Z) (session_id file_id : rstring) : LM unit :=
  _ ← prune now;
  sessions ← gets l_sessions;
  session ← lift (ok_or (sessions !! session_id) (session_error "unknown session"));
  file ← lift (ok_or (se_files session !! file_id) (session_error "unknown file"));
  let file := mkSessionFile (sf_token file) (sf_meta file) true in
  let session := mkSession (se_expires_at session) (<[file_id := file]> (se_files session)) in
  modify (λ w, set_l_sessions w (<[session_id := session]> (l_sessions w))).

Definition cancel_session (now : Z) (session_id : rstring) : LM bool :=
  _ ← prune now;
  sessions ← gets l_sessions;
  _ ← modify (λ w, set_l_sessions w (delete session_id (l_sessions w)));
  mret (bool_decide (is_Some (sessions !! session_id))).

Definition session_id_for_file (now : Z) (file_id : rstring) : LM (option rstring) :=
  _ ← prune now;
  sessions ← gets l_sessions;
  mret ((λ ikv, ikv.2.1) <$> list_find (λ kv, is_Some (se_files kv.2 !! file_id)) (btree_iter sessions)).

Definition cancel_all : LM nat :=
  sessions ← gets l_sessions;
  _ ← modify (λ w, set_l_sessions w ∅);
  mret (size sessions).

(** ** Lemmas *)

(** Runs the statements of a handler whose results are known. *)
Ltac se_run :=
  cbv [mbind SE_bind modify gets lift mret SE_ret fail prune];
  cbn [l_sessions set_l_sessions set_l_fs set_l_trust l_uuid l_fs l_trust bump ensure ok_or negb].

Lemma elem_of_btree_iter {A} (m : gmap rstring A) k a : (k, a) ∈ btree_iter m ↔ m !! k = Some a.
Proof. unfold btree_iter. by rewrite elem_of_stable_sort, elem_of_map_to_list. Qed.

Lemma NoDup_btree_iter {A} (m : gmap rstring A) : NoDup (btree_iter m).*1.
Proof. unfold btree_iter. rewrite stable_sort_perm. apply NoDup_fst_map_to_list. Qed.

Lemma validate_loop_spec entries seen :
  NoDup entries.*1 → (∀ k, k ∈ entries.*1 → k ∉ seen) →
  is_ok (validate_loop entries seen) = true ↔ ∀ k m, (k, m) ∈ entries → fm_id m = k.
Proof.
  revert seen. induction entries as [|[k m] entries IH]; intros seen Hnd Hseen.
  - split; [intros _ k m []%not_elem_of_nil|done].
  - cbn [fmap list_fmap fst] in *. apply NoDup_cons in Hnd as [Hk Hnd]. cbn [validate_loop].
    destruct (decide (k = fm_id m)) as [Hid|Hid];
      [rewrite (bool_decide_true (k = fm_id m)) by done|rewrite (bool_decide_false (k = fm_id m)) by done];
      cbn [ensure mbind result_bind].
    + rewrite <-Hid. rewrite bool_decide_false by (apply Hseen; left). cbn [negb ensure mbind result_bind].
      rewrite IH; [|done|].
      * split; intros Hall k' m'; [intros [[= -> ->]|]%elem_of_cons; auto|intros; apply Hall; by right].
      * intros k' Hk'. apply not_elem_of_union. split; [set_solver|]. apply Hseen. by right.
    + split; [done|]. intros Hall. destruct Hid. symmetry. apply Hall. left.
Qed.

(** [prepare] accepts a request exactly when every key is its file's id. *)
Lemma validate_file_ids_spec request :
  is_ok (validate_file_ids request) = true ↔ ∀ k m, pu_files request !! k = Some m → fm_id m = k.
Proof.
  unfold validate_file_ids. rewrite validate_loop_spec; [|apply NoDup_btree_iter|set_solver].
  by setoid_rewrite elem_of_btree_iter.
Qed.

Lemma prune_lookup now sessions sid se :
  prune_expired_locked now sessions !! sid = Some se ↔ sessions !! sid = Some se ∧ now < se_expires_at se.
Proof. unfold prune_expired_locked. by rewrite map_lookup_filter_Some. Qed.

(** What an authorization needs: a live session, a file of it that is still to
    come, and that file's token. *)
Lemma authorize_upload_Ok now sid fid token w a w' :
  authorize_upload now sid fid token w = (Ok a, w') ↔
  ∃ se f, l_sessions w !! sid = Some se ∧ now < se_expires_at se ∧ se_files se !! fid = Some f ∧
    sf_uploaded f = false ∧ sf_token f = token ∧ a = mkAuthorized sid fid token (sf_meta f) ∧
    w' = set_l_sessions w (prune_expired_locked now (l_sessions w)).
Proof.
  split.
  - unfold authorize_upload, prune. intros H. inv_se. bools. subst. cbn [l_sessions set_l_sessions] in *.
    apply prune_lookup in H2 as [??]. eauto 10.
  - intros (se & f & Hs & Hl & Hf & Hu & <- & -> & ->). unfold authorize_upload, prune.
    assert (Hp : prune_expired_locked now (l_sessions w) !! sid = Some se) by (by apply prune_lookup).
    se_run. rewrite Hp. se_run. rewrite Hf. se_run. rewrite Hu. se_run. by rewrite bool_decide_true.
Qed.

(** ... which for a given file of a given session is the clock and the token. *)
Lemma authorize_iff now sid fid token w se f :
  l_sessions w !! sid = Some se → se_files se !! fid = Some f → sf_uploaded f = false →
  is_ok (authorize_upload now sid fid token w).1 = true ↔ now < se_expires_at se ∧ token = sf_token f.
Proof.
  intros Hs Hf Hu. rewrite is_ok_spec. split.
  - intros [a Ha]. destruct (authorize_upload now sid fid token w) as [r w'] eqn:He. cbn in Ha. subst r.
    apply authorize_upload_Ok in He as (se' & f' & ? & ? & ? & ? & ? & _). by simplify_eq.
  - intros [Hlt ->]. eexists. edestruct authorize_upload_Ok as [_ Ha]. erewrite Ha; [done|]. eauto 10.
Qed.

Lemma authorize_upload_state now sid fid token w :
  (authorize_upload now sid fid token w).2 = set_l_sessions w (prune_expired_locked now (l_sessions w)).
Proof.
  unfold authorize_upload. se_run.
  destruct (prune_expired_locked _ _ !! sid) as [se|]; [|done]. se_run.
  destruct (se_files se !! fid) as [f|]; [|done]. se_run.
  destruct (sf_uploaded f); [done|]. se_run. by case_bool_decide.
Qed.

(** Version 4 UUIDs are taken to be pairwise distinct. *)
Class UuidFresh `{Uuid} := new_v4_inj :: Inj (=) (=) new_v4.

Section reachability.
Context {U : Uuid} {UF : UuidFresh}.

Lemma prepare_files_spec entries p m w :
  NoDup entries.*1 →
  ∃ p' m', prepare_files entries p m w = (Ok (p', m'), bump w (length entries)) ∧
    (∀ id, id ∉ entries.*1 → p' !! id = p !! id ∧ m' !! id = m !! id) ∧
    (∀ i id meta, entries !! i = Some (id, meta) →
       p' !! id = Some (new_v4 (l_uuid w + i)) ∧
       m' !! id = Some (mkSessionFile (new_v4 (l_uuid w + i)) meta false)).
Proof.
  revert p m w. induction entries as [|[k meta] entries IH]; intros p m w Hnd.
  - exists p, m. cbn. destruct w. unfold bump. cbn. rewrite Nat.add_0_r. by split_and!.
  - cbn [fmap list_fmap fst] in *. apply NoDup_cons in Hnd as [Hk Hnd]. cbn [prepare_files].
    rewrite (SE_bind_eq _ _ w (new_v4 (l_uuid w)) (bump w 1)) by done.
    destruct (IH (<[k := new_v4 (l_uuid w)]> p)
                (<[k := mkSessionFile (new_v4 (l_uuid w)) meta false]> m) (bump w 1) Hnd)
      as (p' & m' & -> & Hout & Hin).
    exists p', m'. split_and!.
    + unfold bump. cbn. by rewrite <-Nat.add_assoc.
    + intros id [??]%not_elem_of_cons. destruct (Hout id) as [-> ->]; [done|].
      by rewrite !lookup_insert_ne.
    + intros [|i] id meta'; cbn [lookup list_lookup].
      * intros [= <- <-]. destruct (Hout k Hk) as [-> ->]. by rewrite !lookup_insert_eq, Nat.add_0_r.
      * intros Hi. destruct (Hin i id meta' Hi) as [-> ->]. cbn [l_uuid bump].
        assert (l_uuid w + 1 + i = l_uuid w + S i)%nat as -> by lia. done.
Qed.

Lemma NoDup_fst_lookup {A} (l : list (rstring * A)) k a : (k, a) ∈ l → ∃ i, l !! i = Some (k, a).
Proof. intros [i Hi]%list_elem_of_lookup. eauto. Qed.

(** The session a successful [prepare] adds. *)
Lemma prepare_Ok ttl now request w :
  is_ok (validate_file_ids request) = true →
  ∃ p se, prepare ttl now request w =
      (Ok p, set_l_sessions (bump w (1 + size (pu_files request))) (<[ps_session_id p := se]> (l_sessions w))) ∧
    ps_session_id p = new_v4 (l_uuid w) ∧ se_expires_at se = now + ttl ∧
    (∀ id, (is_Some (ps_files p !! id) ↔ is_Some (pu_files request !! id)) ∧
           (is_Some (se_files se !! id) ↔ is_Some (pu_files request !! id))) ∧
    (∀ id meta, pu_files request !! id = Some meta →
       ∃ i, (i < size (pu_files request))%nat ∧
         let tok := new_v4 (1 + l_uuid w + i) in
         btree_iter (pu_files request) !! i = Some (id, meta) ∧
         ps_files p !! id = Some tok ∧ se_files se !! id = Some (mkSessionFile tok meta false)).
Proof.
  intros [[] Hv]%is_ok_spec. unfold prepare. rewrite Hv, SE_lift_Ok.
  rewrite (SE_bind_eq _ _ w (new_v4 (l_uuid w)) (bump w 1)) by done.
  destruct (prepare_files_spec (btree_iter (pu_files request)) ∅ ∅ (bump w 1) (NoDup_btree_iter _))
    as (p' & m' & Hp & Hout & Hin).
  rewrite (SE_bind_eq _ _ _ _ _ Hp).
  assert (Hlen : length (btree_iter (pu_files request)) = size (pu_files request)).
  { unfold btree_iter. by rewrite stable_sort_perm, length_map_to_list. }
  rewrite Hlen.
  exists (mkPrepared (new_v4 (l_uuid w)) p'), (mkSession (now + ttl) m'). split_and!; [|done..| |].
  - se_run. unfold set_l_sessions, bump. cbn. rewrite <-Nat.add_assoc. done.
  - intros id. cbn [ps_files se_files].
    destruct (decide (id ∈ (btree_iter (pu_files request)).*1)) as [Hi|Hi].
    + apply list_elem_of_fmap in Hi as ([k a] & -> & Hka). cbn [fst].
      pose proof (proj1 (elem_of_btree_iter _ _ _) Hka) as ->. apply NoDup_fst_lookup in Hka as [i Hka].
      destruct (Hin i k a Hka) as [-> ->]. split; split; eauto.
    + destruct (Hout id Hi) as [-> ->]. rewrite !lookup_empty.
      assert (pu_files request !! id = None) as ->; [|done]. apply eq_None_not_Some. intros [a Ha].
      apply Hi, list_elem_of_fmap. exists (id, a). by rewrite elem_of_btree_iter.
  - intros id meta Hid. apply elem_of_btree_iter, NoDup_fst_lookup in Hid as [i Hi].
    exists i. split; [rewrite <-Hlen; by eapply lookup_lt_Some|]. cbn [ps_files se_files].
    destruct (Hin i id meta Hi) as [-> ->]. cbn [l_uuid bump].
    by assert (l_uuid w + 1 + i = 1 + l_uuid w + i)%nat as -> by lia.
Qed.

Lemma prepare_Err ttl now request w :
  is_ok (validate_file_ids request) = false → (prepare ttl now request w).2 = w.
Proof. intros Hv. unfold prepare. se_run. by destruct (validate_file_ids request). Qed.

(** One call of a method of the session manager, successful or not, or work
    of the rest of the server, which at most draws UUIDs. *)
Inductive session_step : LsWorld → LsWorld → Prop :=
| ss_prepare ttl now request w : session_step w (prepare ttl now request w).2
| ss_authorize now sid fid token w : session_step w (authorize_upload now sid fid token w).2
| ss_mark now sid fid w : session_step w (mark_uploaded now sid fid w).2
| ss_cancel now sid w : session_step w (cancel_session now sid w).2
| ss_find now fid w : session_step w (session_id_for_file now fid w).2
| ss_cancel_all w : session_step w (cancel_all w).2
| ss_prune now w : session_step w (prune now w).2
| ss_other w w' : l_sessions w' = l_sessions w → (l_uuid w ≤ l_uuid w')%nat → session_step w w'.

(** [m'] has sessions of [m] only, with files of [m]'s sessions only, that
    keep their tokens and stay uploaded once they are. *)
Definition shrinks (m m' : gmap rstring Session) : Prop :=
  ∀ sid se', m' !! sid = Some se' → ∃ se, m !! sid = Some se ∧
    ∀ fid f', se_files se' !! fid = Some f' → ∃ f, se_files se !! fid = Some f ∧
      sf_token f' = sf_token f ∧ sf_meta f' = sf_meta f ∧ (sf_uploaded f = true → sf_uploaded f' = true).

Lemma shrinks_sub m m' : m' ⊆ m → shrinks m m'.
Proof. intros Hm sid se Hs. exists se. split; [by eapply lookup_weaken|eauto]. Qed.

Lemma prune_sub now m : prune_expired_locked now m ⊆ m.
Proof. apply map_filter_subseteq. Qed.

Lemma mark_uploaded_state now sid fid w :
  let m := prune_expired_locked now (l_sessions w) in
  (mark_uploaded now sid fid w).2 = set_l_sessions w m ∨
  ∃ se f, m !! sid = Some se ∧ se_files se !! fid = Some f ∧
    mark_uploaded now sid fid w = (Ok tt, set_l_sessions w (<[sid := mkSession (se_expires_at se)
      (<[fid := mkSessionFile (sf_token f) (sf_meta f) true]> (se_files se))]> m)).
Proof.
  intros m. unfold mark_uploaded. se_run. fold m.
  destruct (m !! sid) as [se|] eqn:Hs; [|by left]. se_run.
  destruct (se_files se !! fid) as [f|] eqn:Hf; [|by left]. se_run. right. eauto 10.
Qed.

Lemma mark_shrinks m sid se fid f :
  m !! sid = Some se → se_files se !! fid = Some f →
  shrinks m (<[sid := mkSession (se_expires_at se)
      (<[fid := mkSessionFile (sf_token f) (sf_meta f) true]> (se_files se))]> m).
Proof.
  intros Hs Hf sid' se'. rewrite lookup_insert. case_decide as Hd; [subst sid'|eauto 10].
  intros [= <-]. exists se. split; [done|]. intros fid' f'. cbn [se_files]. rewrite lookup_insert.
  case_decide; [subst; intros [= <-]|]; eauto 10.
Qed.

(** Every call other than [prepare] shrinks the table. *)
Lemma session_step_cases w w' :
  session_step w w' →
  (shrinks (l_sessions w) (l_sessions w') ∧ (l_uuid w ≤ l_uuid w')%nat) ∨
  ∃ ttl now request, is_ok (validate_file_ids request) = true ∧ w' = (prepare ttl now request w).2.
Proof.
  assert (Hsub : ∀ m w, m ⊆ l_sessions w → shrinks (l_sessions w) (l_sessions (set_l_sessions w m)) ∧
    (l_uuid w ≤ l_uuid (set_l_sessions w m))%nat) by (intros; split; [by apply shrinks_sub|done]).
  destruct 1 as [ttl now request w|now sid fid token w|now sid fid w|now sid w|now fid w|w|now w|w w' Hs Hu].
  - destruct (is_ok (validate_file_ids request)) eqn:Hv; [right; eauto|left].
    rewrite prepare_Err by done. split; [by apply shrinks_sub|done].
  - left. rewrite authorize_upload_state. apply Hsub, prune_sub.
  - left. destruct (mark_uploaded_state now sid fid w) as [->|(se & f & Hs & Hf & ->)]; [apply Hsub, prune_sub|].
    split; [|done]. cbn [snd l_sessions set_l_sessions]. intros sid' se' Hs'.
    destruct (mark_shrinks _ _ _ _ _ Hs Hf _ _ Hs') as (se0 & H0 & ?). apply prune_lookup in H0 as [??]. eauto.
  - left. apply (Hsub (delete sid (prune_expired_locked now (l_sessions w))) w). etrans; [apply delete_subseteq|apply prune_sub].
  - left. apply (Hsub (prune_expired_locked now (l_sessions w)) w), prune_sub.
  - left. apply (Hsub ∅ w), map_empty_subseteq.
  - left. apply (Hsub (prune_expired_locked now (l_sessions w)) w), prune_sub.
  - left. rewrite Hs. split; [by apply shrinks_sub|done].
Qed.

(** Ids and tokens are UUIDs that were drawn, files carry their own id, and
    a token belongs to one file of one session. *)
Record session_wf (w : LsWorld) : Prop := {
  sw_ids sid se : l_sessions w !! sid = Some se → ∃ i, (i < l_uuid w)%nat ∧ sid = new_v4 i;
  sw_files sid se fid f : l_sessions w !! sid = Some se → se_files se !! fid = Some f →
    fm_id (sf_meta f) = fid ∧ ∃ j, (j < l_uuid w)%nat ∧ sf_token f = new_v4 j;
  sw_tokens sid se fid f sid' se' fid' f' :
    l_sessions w !! sid = Some se → se_files se !! fid = Some f →
    l_sessions w !! sid' = Some se' → se_files se' !! fid' = Some f' →
    sf_token f = sf_token f' → sid = sid' ∧ fid = fid'
}.

Lemma session_wf_shrinks w w' :
  shrinks (l_sessions w) (l_sessions w') → (l_uuid w ≤ l_uuid w')%nat → session_wf w → session_wf w'.
Proof.
  intros Hsh Hu [Hi Hf Ht]. split.
  - intros sid se' Hs. apply Hsh in Hs as (se & Hs & _). destruct (Hi _ _ Hs) as (i & ? & ->).
    exists i. split; [lia|done].
  - intros sid se' fid f' Hs Hf'. apply Hsh in Hs as (se & Hs & Hfs).
    destruct (Hfs _ _ Hf') as (f & Hff & -> & -> & _). destruct (Hf _ _ _ _ Hs Hff) as (-> & j & ? & ->).
    split; [done|]. exists j. split; [lia|done].
  - intros sid1 se1' fid1 f1' sid2 se2' fid2 f2' Hs1 Hf1 Hs2 Hf2.
    apply Hsh in Hs1 as (se1 & Hs1 & Hfs1). destruct (Hfs1 _ _ Hf1) as (f1 & Hff1 & -> & _).
    apply Hsh in Hs2 as (se2 & Hs2 & Hfs2). destruct (Hfs2 _ _ Hf2) as (f2 & Hff2 & -> & _).
    by apply (Ht _ _ _ _ _ _ _ _ Hs1 Hff1 Hs2 Hff2).
Qed.

Lemma new_v4_lt_ne i n k : (i < n)%nat → new_v4 i ≠ new_v4 (n + k).
Proof. intros Hi Heq%(inj _). lia. Qed.

Lemma session_wf_prepare ttl now request w :
  is_ok (validate_file_ids request) = true → session_wf w → session_wf (prepare ttl now request w).2.
Proof.
  intros Hv [Hi Hf Ht]. destruct (prepare_Ok ttl now request w Hv) as (p & se & -> & Hid & _ & Hdom & Hfiles).
  rewrite Hid. pose proof (proj1 (validate_file_ids_spec request) Hv) as Hkeys.
  assert (Hse : ∀ fid f, se_files se !! fid = Some f → ∃ i meta, (i < size (pu_files request))%nat ∧
    btree_iter (pu_files request) !! i = Some (fid, meta) ∧ f = mkSessionFile (new_v4 (1 + l_uuid w + i)) meta false).
  { intros fid f Hff. destruct (proj1 (proj2 (Hdom fid))) as [meta Hm]; [eauto|].
    destruct (Hfiles _ _ Hm) as (i & ? & ? & _ & Hff'). simplify_eq. eauto. }
  split; cbn [snd l_sessions set_l_sessions l_uuid bump].
  - intros sid se'. rewrite lookup_insert. case_decide as Hd; [subst sid|].
    + intros _. exists (l_uuid w). split; [lia|done].
    + intros (i & ? & ->)%Hi. exists i. split; [lia|done].
  - intros sid se' fid f. rewrite lookup_insert. case_decide as Hd.
    + intros [= <-] (i & meta & ? & Hb & ->)%Hse. cbn [sf_meta sf_token]. split.
      * apply Hkeys, elem_of_btree_iter. by eapply list_elem_of_lookup_2.
      * eexists. split; [|done]. lia.
    + intros Hs Hff. destruct (Hf _ _ _ _ Hs Hff) as (-> & j & ? & ->). split; [done|].
      exists j. split; [lia|done].
  - intros sid1 se1 fid1 f1 sid2 se2 fid2 f2. rewrite !lookup_insert.
    case_decide as Hd1; case_decide as Hd2.
    + intros [= <-] (i & m1 & ? & Hb1 & ->)%Hse [= <-] (j & m2 & ? & Hb2 & ->)%Hse. cbn [sf_token].
      intros Heq%(inj _). assert (i = j) as <- by lia. rewrite Hb1 in Hb2. by simplify_eq.
    + intros [= <-] (i & m1 & ? & Hb1 & ->)%Hse Hs Hff. cbn [sf_token].
      destruct (Hf _ _ _ _ Hs Hff) as (_ & j & ? & ->). intros Heq%(inj _). lia.
    + intros Hs Hff [= <-] (i & m1 & ? & Hb1 & ->)%Hse. cbn [sf_token].
      destruct (Hf _ _ _ _ Hs Hff) as (_ & j & ? & ->). intros Heq%(inj _). lia.
    + apply Ht.
Qed.

Lemma session_wf_steps w0 w : rtc session_step w0 w → session_wf w0 → session_wf w.
Proof.
  induction 1 as [|w0 w1 w Hstep Hr IH]; [done|]. intros Hwf. apply IH.
  destruct (session_step_cases _ _ Hstep) as [[??]|(ttl & now & request & ? & ->)];
    [by eapply session_wf_shrinks|by apply session_wf_prepare].
Qed.

Lemma session_reachable_wf w0 w : l_sessions w0 = ∅ → rtc session_step w0 w → session_wf w.
Proof.
  intros H0 Hr. eapply session_wf_steps; [exact Hr|].
  split; rewrite H0; intros *; by rewrite ?lookup_empty.
Qed.

(** A token opens one file of one session: in any state the session manager
    reaches, two authorizations with the same token are for the same session
    and file, and hand out metadata that carries that file id. *)
Theorem upload_token_opens_one_file w0 w now sid fid token a w' now' sid' fid' a' w'' :
  l_sessions w0 = ∅ → rtc session_step w0 w →
  authorize_upload now sid fid token w = (Ok a, w') →
  authorize_upload now' sid' fid' token w = (Ok a', w'') →
  sid = sid' ∧ fid = fid' ∧ a = a' ∧ fm_id (au_meta a) = fid.
Proof.
  intros H0 Hr (se & f & Hs & _ & Hf & _ & Ht & -> & _)%authorize_upload_Ok
    (se' & f' & Hs' & _ & Hf' & _ & Ht' & -> & _)%authorize_upload_Ok.
  pose proof (session_reachable_wf _ _ H0 Hr) as Hwf.
  destruct (sw_tokens _ Hwf _ _ _ _ _ _ _ _ Hs Hf Hs' Hf') as [<- <-]; [congruence|].
  simplify_eq. split_and!; [done..|]. apply (sw_files _ Hwf _ _ _ _ Hs Hf).
Qed.

(** C22: Life of a prepared session: every file of the request gets a token that
    authorizes it, with the offered metadata, until the time to live is over
    and not after; a wrong token never does; other sessions are unaffected.
    A request is refused, and nothing changes, exactly when a key of its map
    differs from the id of the file under it. *)
Theorem prepared_session_lifecycle ttl now request w :
  session_wf w →
  ((∀ k m, pu_files request !! k = Some m → fm_id m = k) →
    ∃ p w', prepare ttl now request w = (Ok p, w') ∧ l_sessions w !! ps_session_id p = None ∧
      (∀ fid, is_Some (ps_files p !! fid) ↔ is_Some (pu_files request !! fid)) ∧
      (∀ fid meta, pu_files request !! fid = Some meta → ∃ token, ps_files p !! fid = Some token ∧
        ∀ now' token', is_ok (authorize_upload now' (ps_session_id p) fid token' w').1 =
            bool_decide (now' < now + ttl ∧ token' = token) ∧
          (now' < now + ttl → (authorize_upload now' (ps_session_id p) fid token w').1 =
             Ok (mkAuthorized (ps_session_id p) fid token meta))) ∧
      (∀ sid, sid ≠ ps_session_id p → l_sessions w' !! sid = l_sessions w !! sid)) ∧
  (¬ (∀ k m, pu_files request !! k = Some m → fm_id m = k) →
    is_ok (prepare ttl now request w).1 = false ∧ (prepare ttl now request w).2 = w).
Proof.
  intros Hwf. split; intros Hkeys.
  - destruct (prepare_Ok ttl now request w) as (p & se & -> & Hid & Hex & Hdom & Hfiles);
      [by apply validate_file_ids_spec|].
    eexists p, _. split_and!; [done| | | |].
    + rewrite Hid. destruct (l_sessions w !! new_v4 (l_uuid w)) as [se'|] eqn:Hs; [|done].
      destruct (sw_ids _ Hwf _ _ Hs) as (i & ? & Heq%(inj _)). lia.
    + intros fid. apply Hdom.
    + intros fid meta Hm. destruct (Hfiles _ _ Hm) as (i & _ & _ & Hp & Hf).
      eexists. split; [exact Hp|]. intros now' token'. set (w' := set_l_sessions _ _).
      assert (Hs : l_sessions w' !! ps_session_id p = Some se) by apply lookup_insert_eq.
      rewrite <-Hex. split; [|intros Hlt].
      * apply eq_iff_eq_true. rewrite bool_decide_eq_true. apply (authorize_iff _ _ _ _ _ _ _ Hs Hf eq_refl).
      * edestruct authorize_upload_Ok as [_ Ha]. erewrite Ha; [done|].
        exists se. eexists. split_and!; [exact Hs|done|exact Hf|done..].
    + intros sid Hne. cbn [l_sessions set_l_sessions]. by apply lookup_insert_ne.
  - rewrite <-validate_file_ids_spec in Hkeys. apply not_true_is_false in Hkeys.
    split; [|by apply prepare_Err]. unfold prepare. se_run. by destruct (validate_file_ids request).
Qed.

(** No upload of the file can be authorized any more. *)
Definition spent (w : LsWorld) (sid fid : rstring) : Prop :=
  (∃ i, (i < l_uuid w)%nat ∧ sid = new_v4 i) ∧
  ∀ se f, l_sessions w !! sid = Some se → se_files se !! fid = Some f → sf_uploaded f = true.

Lemma spent_step w w' sid fid : session_step w w' → spent w sid fid → spent w' sid fid.
Proof.
  intros Hstep [(i & Hi & ->) Hsp].
  destruct (session_step_cases _ _ Hstep) as [[Hsh Hu]|(ttl & now & request & Hv & ->)].
  - split; [exists i; split; [lia|done]|]. intros se' f' Hs Hf'. apply Hsh in Hs as (se & Hs & Hfs).
    destruct (Hfs _ _ Hf') as (f & Hf & _ & _ & Hup). eauto.
  - destruct (prepare_Ok ttl now request w Hv) as (p & se & -> & -> & _).
    split; cbn [snd l_sessions set_l_sessions l_uuid bump]; [exists i; split; [lia|done]|].
    intros se' f'. rewrite lookup_insert_ne; [apply Hsp|]. intros Heq%(inj _). lia.
Qed.

Lemma spent_steps w w' sid fid : rtc session_step w w' → spent w sid fid → spent w' sid fid.
Proof. induction 1; eauto using spent_step. Qed.

Lemma spent_rejects w sid fid now token :
  spent w sid fid → is_ok (authorize_upload now sid fid token w).1 = false.
Proof.
  intros [_ Hsp]. apply not_true_is_false. rewrite is_ok_spec. intros [a Ha].
  destruct (authorize_upload now sid fid token w) as [r w'] eqn:He. cbn in Ha. subst r.
  apply authorize_upload_Ok in He as (se & f & Hs & _ & Hf & Hu & _). by rewrite (Hsp _ _ Hs Hf) in Hu.
Qed.

Lemma mark_spent now sid fid w w1 :
  session_wf w → mark_uploaded now sid fid w = (Ok tt, w1) → spent w1 sid fid.
Proof.
  intros Hwf Hm. unfold mark_uploaded, prune in Hm. inv_se. cbn [l_sessions set_l_sessions] in *.
  pose proof (proj1 (prune_lookup _ _ _ _) H1) as [Hs _]. destruct (sw_ids _ Hwf _ _ Hs) as (i & ? & ->).
  split; [cbn; eauto|]. intros se f. cbn [l_sessions set_l_sessions]. rewrite lookup_insert_eq.
  intros [= <-]. cbn [se_files]. rewrite lookup_insert_eq. by intros [= <-].
Qed.

(** An upload is one-shot: once a file is marked uploaded, or its session is
    cancelled, no sequence of calls makes any token authorize it again. *)
Theorem upload_is_one_shot w w1 w2 now sid fid :
  session_wf w →
  mark_uploaded now sid fid w = (Ok tt, w1) ∨ cancel_session now sid w = (Ok true, w1) →
  rtc session_step w1 w2 →
  ∀ now' token, is_ok (authorize_upload now' sid fid token w2).1 = false.
Proof.
  intros Hwf Hdone Hr now' token. eapply spent_rejects, spent_steps; [exact Hr|].
  destruct Hdone as [Hm|Hc]; [by eapply mark_spent|].
  unfold cancel_session, prune in Hc. inv_se. bools.
  destruct H as [se [Hs _]%prune_lookup]. split; cbn [l_sessions set_l_sessions l_uuid].
  - by apply (sw_ids _ Hwf _ _ Hs).
  - intros se' f'. by rewrite lookup_delete_eq.
Qed.
End reachability.
