(* ===== verification/LocalInbox.v ===== *)
(** * LocalSend inbox writer

    Model of crates/protocol-localsend-v2/src/inbox.rs: an authorized upload
    is streamed to a part file under [.incoming], checked against the declared
    size and digest, and renamed to a free name of the inbox.  The body is the
    list of results of the successive [read] calls; an empty read, or the end
    of the list, is the end of the stream. *)

From stdpp Require Import prelude gmap strings.
From Stdlib Require Import ZArith Lia.
From S2P Require Import Prelude RustStr Errors Fs Transfer Identity TrustStore LocalSession.

Local Open Scope Z_scope.

Record WrittenUpload := mkWritten { wu_path : path; wu_bytes_written : Z; wu_sha256 : rstring }.

Definition inbox_error (message : rstring) : LocalSendError := LsHttp (str "inbox: " ++ message).

(** File system effects of the server; one that fails changes nothing. *)
Definition ls_io (f : fs → result io_error fs) : LM unit := λ w,
  match f (l_fs w) with
  | Ok t => (Ok tt, set_l_fs w t)
  | Err e => (Err (LsIo e), w)
  | Panic => (Panic, w)
  end.

(** [File::create]: an existing file is truncated. *)
Definition create_file (t : fs) (p : path) : result io_error fs :=
  match t !! resolve p with
  | Some Dir => Err IsADirectory
  | Some (File _) => Ok (<[resolve p := File []]> t)
  | None => _ ← parent_check t p; Ok (<[resolve p := File []]> t)
  end.

(** A nonempty name without separators is one component, which is normal
    unless it is [.] or [..]. *)
Definition validate_file_name (file_name : rstring) : result LocalSendError rstring :=
  _ ← ensure (negb (bool_decide (file_name = []) || bool_decide (47 ∈ file_name) || bool_decide (92 ∈ file_name)))
        (inbox_error (str "invalid upload filename"));
  _ ← ensure (bool_decide (component_file_name file_name = Some file_name))
        (inbox_error (str "invalid upload filename"));
  Ok file_name.

Definition sanitized (value : rstring) : rstring := (λ ch, if component_char ch then ch else 45) <$> value.

(** The suffixes [1_u32..] are tried in order until one is free; [n] bounds
    the number of tries. *)
Fixpoint suffix_loop (t : fs) (inbox_dir : path) (stem : rstring) (extension : option rstring)
    (n : nat) (suffix : Z) : result LocalSendError path :=
  match n with
  | O => Panic
  | S n =>
    let candidate := inbox_dir ++ [numbered_name stem extension suffix] in
    if path_exists t candidate then suffix_loop t inbox_dir stem extension n (suffix + 1)
    else Ok candidate
  end.

(** A free suffix is among the first [size t + 1]. *)
Definition next_available_target (t : fs) (inbox_dir : path) (file_name : rstring) : result LocalSendError path :=
  let first := inbox_dir ++ [file_name] in
  if path_exists t first then
    let '(stem, extension) := stem_and_extension file_name in
    suffix_loop t inbox_dir (default file_name stem) extension (S (size t)) 1
  else Ok first.

(** The copying loop: [written] bytes, whose content is [hashed], are done. *)
Fixpoint copy_loop (part : path) (declared : Z) (reads : list (bytes + io_error)) (written : Z)
    (hashed : bytes) : LM (Z * bytes) :=
  match reads with
  | [] | inl [] :: _ => mret (written, hashed)
  | inl b :: reads =>
    let total := add_u64 written (zlen b) in
    _ ← lift (ensure (total <=? declared) (inbox_error (str "upload exceeds declared size " ++ show_dec declared)));
    _ ← ls_io (λ t, write_all_at t part written b);
    copy_loop part declared reads total (hashed ++ b)
  | inr e :: _ => fail (LsIo e)
  end.

Section inbox.
Context {CS : CryptoSuite} {U : Uuid}.

Definition safe_identifier (value : rstring) : LM rstring :=
  if bool_decide (sanitized value = []) then ls_new_v4 else mret (sanitized value).

Definition incoming_file_name (upload : AuthorizedUpload) : LM rstring :=
  session ← safe_identifier (au_session_id upload);
  file ← safe_identifier (au_file_id upload);
  mret (session ++ str "-" ++ file ++ str ".part").

Definition digest_matches (expected : option rstring) (actual : rstring) : bool :=
  match expected with Some expected => eq_ignore_ascii_case expected actual | None => true end.

Definition write_upload (inbox_dir : path) (upload : AuthorizedUpload) (reads : list (bytes + io_error)) :
    LM WrittenUpload :=
  file_name ← lift (validate_file_name (fm_file_name (au_meta upload)));
  let incoming_dir := inbox_dir ++ [str ".incoming"] in
  _ ← ls_io (λ t, create_dir_all t incoming_dir);
  _ ← ls_io (λ t, create_dir_all t inbox_dir);
  part_name ← incoming_file_name upload;
  let incoming_path := incoming_dir ++ [part_name] in
  _ ← ls_io (λ t, create_file t incoming_path);
  '(bytes_written, hashed) ← copy_loop incoming_path (fm_size (au_meta upload)) reads 0 [];
  _ ← lift (ensure (bytes_written =? fm_size (au_meta upload))
        (inbox_error (str "upload size mismatch: expected " ++ show_dec (fm_size (au_meta upload)) ++
           str ", got " ++ show_dec bytes_written)));
  let digest := hex_encode (sha256 hashed) in
  _ ← lift (ensure (digest_matches (fm_sha256 (au_meta upload)) digest) (LsCrypto (str "upload sha256 mismatch")));
  target ← λ w, (next_available_target (l_fs w) inbox_dir file_name, w);
  _ ← ls_io (λ t, rename t incoming_path target);
  mret (mkWritten target bytes_written digest).
End inbox.

(** ** Names *)

Lemma suffix_loop_numbered t inbox stem ext n i target :
  suffix_loop t inbox stem ext n i = Ok target ↔ numbered_target t inbox stem ext n i = Ok target.
Proof. revert i. induction n as [|n IH]; intros i; simpl; [done|]. destruct (path_exists _ _); [apply IH|]. split; congruence. Qed.

Lemma validate_file_name_Ok name s :
  validate_file_name name = Ok s ↔ s = name ∧ name ≠ [] ∧ plain name ∧ 47 ∉ name ∧ 92 ∉ name.
Proof.
  unfold validate_file_name, component_file_name, plain. split.
  - intros H. inv_ok. bools. case_bool_decide; [done|]. naive_solver.
  - intros (-> & Hne & [Hd Hdd] & Hs & Hb). 
    rewrite (bool_decide_false (name = [])), (bool_decide_false (47 ∈ name)), (bool_decide_false (92 ∈ name)) by done.
    rewrite (bool_decide_false (name = [] ∨ _)) by (intros [?|[?|?]]; done). cbn [orb negb ensure mbind result_bind].
    by rewrite bool_decide_true.
Qed.

(** A target is always found, and is a free direct child of the inbox. *)
Lemma next_available_target_spec t inbox name :
  Forall plain inbox → plain name → 47 ∉ name →
  ∃ base, next_available_target t inbox name = Ok (inbox ++ [base]) ∧ plain base ∧ 47 ∉ base ∧
    t !! (inbox ++ [base]) = None.
Proof.
  intros Hp Hn Hs. unfold next_available_target. rewrite path_exists_plain by done.
  case_bool_decide as He; [|rewrite <-eq_None_not_Some in He; eauto].
  destruct (stem_and_extension name) as [stem ext] eqn:Hse.
  destruct (numbered_target_total t inbox (default name stem) ext (S (size t)) 1) as [target Ht]; [done|lia|lia|].
  pose proof (proj2 (suffix_loop_numbered _ _ _ _ _ _ _) Ht) as ->.
  apply numbered_target_Ok in Ht as (j & _ & -> & Hfree); [|done].
  eexists. split_and!; [done|apply numbered_name_plain| |done]. apply numbered_name_no_slash.
  - destruct stem as [s|]; simpl; [|done]. intros Hin. apply Hs. eapply stem_and_extension_elem; eauto.
  - intros e -> Hin. apply Hs. eapply stem_and_extension_elem; eauto.
Qed.

(** ** Copying *)

(** The bytes a body delivers before its end or first error, and whether it
    ends without one. *)
Fixpoint streamed (reads : list (bytes + io_error)) : bytes :=
  match reads with
  | inl (x :: b) :: reads => (x :: b) ++ streamed reads
  | _ => []
  end.
Fixpoint ends (reads : list (bytes + io_error)) : bool :=
  match reads with
  | inl (_ :: _) :: reads => ends reads
  | inr _ :: _ => false
  | _ => true
  end.

(** The buffer holds 8192 bytes. *)
Definition read_ok (r : bytes + io_error) : Prop := match r with inl b => zlen b ≤ 8192 | inr _ => True end.

Lemma set_l_fs_twice w t t' : set_l_fs (set_l_fs w t) t' = set_l_fs w t'.
Proof. done. Qed.

(** Whatever the body, the part file never exceeds the declared size; the loop
    succeeds exactly on bodies that end and fit, and has then written and
    hashed them. *)
Lemma copy_loop_spec part declared reads acc w :
  Forall read_ok reads → declared < 2 ^ 64 - 8192 → zlen acc ≤ declared →
  l_fs w !! resolve part = Some (File acc) →
  ∃ acc', (copy_loop part declared reads (zlen acc) acc w).2 =
      set_l_fs w (<[resolve part := File acc']> (l_fs w)) ∧
    zlen acc' ≤ declared ∧ (copy_loop part declared reads (zlen acc) acc w).1 ≠ Panic ∧
    (ends reads = true → zlen (acc ++ streamed reads) ≤ declared →
       (copy_loop part declared reads (zlen acc) acc w).1 = Ok (zlen acc', acc') ∧ acc' = acc ++ streamed reads) ∧
    (ends reads = false ∨ declared < zlen (acc ++ streamed reads) →
       is_ok (copy_loop part declared reads (zlen acc) acc w).1 = false).
Proof.
  intros Hreads Hd. revert acc w. induction Hreads as [|r reads Hr Hreads IH]; intros acc w Hacc Hpart.
  - exists acc. cbn [copy_loop ends streamed]. rewrite insert_id, app_nil_r by done.
    split_and!; [by destruct w|done..|]. intros [|]; [done|lia].
  - destruct r as [[|x b]|e]; cbn [copy_loop ends streamed].
    + exists acc. rewrite insert_id, app_nil_r by done. split_and!; [by destruct w|done..|]. intros [|]; [done|lia].
    + set (b' := x :: b) in *. cbn [read_ok] in Hr. pose proof (zlen_nonneg acc). pose proof (zlen_nonneg b').
      rewrite add_u64_small by lia. destruct (Z.leb_spec (zlen acc + zlen b') declared) as [Hle|Hgt].
      * cbn [ensure]. rewrite SE_lift_Ok.
        assert (Hio : ls_io (λ t, write_all_at t part (zlen acc) b') w =
            (Ok tt, set_l_fs w (<[resolve part := File (acc ++ b')]> (l_fs w)))).
        { unfold ls_io, write_all_at. by rewrite Hpart, write_at_end. }
        rewrite (SE_bind_eq _ _ _ _ _ Hio), <-zlen_app.
        destruct (IH (acc ++ b') (set_l_fs w (<[resolve part := File (acc ++ b')]> (l_fs w))))
          as (acc' & Hst & Hlen & Hnp & Hok & Hbad); [rewrite zlen_app; lia|apply lookup_insert_eq|].
        rewrite app_assoc. exists acc'. split_and!; [|done..]. rewrite Hst, set_l_fs_twice.
        cbn [l_fs set_l_fs]. by rewrite insert_insert_eq.
      * exists acc. cbn [ensure]. rewrite insert_id by done. split_and!; [by destruct w|done..| |done].
        intros _. rewrite !zlen_app. pose proof (zlen_nonneg (streamed reads)). lia.
    + exists acc. rewrite insert_id by done. by split_and!; [destruct w| | | |].
Qed.

(** ** Writing an upload *)

Definition files_same (t t' : fs) : Prop := ∀ q b, t' !! q = Some (File b) ↔ t !! q = Some (File b).

Lemma create_dir_all_files t p t' : create_dir_all t p = Ok t' → files_same t t'.
Proof.
  intros Hc q b. rewrite (create_dir_all_Ok _ _ _ Hc). case_decide as Hd; [|done].
  destruct Hd as [Hne Hpre]. pose proof (create_dir_all_no_file _ _ _ q b Hc Hne Hpre). naive_solver.
Qed.

Lemma create_dir_all_grows t p t' : create_dir_all t p = Ok t' → ∀ q, is_Some (t !! q) → is_Some (t' !! q).
Proof. intros Hc q Hq. rewrite (create_dir_all_Ok _ _ _ Hc). case_decide; eauto. Qed.

Section sound.
Context {CS : CryptoSuite} {U : Uuid}.

Definition upload_dir (inbox : path) : path := inbox ++ [str ".incoming"].

(** What writing an upload did to the files, by its result [r]. *)
Definition upload_outcome (inbox : path) (meta : FileMeta) (reads : list (bytes + io_error)) (t : fs)
    (r : result LocalSendError WrittenUpload) (t' : fs) : Prop :=
  (** no existing file outside [.incoming] changes *)
  (∀ q b, ¬ upload_dir inbox `prefix_of` q → t !! q = Some (File b) → t' !! q = Some (File b)) ∧
  (** whatever was written is within the declared size *)
  (∀ q b, t' !! q = Some (File b) → t !! q = Some (File b) ∨ zlen b ≤ fm_size meta) ∧
  match r with
  | Ok u => ends reads = true ∧ zlen (streamed reads) = fm_size meta ∧ wu_bytes_written u = fm_size meta ∧
      wu_sha256 u = hex_encode (sha256 (streamed reads)) ∧ digest_matches (fm_sha256 meta) (wu_sha256 u) = true ∧
      ∃ base, wu_path u = inbox ++ [base] ∧ plain base ∧ 47 ∉ base ∧ t !! wu_path u = None ∧
        t' !! wu_path u = Some (File (streamed reads))
  | Err _ => ∀ q b, ¬ upload_dir inbox `prefix_of` q → t' !! q = Some (File b) → t !! q = Some (File b)
  | Panic => False
  end.

Lemma outcome_same inbox meta reads t e t' :
  files_same t t' → upload_outcome inbox meta reads t (Err e) t'.
Proof. intros Hs. split_and!; intros q b; [intros _|..]; rewrite ?(Hs q b); auto. Qed.

Lemma part_name_plain upload w :
  ∃ name n, incoming_file_name upload w = (Ok name, bump w n) ∧ plain name.
Proof.
  assert (Hid : ∀ v w, ∃ s n, safe_identifier v w = (Ok s, bump w n)).
  { intros v w0. unfold safe_identifier. case_bool_decide; [by eexists _, 1%nat|].
    exists (sanitized v), 0%nat. destruct w0. unfold bump. cbn. by rewrite Nat.add_0_r. }
  unfold incoming_file_name. destruct (Hid (au_session_id upload) w) as (s & n & Hs).
  destruct (Hid (au_file_id upload) (bump w n)) as (f & m & Hf).
  rewrite (SE_bind_eq _ _ _ _ _ Hs), (SE_bind_eq _ _ _ _ _ Hf).
  eexists _, (n + m)%nat. split.
  - unfold mret, SE_ret, bump. cbn. by rewrite Nat.add_assoc.
  - assert (Hlen : (2 < length (s ++ str "-" ++ f ++ str ".part"))%nat).
    { change (str ".part") with [46; 112; 97; 114; 116]. rewrite !length_app. cbn [length]. lia. }
    split; intros Heq; rewrite Heq in Hlen; unfold str in Hlen; simpl in Hlen; lia.
Qed.

(** The state once the part file is open and empty. *)
Lemma create_file_files t p t' :
  create_file t p = Ok t' → t' = <[resolve p := File []]> t ∧ t !! resolve p ≠ Some Dir.
Proof. unfold create_file. destruct (t !! resolve p) as [[]|] eqn:Hp; intros H; inv_ok; by subst. Qed.

Lemma prefix_snoc_ne (p : path) c q : p ++ [c] = q → p `prefix_of` q.
Proof. intros <-. by exists [c]. Qed.

(** Renaming the part file, whose content is [b], to a free name. *)
Lemma rename_outcome t part target b :
  t !! resolve part = Some (File b) → t !! resolve target = None → is_ok (parent_check t target) = true →
  rename t part target = Ok (<[resolve target := File b]> (delete (resolve part) t)).
Proof. intros Hp Ht Hc. unfold rename. rewrite Hp, Ht. by destruct (parent_check t target). Qed.

Lemma ls_io_run {B} f (k : unit → LM B) w :
  f (l_fs w) ≠ Panic →
  (∃ t, f (l_fs w) = Ok t ∧ (ls_io f ≫= k) w = k tt (set_l_fs w t)) ∨
  (∃ e, f (l_fs w) = Err e ∧ (ls_io f ≫= k) w = (Err (LsIo e), w)).
Proof.
  intros Hnp. unfold ls_io, mbind, SE_bind. destruct (f (l_fs w)) as [t|e|]; [left|right|done]; eauto.
Qed.

Lemma create_dir_all_no_panic t p : create_dir_all t p ≠ Panic.
Proof.
  unfold create_dir_all. generalize (@nil (list Z)) (resolve p). intros par rest. revert t par.
  induction rest as [|c rest IH]; intros t par; simpl; [done|].
  destruct (t !! (par ++ [c])) as [[]|]; [by case_bool_decide|apply IH..].
Qed.
Lemma parent_check_no_panic t p : parent_check t p ≠ Panic.
Proof. unfold parent_check. destruct (removelast _); [done|]. by destruct (t !! _) as [[]|]. Qed.
Lemma create_file_no_panic t p : create_file t p ≠ Panic.
Proof.
  unfold create_file. destruct (t !! _) as [[]|]; [done..|].
  apply bind_no_panic; [apply parent_check_no_panic|done].
Qed.
Lemma rename_no_panic t p q : rename t p q ≠ Panic.
Proof.
  unfold rename. destruct (t !! resolve p) as [[]|]; [|done..]. destruct (t !! resolve q) as [[]|]; [done..|].
  apply bind_no_panic; [apply parent_check_no_panic|done].
Qed.

Lemma rename_Ok t part target t' b :
  rename t part target = Ok t' → t !! resolve part = Some (File b) →
  t' = <[resolve target := File b]> (delete (resolve part) t).
Proof.
  unfold rename. intros H Hp. rewrite Hp in H. destruct (t !! resolve target) as [[]|]; inv_ok; by subst.
Qed.

(** A stage that only touched the part file. *)
Lemma outcome_part inbox meta reads t t1 part b e :
  files_same t t1 → upload_dir inbox `prefix_of` part → zlen b ≤ fm_size meta →
  upload_outcome inbox meta reads t (Err e) (<[part := File b]> t1).
Proof.
  intros Hs Hpre Hb. split_and!; intros q c.
  - intros Hq Hf. rewrite lookup_insert_ne by (by intros <-). by apply Hs.
  - rewrite lookup_insert. case_decide; [intros [= <-]; by right|]. left. by apply Hs.
  - intros Hq. rewrite lookup_insert_ne by (by intros <-). apply Hs.
Qed.

(** The end of [write_upload], once the whole body is in the part file. *)
Lemma finish_upload_sound inbox meta reads w t n part r w' :
  Forall plain inbox → plain (fm_file_name meta) → 47 ∉ fm_file_name meta → ends reads = true →
  files_same (l_fs w) t → (∀ q, is_Some (l_fs w !! q) → is_Some (t !! q)) →
  upload_dir inbox `prefix_of` part → resolve part = part →
  zlen (streamed reads) ≤ fm_size meta →
  (_ ← lift (ensure (zlen (streamed reads) =? fm_size meta)
        (inbox_error (str "upload size mismatch: expected " ++ show_dec (fm_size meta) ++
           str ", got " ++ show_dec (zlen (streamed reads)))));
   _ ← lift (ensure (digest_matches (fm_sha256 meta) (hex_encode (sha256 (streamed reads))))
               (LsCrypto (str "upload sha256 mismatch")));
   target ← (λ w, (next_available_target (l_fs w) inbox (fm_file_name meta), w)) : LM path;
   _ ← ls_io (λ t, rename t part target);
   mret (mkWritten target (zlen (streamed reads)) (hex_encode (sha256 (streamed reads)))))
    (set_l_fs (bump (set_l_fs w t) n) (<[part := File (streamed reads)]> t)) = (r, w') →
  upload_outcome inbox meta reads (l_fs w) r (l_fs w') ∧
  l_sessions w' = l_sessions w ∧ l_trust w' = l_trust w ∧ (l_uuid w ≤ l_uuid w')%nat.
Proof.
  intros Hinbox Hplain Hslash Hends Hsame Hgrow Hpre Hres Hlen. set (body := streamed reads) in *.
  set (w1 := set_l_fs _ _).
  assert (Hrest : l_sessions w1 = l_sessions w ∧ l_trust w1 = l_trust w ∧ (l_uuid w ≤ l_uuid w1)%nat)
    by (cbn; split_and!; (done || lia)).
  unfold ensure. destruct (Z.eqb_spec (zlen body) (fm_size meta)) as [Hsz|];
    [rewrite SE_lift_Ok|intros [= <- <-]; split; [by apply outcome_part|done]].
  destruct (digest_matches _ _) eqn:Hdig;
    [rewrite SE_lift_Ok|intros [= <- <-]; split; [by apply outcome_part|done]].
  destruct (next_available_target_spec (l_fs w1) inbox (fm_file_name meta)) as (base & Ht & Hb & Hbs & Hfree);
    [done..|].
  erewrite (SE_bind_eq _ _ w1 (inbox ++ [base]) w1) by (by rewrite Ht).
  match goal with |- (ls_io ?f ≫= ?k) _ = _ → _ =>
    destruct (ls_io_run f k w1 (rename_no_panic _ _ _)) as [(t' & Hren & ->)|(e & _ & ->)] end;
    [|intros [= <- <-]; split; [by apply outcome_part|done]].
  assert (Htr : resolve (inbox ++ [base]) = inbox ++ [base]) by (apply resolve_plain; apply Forall_app; auto).
  apply (rename_Ok _ _ _ _ body) in Hren; [|rewrite Hres; apply lookup_insert_eq].
  rewrite Htr, Hres in Hren. cbn [l_fs set_l_fs w1] in Hren, Hfree.
  rewrite delete_insert_eq in Hren. subst t'. intros [= <- <-].
  split; [|done]. cbn [l_fs set_l_fs].
  assert (Htp : l_fs w !! (inbox ++ [base]) = None ∧ part ≠ inbox ++ [base]).
  { rewrite lookup_insert in Hfree. case_decide; [done|]. split; [|done].
    apply eq_None_not_Some. intros Hq%Hgrow. rewrite Hfree in Hq. by destruct Hq. }
  destruct Htp as [Hfree0 Hne]. split; [|split].
  - intros q b Hq Hf. rewrite lookup_insert_ne by (intros <-; congruence).
    rewrite lookup_delete_ne by (by intros <-). by apply Hsame.
  - intros q b. rewrite lookup_insert. case_decide; [intros [= <-]; by right|].
    intros [_ Hf]%lookup_delete_Some. left. by apply Hsame.
  - cbn [wu_bytes_written wu_sha256 wu_path]. do 5 (split; [done|]).
    exists base. do 4 (split; [done|]). apply lookup_insert_eq.
Qed.

Lemma write_upload_outcome inbox upload reads w r w' :
  Forall plain inbox → Forall read_ok reads → 0 ≤ fm_size (au_meta upload) < 2 ^ 64 - 8192 →
  write_upload inbox upload reads w = (r, w') →
  upload_outcome inbox (au_meta upload) reads (l_fs w) r (l_fs w') ∧
  l_sessions w' = l_sessions w ∧ l_trust w' = l_trust w ∧ (l_uuid w ≤ l_uuid w')%nat.
Proof.
  intros Hinbox Hreads Hsize. set (meta := au_meta upload) in *. unfold write_upload. fold meta.
  destruct (validate_file_name (fm_file_name meta)) as [name|e|] eqn:Hname;
    [rewrite SE_lift_Ok|intros [= <- <-]; split; [by apply outcome_same|done]|].
  2: { unfold validate_file_name in Hname. repeat case_bool_decide; done. }
  apply validate_file_name_Ok in Hname as (-> & _ & Hplain & Hslash & _).
  fold (upload_dir inbox).
  match goal with |- (ls_io ?f ≫= ?k) _ = _ → _ =>
    destruct (ls_io_run f k w (create_dir_all_no_panic _ _)) as [(t1 & H1 & ->)|(e & _ & ->)] end;
    [|intros [= <- <-]; split; [by apply outcome_same|done]].
  pose proof (create_dir_all_grows _ _ _ H1) as G1. apply create_dir_all_files in H1.
  match goal with |- (ls_io ?f ≫= ?k) ?w1 = _ → _ =>
    destruct (ls_io_run f k w1 (create_dir_all_no_panic _ _)) as [(t2 & H2 & ->)|(e & _ & ->)] end;
    [|intros [= <- <-]; split; [by apply outcome_same|done]].
  pose proof (create_dir_all_grows _ _ _ H2) as G2. apply create_dir_all_files in H2. cbn [l_fs set_l_fs] in H2, G2.
  assert (Hsame : files_same (l_fs w) t2) by (intros q b; by rewrite (H2 q b), (H1 q b)). clear H1 H2.
  rewrite set_l_fs_twice.
  destruct (part_name_plain upload (set_l_fs w t2)) as (part & n & Hpn & Hpp).
  rewrite (SE_bind_eq _ _ _ _ _ Hpn). clear Hpn.
  assert (Hres : resolve (upload_dir inbox ++ [part]) = upload_dir inbox ++ [part]).
  { apply resolve_plain. unfold upload_dir. rewrite !Forall_app, !Forall_singleton. by split_and!. }
  set (part_path := upload_dir inbox ++ [part]) in *.
  assert (Hpre : upload_dir inbox `prefix_of` part_path) by (by exists [part]).
  match goal with |- (ls_io ?f ≫= ?k) ?w1 = _ → _ =>
    destruct (ls_io_run f k w1 (create_file_no_panic _ _)) as [(t3 & H3 & ->)|(e & _ & ->)] end;
    [|intros [= <- <-]; split; [by apply outcome_same|cbn; split_and!; (done || lia)]].
  apply create_file_files in H3 as [-> _]. rewrite Hres. cbn [l_fs set_l_fs bump].
  destruct (copy_loop_spec part_path (fm_size meta) reads [] (set_l_fs (bump (set_l_fs w t2) n)
    (<[part_path := File []]> t2))) as (body & Hst & Hlen & Hnp & Hgood & Hbad);
    [done|lia|unfold zlen; cbn; lia|rewrite Hres; apply lookup_insert_eq|].
  unfold zlen in Hst at 1, Hnp at 1, Hgood at 2, Hbad at 2. cbn [length Z.of_nat app] in Hst, Hnp, Hgood, Hbad.
  rewrite Hres in Hst. cbn [l_fs set_l_fs] in Hst. rewrite insert_insert_eq, set_l_fs_twice in Hst.
  destruct (copy_loop _ _ _ _ _ _) as [[[k h]|e|] wc] eqn:Hcopy; cbn [fst snd] in Hst, Hnp, Hgood, Hbad; subst wc;
    [|rewrite (SE_bind_Err _ _ _ _ _ Hcopy); intros [= <- <-];
      split; [by apply outcome_part|cbn; split_and!; (done || lia)]|done].
  rewrite (SE_bind_eq _ _ _ _ _ Hcopy). clear Hcopy.
  destruct (ends reads) eqn:Hends; [|by specialize (Hbad (or_introl eq_refl))].
  destruct (decide (zlen (streamed reads) ≤ fm_size meta)) as [Hfit|]; [|specialize (Hbad ltac:(right; lia)); done].
  destruct (Hgood eq_refl Hfit) as [[= -> ->] ->]. clear Hgood Hbad Hnp.
  apply (finish_upload_sound inbox meta reads w t2); auto.
Qed.

(** Streaming an upload is safe whatever the body is, also when it fails
    half-way: files outside [.incoming] are never changed, no file grows past
    the declared size, nothing is published on an error, and on success the
    whole, verified body is published under a fresh name of the inbox. *)
Theorem write_upload_sound inbox upload reads w r w' :
  Forall plain inbox → Forall read_ok reads → 0 ≤ fm_size (au_meta upload) < 2 ^ 64 - 8192 →
  write_upload inbox upload reads w = (r, w') →
  upload_outcome inbox (au_meta upload) reads (l_fs w) r (l_fs w').
Proof. intros ? ? ? Hw. by eapply write_upload_outcome. Qed.

Lemma ls_io_Ok {B} f (k : unit → LM B) w t :
  f (l_fs w) = Ok t → (ls_io f ≫= k) w = k tt (set_l_fs w t).
Proof. intros Hf. unfold ls_io, mbind, SE_bind. by rewrite Hf. Qed.

Lemma parent_check_ok t p c :
  Forall plain p → plain c → (p ≠ [] → t !! p = Some Dir) → parent_check t (p ++ [c]) = Ok tt.
Proof.
  intros Hp Hc Hd. unfold parent_check. rewrite resolve_plain by (apply Forall_app; auto).
  rewrite removelast_last. destruct p; [done|]. by rewrite Hd.
Qed.

(** The inbox can take an upload: nothing but directories on the way, and
    no directory where a part file goes. *)
Definition inbox_open (t : fs) (inbox : path) : Prop :=
  Forall plain inbox ∧ (∀ q b, q `prefix_of` upload_dir inbox → t !! q ≠ Some (File b)) ∧
  (∀ name, t !! (upload_dir inbox ++ [name]) ≠ Some Dir).

(** A stored upload leaves the inbox open for the next one. *)
Lemma inbox_open_after t t1 (inbox : path) base part b :
  inbox_open t inbox → create_dir_all t (upload_dir inbox) = Ok t1 → upload_dir inbox ≠ inbox ++ [base] →
  inbox_open (<[inbox ++ [base] := File b]> (delete (upload_dir inbox ++ [part]) t1)) inbox.
Proof.
  intros (Hinbox & Hdirs & Hnodir) H1 Hne. split; [done|].
  assert (Hup : resolve (upload_dir inbox) = upload_dir inbox)
    by (apply resolve_plain; unfold upload_dir; by rewrite Forall_app, Forall_singleton).
  split.
  - intros q c Hq. rewrite lookup_insert_ne.
    + rewrite lookup_delete_ne.
      * intros Hf. apply create_dir_all_files in H1. apply (H1 q c) in Hf. by apply (Hdirs q c).
      * intros <-. apply prefix_length in Hq. rewrite length_app in Hq. cbn in Hq. lia.
    + intros <-. destruct Hq as [k Hk]. unfold upload_dir in Hk, Hne. rewrite <-app_assoc in Hk.
      apply app_inv_head in Hk. destruct k; [|done]. simplify_eq/=.
  - intros name Hf. rewrite lookup_insert in Hf. case_decide as Hd; [done|].
    apply lookup_delete_Some in Hf as [_ Hf]. rewrite (create_dir_all_Ok _ _ _ H1), Hup in Hf.
    case_decide as Hp; [|by apply (Hnodir name)]. destruct Hp as [_ Hp%prefix_length].
    rewrite length_app in Hp. cbn in Hp. lia.
Qed.

Lemma write_upload_run inbox upload reads w :
  let meta := au_meta upload in
  inbox_open (l_fs w) inbox → is_ok (validate_file_name (fm_file_name meta)) = true →
  Forall read_ok reads → 0 ≤ fm_size meta < 2 ^ 64 - 8192 →
  ends reads = true → zlen (streamed reads) = fm_size meta →
  digest_matches (fm_sha256 meta) (hex_encode (sha256 (streamed reads))) = true →
  ∃ u w', write_upload inbox upload reads w = (Ok u, w') ∧ inbox_open (l_fs w') inbox.
Proof.
  intros meta (Hinbox & Hdirs & Hnodir) Hname Hreads Hsize Hends Hlen Hdig.
  apply is_ok_spec in Hname as [name Hname]. unfold write_upload. fold meta. rewrite Hname, SE_lift_Ok.
  apply validate_file_name_Ok in Hname as (-> & _ & Hplain & Hslash & _). fold (upload_dir inbox).
  assert (Hup : Forall plain (upload_dir inbox)) by (unfold upload_dir; by rewrite Forall_app, Forall_singleton).
  destruct (create_dir_all_succeeds (l_fs w) (upload_dir inbox)) as [t1 H1]; [by rewrite resolve_plain|].
  erewrite ls_io_Ok by exact H1.
  assert (Ht1 : ∀ q, q ≠ [] → q `prefix_of` upload_dir inbox → t1 !! q = Some Dir).
  { intros q ??. rewrite (create_dir_all_Ok _ _ _ H1), resolve_plain by done. by rewrite decide_True. }
  assert (H2 : create_dir_all t1 inbox = Ok t1).
  { apply create_dir_all_noop. intros q ? Hq. rewrite resolve_plain in Hq by done. apply Ht1; [done|].
    etrans; [exact Hq|by exists [str ".incoming"]]. }
  erewrite ls_io_Ok by exact H2. rewrite set_l_fs_twice.
  destruct (part_name_plain upload (set_l_fs w t1)) as (part & n & Hpn & Hpp).
  rewrite (SE_bind_eq _ _ _ _ _ Hpn). clear Hpn.
  assert (Hres : resolve (upload_dir inbox ++ [part]) = upload_dir inbox ++ [part])
    by (apply resolve_plain; rewrite Forall_app, Forall_singleton; done).
  set (part_path := upload_dir inbox ++ [part]) in *.
  assert (H3 : create_file t1 part_path = Ok (<[part_path := File []]> t1)).
  { unfold create_file. rewrite Hres.
    assert (t1 !! part_path ≠ Some Dir).
    { rewrite (create_dir_all_Ok _ _ _ H1), resolve_plain by done. case_decide as Hd; [|apply Hnodir].
      destruct Hd as [_ Hp%prefix_length]. unfold part_path in Hp. rewrite length_app in Hp. cbn in Hp. lia. }
    destruct (t1 !! part_path) as [[]|]; [done..|]. unfold part_path. rewrite parent_check_ok; [done..|].
    intros Hne. by apply Ht1. }
  erewrite ls_io_Ok by exact H3.
  destruct (copy_loop_spec part_path (fm_size meta) reads [] (set_l_fs (bump (set_l_fs w t1) n)
    (<[part_path := File []]> t1))) as (body & Hst & _ & _ & Hgood & _);
    [done|lia|unfold zlen; cbn; lia|rewrite Hres; apply lookup_insert_eq|].
  unfold zlen in Hst at 1, Hgood at 2. cbn [length Z.of_nat app] in Hst, Hgood.
  destruct (Hgood Hends ltac:(lia)) as [Hok ->]. clear Hgood.
  rewrite Hres in Hst. cbn [l_fs set_l_fs] in Hst. rewrite insert_insert_eq, set_l_fs_twice in Hst.
  destruct (copy_loop _ _ _ _ _ _) as [rc wc] eqn:Hcopy. cbn [fst snd] in Hok, Hst. subst rc wc.
  rewrite (SE_bind_eq _ _ _ _ _ Hcopy), Hlen, Z.eqb_refl. cbn [ensure]. rewrite SE_lift_Ok.
  rewrite Hdig. cbn [ensure]. rewrite SE_lift_Ok. set (w1 := set_l_fs _ _).
  destruct (next_available_target_spec (l_fs w1) inbox (fm_file_name meta)) as (base & Ht & Hb & _ & Hfree); [done..|].
  erewrite (SE_bind_eq _ _ w1 (inbox ++ [base]) w1) by (by rewrite Ht).
  assert (Htr : resolve (inbox ++ [base]) = inbox ++ [base]) by (apply resolve_plain; apply Forall_app; auto).
  assert (Hren : rename (l_fs w1) part_path (inbox ++ [base]) =
    Ok (<[inbox ++ [base] := File (streamed reads)]> (delete part_path (l_fs w1)))).
  { rewrite <-Htr at 2. rewrite <-Hres at 2. apply (rename_outcome _ _ _ (streamed reads)).
    - rewrite Hres. apply lookup_insert_eq.
    - by rewrite Htr.
    - rewrite parent_check_ok; [done..|]. intros Hne. cbn [l_fs set_l_fs w1]. rewrite lookup_insert_ne.
      + apply Ht1; [done|]. by exists [str ".incoming"].
      + intros Heq%(f_equal length). unfold part_path, upload_dir in Heq. rewrite !length_app in Heq. cbn in Heq. lia. }
  erewrite ls_io_Ok by exact Hren. eexists _, _. split; [done|]. cbn [l_fs set_l_fs w1]. rewrite delete_insert_eq.
  apply (inbox_open_after (l_fs w) t1); try done. cbn [l_fs set_l_fs w1] in Hfree.
  intros Heq. rewrite <-Heq, lookup_insert_ne in Hfree.
  - rewrite Ht1 in Hfree; [done|unfold upload_dir; by destruct inbox|done].
  - unfold part_path. intros Hl%(f_equal length). rewrite length_app in Hl. cbn in Hl. lia.
Qed.

(** A complete body of the declared size and digest is always stored. *)
Theorem write_upload_succeeds inbox upload reads w :
  let meta := au_meta upload in
  inbox_open (l_fs w) inbox → is_ok (validate_file_name (fm_file_name meta)) = true →
  Forall read_ok reads → 0 ≤ fm_size meta < 2 ^ 64 - 8192 →
  ends reads = true → zlen (streamed reads) = fm_size meta →
  digest_matches (fm_sha256 meta) (hex_encode (sha256 (streamed reads))) = true →
  ∃ u w', write_upload inbox upload reads w = (Ok u, w').
Proof.
  intros meta Hopen Hname Hreads Hsize Hends Hlen Hdig.
  destruct (write_upload_run inbox upload reads w) as (u & w' & Hw & _); eauto.
Qed.
End sound.
