(* ===== verification/LocalServer.v ===== *)
(** * LocalSend upload server

    Model of the request handlers of crates/protocol-localsend-v2/src/server.rs
    over the session manager, the inbox writer and the trust store.  A handler
    takes the configuration, the clock readings it makes ([now] of [Instant],
    [unix] of the system clock) and the world, and returns the response and
    the new world.  HTTP, TLS and JSON parsing are axum's, hyper's and
    serde's.  The text of an error of the trust store is left out of the
    message that wraps it: the response carries the status code only. *)

From stdpp Require Import prelude gmap strings.
From Stdlib Require Import ZArith Lia.
From S2P Require Import Prelude RustStr Errors Fs Transfer Inet Identity TrustStore LocalSession LocalInbox.

Local Open Scope Z_scope.

Inductive LocalSendReceivePolicy := RpPrompt | RpTrusted | RpAuto.

(** [ServerState], without the session table, which is in the world. *)
Record ServerState := mkServerState {
  sv_info : DeviceInfo; sv_session_ttl : Z; sv_inbox_dir : path; sv_receive_policy : LocalSendReceivePolicy;
  sv_trusted_fingerprints : gset rstring; sv_trusted_fingerprints_file : option path; sv_trust_db_path : option path }.

Inductive Response :=
| RespStatus (code : Z)
| RespInfo (info : DeviceInfo)
| RespLegacyInfo (alias : rstring) (model type : option rstring) (fingerprint : rstring)
| RespPrepared (session_id : rstring) (files : gmap rstring rstring)
| RespTokens (files : gmap rstring rstring)
| RespAborted. (** the handler panicked *)

Definition api_error (error : LocalSendError) : Z :=
  match error with
  | LsJson => 400
  | LsSession _ => 403
  | LsCrypto _ => 400
  | LsHttp _ => 400
  | LsIo _ => 500
  end.

(** [match r { Ok(a) => f(a), Err(error) => api_error(error).into_response() }] *)
Definition into_response {A} (m : LM A) (f : A → Response) (w : LsWorld) : Response * LsWorld :=
  match m w with
  | (Ok a, w') => (f a, w')
  | (Err e, w') => (RespStatus (api_error e), w')
  | (Panic, w') => (RespAborted, w')
  end.

Definition legacy_device_info (info : DeviceInfo) : Response :=
  RespLegacyInfo (di_alias info) (di_device_model info) (di_device_type info) (di_fingerprint info).

Definition peer_source_ip (connect_info extension_addr : option SocketAddr) : option rstring :=
  match connect_info with
  | Some addr => Some (show_ip (sock_ip addr))
  | None => (λ addr, show_ip (sock_ip addr)) <$> extension_addr
  end.

(** [str::lines] *)
Fixpoint lines_from (acc : rstring) (s : rstring) : list rstring :=
  match s with
  | [] => if bool_decide (acc = []) then [] else [reverse acc]
  | c :: s =>
    if c =? 10 then
      reverse (match acc with r :: acc' => if r =? 13 then acc' else acc | [] => [] end) :: lines_from [] s
    else lines_from (c :: acc) s
  end.
Definition lines (s : rstring) : list rstring := lines_from [] s.

Definition normalize_legacy_file_type (file_type : rstring) : rstring :=
  if bool_decide (file_type = str "image") then str "image/*"
  else if bool_decide (file_type = str "video") then str "video/*"
  else if bool_decide (file_type = str "pdf") then str "application/pdf"
  else if bool_decide (file_type = str "text") then str "text/plain"
  else if bool_decide (file_type = str "other") then str "application/octet-stream"
  else file_type.

Definition normalize_legacy_prepare_request (request : PrepareUploadRequest) : PrepareUploadRequest :=
  mkPrepareUpload (pu_info request)
    (map_imap (λ file_id meta, Some (mkFileMeta file_id (fm_file_name meta) (fm_size meta)
       (normalize_legacy_file_type <$> fm_file_type meta) (fm_sha256 meta) (fm_preview meta) (fm_metadata meta)))
       (pu_files request)).

Section server.
Context {CS : CryptoSuite} {U : Uuid} {LC : Lowercase}.

Definition normalize_fingerprint (fingerprint : rstring) : option rstring :=
  let normalized := filter (λ ch, ch ≠ 58 ∧ ch ≠ 45) fingerprint ≫= char_to_lowercase in
  if bool_decide (normalized = []) then None else Some normalized.

Definition normalize_trusted_fingerprints (fingerprints : gset rstring) : gset rstring :=
  list_to_set (omap normalize_fingerprint (elements fingerprints)).

Definition read_trusted_fingerprints_file (t : fs) (p : path) : result LocalSendError (gset rstring) :=
  content ← map_err LsIo (read_file t p);
  text ← ok_or (utf8_decode content) (LsIo OtherIo);
  Ok (list_to_set (omap normalize_fingerprint
        (filter (λ line, line ≠ [] ∧ head line ≠ Some 35) (trim <$> lines text)))).

(** [TrustStore::open(path)] followed by a call that does not write. *)
Definition trust_read {A} (f : TrustStore → result CoreError A) (message : string) : LM A := λ w,
  match l_trust w with
  | None => (Err (LsSession (str "failed to open LocalSend trust store")), w)
  | Some s => (map_err (λ _, LsSession (str message)) (f s), w)
  end.
(** ... and by one that does; a call that fails changes nothing. *)
Definition trust_write {A} (f : TrustStore → result CoreError (A * TrustStore)) (message : string) : LM unit := λ w,
  match l_trust w with
  | None => (Err (LsSession (str "failed to open LocalSend trust store")), w)
  | Some s =>
    match f s with
    | Ok (_, s') => (Ok tt, set_l_trust w (Some s'))
    | Err _ => (Err (LsSession (str message)), w)
    | Panic => (Panic, w)
    end
  end.

Definition trusted_fingerprints (state : ServerState) : LM (gset rstring) :=
  let fingerprints := sv_trusted_fingerprints state in
  fingerprints ← match sv_trusted_fingerprints_file state with
    | Some p => λ w, (more ← read_trusted_fingerprints_file (l_fs w) p; Ok (fingerprints ∪ more), w)
    | None => mret fingerprints
    end;
  match sv_trust_db_path state with
  | Some _ =>
    more ← trust_read trusted_localsend_fingerprints "failed to read trusted LocalSend peers";
    mret (fingerprints ∪ list_to_set more)
  | None => mret fingerprints
  end.

Definition srv_record_pending (state : ServerState) (unix : Z) (peer : DeviceInfo) (fingerprint : rstring)
    (source_ip : option rstring) : LM unit :=
  match sv_trust_db_path state with
  | None => mret tt
  | Some _ =>
    is_blocked ← trust_read (λ s, is_localsend_peer_blocked s fingerprint) "failed to read LocalSend peer status";
    if is_blocked : bool then mret tt
    else trust_write (λ s, record_pending_localsend_peer s unix fingerprint (di_alias peer) source_ip)
           "failed to record pending LocalSend peer"
  end.

Definition srv_record_trusted (state : ServerState) (unix : Z) (peer : DeviceInfo) (fingerprint : rstring)
    (source_ip : option rstring) : LM unit :=
  match sv_trust_db_path state with
  | None => mret tt
  | Some _ => trust_write (λ s, record_trusted_localsend_peer s unix fingerprint (di_alias peer) source_ip)
                "failed to record trusted LocalSend peer"
  end.

Definition srv_record_lan (state : ServerState) (unix : Z) (peer : DeviceInfo) (source_ip : option rstring) :
    LM unit :=
  match sv_trust_db_path state, source_ip, normalize_fingerprint (di_fingerprint peer) with
  | Some _, Some ip, Some fingerprint =>
    trust_write (λ s, record_localsend_lan_peer s unix
        (mkLanPeer fingerprint (di_alias peer) ip (di_port peer) (di_protocol peer) (di_device_model peer)
           (di_device_type peer) (di_download peer) 0 0)) "failed to record LocalSend LAN peer"
  | _, _, _ => mret tt
  end.

Definition authorize_prepare_upload (state : ServerState) (unix : Z) (peer : DeviceInfo)
    (source_ip : option rstring) : LM unit :=
  match sv_receive_policy state with
  | RpAuto => mret tt
  | RpPrompt => fail (LsSession (str "incoming LocalSend upload requires operator approval"))
  | RpTrusted =>
    match normalize_fingerprint (di_fingerprint peer) with
    | None => fail (LsSession (str "incoming LocalSend upload has no peer fingerprint"))
    | Some fingerprint =>
      trusted ← trusted_fingerprints state;
      if bool_decide (fingerprint ∈ trusted) then srv_record_trusted state unix peer fingerprint source_ip
      else
        _ ← srv_record_pending state unix peer fingerprint source_ip;
        fail (LsSession (str "incoming LocalSend peer is not trusted: " ++ di_fingerprint peer))
    end
  end.

(** The state [LocalSendServer::bind] builds from its configuration. *)
Definition bind_state (config : ServerState) : ServerState :=
  mkServerState (sv_info config) (sv_session_ttl config) (sv_inbox_dir config) (sv_receive_policy config)
    (normalize_trusted_fingerprints (sv_trusted_fingerprints config))
    (sv_trusted_fingerprints_file config) (sv_trust_db_path config).

(** ** Handlers *)

Definition srv_register (state : ServerState) (unix : Z) (source_ip : option rstring) (request : DeviceInfo)
    (w : LsWorld) : Response * LsWorld :=
  (RespInfo (sv_info state), (srv_record_lan state unix request source_ip w).2).
Definition legacy_register (state : ServerState) (unix : Z) (source_ip : option rstring) (request : DeviceInfo)
    (w : LsWorld) : Response * LsWorld :=
  (legacy_device_info (sv_info state), (srv_record_lan state unix request source_ip w).2).

Definition prepare_upload (state : ServerState) (unix now : Z) (source_ip : option rstring)
    (request : PrepareUploadRequest) : LsWorld → Response * LsWorld :=
  into_response (_ ← authorize_prepare_upload state unix (pu_info request) source_ip;
                 prepare (sv_session_ttl state) now request)
    (λ p, RespPrepared (ps_session_id p) (ps_files p)).

Definition legacy_send_request (state : ServerState) (unix now : Z) (source_ip : option rstring)
    (request : PrepareUploadRequest) : LsWorld → Response * LsWorld :=
  let request := normalize_legacy_prepare_request request in
  into_response (_ ← authorize_prepare_upload state unix (pu_info request) source_ip;
                 prepare (sv_session_ttl state) now request)
    (λ p, RespTokens (ps_files p)).

(** [write_upload] reads the clock when it authorizes ([now]) and when it
    marks the file ([later]). *)
Definition srv_write_upload (state : ServerState) (now later : Z) (session_id file_id token : rstring)
    (body : list (bytes + io_error)) : LsWorld → Response * LsWorld :=
  into_response (authorized ← authorize_upload now session_id file_id token;
                 _ ← write_upload (sv_inbox_dir state) authorized body;
                 mark_uploaded later session_id file_id)
    (λ _, RespStatus 200).

Definition legacy_send (state : ServerState) (now now2 later : Z) (file_id token : rstring)
    (body : list (bytes + io_error)) (w : LsWorld) : Response * LsWorld :=
  match session_id_for_file now file_id w with
  | (Ok (Some session_id), w') => srv_write_upload state now2 later session_id file_id token body w'
  | (Ok None, w') => (RespStatus 403, w')
  | (Err e, w') => (RespStatus (api_error e), w')
  | (Panic, w') => (RespAborted, w')
  end.

Definition srv_cancel (now : Z) (session_id : rstring) : LsWorld → Response * LsWorld :=
  into_response (cancel_session now session_id) (λ b : bool, RespStatus (if b then 200 else 409)).

Definition legacy_cancel : LsWorld → Response * LsWorld := into_response cancel_all (λ _, RespStatus 200).
End server.

(** ** Steps of the server *)

Section pres.
Context (R : LsWorld → LsWorld → Prop) `{!PreOrder R}.

Lemma pres_response {A} (m : LM A) f w : pres R m → R w (into_response m f w).2.
Proof. intros Hm. specialize (Hm w). unfold into_response. by destruct (m w) as [[] w']. Qed.
Lemma pres_trust_read {A} (f : TrustStore → result CoreError A) g : pres R (trust_read f g).
Proof. intros w. unfold trust_read. destruct (l_trust w); reflexivity. Qed.
End pres.
#[export] Hint Resolve pres_trust_read : pres.

Section steps.
Context {CS : CryptoSuite} {U : Uuid} {LC : Lowercase}.

(** One request handled. *)
Inductive request_step (state : ServerState) : LsWorld → LsWorld → Prop :=
| sv_prepare unix now ip request w : request_step state w (prepare_upload state unix now ip request w).2
| sv_legacy_prepare unix now ip request w : request_step state w (legacy_send_request state unix now ip request w).2
| sv_upload now later sid fid token body w :
    request_step state w (srv_write_upload state now later sid fid token body w).2
| sv_legacy_upload now now2 later fid token body w :
    request_step state w (legacy_send state now now2 later fid token body w).2
| sv_cancel now sid w : request_step state w (srv_cancel now sid w).2
| sv_legacy_cancel w : request_step state w (legacy_cancel w).2
| sv_register unix ip request w :
    0 ≤ di_port request ≤ 65535 → request_step state w (srv_register state unix ip request w).2
| sv_legacy_register unix ip request w :
    0 ≤ di_port request ≤ 65535 → request_step state w (legacy_register state unix ip request w).2.

(** What the file system work and the trust database work of a handler keep. *)
Section kept.
Context (R : LsWorld → LsWorld → Prop) `{!PreOrder R}.
Hypothesis R_fs : ∀ w t, R w (set_l_fs w t).
Hypothesis R_uuid : ∀ w n, R w (bump w n).

Lemma pres_ls_io f : pres R (ls_io f).
Proof. intros w. unfold ls_io. destruct (f (l_fs w)); [apply R_fs|reflexivity..]. Qed.
Lemma pres_uuid : pres R ls_new_v4.
Proof. intros w. apply R_uuid. Qed.
Hint Resolve pres_ls_io pres_uuid : pres.
Lemma pres_safe_identifier v : pres R (safe_identifier v).
Proof. unfold safe_identifier. pres_auto. Qed.
Lemma pres_copy_loop part d reads n h : pres R (copy_loop part d reads n h).
Proof. revert n h. induction reads as [|[[|x b]|e] reads IH]; intros n h; cbn [copy_loop]; pres_auto. Qed.
Hint Resolve pres_safe_identifier pres_copy_loop : pres.
Lemma pres_write_upload inbox upload reads : pres R (write_upload inbox upload reads).
Proof. unfold write_upload, incoming_file_name. pres_auto. Qed.
End kept.

(** ** Sessions under requests *)

Lemma pres_session_step {A} (m : LM A) : (∀ w, session_step w (m w).2) → pres (rtc session_step) m.
Proof. intros Hm w. apply rtc_once, Hm. Qed.

Lemma trust_write_sessions {A} (f : TrustStore → result CoreError (A * TrustStore)) g :
  pres (rtc session_step) (trust_write f g).
Proof.
  apply pres_session_step. intros w. apply ss_other; unfold trust_write; destruct (l_trust w) as [s|]; try done;
    by destruct (f s) as [[]| |].
Qed.

Lemma write_upload_sessions inbox upload reads : pres (rtc session_step) (write_upload inbox upload reads).
Proof.
  apply pres_write_upload; [apply _|..]; intros; apply rtc_once, ss_other; cbn; try done; lia.
Qed.
Hint Resolve trust_write_sessions write_upload_sessions : pres.
Hint Extern 1 (pres (rtc session_step) _) => (apply pres_session_step; intros; constructor) : pres.

Lemma authorize_prepare_sessions state unix peer ip :
  pres (rtc session_step) (authorize_prepare_upload state unix peer ip).
Proof.
  unfold authorize_prepare_upload, trusted_fingerprints, srv_record_trusted, srv_record_pending. pres_auto.
Qed.
Hint Resolve authorize_prepare_sessions : pres.

Lemma srv_write_upload_sessions state now later sid fid token body w :
  rtc session_step w (srv_write_upload state now later sid fid token body w).2.
Proof. apply (pres_response (rtc session_step)). pres_auto. Qed.

Lemma request_step_sessions state w w' : request_step state w w' → rtc session_step w w'.
Proof.
  destruct 1; try (apply (pres_response (rtc session_step)); pres_auto).
  - unfold legacy_send. pose proof (ss_find now fid w) as Hf.
    destruct (session_id_for_file now fid w) as [[[sid|]|e|] w1]; cbn [snd] in *;
      try (by apply rtc_once). eapply rtc_l; [exact Hf|apply srv_write_upload_sessions].
  - cbn [snd srv_register]. revert w. change (pres (rtc session_step) (srv_record_lan state unix request ip)).
    unfold srv_record_lan. pres_auto.
  - cbn [snd legacy_register]. revert w. change (pres (rtc session_step) (srv_record_lan state unix request ip)).
    unfold srv_record_lan. pres_auto.
Qed.

Lemma request_steps_sessions state w w' : rtc (request_step state) w w' → rtc session_step w w'.
Proof. induction 1; [done|]. etrans; [by eapply request_step_sessions|done]. Qed.

Lemma srv_write_upload_200 state now later sid fid token body w w' :
  srv_write_upload state now later sid fid token body w = (RespStatus 200, w') →
  ∃ a w1 u w2, authorize_upload now sid fid token w = (Ok a, w1) ∧
    write_upload (sv_inbox_dir state) a body w1 = (Ok u, w2) ∧ mark_uploaded later sid fid w2 = (Ok tt, w').
Proof.
  unfold srv_write_upload, into_response.
  match goal with |- match ?m with _ => _ end = _ → _ => destruct m as [[[]|e|] w3] eqn:Hm end;
    [|destruct e; done|done].
  intros [= <-]. inv_se. eauto 10.
Qed.

Lemma srv_write_upload_unauthorized state now later sid fid token body w :
  is_ok (authorize_upload now sid fid token w).1 = false →
  srv_write_upload state now later sid fid token body w = (RespStatus 403, (authorize_upload now sid fid token w).2).
Proof.
  unfold srv_write_upload, into_response, authorize_upload. se_run.
  destruct (prune_expired_locked _ _ !! sid) as [se|]; [|done]. se_run.
  destruct (se_files se !! fid) as [f|]; [|done]. se_run.
  destruct (sf_uploaded f); [done|]. se_run. by case_bool_decide.
Qed.

Context {UF : UuidFresh}.

End steps.

(** ** Who may open a session *)
Section gate.
Context `{CryptoLaws} {U : Uuid} `{LowercaseLaws}.

Lemma normalize_agrees f :
  normalize_localsend_fingerprint f = match normalize_fingerprint f with
    | Some k => Ok k | None => Err (store_error "LocalSend fingerprint is required") end.
Proof. unfold normalize_localsend_fingerprint, normalize_fingerprint. by case_bool_decide. Qed.

(** A normalized fingerprint the receiver trusts: listed in the
    configuration, in the allowlist file, or approved in the database. *)
Definition allowlisted (state : ServerState) (w : LsWorld) (fp : rstring) : Prop :=
  fp ∈ sv_trusted_fingerprints state ∨
  (∃ p fps, sv_trusted_fingerprints_file state = Some p ∧
     read_trusted_fingerprints_file (l_fs w) p = Ok fps ∧ fp ∈ fps) ∨
  (∃ p s peer, sv_trust_db_path state = Some p ∧ l_trust w = Some s ∧
     get_localsend_peer s fp = Ok (Some peer) ∧ ls_fingerprint peer = fp ∧ ls_status peer = StTrusted).

Lemma trusted_fingerprints_Ok state w fps w' :
  (∀ s, l_trust w = Some s → trust_wf s) →
  trusted_fingerprints state w = (Ok fps, w') → w' = w ∧ ∀ fp, fp ∈ fps ↔ allowlisted state w fp.
Proof.
  intros Hwf Ht. unfold trusted_fingerprints in Ht. inv_se.
  assert (Hfile : x0 = w ∧ ∀ fp, fp ∈ x ↔ fp ∈ sv_trusted_fingerprints state ∨
    ∃ p fps, sv_trusted_fingerprints_file state = Some p ∧
      read_trusted_fingerprints_file (l_fs w) p = Ok fps ∧ fp ∈ fps).
  { destruct (sv_trusted_fingerprints_file state) as [p|]; inv_se.
    - injection H3 as H3 <-. inv_ok. subst. split; [done|]. intros fp. rewrite elem_of_union.
      split; [intros [?|?]; eauto 10|]. intros [?|(p' & fps' & [= <-] & Hr & ?)]; [by left|]. right. congruence.
    - split; [done|]. intros fp. split; [by left|]. by intros [?|(? & ? & ? & _)]. }
  destruct Hfile as [-> Hx]. unfold allowlisted.
  destruct (sv_trust_db_path state) as [p|]; inv_se.
  - unfold trust_read in H4. destruct (l_trust w) as [s|] eqn:Hs; [|done]. injection H4 as H4 <-. inv_ok.
    destruct (trusted_fingerprints_exact s (Hwf s eq_refl)) as (l & Hl & Hmem). rewrite Hl in H4. simplify_eq.
    split; [done|]. intros fp. rewrite elem_of_union, elem_of_list_to_set, Hmem, Hx.
    split; [intros [[?|?]|(? & ? & ? & ?)]; eauto 10|].
    intros [?|[?|(? & ? & ? & _ & [= <-] & ? & ? & ?)]]; eauto 10.
  - split; [done|]. intros fp. rewrite Hx. split; [intros [?|?]; eauto|]. intros [?|[?|(? & ? & ? & ? & _)]]; eauto. done.
Qed.

Lemma authorize_prepare_Ok state unix peer ip w w' :
  (∀ s, l_trust w = Some s → trust_wf s) →
  authorize_prepare_upload state unix peer ip w = (Ok tt, w') →
  sv_receive_policy state = RpAuto ∨
  sv_receive_policy state = RpTrusted ∧
    ∃ fp, normalize_fingerprint (di_fingerprint peer) = Some fp ∧ allowlisted state w fp.
Proof.
  intros Hwf Ha. unfold authorize_prepare_upload in Ha.
  destruct (sv_receive_policy state); [by inv_se| |by left]. right. split; [done|].
  destruct (normalize_fingerprint _) as [fp|]; [|by inv_se]. exists fp. split; [done|].
  inv_se. apply trusted_fingerprints_Ok in H3 as [-> Hmem]; [|done].
  case_bool_decide as Hin; [by apply Hmem|by inv_se].
Qed.

(** What the policy asks of the peer a request names. *)
Definition admitted (state : ServerState) (w : LsWorld) (peer : DeviceInfo) : Prop :=
  sv_receive_policy state = RpAuto ∨
  sv_receive_policy state = RpTrusted ∧
    ∃ fp, normalize_fingerprint (di_fingerprint peer) = Some fp ∧ allowlisted state w fp.

(** Opening a session: admission, then the session. *)
Definition open_session (state : ServerState) (unix now : Z) (ip : option rstring) (request : PrepareUploadRequest) :
    LM PreparedSession :=
  _ ← authorize_prepare_upload state unix (pu_info request) ip;
  prepare (sv_session_ttl state) now request.

(** Neither the sessions nor the files change. *)
Definition idle (w w' : LsWorld) : Prop := l_sessions w' = l_sessions w ∧ l_fs w' = l_fs w.
#[export] Instance idle_preorder : PreOrder idle.
Proof. split; [done|]. intros ??? [] []. split; congruence. Qed.

Lemma trust_write_idle {A} (f : TrustStore → result CoreError (A * TrustStore)) g : pres idle (trust_write f g).
Proof. intros w. unfold trust_write. destruct (l_trust w) as [s|]; [|done]. by destruct (f s) as [[]| |]. Qed.
Hint Resolve trust_write_idle : pres.

Lemma authorize_idle state unix peer ip : pres idle (authorize_prepare_upload state unix peer ip).
Proof. unfold authorize_prepare_upload, trusted_fingerprints, srv_record_trusted, srv_record_pending. pres_auto. Qed.

Lemma srv_record_lan_idle state unix peer ip : pres idle (srv_record_lan state unix peer ip).
Proof. unfold srv_record_lan. pres_auto. Qed.

Lemma open_session_gate state unix now ip request w r w' :
  (∀ s, l_trust w = Some s → trust_wf s) → open_session state unix now ip request w = (r, w') →
  l_fs w' = l_fs w ∧ (is_ok r = true ∧ admitted state w (pu_info request) ∨ is_ok r = false ∧ idle w w').
Proof.
  intros Hwf. unfold open_session. pose proof (authorize_idle state unix (pu_info request) ip w) as [Hse Hfs].
  destruct (authorize_prepare_upload state unix (pu_info request) ip w) as [[[]|e|] w1] eqn:Ha; cbn [snd] in *.
  - rewrite (SE_bind_eq _ _ _ _ _ Ha). destruct (is_ok (validate_file_ids request)) eqn:Hv.
    + destruct (prepare_Ok (sv_session_ttl state) now request w1 Hv) as (p & se & -> & _). intros [= <- <-].
      split; [done|]. left. split; [done|]. by eapply authorize_prepare_Ok.
    + pose proof (prepare_Err (sv_session_ttl state) now request w1 Hv) as Hst. revert Hst.
      unfold prepare. se_run. destruct (validate_file_ids request) as [|e|]; [done|..]; intros _ [= <- <-];
        (split; [done|]; by right).
  - rewrite (SE_bind_Err _ _ _ _ _ Ha). intros [= <- <-]. unfold idle. auto.
  - unfold mbind, SE_bind. rewrite Ha. intros [= <- <-]. unfold idle. auto.
Qed.

(** The gate of the server: a session is created, and tokens are handed out,
    only when the policy is to accept everybody, or when it is to accept
    trusted peers and the fingerprint of the request is on an allowlist;
    every other request is answered with an error and adds no session. *)
Theorem session_needs_trust state unix now ip request w r w' :
  (∀ s, l_trust w = Some s → trust_wf s) →
  prepare_upload state unix now ip request w = (r, w') →
  (∃ sid files, r = RespPrepared sid files ∧
    (sv_receive_policy state = RpAuto ∨
     sv_receive_policy state = RpTrusted ∧
       ∃ fp, normalize_fingerprint (di_fingerprint (pu_info request)) = Some fp ∧ allowlisted state w fp)) ∨
  ((r = RespAborted ∨ ∃ code, r = RespStatus code ∧ 400 ≤ code) ∧ l_sessions w' = l_sessions w).
Proof.
  intros Hwf. unfold prepare_upload. change (_ ← authorize_prepare_upload _ _ _ _; _)
    with (open_session state unix now ip request). unfold into_response.
  destruct (open_session state unix now ip request w) as [m w1] eqn:Ho.
  destruct (open_session_gate _ _ _ _ _ _ _ _ Hwf Ho) as [_ [[Hm Ha]|[Hm [Hse _]]]];
    destruct m as [p|e|]; try done; intros [= <- <-]; [left; by eauto|right..]; (split; [|done]).
  - right. eexists. split; [done|]. destruct e; cbn; lia.
  - by left.
Qed.

(** ** The trust database under requests *)

Lemma prepare_trust ttl now request w : l_trust (prepare ttl now request w).2 = l_trust w.
Proof.
  destruct (is_ok (validate_file_ids request)) eqn:Hv; [|by rewrite prepare_Err].
  by destruct (prepare_Ok ttl now request w Hv) as (p & se & -> & _).
Qed.
Lemma authorize_trust now sid fid token w : l_trust (authorize_upload now sid fid token w).2 = l_trust w.
Proof. by rewrite authorize_upload_state. Qed.
Lemma mark_trust now sid fid w : l_trust (mark_uploaded now sid fid w).2 = l_trust w.
Proof. by destruct (mark_uploaded_state now sid fid w) as [->|(? & ? & _ & _ & ->)]. Qed.

Section by_trust.
Context (R : LsWorld → LsWorld → Prop) `{!PreOrder R}.
Hypothesis R_trust : ∀ w w', l_trust w' = l_trust w → R w w'.
Hypothesis R_pending : ∀ unix g alias ip msg, pres R (trust_write (λ s, record_pending_localsend_peer s unix g alias ip) msg).
Hypothesis R_trusted : ∀ unix g alias ip msg, pres R (trust_write (λ s, record_trusted_localsend_peer s unix g alias ip) msg).
Hypothesis R_lan : ∀ unix peer msg, 0 ≤ lan_port peer ≤ 65535 →
  pres R (trust_write (λ s, record_localsend_lan_peer s unix peer) msg).

Lemma pres_same_trust {A} (m : LM A) : (∀ w, l_trust (m w).2 = l_trust w) → pres R m.
Proof. intros Hm w. by apply R_trust. Qed.
Lemma write_upload_by_trust inbox upload reads : pres R (write_upload inbox upload reads).
Proof. apply pres_write_upload; [apply _|..]; intros; by apply R_trust. Qed.
Hint Resolve R_pending R_trusted write_upload_by_trust : pres.
Hint Extern 2 (pres R _) =>
  (apply pres_same_trust; solve [done | apply prepare_trust | apply authorize_trust | apply mark_trust]) : pres.

Lemma authorize_by_trust state unix peer ip : pres R (authorize_prepare_upload state unix peer ip).
Proof. unfold authorize_prepare_upload, trusted_fingerprints, srv_record_trusted, srv_record_pending. pres_auto. Qed.
Hint Resolve authorize_by_trust : pres.
Lemma srv_record_lan_by_trust state unix peer ip :
  0 ≤ di_port peer ≤ 65535 → pres R (srv_record_lan state unix peer ip).
Proof. intros Hp. unfold srv_record_lan. pose proof R_lan. pres_auto. Qed.

(** A relation that every write of the handlers to the database respects, and
    that only looks at the database. *)
Lemma request_step_by_trust state w w' : request_step state w w' → R w w'.
Proof.
  destruct 1; try (apply (pres_response R); pres_auto).
  - unfold legacy_send. pose proof (R_trust w (session_id_for_file now fid w).2 eq_refl) as Hf.
    destruct (session_id_for_file now fid w) as [[[sid|]|e|] w1]; cbn [snd] in *; try done.
    etrans; [exact Hf|]. apply (pres_response R). pres_auto.
  - by apply srv_record_lan_by_trust.
  - by apply srv_record_lan_by_trust.
Qed.
End by_trust.

(** The database stays well formed. *)
Definition trust_ok (w : LsWorld) : Prop := ∀ s, l_trust w = Some s → trust_wf s.
Definition keeps_trust_ok (w w' : LsWorld) : Prop := trust_ok w → trust_ok w'.
#[local] Instance keeps_trust_ok_preorder : PreOrder keeps_trust_ok.
Proof. split; unfold keeps_trust_ok; [auto|]. intros ???; auto. Qed.

Lemma trust_write_ok {A} (op : TrustStore → result CoreError (A * TrustStore)) g :
  (∀ s a s', op s = Ok (a, s') → trust_step s s') → pres keeps_trust_ok (trust_write op g).
Proof.
  intros Hop w Hw. unfold trust_write. destruct (l_trust w) as [s|] eqn:Hs; [|done].
  destruct (op s) as [[a s']| |] eqn:Ho; [|done..]. intros s0 [= <-]. eapply trust_step_wf; [by eapply Hop|by apply Hw].
Qed.

Lemma request_step_trust_ok state w w' : request_step state w w' → trust_ok w → trust_ok w'.
Proof.
  apply (request_step_by_trust keeps_trust_ok); [|intros; apply trust_write_ok; by econstructor..].
  unfold keeps_trust_ok, trust_ok. by intros ?? ->.
Qed.
Lemma request_steps_trust_ok state w w' : rtc (request_step state) w w' → trust_ok w → trust_ok w'.
Proof. induction 1; eauto using request_step_trust_ok. Qed.

(** ** Operator decisions *)

(** The database holds the peer [f] with status [st]. *)
Definition has_status (f : rstring) (st : LocalSendPeerStatus) (w : LsWorld) : Prop :=
  ∃ s k row, l_trust w = Some s ∧ trust_wf s ∧ normalize_localsend_fingerprint f = Ok k ∧
    localsend_peers s !! k = Some row ∧ lw_status row = status_as_str st.
Definition status_kept (f : rstring) (st : LocalSendPeerStatus) (w w' : LsWorld) : Prop :=
  has_status f st w → has_status f st w'.

#[local] Instance status_kept_preorder f st : PreOrder (status_kept f st).
Proof. split; [intros w Hw; exact Hw|]. intros w1 w2 w3 H12 H23 H1'. by apply H23, H12. Qed.

Lemma same_trust_kept f st w w' : l_trust w' = l_trust w → status_kept f st w w'.
Proof. intros Ht (s & k & row & Hs & ?). exists s, k, row. by rewrite Ht. Qed.

(** Writing a row that keeps the status the row had, if any. *)
Lemma trust_write_kept {A} f st (op : TrustStore → result CoreError (A * TrustStore)) g :
  (∀ s a s', op s = Ok (a, s') → trust_step s s' ∧ ∀ k row, localsend_peers s !! k = Some row →
     ∃ row', localsend_peers s' !! k = Some row' ∧ lw_status row' = lw_status row) →
  pres (status_kept f st) (trust_write op g).
Proof.
  intros Hop w. unfold trust_write. destruct (l_trust w) as [s|] eqn:Hs; [|reflexivity].
  destruct (op s) as [[a s']| |] eqn:Ho; [|reflexivity..]. destruct (Hop _ _ _ Ho) as [Hstep Hrow].
  intros (s0 & k & row & Hs0 & Hwf & Hk & Hr & Hst). rewrite Hs in Hs0. injection Hs0 as <-.
  destruct (Hrow _ _ Hr) as (row' & Hr' & Hst'). exists s', k, row'. split_and!; [done|by eapply trust_step_wf|done..|].
  by rewrite Hst'.
Qed.

Lemma insert_keeps_status (m : gmap rstring ls_row) k0 row0 :
  (∀ row, m !! k0 = Some row → lw_status row0 = lw_status row) →
  ∀ k row, m !! k = Some row → ∃ row', <[k0 := row0]> m !! k = Some row' ∧ lw_status row' = lw_status row.
Proof. intros Hsame k row Hr. rewrite lookup_insert. case_decide; [subst|]; eauto. Qed.

Lemma record_pending_kept f st unix g alias ip msg :
  pres (status_kept f st) (trust_write (λ s, record_pending_localsend_peer s unix g alias ip) msg).
Proof.
  apply trust_write_kept. intros s a s' Ho. split; [by eapply step_pending|].
  unfold record_pending_localsend_peer in Ho. inv_ok. apply then_get_Ok_inv in Ho as [-> _].
  apply insert_keeps_status. intros row Hr. by rewrite Hr.
Qed.
Lemma record_trusted_kept f st unix g alias ip msg :
  pres (status_kept f st) (trust_write (λ s, record_trusted_localsend_peer s unix g alias ip) msg).
Proof.
  apply trust_write_kept. intros s a s' Ho. split; [by eapply step_trusted|].
  unfold record_trusted_localsend_peer in Ho. inv_ok. apply then_get_Ok_inv in Ho as [-> _].
  apply insert_keeps_status. intros row Hr. by rewrite Hr.
Qed.
Lemma record_lan_kept f st unix peer msg :
  0 ≤ lan_port peer ≤ 65535 →
  pres (status_kept f st) (trust_write (λ s, record_localsend_lan_peer s unix peer) msg).
Proof.
  intros Hp. apply trust_write_kept. intros s a s' Ho. split; [by eapply step_lan|].
  unfold record_localsend_lan_peer in Ho. inv_ok. apply then_get_Ok_inv in Ho as [-> _]. eauto.
Qed.

(** No request changes the status of a known peer. *)
Lemma request_step_status f st state w w' : request_step state w w' → has_status f st w → has_status f st w'.
Proof.
  apply (request_step_by_trust (status_kept f st)); [apply same_trust_kept|intros..].
  - apply record_pending_kept.
  - apply record_trusted_kept.
  - by apply record_lan_kept.
Qed.

Lemma request_steps_status f st state w w' : rtc (request_step state) w w' → has_status f st w → has_status f st w'.
Proof. induction 1; eauto using request_step_status. Qed.

(** The receiver decides by the database alone. *)
Definition database_only (state : ServerState) : Prop :=
  sv_receive_policy state = RpTrusted ∧ sv_trusted_fingerprints state = ∅ ∧
  sv_trusted_fingerprints_file state = None ∧ is_Some (sv_trust_db_path state).

Lemma has_status_get f st w :
  has_status f st w → ∃ s k p, l_trust w = Some s ∧ trust_wf s ∧ normalize_fingerprint f = Some k ∧
    normalize_localsend_fingerprint k = Ok k ∧
    get_localsend_peer s k = Ok (Some p) ∧ ls_fingerprint p = k ∧ ls_status p = st ∧
    ∀ g, trusted_localsend_fingerprints s = Ok g → (k ∈ g ↔ st = StTrusted).
Proof.
  intros (s & k & row & Hs & Hwf & Hk & Hr & Hst). pose proof (normalize_idem _ _ Hk) as Hkk.
  pose proof (get_localsend_row s k k Hwf Hkk) as Hg. rewrite Hr in Hg. destruct Hg as (st' & Hst' & _ & Hg).
  rewrite Hst in Hst'. apply status_as_str_inj in Hst' as <-. rewrite normalize_agrees in Hk.
  destruct (normalize_fingerprint f) as [k'|]; [|done]. injection Hk as ->.
  eexists s, k, _. split_and!; try done. intros g Hgs.
  destruct (trusted_fingerprints_exact s Hwf) as (l & Hl & Hmem). rewrite Hl in Hgs. injection Hgs as ->.
  rewrite Hmem, Hg. split; [by intros (p & [= <-] & _ & ?)|]. intros ->. eauto.
Qed.

Lemma database_trusted state w s :
  database_only state → l_trust w = Some s → trust_wf s →
  ∃ l, trusted_localsend_fingerprints s = Ok l ∧ trusted_fingerprints state w = (Ok (list_to_set l), w).
Proof.
  intros (_ & Hnone & Hfile & [p Hdb]) Hs Hwf. destruct (trusted_fingerprints_exact s Hwf) as (l & Hl & _).
  exists l. split; [done|]. unfold trusted_fingerprints. rewrite Hnone, Hfile, Hdb. se_run.
  unfold trust_read. rewrite Hs, Hl. cbn [map_err]. by rewrite union_empty_l_L.
Qed.

Lemma record_trusted_succeeds s unix k alias ip :
  trust_wf s → normalize_localsend_fingerprint k = Ok k → is_blank alias = false →
  ∃ p s', record_trusted_localsend_peer s unix k alias ip = Ok (p, s').
Proof.
  intros Hwf Hk Hb. pose proof (get_localsend_row s k k Hwf Hk) as Hold.
  cut (∃ p s', record_trusted_localsend_peer s unix k alias ip = Ok (p, s') ∧ True); [naive_solver|].
  unfold record_trusted_localsend_peer, require_nonblank. rewrite Hk, Hb. cbn [mbind result_bind negb ensure].
  destruct (localsend_peers s !! k) as [row|].
  - destruct Hold as (st & Hst & Ha & _). by eapply (localsend_update_row (λ _, True)); eauto.
  - by eapply (localsend_update_row (λ _, True) _ _ _ _ StTrusted 0); eauto.
Qed.

Lemma set_status_has s unix f st label p s' w :
  trust_wf s → set_localsend_peer_status s unix f st label = Ok (p, s') → l_trust w = Some s' → has_status f st w.
Proof.
  intros Hwf Hset Hw. pose proof (trust_step_wf _ _ (step_status _ _ _ _ _ _ _ Hset) Hwf) as Hwf'.
  unfold set_localsend_peer_status in Hset. inv_ok. apply then_get_Ok_inv in Hset as [-> _].
  eexists _, _, _. split_and!; [exact Hw|done|done|apply lookup_insert_eq|]. by destruct (localsend_peers s !! _).
Qed.

(** What a request of a peer with a known status gets. *)
Lemma status_decides state st f unix now ip request w :
  database_only state → has_status f st w →
  normalize_fingerprint (di_fingerprint (pu_info request)) = normalize_fingerprint f →
  (st = StBlocked → prepare_upload state unix now ip request w = (RespStatus 403, w)) ∧
  (st = StTrusted → is_blank (di_alias (pu_info request)) = false → is_ok (validate_file_ids request) = true →
     ∃ sid files w', prepare_upload state unix now ip request w = (RespPrepared sid files, w') ∧
       is_Some (l_sessions w' !! sid)).
Proof.
  intros Hdb Hst Hf. destruct (has_status_get _ _ _ Hst) as (s & k & p & Hs & Hwf & Hk & Hkk & Hg & Hfp & Hstat & Hin).
  destruct (database_trusted state w s Hdb Hs Hwf) as (l & Hl & Ht). specialize (Hin l Hl).
  pose proof Hdb as (Hpol & _ & _ & [db Hpath]).
  unfold prepare_upload, into_response, authorize_prepare_upload. rewrite Hpol, Hf, Hk.
  split; intros ->.
  - rewrite (SE_bind_Err _ _ w (LsSession (str "incoming LocalSend peer is not trusted: " ++
      di_fingerprint (pu_info request))) w); [done|].
    rewrite (SE_bind_eq _ _ _ _ _ Ht), bool_decide_false by (rewrite elem_of_list_to_set, Hin; done).
    unfold srv_record_pending. rewrite Hpath. se_run. unfold trust_read, is_localsend_peer_blocked.
    rewrite Hs, Hg. cbn [mbind result_bind map_err]. by rewrite Hstat, bool_decide_true.
  - intros Halias Hids.
    destruct (record_trusted_succeeds s unix k (di_alias (pu_info request)) ip Hwf Hkk Halias) as (p' & s' & Hrec).
    rewrite (SE_bind_eq _ _ w tt (set_l_trust w (Some s'))).
    + destruct (prepare_Ok (sv_session_ttl state) now request (set_l_trust w (Some s')) Hids) as (q & se & -> & _).
      eexists _, _, _. split; [done|]. cbn [l_sessions set_l_sessions]. by rewrite lookup_insert_eq.
    + rewrite (SE_bind_eq _ _ _ _ _ Ht), bool_decide_true by (by rewrite elem_of_list_to_set, Hin).
      unfold srv_record_trusted, trust_write. by rewrite Hpath, Hs, Hrec.
Qed.

(** C12: Operator decisions are final.  Where the receiver decides by its
    database, a peer that was denied is refused with 403, without trace, and
    a peer that was approved gets a session, after any sequence of requests
    by anybody. *)
Theorem operator_decisions_enforced state s unix0 f label p s' w w2 unix now ip request :
  database_only state → trust_wf s → l_trust w = Some s' → rtc (request_step state) w w2 →
  normalize_fingerprint (di_fingerprint (pu_info request)) = normalize_fingerprint f →
  (deny_localsend_peer s unix0 f = Ok (p, s') →
     prepare_upload state unix now ip request w2 = (RespStatus 403, w2)) ∧
  (approve_localsend_peer s unix0 f label = Ok (p, s') → is_blank (di_alias (pu_info request)) = false →
     (∀ k m, pu_files request !! k = Some m → fm_id m = k) →
     ∃ sid files w3, prepare_upload state unix now ip request w2 = (RespPrepared sid files, w3) ∧
       is_Some (l_sessions w3 !! sid)).
Proof.
  intros Hdb Hwf Hw Hr Hf. split.
  - intros Hset. assert (Hst : has_status f StBlocked w) by (by eapply set_status_has).
    apply (request_steps_status _ _ _ _ _ Hr) in Hst. by apply (status_decides state StBlocked f).
  - intros Hset Halias Hids. assert (Hst : has_status f StTrusted w) by (by eapply set_status_has).
    apply (request_steps_status _ _ _ _ _ Hr) in Hst.
    apply (status_decides state StTrusted f); [done..|]. by apply validate_file_ids_spec.
Qed.
End gate.
