(* ===== verification/LocalHttp.v ===== *)
(** * The LocalSend server over HTTP

    Model of the routes and of the accept loop of
    crates/protocol-localsend-v2/src/server.rs, over the handlers of
    LocalServer.v.  Of axum: a route is looked up by the path as it is sent,
    GET routes answer HEAD too, another method gets 405 and another path 404,
    and an extractor yields a value or the status of its rejection, before
    the handler runs.  What a server does is a fold over events: what the
    listener accepts, how the TLS handshake of a connection ends, the requests
    that arrive on it, its end, and the shutdown.  A request's handler runs at
    once: each holds the locks it needs only while it computes, and the writes
    of an upload's body are those of one handler. *)

From stdpp Require Import prelude gmap strings.
From Stdlib Require Import ZArith Lia.
From S2P Require Import Prelude RustStr Errors Fs Transfer Inet Identity TrustStore LocalSession LocalInbox LocalServer.

Local Open Scope Z_scope.

(** ** Requests *)

Inductive Method := GET | HEAD | POST | DELETE | OtherMethod.
#[export] Instance Method_eq_dec : EqDecision Method.
Proof. solve_decision. Defined.

Record UploadQuery := mkUploadQuery { uq_session_id : rstring; uq_file_id : rstring; uq_token : rstring }.
Record LegacySendQuery := mkLegacySendQuery { lq_file_id : rstring; lq_token : rstring }.
Record CancelQuery := mkCancelQuery { cq_session_id : rstring }.

(** [hr_body] is the body's stream of data frames. *)
Record HttpRequest := mkHttpRequest {
  hr_method : Method; hr_path : rstring; hr_query : rstring; hr_headers : list (rstring * bytes);
  hr_body : list (bytes + io_error) }.

(** The extractors of axum for the types of the handlers. *)
Class Extractors := {
  json_device : HttpRequest → Z + DeviceInfo;
  json_prepare : HttpRequest → Z + PrepareUploadRequest;
  query_upload : HttpRequest → Z + UploadQuery;
  query_legacy_send : HttpRequest → Z + LegacySendQuery;
  query_cancel : HttpRequest → Z + CancelQuery }.
(** A [u16] field is parsed as one. *)
Class ExtractorsLaws `{Extractors} := {
  json_device_port r d : json_device r = inr d → 0 ≤ di_port d ≤ 65535 }.

(** The clock readings of one handler. *)
Record Clock := mkClock { ck_unix : Z; ck_now : Z; ck_now2 : Z; ck_later : Z }.

(** ** Routes *)

Definition API_PREFIX : rstring := str "/api/localsend/v2".
Definition LEGACY_API_PREFIX : rstring := str "/api/localsend/v1".

Inductive Route :=
| Info | Register | PrepareUpload | Upload | Cancel
| LegacyInfo | LegacyRegister | LegacySendRequest | LegacySend | LegacyCancel.

Definition routes : list (rstring * (list Method * Route)) := [
  (API_PREFIX ++ str "/info", ([GET; HEAD], Info));
  (API_PREFIX ++ str "/register", ([POST], Register));
  (API_PREFIX ++ str "/prepare-upload", ([POST], PrepareUpload));
  (API_PREFIX ++ str "/upload", ([POST], Upload));
  (API_PREFIX ++ str "/cancel", ([POST; DELETE], Cancel));
  (LEGACY_API_PREFIX ++ str "/info", ([GET; HEAD], LegacyInfo));
  (LEGACY_API_PREFIX ++ str "/register", ([POST], LegacyRegister));
  (LEGACY_API_PREFIX ++ str "/send-request", ([POST], LegacySendRequest));
  (LEGACY_API_PREFIX ++ str "/send", ([POST], LegacySend));
  (LEGACY_API_PREFIX ++ str "/cancel", ([POST], LegacyCancel)) ].

Definition router (path : rstring) : option (list Method * Route) :=
  (λ e, e.2.2) <$> list_find (λ e, e.1 = path) routes.

Definition info (state : ServerState) : Response := RespInfo (sv_info state).
Definition legacy_info (state : ServerState) : Response := legacy_device_info (sv_info state).

Section http.
Context {CS : CryptoSuite} {U : Uuid} {LC : Lowercase} {EX : Extractors}.

Definition upload (state : ServerState) (clock : Clock) (query : UploadQuery) (body : list (bytes + io_error)) :
    LsWorld → Response * LsWorld :=
  srv_write_upload state (ck_now clock) (ck_later clock) (uq_session_id query) (uq_file_id query) (uq_token query) body.

(** An extractor that rejects the request answers it. *)
Definition extracted {A} (x : Z + A) (k : A → LsWorld → Response * LsWorld) (w : LsWorld) : Response * LsWorld :=
  match x with inl rejection => (RespStatus rejection, w) | inr a => k a w end.

Definition handle_route (state : ServerState) (clock : Clock) (ip : option rstring) (request : HttpRequest) (r : Route) :
    LsWorld → Response * LsWorld :=
  match r with
  | Info => λ w, (info state, w)
  | Register => extracted (json_device request) (srv_register state (ck_unix clock) ip)
  | PrepareUpload => extracted (json_prepare request) (prepare_upload state (ck_unix clock) (ck_now clock) ip)
  | Upload => extracted (query_upload request) (λ query, upload state clock query (hr_body request))
  | Cancel => extracted (query_cancel request) (λ query, srv_cancel (ck_now clock) (cq_session_id query))
  | LegacyInfo => λ w, (legacy_info state, w)
  | LegacyRegister => extracted (json_device request) (legacy_register state (ck_unix clock) ip)
  | LegacySendRequest =>
    extracted (json_prepare request) (legacy_send_request state (ck_unix clock) (ck_now clock) ip)
  | LegacySend =>
    extracted (query_legacy_send request) (λ query,
      legacy_send state (ck_now clock) (ck_now2 clock) (ck_later clock) (lq_file_id query) (lq_token query)
        (hr_body request))
  | LegacyCancel => legacy_cancel
  end.

Definition handle (state : ServerState) (clock : Clock) (ip : option rstring) (request : HttpRequest) (w : LsWorld) :
    Response * LsWorld :=
  match router (hr_path request) with
  | None => (RespStatus 404, w)
  | Some (methods, r) =>
    if bool_decide (hr_method request ∈ methods) then handle_route state clock ip request r w else (RespStatus 405, w)
  end.

(** ** The accept loop *)

Inductive Phase := Handshaking | Serving | Closed.

(** A connection is known by the place at which it was accepted; its peer's
    address is axum's [ConnectInfo] on plain HTTP and an [Extension] on TLS. *)
Inductive ServeEvent :=
| ShutdownResolved
| Accepted (outcome : io_error + SocketAddr)
| Handshake (conn : nat) (ok : bool)
| Requested (conn : nat) (clock : Clock) (request : HttpRequest)
| Disconnected (conn : nat).

Record ServerRun := mkServerRun {
  sr_conns : list (SocketAddr * Phase); sr_result : option (result LocalSendError unit); sr_world : LsWorld }.

Definition source_ip (tls : bool) (peer : SocketAddr) : option rstring :=
  if tls then peer_source_ip None (Some peer) else peer_source_ip (Some peer) None.

Definition set_phase (run : ServerRun) (conn : nat) (f : Phase → Phase) : ServerRun :=
  mkServerRun (alter (prod_map id f) conn (sr_conns run)) (sr_result run) (sr_world run).
Definition finish (run : ServerRun) (r : result LocalSendError unit) : ServerRun :=
  mkServerRun (sr_conns run) (Some r) (sr_world run).

(** What a connection does, in the task spawned for it: on its own, whether
    the loop still runs or not. *)
Definition connection_event (tls : bool) (state : ServerState) (run : ServerRun) (event : ServeEvent) : ServerRun :=
  match event with
  | Handshake conn ok => set_phase run conn (λ p, match p with Handshaking => if ok : bool then Serving else Closed | p => p end)
  | Requested conn clock request =>
    match sr_conns run !! conn with
    | Some (peer, Serving) =>
      mkServerRun (sr_conns run) (sr_result run) (handle state clock (source_ip tls peer) request (sr_world run)).2
    | _ => run
    end
  | Disconnected conn => set_phase run conn (λ _, Closed)
  | _ => run
  end.

(** One turn of the [select!] of [serve_tls]. *)
Definition serve_tls (state : ServerState) (run : ServerRun) (event : ServeEvent) : ServerRun :=
  match event, sr_result run with
  | ShutdownResolved, None => finish run (Ok tt)
  | Accepted (inr peer), None => mkServerRun (sr_conns run ++ [(peer, Handshaking)]) None (sr_world run)
  | Accepted (inl e), None => finish run (Err (LsIo e))
  | _, _ => connection_event true state run event
  end.

(** [axum::serve] with graceful shutdown: accepts again after an error, has no
    handshake. *)
Definition axum_serve (state : ServerState) (run : ServerRun) (event : ServeEvent) : ServerRun :=
  match event, sr_result run with
  | ShutdownResolved, None => finish run (Ok tt)
  | Accepted (inr peer), None => mkServerRun (sr_conns run ++ [(peer, Serving)]) None (sr_world run)
  | _, _ => connection_event false state run event
  end.

Definition start (w : LsWorld) : ServerRun := mkServerRun [] None w.

(** rustls takes the certificate and key, or says why it does not. *)
Context {Identity : Type} (with_single_cert : Identity → result rstring unit).
Definition rustls_server_config (identity : Identity) : result LocalSendError unit :=
  map_err LsCrypto (with_single_cert identity).

Definition serve_until_shutdown (tls_identity : option Identity) (state : ServerState) (events : list ServeEvent)
    (w : LsWorld) : ServerRun :=
  match tls_identity with
  | Some identity =>
    match rustls_server_config identity with
    | Ok _ => foldl (serve_tls state) (start w) events
    | r => finish (start w) r
    end
  | None => foldl (axum_serve state) (start w) events
  end.
End http.

(** ** Correctness *)

Section correct.
Context `{CryptoLaws} {U : Uuid} `{LowercaseLaws} `{ExtractorsLaws}.

(** A turn of either loop. *)
Definition turn (tls : bool) : ServerState → ServerRun → ServeEvent → ServerRun :=
  if tls then serve_tls else axum_serve.
(** Only a request on an established connection reaches the handlers. *)
Lemma turn_world tls state run event :
  sr_world (turn tls state run event) = sr_world run ∨
  ∃ conn clock request peer, event = Requested conn clock request ∧ sr_conns run !! conn = Some (peer, Serving) ∧
    sr_world (turn tls state run event) = (handle state clock (source_ip tls peer) request (sr_world run)).2.
Proof.
  assert (Hc : ∀ t, sr_world (connection_event t state run event) = sr_world run ∨
    ∃ conn clock request peer, event = Requested conn clock request ∧ sr_conns run !! conn = Some (peer, Serving) ∧
      sr_world (connection_event t state run event) = (handle state clock (source_ip t peer) request (sr_world run)).2).
  { intros t. destruct event as [|[]| conn ok |conn clock request|conn]; try by left. cbn [connection_event].
    destruct (sr_conns run !! conn) as [[peer []]|] eqn:Hl; [by left| |by left..]. right. by exists conn, clock, request, peer. }
  destruct tls; cbn [turn]; unfold serve_tls, axum_serve; repeat case_match; subst; first [by left | apply Hc].
Qed.

Lemma router_routes path ms r : router path = Some (ms, r) → (path, (ms, r)) ∈ routes.
Proof.
  unfold router. intros ([i [p [ms' r']]] & Hf & [= -> ->])%fmap_Some. apply list_find_Some in Hf as (Hl & Hp & _).
  cbn in Hp. subst p. by eapply list_elem_of_lookup_2.
Qed.

(** The answer to a request is a step of the server, or changes nothing. *)
Lemma handle_step state clock ip request w :
  (handle state clock ip request w).2 = w ∨ request_step state w (handle state clock ip request w).2.
Proof.
  unfold handle. destruct (router (hr_path request)) as [[ms r]|]; [|by left]. case_bool_decide; [|by left].
  destruct r; cbn [handle_route]; unfold extracted, upload; try by left.
  - destruct (json_device request) as [|d] eqn:Hd; [by left|]. right. apply sv_register. by eapply json_device_port.
  - destruct (json_prepare request); [by left|]. right. constructor.
  - destruct (query_upload request); [by left|]. right. constructor.
  - destruct (query_cancel request); [by left|]. right. constructor.
  - destruct (json_device request) as [|d] eqn:Hd; [by left|]. right. apply sv_legacy_register. by eapply json_device_port.
  - destruct (json_prepare request); [by left|]. right. constructor.
  - destruct (query_legacy_send request); [by left|]. right. constructor.
  - right. constructor.
Qed.

(** Everything shown of sequences of requests holds of a server on the network. *)
Lemma serve_request_steps tls state events run :
  rtc (request_step state) (sr_world run) (sr_world (foldl (turn tls state) run events)).
Proof.
  revert run. induction events as [|event events IH]; intros run; [done|]. cbn [foldl]. etrans; [|apply IH].
  destruct (turn_world tls state run event) as [->|(conn & clock & request & peer & _ & _ & ->)]; [done|].
  destruct (handle_step state clock (source_ip tls peer) request (sr_world run)) as [->|]; [done|by apply rtc_once].
Qed.

(** ** What the inbox takes *)

(** The request for a session: its routes and its body. *)
Definition asks_session (request : HttpRequest) (body : PrepareUploadRequest) : Prop :=
  hr_method request = POST ∧ json_prepare request = inr body ∧
  (hr_path request = API_PREFIX ++ str "/prepare-upload" ∨ hr_path request = LEGACY_API_PREFIX ++ str "/send-request").

Lemma routed path ms r :
  router path = Some (ms, r) →
  match r with
  | PrepareUpload => ms = [POST] ∧ path = API_PREFIX ++ str "/prepare-upload"
  | LegacySendRequest => ms = [POST] ∧ path = LEGACY_API_PREFIX ++ str "/send-request"
  | _ => True
  end.
Proof.
  intros Hr%router_routes. unfold routes in Hr.
  repeat (apply elem_of_cons in Hr as [[= -> -> ->]|Hr]; [done|]). by apply elem_of_nil in Hr.
Qed.

Lemma response_idle {A} (m : LM A) f w : idle w (m w).2 → idle w (into_response m f w).2.
Proof. unfold into_response. by destruct (m w) as [[] w']. Qed.

(** Without a session, nothing is written. *)
Lemma srv_write_upload_idle state now later sid fid token body w :
  l_sessions w = ∅ → idle w (srv_write_upload state now later sid fid token body w).2.
Proof.
  intros He. rewrite srv_write_upload_unauthorized.
  - cbn [snd]. rewrite authorize_upload_state. split; [|done]. cbn. by rewrite He.
  - unfold authorize_upload. se_run. by rewrite He.
Qed.

Lemma handle_idle state clock ip request w :
  trust_ok w → l_sessions w = ∅ →
  idle w (handle state clock ip request w).2 ∨
  l_fs (handle state clock ip request w).2 = l_fs w ∧ ∃ body, asks_session request body ∧ admitted state w (pu_info body).
Proof.
  intros Hwf He. unfold handle. destruct (router (hr_path request)) as [[ms r]|] eqn:Hr; [|by left].
  case_bool_decide as Hm; [|by left]. apply routed in Hr.
  assert (Hopen : ∀ body body' f, json_prepare request = inr body → pu_info body' = pu_info body →
    asks_session request body →
    idle w (into_response (open_session state (ck_unix clock) (ck_now clock) ip body') f w).2 ∨
    l_fs (into_response (open_session state (ck_unix clock) (ck_now clock) ip body') f w).2 = l_fs w ∧
    ∃ body, asks_session request body ∧ admitted state w (pu_info body)).
  { intros body body' f Hj Hi Hask.
    destruct (open_session state (ck_unix clock) (ck_now clock) ip body' w) as [m w'] eqn:Ho.
    destruct (open_session_gate _ _ _ _ _ _ _ _ Hwf Ho) as [Hfs Hg]. rewrite Hi in Hg.
    assert ((into_response (open_session state (ck_unix clock) (ck_now clock) ip body') f w).2 = w') as ->
      by (unfold into_response; rewrite Ho; by destruct m).
    destruct Hg as [[_ Ha]|[_ Hidle]]; [right; eauto|by left]. }
  destruct r; cbn [handle_route]; unfold extracted, upload.
  - by left.
  - destruct (json_device request); left; [done|]. apply srv_record_lan_idle.
  - destruct Hr as [-> Hp]. apply list_elem_of_singleton in Hm.
    destruct (json_prepare request) as [|body] eqn:Hj; [by left|]. apply (Hopen body body); unfold asks_session; auto.
  - destruct (query_upload request); left; [done|]. by apply srv_write_upload_idle.
  - destruct (query_cancel request); left; [done|]. apply response_idle. unfold cancel_session. se_run.
    split; [|done]. cbn. by rewrite He.
  - by left.
  - destruct (json_device request); left; [done|]. apply srv_record_lan_idle.
  - destruct Hr as [-> Hp]. apply list_elem_of_singleton in Hm.
    destruct (json_prepare request) as [|body] eqn:Hj; [by left|]. apply (Hopen body (normalize_legacy_prepare_request body));
      unfold asks_session; auto.
  - destruct (query_legacy_send request); left; [done|]. unfold legacy_send, session_id_for_file. se_run. rewrite He.
    cbn. split; [|done]. cbn. by rewrite He.
  - left. apply response_idle. unfold cancel_all. se_run. split; cbn; by rewrite ?He.
Qed.

Lemma runs_need_admission tls state events run :
  trust_ok (sr_world run) → l_sessions (sr_world run) = ∅ →
  let serve := foldl (turn tls state) run in
  l_fs (sr_world (serve events)) = l_fs (sr_world run) ∨
  ∃ before conn clock request after peer body,
    events = before ++ Requested conn clock request :: after ∧
    sr_conns (serve before) !! conn = Some (peer, Serving) ∧
    l_fs (sr_world (serve before)) = l_fs (sr_world run) ∧
    asks_session request body ∧ admitted state (sr_world (serve before)) (pu_info body).
Proof.
  cbv zeta. revert run. induction events as [|event events IH]; intros run Hwf He; [by left|]. cbn [foldl].
  assert (Hnext : idle (sr_world run) (sr_world (turn tls state run event)) ∨
    ∃ conn clock request peer body, event = Requested conn clock request ∧ sr_conns run !! conn = Some (peer, Serving) ∧
      asks_session request body ∧ admitted state (sr_world run) (pu_info body)).
  { destruct (turn_world tls state run event) as [->|(conn & clock & request & peer & -> & Hc & ->)]; [by left|].
    destruct (handle_idle state clock (source_ip tls peer) request (sr_world run)) as [|(_ & body & ? & ?)]; auto.
    right. by exists conn, clock, request, peer, body. }
  destruct Hnext as [[Hse Hfs]|(conn & clock & request & peer & body & -> & Hc & Hask & Ha)].
  - destruct (IH (turn tls state run event)) as [Heq|(before & conn & clock & request & after & peer & body & -> & ? & Heq & ? & ?)].
    + pose proof (serve_request_steps tls state [event] run) as Hr. by apply (request_steps_trust_ok _ _ _ Hr).
    + by rewrite Hse.
    + left. congruence.
    + right. exists (event :: before), conn, clock, request, after, peer, body. cbn [foldl]. split_and!; [done..| |done|done]. congruence.
  - right. exists [], conn, clock, request, events, peer, body. by split_and!.
Qed.

(** C13: What it takes to write into the inbox over the network: starting
    without sessions, whatever connections are made and whatever is requested
    on them, nothing under the file system changes unless an established
    connection asked for a session before, by one of the two routes for that,
    and the policy admitted the peer it named. *)
Theorem inbox_needs_admission {Identity} with_single_cert (tls_identity : option Identity) state events w :
  trust_ok w → l_sessions w = ∅ →
  let served events := serve_until_shutdown with_single_cert tls_identity state events w in
  l_fs (sr_world (served events)) = l_fs w ∨
  ∃ before conn clock request after peer body,
    events = before ++ Requested conn clock request :: after ∧
    sr_conns (served before) !! conn = Some (peer, Serving) ∧
    l_fs (sr_world (served before)) = l_fs w ∧
    asks_session request body ∧ admitted state (sr_world (served before)) (pu_info body).
Proof.
  intros Hwf He. unfold serve_until_shutdown. destruct tls_identity as [identity|].
  - destruct (rustls_server_config with_single_cert identity); [|by left..].
    by apply (runs_need_admission true state events (start w)).
  - by apply (runs_need_admission false state events (start w)).
Qed.
End correct.
