(* ===== verification/LocalClient.v ===== *)
(** * LocalSend upload client

    Model of crates/protocol-localsend-v2/src/client.rs, and of a client and
    the upload server (LocalServer.v) joined by HTTP.  The client pinned to a
    certificate is in PinnedTls.v.

    The client posts to any server: a function from a request and the server's
    world to a reply.  Guessing a MIME type and building a URL are arguments
    (the mime_guess and url crates).  The files of the sender do not change
    while they are sent. *)

From stdpp Require Import prelude gmap strings.
From Stdlib Require Import ZArith Lia.
From S2P Require Import Prelude RustStr Errors Fs Transfer Inet Text Identity TrustStore LocalSession LocalInbox LocalServer LocalHttp NativeNet.

Local Open Scope Z_scope.

Record PendingFile := mkPending { pf_path : path; pf_meta : FileMeta }.

(** The requests of the client. *)
Inductive Call :=
| PostPrepare (url : rstring) (request : PrepareUploadRequest)
| PostUpload (url session_id file_id token content_type : rstring) (body : bytes).

(** A failed exchange, or a status and the response the body parses to. *)
Inductive Reply :=
| NoReply (error : rstring)
| Replied (status : Z) (prepared : option (rstring * gmap rstring rstring)).

Definition file_id (index : nat) : rstring := str "file-" ++ show_dec (Z.of_nat index).

Definition client_file_name (p : path) : result LocalSendError rstring :=
  ok_or (last p ≫= component_file_name) (LsHttp (str "invalid file path")).

Section client.
Context `{CryptoSuite} {W : Type} (mime : path → option rstring) (make_url : rstring → string → option rstring)
  (server : Call → W → Reply * W) (t : fs).

Definition sha256_hex (b : bytes) : rstring := hex_encode (sha256 b).

Definition api_url (base_url : rstring) (p : string) : result LocalSendError rstring :=
  ok_or (make_url base_url p) (LsHttp (str "invalid url")).

Fixpoint pending_loop (index : nat) (paths : list path) (files : gmap rstring PendingFile) :
    result LocalSendError (gmap rstring PendingFile) :=
  match paths with
  | [] => Ok files
  | p :: paths =>
    _ ← ensure (path_exists t p) (LsIo NotFound);
    _ ← ensure (is_file t p) (LsHttp (str "path is not a file"));
    bytes ← map_err LsIo (read_file t p);
    file_name ← client_file_name p;
    pending_loop (S index) paths
      (<[file_id index := mkPending p (mkFileMeta (file_id index) file_name (zlen bytes) (mime p)
          (Some (sha256_hex bytes)) None None)]> files)
  end.
Definition pending_files (paths : list path) : result LocalSendError (gmap rstring PendingFile) :=
  pending_loop 0 paths ∅.

(** [send().await.map_err(...)?.error_for_status().map_err(...)?] *)
Definition post (call : Call) : SE W LocalSendError (option (rstring * gmap rstring rstring)) := λ w,
  match server call w with
  | (NoReply error, w') => (Err (LsHttp error), w')
  | (Replied status prepared, w') =>
    (if (400 <=? status) && (status <? 600) then Err (LsHttp (str "HTTP status " ++ show_dec status))
     else Ok prepared, w')
  end.

(** Body of the loop over the tokens. *)
Definition upload_file (base_url session_id : rstring) (pending_files : gmap rstring PendingFile)
    (entry : rstring * rstring) : SE W LocalSendError unit :=
  let '(file_id, token) := entry in
  pending ← lift (ok_or (pending_files !! file_id) (LsHttp (str "server returned unknown file id " ++ file_id)));
  bytes ← lift (map_err LsIo (read_file t (pf_path pending)));
  url ← lift (api_url base_url "/api/localsend/v2/upload");
  _ ← post (PostUpload url session_id file_id token
              (default (str "application/octet-stream") (fm_file_type (pf_meta pending))) bytes);
  mret tt.

Definition send_files_to_url (base_url : rstring) (paths : list path) (sender : DeviceInfo) :
    SE W LocalSendError unit :=
  _ ← lift (ensure (negb (bool_decide (paths = []))) (LsHttp (str "at least one file is required")));
  pending_files ← lift (pending_files paths);
  let request := mkPrepareUpload sender (pf_meta <$> pending_files) in
  url ← lift (api_url base_url "/api/localsend/v2/prepare-upload");
  reply ← post (PostPrepare url request);
  '(session_id, files) ← lift (ok_or reply (LsHttp (str "error decoding response body")));
  for_M (upload_file base_url session_id pending_files) (btree_iter files).

(** Whatever the requests keep, a transfer keeps; [fine] may restrict the URLs
    that are asked. *)
Lemma post_keeps (P : W → Prop) call w :
  (P w → P (server call w).2) → P w → P (post call w).2.
Proof. intros Hs Hw. unfold post. specialize (Hs Hw). by destruct (server call w) as [[e|c pr] w']. Qed.
End client.

Definition call_url (call : Call) : rstring := match call with PostPrepare url _ => url | PostUpload url _ _ _ _ _ => url end.

Lemma bind_keeps {W E A B} (P : W → Prop) (m : SE W E A) (k : A → SE W E B) w :
  P (m w).2 → (∀ a w', P w' → P (k a w').2) → P ((m ≫= k) w).2.
Proof. intros Hm Hk. unfold mbind, SE_bind. destruct (m w) as [[a|e|] w']; [by apply Hk|done..]. Qed.

Lemma send_files_to_url_keeps `{CryptoSuite} {W} mime make_url (server : Call → W → Reply * W) t (P : W → Prop) base_url :
  (∀ p url call w, make_url base_url p = Some url → call_url call = url → P w → P (server call w).2) →
  ∀ paths sender w, P w → P (send_files_to_url mime make_url server t base_url paths sender w).2.
Proof.
  intros Hserver paths sender w Hw. unfold send_files_to_url.
  assert (Hlift : ∀ {A B} (r : result LocalSendError A) (k : A → SE W LocalSendError B) w, P w →
    (∀ a w, r = Ok a → P w → P (k a w).2) → P ((lift r ≫= k) w).2).
  { intros A B r k w0 Hw0 Hk. unfold mbind, SE_bind, lift. destruct r; [by apply Hk|done..]. }
  assert (Hurl : ∀ p url, api_url make_url base_url p = Ok url → make_url base_url p = Some url).
  { intros p url. unfold api_url. by destruct (make_url base_url p); intros [=->]. }
  apply Hlift; [done|intros _ w1 _ Hw1]. apply Hlift; [done|intros pending w2 _ Hw2].
  apply Hlift; [done|intros url w3 Hu Hw3]. apply bind_keeps.
  { apply post_keeps; [|done]. intros. eapply Hserver; [by apply Hurl|done|done]. }
  intros reply w4 Hw4. apply Hlift; [done|intros [sid files] w5 _ Hw5].
  generalize (btree_iter files). intros l. revert w5 Hw5. clear w4 Hw4.
  induction l as [|entry l IH]; intros w5 Hw5; [done|]. cbn [for_M]. apply bind_keeps; [|intros _; apply IH].
  unfold upload_file. destruct entry as [fid tok]. apply Hlift; [done|intros pf w6 _ Hw6].
  apply Hlift; [done|intros b w7 _ Hw7]. apply Hlift; [done|intros u w8 Hu' Hw8]. apply bind_keeps; [|done].
  apply post_keeps; [|done]. intros. eapply Hserver; [by apply Hurl|done|done].
Qed.

Lemma send_files_unanswered `{CryptoSuite} {W} mime make_url (server : Call → W → Reply * W) t base_url :
  (∀ p url call w, make_url base_url p = Some url → call_url call = url → ∃ e, (server call w).1 = NoReply e) →
  ∀ paths sender w, is_ok (send_files_to_url mime make_url server t base_url paths sender w).1 = false.
Proof.
  intros Hserver paths sender w. unfold send_files_to_url, api_url.
  destruct (ensure _ _) as [[]| |]; [rewrite SE_lift_Ok|done..].
  destruct (pending_files _ _ _) as [pending| |]; [rewrite SE_lift_Ok|done..].
  destruct (make_url _ _) as [url|] eqn:Hu; [cbn [ok_or]; rewrite SE_lift_Ok|done].
  match goal with |- context [post server ?c] => destruct (Hserver _ _ c w Hu eq_refl) as [e He] end.
  unfold post, mbind, SE_bind. by destruct (server _ w) as [? ?]; cbn in He; subst.
Qed.

(** ** The upload server as the client's server *)

(** reqwest, serde and the url crate: the path of a URL, the JSON of a request
    and the query string of pairs. *)
Class HttpClient := {
  url_path : rstring → rstring;
  json_body : PrepareUploadRequest → bytes;
  query_pairs : list (rstring * rstring) → rstring }.

Definition content_type (value : rstring) : list (rstring * bytes) := [(str "content-type", utf8_encode value)].
Definition upload_query (session_id file_id token : rstring) : list (rstring * rstring) :=
  [(str "sessionId", session_id); (str "fileId", file_id); (str "token", token)].

(** The values of the types of the source that carry no metadata. *)
Definition prepare_typed (request : PrepareUploadRequest) : Prop :=
  0 ≤ di_port (pu_info request) ≤ 65535 ∧
  map_Forall (λ _ meta, 0 ≤ fm_size meta < 2 ^ 64 ∧ fm_metadata meta = None) (pu_files request).

(** What the client writes the server reads; axum's JSON extractor takes
    bodies of up to 2 MiB. *)
Class HttpClientLaws `{HttpClient, Extractors} := {
  json_prepare_body r request :
    hr_headers r = content_type (str "application/json") → ends (hr_body r) = true →
    streamed (hr_body r) = json_body request → zlen (json_body request) ≤ 2 ^ 21 → prepare_typed request →
    json_prepare r = inr request;
  query_upload_pairs r session_id file_id token :
    hr_query r = query_pairs (upload_query session_id file_id token) →
    query_upload r = inr (mkUploadQuery session_id file_id token) }.

Section serve.
Context `{CryptoSuite} `{Uuid} `{Lowercase} `{HttpClient} `{Extractors}
  (state : ServerState) (tls : bool) (peer : SocketAddr).

(** The readings of the clocks while request number [k] is handled, and how
    the body of a request arrives. *)
Context (unix now later : nat → Z) (frames : nat → bytes → list (bytes + io_error)).

Definition http_request (k : nat) (call : Call) : HttpRequest :=
  match call with
  | PostPrepare url request =>
    mkHttpRequest POST (url_path url) [] (content_type (str "application/json")) (frames k (json_body request))
  | PostUpload url session_id file_id token type body =>
    mkHttpRequest POST (url_path url) (query_pairs (upload_query session_id file_id token)) (content_type type)
      (frames k body)
  end.

Definition reply_of (r : Response) : Reply :=
  match r with
  | RespPrepared session_id files => Replied 200 (Some (session_id, files))
  | RespStatus code => Replied code None
  | RespAborted => NoReply (str "connection closed before message completed")
  | _ => Replied 200 None
  end.

(** The world is the server's, with the number of requests handled so far. *)
Definition serve (call : Call) (wk : LsWorld * nat) : Reply * (LsWorld * nat) :=
  let '(w, k) := wk in
  let '(r, w') := handle state (mkClock (unix k) (now k) (now k) (later k)) (source_ip tls peer) (http_request k call) w in
  (reply_of r, (w', S k)).

Lemma serve_upload url session_id file_id token type body w k :
  HttpClientLaws → url_path url = str "/api/localsend/v2/upload" →
  serve (PostUpload url session_id file_id token type body) (w, k) =
    let '(r, w') := srv_write_upload state (now k) (later k) session_id file_id token (frames k body) w in
    (reply_of r, (w', S k)).
Proof.
  intros Hlaws Hp. unfold serve, handle. cbn [http_request hr_path hr_method]. rewrite Hp.
  assert (router (str "/api/localsend/v2/upload") = Some ([POST], Upload)) as -> by (vm_compute; reflexivity).
  cbn [handle_route]. by rewrite (query_upload_pairs _ session_id file_id token).
Qed.

Lemma serve_prepare url request w k :
  HttpClientLaws → url_path url = str "/api/localsend/v2/prepare-upload" →
  ends (frames k (json_body request)) = true → streamed (frames k (json_body request)) = json_body request →
  zlen (json_body request) ≤ 2 ^ 21 → prepare_typed request →
  serve (PostPrepare url request) (w, k) =
    let '(r, w') := prepare_upload state (unix k) (now k) (source_ip tls peer) request w in (reply_of r, (w', S k)).
Proof.
  intros Hlaws Hp He Hs Hlen Hty. unfold serve, handle. cbn [http_request hr_path hr_method]. rewrite Hp.
  assert (router (str "/api/localsend/v2/prepare-upload") = Some ([POST], PrepareUpload)) as -> by (vm_compute; reflexivity).
  cbn [handle_route]. by rewrite (json_prepare_body _ request).
Qed.
End serve.

(** ** Delivery *)

Lemma file_id_inj i j : file_id i = file_id j → i = j.
Proof. unfold file_id. intros Heq%app_inv_head. apply show_dec_inj in Heq; lia. Qed.

Section delivery.
Context `{CryptoSuite} `{Uuid} `{Lowercase} `{HttpClientLaws} (state : ServerState) (tls : bool) (peer : SocketAddr).
Context (unix now later : nat → Z) (frames : nat → bytes → list (bytes + io_error)).
Abbreviation ip := (source_ip tls peer).
Context (mime : path → option rstring) (make_url : rstring → string → option rstring) (t : fs).

(** HTTP delivers bodies: in reads of the size of the buffer, to the end. *)
Hypothesis frames_ok : ∀ k b, Forall read_ok (frames k b) ∧ ends (frames k b) = true ∧ streamed (frames k b) = b.

(** A file that can be sent. *)
Definition sendable (p : path) (b : bytes) : Prop :=
  t !! resolve p = Some (File b) ∧ zlen b < 2 ^ 64 - 8192 ∧
  ∃ name, last p = Some name ∧ is_ok (validate_file_name name) = true.

Definition pending_of (i : nat) (p : path) (b : bytes) : PendingFile :=
  mkPending p (mkFileMeta (file_id i) (default [] (last p)) (zlen b) (mime p) (Some (sha256_hex b)) None None).

Lemma component_file_name_valid name : is_ok (validate_file_name name) = true → component_file_name name = Some name.
Proof.
  intros [x (-> & Hne & [Hd Hdd] & _)%validate_file_name_Ok]%is_ok_spec. unfold component_file_name.
  by rewrite bool_decide_false by (intros [?|[?|?]]; done).
Qed.

Lemma pending_loop_spec sources i files :
  Forall (λ pb, sendable pb.1 pb.2) sources →
  ∃ files', pending_loop mime t i sources.*1 files = Ok files' ∧
    (∀ k, (∀ j, (i ≤ j < i + length sources)%nat → k ≠ file_id j) → files' !! k = files !! k) ∧
    (∀ j p b, sources !! j = Some (p, b) → files' !! file_id (i + j) = Some (pending_of (i + j) p b)).
Proof.
  intros Hs. revert i files. induction Hs as [|[p b] sources (Hf & Hlen & name & Hlast & Hname) Hs IH]; intros i files.
  { exists files. split_and!; [done|done|]. intros j p b Hj. by rewrite lookup_nil in Hj. }
  cbn [fmap list_fmap fst snd pending_loop] in *. unfold path_exists, is_file, read_file, client_file_name. rewrite Hf, Hlast.
  rewrite (bool_decide_true (is_Some _)) by eauto. rewrite orb_true_r.
  cbn [ensure mbind result_bind map_err option_bind ok_or]. rewrite component_file_name_valid by done.
  cbn [ok_or mbind result_bind].
  destruct (IH (S i) (<[file_id i := mkPending p (mkFileMeta (file_id i) name (zlen b) (mime p) (Some (sha256_hex b)) None None)]> files))
    as (files' & -> & Hout & Hin).
  exists files'. split_and!; [done| |].
  - intros k Hk. rewrite Hout by (intros j Hj; apply Hk; cbn [length]; lia). apply lookup_insert_ne.
    intros <-. by apply (Hk i ltac:(cbn [length]; lia)).
  - intros [|j] p' b'; cbn [lookup list_lookup].
    + intros [= <- <-]. rewrite Nat.add_0_r, Hout by (intros j Hj Heq%file_id_inj; lia).
      rewrite lookup_insert_eq. unfold pending_of. by rewrite Hlast.
    + intros Hj. rewrite Nat.add_succ_r. by apply (Hin j).
Qed.

Lemma pending_files_spec sources :
  Forall (λ pb, sendable pb.1 pb.2) sources →
  ∃ pending, pending_files mime t sources.*1 = Ok pending ∧
    ∀ id pf, pending !! id = Some pf ↔ ∃ i p b, sources !! i = Some (p, b) ∧ id = file_id i ∧ pf = pending_of i p b.
Proof.
  intros Hsrc. destruct (pending_loop_spec sources 0 ∅ Hsrc) as (pending & Hpend & Hout & Hin). cbn [Nat.add] in Hout, Hin.
  exists pending. split; [done|]. intros id pf. split; [|intros (i & p & b & Hi & -> & ->); by apply Hin].
  intros Hid. destruct (decide (Exists (λ j, id = file_id j) (seq 0 (length sources)))) as [He|He].
  - apply Exists_exists in He as (j & Hj & ->). apply elem_of_seq in Hj.
    destruct (lookup_lt_is_Some_2 sources j ltac:(lia)) as [[p b] Hj']. exists j, p, b. rewrite (Hin j p b Hj') in Hid. naive_solver.
  - rewrite Hout in Hid; [by rewrite lookup_empty in Hid|]. intros j Hj ->. apply He, Exists_exists. exists j.
    split; [apply elem_of_seq; lia|done].
Qed.

Abbreviation inbox := (sv_inbox_dir state).
Abbreviation server := (serve state tls peer unix now later frames).

(** The server waits for the file under the token. *)
Definition awaited (w : LsWorld) (sid : rstring) (deadline : Z) (entry : rstring * rstring) (meta : FileMeta) : Prop :=
  ∃ se, l_sessions w !! sid = Some se ∧ se_expires_at se = deadline ∧
    se_files se !! entry.1 = Some (mkSessionFile entry.2 meta false).

(** Files outside the directory of part files stay. *)
Definition files_kept (t1 t2 : fs) : Prop :=
  ∀ q b, ¬ upload_dir inbox `prefix_of` q → t1 !! q = Some (File b) → t2 !! q = Some (File b).

#[local] Instance files_kept_preorder : PreOrder files_kept.
Proof. split; [by intros ? ? ?|]. intros t1 t2 t3 H12 H23 q b Hq Hf. apply H23; [done|]. by apply H12. Qed.

(** Part files and published files are apart. *)
Lemma published_outside (t' : fs) base b :
  inbox_open t' inbox → t' !! (inbox ++ [base]) = Some (File b) → ¬ upload_dir inbox `prefix_of` (inbox ++ [base]).
Proof.
  intros (_ & Hdirs & _) Hf Hp. assert (upload_dir inbox = inbox ++ [base]) as Heq.
  { destruct Hp as [k Hk]. unfold upload_dir in *. rewrite <-app_assoc in Hk. apply app_inv_head in Hk.
    destruct k; [|done]. by simplify_eq/=. }
  apply (Hdirs (inbox ++ [base]) b); [by rewrite Heq|done].
Qed.

Lemma srv_write_upload_run k sid fid token meta w b deadline :
  inbox_open (l_fs w) inbox → is_ok (validate_file_name (fm_file_name meta)) = true →
  zlen b < 2 ^ 64 - 8192 → fm_size meta = zlen b → fm_sha256 meta = Some (sha256_hex b) →
  awaited w sid deadline (fid, token) meta → now k < deadline → later k < deadline →
  ∃ w' base, srv_write_upload state (now k) (later k) sid fid token (frames k b) w = (RespStatus 200, w') ∧
    l_fs w !! (inbox ++ [base]) = None ∧ l_fs w' !! (inbox ++ [base]) = Some (File b) ∧
    inbox_open (l_fs w') inbox ∧ files_kept (l_fs w) (l_fs w') ∧
    (∀ entry m, entry.1 ≠ fid → awaited w sid deadline entry m → awaited w' sid deadline entry m).
Proof.
  intros Hopen Hname Hlen Hsize Hsha (se & Hse & Hexp & Hfile) Hnow Hlater.
  destruct (frames_ok k b) as (Hreads & Hends & Hstr). pose proof (zlen_nonneg b). cbn [fst snd] in Hfile.
  set (a := mkAuthorized sid fid token meta).
  set (wa := set_l_sessions w (prune_expired_locked (now k) (l_sessions w))).
  assert (Ha : authorize_upload (now k) sid fid token w = (Ok a, wa)).
  { apply authorize_upload_Ok. exists se. eexists. split_and!; [done|by rewrite Hexp|exact Hfile|done..]. }
  assert (Hdig : digest_matches (fm_sha256 meta) (hex_encode (sha256 (streamed (frames k b)))) = true).
  { rewrite Hsha, Hstr. unfold digest_matches, eq_ignore_ascii_case. by apply bool_decide_eq_true. }
  destruct (write_upload_run inbox a (frames k b) wa) as (u & wb & Hw & Hopen'); cbn [au_meta a];
    [done|done|done|lia|done|by rewrite Hstr|done|].
  destruct (write_upload_outcome inbox a (frames k b) wa (Ok u) wb) as ((Hkept & _ & Hok) & Hsess & _);
    [apply Hopen|done|cbn; lia|done|].
  destruct Hok as (_ & _ & _ & _ & _ & base & Hp & _ & _ & Hfree & Hpub). rewrite Hp in Hfree, Hpub. rewrite Hstr in Hpub.
  assert (Hse' : prune_expired_locked (later k) (l_sessions wb) !! sid = Some se).
  { rewrite Hsess. cbn [wa l_sessions set_l_sessions]. apply prune_lookup. rewrite prune_lookup. split_and!; [done|lia|lia]. }
  assert (Hm : ∃ w', mark_uploaded (later k) sid fid wb = (Ok tt, w') ∧ l_fs w' = l_fs wb ∧
    l_sessions w' !! sid = Some (mkSession (se_expires_at se)
      (<[fid := mkSessionFile token meta true]> (se_files se)))).
  { unfold mark_uploaded. se_run. rewrite Hse'. se_run. rewrite Hfile. se_run.
    eexists. split_and!; [done|done|]. cbn. by rewrite lookup_insert_eq. }
  destruct Hm as (w' & Hm & Hfs & Hses'). exists w', base. split_and!.
  - unfold srv_write_upload, into_response.
    rewrite (SE_bind_eq _ _ _ _ _ Ha), (SE_bind_eq _ _ _ _ _ Hw), Hm. done.
  - done.
  - by rewrite Hfs.
  - by rewrite Hfs.
  - rewrite Hfs. exact Hkept.
  - intros [fid' tok'] m Hne (se0 & Hse0 & Hexp0 & Hf0). eexists. split_and!; [exact Hses'|done|].
    cbn [fst snd se_files] in *. rewrite lookup_insert_ne by done. congruence.
Qed.

(** Where the files of a list of tokens ended up: each file's content, at
    distinct names of the inbox where no file was. *)
Definition stored (L : list (rstring * rstring)) (pending : gmap rstring PendingFile) (t1 t2 : fs)
    (targets : gmap rstring path) : Prop :=
  (∀ fid pf b, fid ∈ L.*1 → pending !! fid = Some pf → t !! resolve (pf_path pf) = Some (File b) →
     ∃ base, targets !! fid = Some (inbox ++ [base]) ∧ t2 !! (inbox ++ [base]) = Some (File b)) ∧
  (∀ fid q, targets !! fid = Some q → fid ∈ L.*1 ∧ ¬ upload_dir inbox `prefix_of` q ∧ ∀ b, t1 !! q ≠ Some (File b)) ∧
  (∀ f g q, targets !! f = Some q → targets !! g = Some q → f = g).

Lemma stored_cons fid tok L pending t1 t2 t3 targets pf b base :
  fid ∉ L.*1 → pending !! fid = Some pf → t !! resolve (pf_path pf) = Some (File b) →
  t1 !! (inbox ++ [base]) = None → t2 !! (inbox ++ [base]) = Some (File b) → inbox_open t2 inbox →
  files_kept t1 t2 → files_kept t2 t3 → stored L pending t2 t3 targets →
  stored ((fid, tok) :: L) pending t1 t3 (<[fid := inbox ++ [base]]> targets).
Proof.
  intros Hfid Hpf Hsrc Hfree Hpub Hopen H12 H23 (Hin & Hout & Hinj).
  pose proof (published_outside _ _ _ Hopen Hpub) as Hnp.
  assert (Hfresh : ∀ g q, targets !! g = Some q → q ≠ inbox ++ [base]).
  { intros g q Hq ->. destruct (Hout _ _ Hq) as (_ & _ & Hn). by apply (Hn b). }
  split_and!.
  - intros g pg bg. cbn [fmap list_fmap fst]. intros [->|Hg]%elem_of_cons Hpg Hbg.
    + exists base. rewrite lookup_insert_eq. split; [done|]. apply H23; [done|]. congruence.
    + rewrite lookup_insert_ne by (by intros <-). eauto.
  - intros g q. rewrite lookup_insert. case_decide as Hd.
    + intros [= <-]. subst g. split_and!; [by left|done|]. intros c. by rewrite Hfree.
    + intros Hq. destruct (Hout _ _ Hq) as (Hg & Hnq & Hn). split_and!; [by right|done|].
      intros c Hc. apply (Hn c). by apply H12.
  - intros f g q. rewrite !lookup_insert. destruct (decide (fid = f)) as [<-|]; destruct (decide (fid = g)) as [<-|].
    + done.
    + intros [= <-] Hq. by apply Hfresh in Hq.
    + intros Hq [= <-]. by apply Hfresh in Hq.
    + apply Hinj.
Qed.

Lemma uploads_run base_url url sid pending deadline L w k :
  make_url base_url "/api/localsend/v2/upload" = Some url → url_path url = str "/api/localsend/v2/upload" → NoDup L.*1 →
  (∀ entry, entry ∈ L → ∃ i p b, pending !! entry.1 = Some (pending_of i p b) ∧ sendable p b ∧
     awaited w sid deadline entry (pf_meta (pending_of i p b))) →
  inbox_open (l_fs w) inbox → (∀ j, (k ≤ j)%nat → now j < deadline ∧ later j < deadline) →
  ∃ w' targets,
    for_M (upload_file make_url server t base_url sid pending) L (w, k) = (Ok tt, (w', (k + length L)%nat)) ∧
    files_kept (l_fs w) (l_fs w') ∧ stored L pending (l_fs w) (l_fs w') targets.
Proof.
  intros Hurl Hpath. revert w k. induction L as [|[fid tok] L IH]; intros w k Hnd Haw Hopen Hclock.
  { exists w, ∅. rewrite Nat.add_0_r. split; [done|]. split; [done|]. unfold stored.
    split_and!; [|done|done]. intros fid pf b Hin. by apply elem_of_nil in Hin. }
  cbn [fmap list_fmap fst] in Hnd. apply NoDup_cons in Hnd as [Hfid Hnd].
  destruct (Haw (fid, tok)) as (i & p & b & Hpf & (Hsrc & Hlen & name & Hlast & Hname) & Hawait); [by left|]. cbn [fst] in Hpf.
  destruct (Hclock k ltac:(lia)) as [Hnow Hlater].
  destruct (srv_write_upload_run k sid fid tok (pf_meta (pending_of i p b)) w b deadline)
    as (w1 & base & Hup & Hfree & Hpub & Hopen1 & Hkept1 & Hrest); try done; [cbn; by rewrite Hlast|].
  destruct (IH w1 (S k)) as (w' & targets & Hrun & Hkept2 & Hst); try done.
  { intros [fid' tok'] Hin. destruct (Haw (fid', tok')) as (i' & p' & b' & ? & ? & ?); [by right|].
    exists i', p', b'. split_and!; [done|done|]. apply Hrest; [|done]. cbn. intros ->. apply Hfid, list_elem_of_fmap.
    by exists (fid, tok'). }
  { intros j Hj. apply Hclock. lia. }
  assert (Hread : read_file t p = Ok b) by (unfold read_file; by rewrite Hsrc).
  assert (Hone : upload_file make_url server t base_url sid pending (fid, tok) (w, k) = (Ok tt, (w1, S k))).
  { unfold upload_file, api_url. rewrite Hpf, Hurl. cbn [ok_or]. rewrite SE_lift_Ok.
    change (pf_path (pending_of i p b)) with p. rewrite Hread. cbn [map_err]. rewrite !SE_lift_Ok. unfold post, mbind, SE_bind. by rewrite serve_upload, Hup. }
  exists w', (<[fid := inbox ++ [base]]> targets). split_and!.
  - cbn [for_M]. rewrite (SE_bind_eq _ _ _ _ _ Hone), Hrun. cbn [length]. by rewrite Nat.add_succ_r.
  - by etrans.
  - by eapply stored_cons.
Qed.

Lemma prepare_run k request w w1 :
  authorize_prepare_upload state (unix k) (pu_info request) ip w = (Ok tt, w1) →
  (∀ id meta, pu_files request !! id = Some meta → fm_id meta = id) →
  ∃ w2 sid files, prepare_upload state (unix k) (now k) ip request w = (RespPrepared sid files, w2) ∧
    l_fs w2 = l_fs w ∧ (∀ id, is_Some (files !! id) ↔ is_Some (pu_files request !! id)) ∧
    (∀ id tok meta, files !! id = Some tok → pu_files request !! id = Some meta →
       awaited w2 sid (now k + sv_session_ttl state) (id, tok) meta).
Proof.
  intros Ha Hids. pose proof (authorize_idle state (unix k) (pu_info request) ip w) as [_ Hfs]. rewrite Ha in Hfs. cbn in Hfs.
  destruct (prepare_Ok (sv_session_ttl state) (now k) request w1) as (p & se & Hp & _ & Hex & Hdom & Hfiles);
    [by apply validate_file_ids_spec|].
  eexists _, (ps_session_id p), (ps_files p). split_and!.
  - unfold prepare_upload, into_response. rewrite (SE_bind_eq _ _ _ _ _ Ha), Hp. done.
  - cbn. done.
  - intros id. apply Hdom.
  - intros id tok meta Htok Hmeta. destruct (Hfiles id meta Hmeta) as (i & _ & _ & Hp' & Hse).
    exists se. split_and!; [cbn; by rewrite lookup_insert_eq|done|]. cbn [fst snd]. rewrite Hse. congruence.
Qed.

(** The targets of [n] files as a list. *)
Lemma targets_list (m : gmap rstring path) n :
  (∀ i, (i < n)%nat → is_Some (m !! file_id i)) → (∀ f g q, m !! f = Some q → m !! g = Some q → f = g) →
  ∃ l : list path, length l = n ∧ NoDup l ∧ ∀ i, (i < n)%nat → l !! i = m !! file_id i.
Proof.
  intros Hdom Hinj. exists ((λ i, default [] (m !! file_id i)) <$> seq 0 n).
  assert (Hl : ∀ i, (i < n)%nat → ((λ i, default [] (m !! file_id i)) <$> seq 0 n) !! i = m !! file_id i).
  { intros i Hi. rewrite list_lookup_fmap, lookup_seq_lt by done. cbn. by destruct (Hdom i Hi) as [q ->]. }
  split_and!; [by rewrite length_fmap, length_seq| |done].
  apply NoDup_alt. intros i j q Hi Hj.
  assert (i < n)%nat by (apply lookup_lt_Some in Hi; by rewrite length_fmap, length_seq in Hi).
  assert (j < n)%nat by (apply lookup_lt_Some in Hj; by rewrite length_fmap, length_seq in Hj).
  rewrite Hl in Hi, Hj by done. by eapply file_id_inj, Hinj.
Qed.

(** C7: a LocalSend client and the daemon's upload server together deliver
    files over HTTP: if the server accepts the sender, its inbox can take
    uploads, the list of files fits the body the server parses and the session
    does not expire meanwhile, the client succeeds, and each of its files is
    in the inbox, complete, under a name of its own where no file was; no
    other file outside the directory of part files changes. *)
Theorem localsend_delivers base_url sources sender w k w1 :
  sources ≠ [] → Forall (λ pb, sendable pb.1 pb.2) sources →
  (∀ p, p = "/api/localsend/v2/prepare-upload" ∨ p = "/api/localsend/v2/upload" →
     ∃ url, make_url base_url p = Some url ∧ url_path url = str p)%string → 0 ≤ di_port sender ≤ 65535 →
  (∀ pending, pending_files mime t sources.*1 = Ok pending →
     zlen (json_body (mkPrepareUpload sender (pf_meta <$> pending))) ≤ 2 ^ 21) →
  authorize_prepare_upload state (unix k) sender ip w = (Ok tt, w1) → inbox_open (l_fs w) inbox →
  (∀ j, (k ≤ j)%nat → now j < now k + sv_session_ttl state ∧ later j < now k + sv_session_ttl state) →
  ∃ w' k' (targets : list path),
    send_files_to_url mime make_url server t base_url sources.*1 sender (w, k) = (Ok tt, (w', k')) ∧
    length targets = length sources ∧ NoDup targets ∧
    (∀ i p b, sources !! i = Some (p, b) → ∃ base, targets !! i = Some (inbox ++ [base]) ∧
       (∀ c, l_fs w !! (inbox ++ [base]) ≠ Some (File c)) ∧ l_fs w' !! (inbox ++ [base]) = Some (File b)) ∧
    (∀ q b, ¬ upload_dir inbox `prefix_of` q → l_fs w !! q = Some (File b) → l_fs w' !! q = Some (File b)).
Proof.
  intros Hne Hsrc Hurls Hport Hbody Ha Hopen Hclock.
  destruct (pending_files_spec sources Hsrc) as (pending & Hpend & Hpf).
  assert (Hin : ∀ i p b, sources !! i = Some (p, b) → pending !! file_id i = Some (pending_of i p b))
    by (intros i p b Hi; apply Hpf; by exists i, p, b).
  destruct (Hurls "/api/localsend/v2/prepare-upload"%string) as (url1 & Hurl1 & Hpath1); [by left|].
  destruct (Hurls "/api/localsend/v2/upload"%string) as (url2 & Hurl2 & Hpath2); [by right|].
  set (request := mkPrepareUpload sender (pf_meta <$> pending)).
  assert (Hty : prepare_typed request).
  { split; [done|]. intros id meta. cbn. rewrite lookup_fmap. intros (pf & Hid & ->)%fmap_Some.
    apply Hpf in Hid as (i & p & b & Hi & _ & ->). pose proof (zlen_nonneg b).
    rewrite Forall_lookup in Hsrc. destruct (Hsrc _ _ Hi) as (_ & Hlen & _). cbn in *. split; [lia|done]. }
  destruct (prepare_run k request w w1) as (w2 & sid & files & Hprep & Hfs & Hdom & Haw); [done| |].
  { intros id meta. cbn. rewrite lookup_fmap. intros (pf & Hid & ->)%fmap_Some. by apply Hpf in Hid as (? & ? & ? & _ & -> & ->). }
  destruct (uploads_run base_url url2 sid pending (now k + sv_session_ttl state) (btree_iter files) w2 (S k))
    as (w' & m & Hrun & Hkept & (Hst & Htg & Hinj)); [done|done|apply NoDup_btree_iter| |by rewrite Hfs|intros; apply Hclock; lia|].
  { intros [id tok] Hent%elem_of_btree_iter. assert (Hid : is_Some (pu_files request !! id)) by (apply Hdom; eauto).
    cbn in Hid. rewrite lookup_fmap in Hid. destruct (pending !! id) as [pf|] eqn:Hp; [|by destruct Hid].
    pose proof (proj1 (Hpf id pf) Hp) as (i & p & b & Hs & _ & ->). exists i, p, b. split_and!; [done| |].
    - rewrite Forall_lookup in Hsrc. apply (Hsrc _ _ Hs).
    - apply Haw; [done|]. cbn. by rewrite lookup_fmap, Hp. }
  assert (Hat : ∀ i p b, sources !! i = Some (p, b) → ∃ base, m !! file_id i = Some (inbox ++ [base]) ∧
    (∀ c, l_fs w !! (inbox ++ [base]) ≠ Some (File c)) ∧ l_fs w' !! (inbox ++ [base]) = Some (File b)).
  { intros i p b Hi. rewrite Forall_lookup in Hsrc. destruct (Hsrc _ _ Hi) as (Hf & _).
    destruct (Hst (file_id i) (pending_of i p b) b) as (base & Hm & Hc); [|by apply Hin|done|].
    - assert (Hid : is_Some (files !! file_id i)) by (apply Hdom; cbn; rewrite lookup_fmap, (Hin _ _ _ Hi); eauto).
      destruct Hid as [tok Htok]. apply list_elem_of_fmap. exists (file_id i, tok). by rewrite elem_of_btree_iter.
    - exists base. destruct (Htg _ _ Hm) as (_ & _ & Hn). rewrite <-Hfs. eauto. }
  destruct (targets_list m (length sources)) as (targets & Hlen & Hnd & Htl); [|done|].
  { intros i Hi. destruct (lookup_lt_is_Some_2 sources i Hi) as [[p b] Hi']. destruct (Hat i p b Hi') as (? & -> & _). eauto. }
  exists w', (S k + length (btree_iter files))%nat, targets. split_and!; [|done|done| |].
  - unfold send_files_to_url, api_url. rewrite bool_decide_false by (by destruct sources).
    cbn [negb ensure]. rewrite SE_lift_Ok, Hpend, SE_lift_Ok, Hurl1. cbn [ok_or]. rewrite SE_lift_Ok.
    destruct (frames_ok k (json_body request)) as (_ & Hends & Hstr).
    erewrite SE_bind_eq; [|unfold post; fold request; rewrite serve_prepare by (done || apply (Hbody _ Hpend)); by rewrite Hprep]. cbn [ok_or].
    rewrite SE_lift_Ok. exact Hrun.
  - intros i p b Hi. rewrite Htl by (by eapply lookup_lt_Some). eauto.
  - rewrite <-Hfs. exact Hkept.
Qed.
End delivery.
