(* ===== verification/LocalDiscovery.v ===== *)
(** * LocalSend discovery

    Model of crates/protocol-localsend-v2/src/discovery.rs (the loops of the
    announcer and the browser; their sockets and settings are in
    LocalMulticast.v), of the certificate check of verifier.rs, and of the daemon
    task that records the peers the announcer hears
    ([record_localsend_lan_peers] of crates/daemon/src/main.rs).

    The announcer is run on what its [select!] yields: a tick of the interval
    or a datagram, each with what the network answers to what the loop then
    sends.  Its effects are the list of its actions. *)

From stdpp Require Import prelude gmap strings.
From Stdlib Require Import ZArith Lia.
From S2P Require Import Prelude RustStr Errors Framing Inet Text Identity TrustStore LocalSession LocalServer.

Local Open Scope Z_scope.

Record Announcement := mkAnnouncement { an_info : DeviceInfo; an_announcement : bool; an_announce : bool }.

Definition announce_of (info : DeviceInfo) : Announcement := mkAnnouncement info true true.
Definition response_of (info : DeviceInfo) : Announcement := mkAnnouncement info false false.

Record LanPeer := mkLanPeerFound { lp_info : DeviceInfo; lp_address : SocketAddr; lp_source : SocketAddr }.

(** ** Targets *)

Definition peer_api_address (source : SocketAddr) (advertised_port : Z) : SocketAddr :=
  match source with
  | SockV4 a b c d _ => SockV4 a b c d advertised_port
  | SockV6 g _ flowinfo scope_id => SockV6 g advertised_port flowinfo scope_id
  end.

(** Address classes of the standard library. *)
Definition v4_multicast (a : Z) : bool := (224 <=? a) && (a <=? 239).
Definition v4_broadcast (a b c d : Z) : bool := (a =? 255) && (b =? 255) && (c =? 255) && (d =? 255).
Definition v4_link_local (a b : Z) : bool := (a =? 169) && (b =? 254).
Definition v6_multicast (g : list Z) : bool := Z.land (default 0 (head g)) 0xff00 =? 0xff00.

Definition is_safe_localsend_target (ip : IpAddr) (port : Z) (protocol : rstring) : bool :=
  if port =? 0 then false
  else if negb (bool_decide (protocol = str "http" ∨ protocol = str "https")) then false
  else
    match ip with
    | IpV4 a b c d =>
      negb (is_loopback ip || is_unspecified ip || v4_multicast a || v4_broadcast a b c d || v4_link_local a b)
    | IpV6 g => negb (is_loopback ip || is_unspecified ip || v6_multicast g)
    end.

Definition register_url (target : SocketAddr) (protocol : rstring) : rstring :=
  protocol ++ str "://" ++ show_sock target ++ str "/api/localsend/v2/register".

(** ** The certificate check (verifier.rs) *)

Section verifier.
Context `{CryptoSuite} `{Lowercase}.

Definition verifier_normalize_fingerprint (fingerprint : rstring) : rstring :=
  filter (λ ch, ch ≠ 58 ∧ ch ≠ 45) fingerprint ≫= char_to_lowercase.
Definition certificate_fingerprint_sha256_hex (cert_der : bytes) : rstring := hex_encode (sha256 cert_der).
Definition check_fingerprint (expected_fingerprint : rstring) (cert_der : bytes) : result rstring unit :=
  let expected := verifier_normalize_fingerprint expected_fingerprint in
  let actual := certificate_fingerprint_sha256_hex cert_der in
  ensure (bool_decide (actual = expected))
    (str "LocalSend peer certificate fingerprint mismatch: expected " ++ expected ++ str ", got " ++ actual).
End verifier.

(** ** The announcer *)

(** [serde_json] on announcements: the port read back is a [u16]. *)
Class AnnouncementJson := {
  announcement_to_vec : Announcement → bytes;
  announcement_from_slice : bytes → option Announcement }.
Class AnnouncementJsonLaws `{AnnouncementJson} := {
  announcement_port payload a : announcement_from_slice payload = Some a → 0 ≤ di_port (an_info a) ≤ 65535 }.

(** What the other end does with a registration: it cannot be reached, or it
    answers, having shown a certificate where the connection is TLS. *)
Inductive RegisterAnswer := Unreachable | Answered (certificate : option bytes) (status : Z).

(** What wakes the loop, with what the network then answers. *)
Inductive Input :=
| Tick (sent : bool)
| Datagram (received : bytes) (source : SocketAddr) (answer : RegisterAnswer) (fallback_sent : bool)
| ReceiveFailed.

Inductive Action :=
| Multicast (payload : bytes)
| Forward (peer : LanPeer)
| Posted (url : rstring) (certificate : option bytes) (info : DeviceInfo).

Section announcer.
Context `{CryptoSuite} `{Lowercase} `{AnnouncementJson} (self : DeviceInfo) (peer_tx : bool).

Definition parse_announcement (payload : bytes) : result LocalSendError Announcement :=
  match announcement_from_slice payload with Some a => Ok a | None => Err LsJson end.

Definition should_answer (payload : bytes) : result LocalSendError bool :=
  announcement ← parse_announcement payload;
  Ok ((an_announcement announcement || an_announce announcement)
      && negb (bool_decide (di_fingerprint (an_info announcement) = di_fingerprint self))).

Definition parse_peer (self_fingerprint : rstring) (payload : bytes) (source : SocketAddr) :
    result LocalSendError (option LanPeer) :=
  announcement ← parse_announcement payload;
  let info := an_info announcement in
  if bool_decide (di_fingerprint info = self_fingerprint) then Ok None
  else Ok (Some (mkLanPeerFound info (peer_api_address source (di_port info)) source)).

(** Over TLS the verifier of the pinned client runs before anything is sent. *)
Definition post_register_url (protocol url expected_fingerprint : rstring) (answer : RegisterAnswer) :
    bool * list Action :=
  match answer with
  | Unreachable => (false, [])
  | Answered certificate status =>
    let accepted :=
      if bool_decide (protocol = str "https") then
        match certificate with Some c => is_ok (check_fingerprint expected_fingerprint c) | None => false end
      else true in
    if accepted then ((200 <=? status) && (status <=? 299), [Posted url certificate self]) else (false, [])
  end.

(** One datagram, cut to the buffer of 16 KiB: what the loop does, and whether
    it goes on. *)
Definition handle_datagram (received : bytes) (source : SocketAddr) (answer : RegisterAnswer) (fallback_sent : bool) :
    result LocalSendError unit * list Action :=
  let payload := take (Z.to_nat (16 * 1024)) received in
  let forwarded :=
    match parse_peer (di_fingerprint self) payload source with
    | Ok (Some peer) => if peer_tx then [Forward peer] else []
    | _ => []
    end in
  match should_answer payload with
  | Ok true =>
    match parse_announcement payload with
    | Ok announcement =>
      let info := an_info announcement in
      let target := peer_api_address source (di_port info) in
      if negb (is_safe_localsend_target (sock_ip target) (sock_port target) (di_protocol info)) then (Ok tt, forwarded)
      else
        let '(registered, posted) :=
          post_register_url (di_protocol info) (register_url target (di_protocol info)) (di_fingerprint info) answer in
        if registered then (Ok tt, forwarded ++ posted)
        else
          (if fallback_sent then Ok tt else Err (LsIo OtherIo),
           forwarded ++ posted ++ [Multicast (announcement_to_vec (response_of self))])
    | Err e => (Err e, forwarded)
    | Panic => (Panic, forwarded)
    end
  | _ => (Ok tt, forwarded)
  end.

Definition handle_input (input : Input) : result LocalSendError unit * list Action :=
  match input with
  | Tick sent => (if sent then Ok tt else Err (LsIo OtherIo), [Multicast (announcement_to_vec (announce_of self))])
  | Datagram received source answer fallback_sent => handle_datagram received source answer fallback_sent
  | ReceiveFailed => (Err (LsIo OtherIo), [])
  end.

Fixpoint run (inputs : list Input) : result LocalSendError unit * list Action :=
  match inputs with
  | [] => (Ok tt, [])
  | input :: inputs =>
    let '(r, actions) := handle_input input in
    match r with
    | Ok _ => let '(r', actions') := run inputs in (r', actions ++ actions')
    | _ => (r, actions)
    end
  end.

(** ** The browser *)

(** The datagrams received, each in time; the end is the time-out. *)
Fixpoint listen_once (self_fingerprint : rstring) (datagrams : list (bytes * SocketAddr)) :
    result LocalSendError (option LanPeer) :=
  match datagrams with
  | [] => Ok None
  | (payload, source) :: datagrams =>
    o ← parse_peer self_fingerprint (take (Z.to_nat (16 * 1024)) payload) source;
    match o with Some peer => Ok (Some peer) | None => listen_once self_fingerprint datagrams end
  end.
End announcer.

(** ** Recording what was heard (main.rs) *)

Definition found_peer (peer : LanPeer) : LocalSendLanPeer :=
  let info := lp_info peer in
  mkLanPeer (di_fingerprint info) (di_alias info) (show_ip (sock_ip (lp_address peer))) (sock_port (lp_address peer))
    (di_protocol info) (di_device_model info) (di_device_type info) (di_download info) 0 0.

Definition record_heard_peer `{Lowercase} (opened : bool) (now : Z) (peer : LanPeer) (store : TrustStore) :
    result CoreError TrustStore :=
  _ ← ensure opened Sqlite;
  r ← record_localsend_lan_peer store now (found_peer peer);
  Ok r.2.

(** An error is logged and the next peer is taken. *)
Fixpoint record_localsend_lan_peers `{Lowercase} (heard : list (bool * Z * LanPeer)) (store : TrustStore) : TrustStore :=
  match heard with
  | [] => store
  | (opened, now, peer) :: heard =>
    record_localsend_lan_peers heard
      match record_heard_peer opened now peer store with Ok store' => store' | _ => store end
  end.

(** ** What the announcer does *)

Section announcer_facts.
Context `{CryptoSuite} `{Lowercase} `{AnnouncementJson} (self : DeviceInfo) (peer_tx : bool).

(** [info] is what a foreign datagram of [inputs] says of its sender. *)
Definition heard_in (inputs : list Input) (source : SocketAddr) (announcement : Announcement) : Prop :=
  ∃ received answer fallback,
    Datagram received source answer fallback ∈ inputs ∧
    announcement_from_slice (take (Z.to_nat (16 * 1024)) received) = Some announcement ∧
    di_fingerprint (an_info announcement) ≠ di_fingerprint self.

(** An address the host itself, a group or nobody answers to. *)
Definition unsafe_ip (ip : IpAddr) : bool :=
  is_loopback ip || is_unspecified ip ||
  match ip with
  | IpV4 a b c d => v4_multicast a || v4_broadcast a b c d || v4_link_local a b
  | IpV6 g => v6_multicast g
  end.

Inductive justified (inputs : list Input) : Action → Prop :=
| just_multicast a :
    a = announce_of self ∨ a = response_of self → justified inputs (Multicast (announcement_to_vec a))
| just_forward source a :
    heard_in inputs source a →
    justified inputs (Forward (mkLanPeerFound (an_info a) (peer_api_address source (di_port (an_info a))) source))
| just_posted source a certificate :
    heard_in inputs source a →
    an_announcement a || an_announce a = true →
    unsafe_ip (sock_ip source) = false →
    di_port (an_info a) ≠ 0 →
    (di_protocol (an_info a) = str "http" ∨
     di_protocol (an_info a) = str "https" ∧
     ∃ c, certificate = Some c ∧ hex_encode (sha256 c) = verifier_normalize_fingerprint (di_fingerprint (an_info a))) →
    justified inputs
      (Posted (register_url (peer_api_address source (di_port (an_info a))) (di_protocol (an_info a))) certificate self).

Lemma is_safe_spec ip port protocol :
  is_safe_localsend_target ip port protocol = true ↔
  port ≠ 0 ∧ (protocol = str "http" ∨ protocol = str "https") ∧ unsafe_ip ip = false.
Proof.
  unfold is_safe_localsend_target, unsafe_ip.
  destruct (Z.eqb_spec port 0); [naive_solver|].
  destruct (bool_decide_reflect (protocol = str "http" ∨ protocol = str "https")) as [Hp|Hp]; cbn [negb]; [|naive_solver].
  rewrite <- negb_true_iff. destruct ip; rewrite ?orb_assoc; naive_solver.
Qed.

Lemma peer_api_address_ip source port :
  sock_ip (peer_api_address source port) = sock_ip source ∧ sock_port (peer_api_address source port) = port.
Proof. by destruct source. Qed.

Lemma heard_mono inputs inputs' source a : inputs ⊆ inputs' → heard_in inputs source a → heard_in inputs' source a.
Proof. intros Hsub (r & an & f & Hin & Hrest). exists r, an, f. split; [by apply Hsub|done]. Qed.

Lemma justified_mono inputs inputs' action : inputs ⊆ inputs' → justified inputs action → justified inputs' action.
Proof. intros Hsub []; econstructor; eauto using heard_mono. Qed.

Lemma post_register_justified inputs source a answer :
  heard_in inputs source a → an_announcement a || an_announce a = true →
  is_safe_localsend_target (sock_ip source) (di_port (an_info a)) (di_protocol (an_info a)) = true →
  Forall (justified inputs)
    (post_register_url self (di_protocol (an_info a))
       (register_url (peer_api_address source (di_port (an_info a))) (di_protocol (an_info a)))
       (di_fingerprint (an_info a)) answer).2.
Proof.
  intros Hh Ha (Hport & Hproto & Hip)%is_safe_spec. destruct answer as [|certificate status]; [constructor|].
  unfold post_register_url. case_match eqn:Hacc; [|constructor].
  apply Forall_singleton. constructor; try done.
  case_bool_decide as Hs; [|naive_solver]. right. split; [done|]. destruct certificate as [c|]; [|done].
  exists c. split; [done|]. unfold check_fingerprint, ensure in Hacc.
  by case_bool_decide.
Qed.

Lemma handle_input_justified input : Forall (justified [input]) (handle_input self peer_tx input).2.
Proof.
  destruct input as [sent|received source answer fallback|]; simpl; [|unfold handle_datagram|constructor].
  { apply Forall_singleton. constructor. by left. }
  set (payload := take _ received).
  unfold should_answer, parse_peer, parse_announcement.
  destruct (announcement_from_slice payload) as [a|] eqn:Ha; [|constructor]. simpl.
  case_bool_decide as Hfp; simpl; [rewrite andb_false_r; constructor|].
  assert (Hh : heard_in [Datagram received source answer fallback] source a).
  { exists received, answer, fallback. split; [by apply list_elem_of_here|done]. }
  set (fwd := if peer_tx then _ else _).
  assert (Hf : Forall (justified [Datagram received source answer fallback]) fwd).
  { unfold fwd. destruct peer_tx; repeat constructor; done. }
  rewrite andb_true_r. destruct (an_announcement a || an_announce a) eqn:Han; [|done].
  destruct (peer_api_address_ip source (di_port (an_info a))) as [-> ->].
  destruct (is_safe_localsend_target _ _ _) eqn:Hsafe; cbn [negb]; [|done].
  pose proof (post_register_justified _ _ _ answer Hh Han Hsafe) as Hp.
  destruct (post_register_url _ _ _ _ _) as [[] posted]; simpl in *; rewrite !Forall_app; split_and!; try done.
  apply Forall_singleton. constructor. by right.
Qed.

Lemma run_justified inputs : Forall (justified inputs) (run self peer_tx inputs).2.
Proof.
  induction inputs as [|input inputs IH]; simpl; [constructor|].
  pose proof (handle_input_justified input) as Hi. destruct (handle_input self peer_tx input) as [r actions].
  assert (Hone : Forall (justified (input :: inputs)) actions).
  { eapply Forall_impl; [exact Hi|]. intros x. apply justified_mono. intros y ->%list_elem_of_singleton. by left. }
  destruct r as [[]| |]; [|done..]. destruct (run self peer_tx inputs) as [r' actions']. simpl in *.
  apply Forall_app. split; [done|]. eapply Forall_impl; [exact IH|]. intros x. apply justified_mono.
  intros y Hy. by right.
Qed.

(** What the sockets of the host itself must do for the loop to go on. *)
Definition net_works (input : Input) : Prop :=
  match input with Tick sent => sent = true | Datagram _ _ _ fallback_sent => fallback_sent = true | ReceiveFailed => False end.

Lemma handle_input_goes_on input : net_works input → (handle_input self peer_tx input).1 = Ok tt.
Proof.
  destruct input as [sent|received source answer fallback|]; simpl; [by intros ->| |done].
  intros ->. unfold handle_datagram, should_answer.
  destruct (parse_announcement _) as [a| |]; simpl; [|done..].
  destruct (_ && _); [|done]. case_match; [done|]. destruct (post_register_url _ _ _ _ _) as [[] posted]; done.
Qed.

Lemma run_goes_on inputs : Forall net_works inputs → (run self peer_tx inputs).1 = Ok tt.
Proof.
  induction 1 as [|input inputs Hn _ IH]; simpl; [done|].
  pose proof (handle_input_goes_on input Hn) as Hg. destruct (handle_input self peer_tx input) as [r actions].
  simpl in Hg. subst r. by destruct (run self peer_tx inputs).
Qed.
End announcer_facts.

Lemma record_heard_step `{CryptoSuite} `{Lowercase} opened now peer store store' :
  0 ≤ sock_port (lp_address peer) ≤ 65535 →
  record_heard_peer opened now peer store = Ok store' →
  trust_step store store' ∧ peers store' = peers store ∧ localsend_peers store' = localsend_peers store.
Proof.
  intros Hp Hr. unfold record_heard_peer in Hr. inv_ok.
  match goal with H : record_localsend_lan_peer _ _ _ = Ok ?r |- _ => destruct r as [p s]; rename H into Hl end.
  simpl in Hr. subst store'. split; [eapply (step_lan store now (found_peer peer)); [exact Hp|exact Hl]|]. unfold record_localsend_lan_peer in Hl. inv_ok.
  by apply then_get_Ok_inv in Hl as [-> _].
Qed.

Lemma record_heard_steps `{CryptoSuite} `{Lowercase} heard store :
  Forall (λ h, 0 ≤ sock_port (lp_address h.2) ≤ 65535) heard →
  let store' := record_localsend_lan_peers heard store in
  rtc trust_step store store' ∧ peers store' = peers store ∧ localsend_peers store' = localsend_peers store.
Proof.
  intros Hh. revert store. induction Hh as [|[[opened now] peer] heard Hp _ IH]; intros store; simpl.
  { by split; [apply rtc_refl|]. }
  destruct (record_heard_peer opened now peer store) as [s'| |] eqn:Hr; [|apply IH..].
  destruct (record_heard_step _ _ _ _ _ Hp Hr) as (Hs & Hpeers & Hls).
  destruct (IH s') as (Hsteps & -> & ->). split; [by eapply rtc_l|done].
Qed.

Section announcer_claims.
Context `{CryptoLaws} `{LowercaseLaws} `{AnnouncementJsonLaws} (self : DeviceInfo) (peer_tx : bool).

Definition forwarded (actions : list Action) : list LanPeer :=
  omap (λ a, match a with Forward peer => Some peer | _ => None end) actions.

Lemma forwarded_ports inputs peer :
  peer ∈ forwarded (run self peer_tx inputs).2 → 0 ≤ sock_port (lp_address peer) ≤ 65535.
Proof.
  intros (action & Hin & Heq)%list_elem_of_omap.
  pose proof (proj1 (Forall_forall _ _) (run_justified self peer_tx inputs) _ Hin) as Hj.
  destruct Hj as [| source a (r & an & f & _ & Hparse & _) |]; simplify_eq/=.
  destruct (peer_api_address_ip source (di_port (an_info a))) as [_ ->]. by eapply announcement_port.
Qed.


(** Hearing a device gives it no rights.  Recording any of the peers the
    announcer forwards, in any order and however often, whether or not the
    store opens, is a sequence of steps of the trust store (so its invariant is
    kept) that leaves the trusted peers and the LocalSend allowlist as they
    were. *)
Theorem heard_peers_gain_no_trust inputs heard store :
  (∀ h, h ∈ heard → h.2 ∈ forwarded (run self peer_tx inputs).2) →
  trust_wf store →
  let store' := record_localsend_lan_peers heard store in
  trust_wf store' ∧ peers store' = peers store ∧ localsend_peers store' = localsend_peers store.
Proof.
  intros Hheard Hwf store'.
  assert (Hports : Forall (λ h, 0 ≤ sock_port (lp_address h.2) ≤ 65535) heard).
  { apply Forall_forall. intros h Hh. eapply (forwarded_ports inputs). by apply Hheard. }
  destruct (record_heard_steps heard store Hports) as (Hsteps & Hp & Hl).
  split; [by eapply trust_steps_wf|done].
Qed.
End announcer_claims.
