(* ===== verification/PinnedTls.v ===== *)
(** * Connections pinned to a certificate

    Model of the certificate verifiers and of what is dialed with them:
    [NativeTlsIdentity] and [NativeServerVerifier] of
    crates/protocol-native-v1/src/tls.rs, the client side of transport.rs,
    [dial_pair] of hole_punch.rs, [PinnedCertVerifier] and [pinned_client] of
    crates/protocol-localsend-v2/src/verifier.rs, and the verifier of
    crates/rendezvous/src/client.rs.

    The handshake is rustls's: of it only this is relied on, that a client
    completes it only if its verifier accepted the server's certificate and
    the signature made with it over the handshake.  What the network brings
    back to a dial (an error, or after a time what the server presents) is an
    argument. *)

From stdpp Require Import prelude gmap strings.
From Stdlib Require Import ZArith Lia.
From S2P Require Import Prelude RustStr Errors Fs Inet Identity TrustStore Candidates Rendezvous Transport LocalSession LocalClient LocalDiscovery.

Local Open Scope Z_scope.

(** ** The handshake *)

Inductive TlsVersion := Tls12 | Tls13.

(** What a server presents: its certificates, and the signature over the
    handshake. *)
Record Offer := mkOffer {
  of_end_entity : bytes; of_intermediates : list bytes; of_version : TlsVersion;
  of_message : bytes; of_signature : bytes }.

(** [ServerCertVerifier] *)
Record Verifier := mkVerifier {
  verify_server_cert : bytes → list bytes → result rstring unit;
  vf_tls12_signature : bytes → bytes → bytes → result rstring unit;
  vf_tls13_signature : bytes → bytes → bytes → result rstring unit;
  supported_verify_schemes : list Z }.

Record ClientConfig := mkClientConfig {
  cc_verifier : Verifier; cc_alpn : list bytes; cc_transport : option QuinnTransportConfig }.
Record ServerConfig := mkTlsServerConfig {
  tsc_cert_chain : list bytes; tsc_key : bytes; tsc_alpn : list bytes; tsc_transport : option QuinnTransportConfig }.

(** ring's signature algorithms; rustls and quinn. *)
Class Rustls := {
  verify_tls12_signature : bytes → bytes → bytes → result rstring unit;
  verify_tls13_signature : bytes → bytes → bytes → result rstring unit;
  supported_schemes : list Z;
  with_single_cert : list bytes → bytes → result rstring unit;
  quic_client_config : ClientConfig → result rstring unit;
  quic_server_config : ServerConfig → result rstring unit;
  client_handshake : ClientConfig → Offer → result rstring unit }.

Definition signature_ok (v : Verifier) (o : Offer) : bool :=
  is_ok (match of_version o with Tls12 => vf_tls12_signature v | Tls13 => vf_tls13_signature v end
           (of_message o) (of_end_entity o) (of_signature o)).
Class RustlsLaws `{Rustls} := {
  client_handshake_verified config o :
    client_handshake config o = Ok tt →
    verify_server_cert (cc_verifier config) (of_end_entity o) (of_intermediates o) = Ok tt ∧
    signature_ok (cc_verifier config) o = true }.

Section pinned.
Context `{CryptoSuite} `{Lowercase} `{Rustls}.

(** ** Verifiers *)

Definition native_server_verifier (expected_certificate_fingerprint : rstring) : Verifier :=
  mkVerifier (λ end_entity _, verify_certificate_fingerprint expected_certificate_fingerprint end_entity)
    verify_tls12_signature verify_tls13_signature supported_schemes.

Definition pinned_cert_verifier (expected_fingerprint : rstring) : Verifier :=
  mkVerifier (λ end_entity _, check_fingerprint expected_fingerprint end_entity)
    verify_tls12_signature verify_tls13_signature supported_schemes.

(** [TrustAnyServer] of the rendezvous client; the numbers of ECDSA P-256 with
    SHA-256, Ed25519 and RSA-PSS with SHA-256. *)
Definition trust_any_server : Verifier :=
  mkVerifier (λ _ _, Ok tt) (λ _ _ _, Ok tt) (λ _ _ _, Ok tt) [1027; 2055; 2052].

(** ** Native endpoints *)

Record NativeTlsIdentity := mkNativeTls { nt_cert_der : bytes; nt_key_der : bytes }.

(** rcgen makes a certificate and its key for a name. *)
Definition native_generate (generate_simple_self_signed : list rstring → result rstring (bytes * bytes)) (alias : rstring) :
    result NativeError NativeTlsIdentity :=
  '(cert, key) ← map_err Crypto (generate_simple_self_signed [alias]);
  Ok (mkNativeTls cert key).
Definition fingerprint_sha256_hex (identity : NativeTlsIdentity) : rstring :=
  certificate_fingerprint_sha256_hex (nt_cert_der identity).
Definition cert_chain (identity : NativeTlsIdentity) : list bytes := [nt_cert_der identity].

Definition quinn_server_config (identity : NativeTlsIdentity) : result NativeError ServerConfig :=
  _ ← map_err Crypto (with_single_cert (cert_chain identity) (nt_key_der identity));
  let server_crypto := mkTlsServerConfig (cert_chain identity) (nt_key_der identity) [NATIVE_ALPN] None in
  _ ← map_err Crypto (quic_server_config server_crypto);
  Ok server_crypto.

Definition apply_to_server_config (disable_gso : bool) (c : NativeTransportConfig) (config : ServerConfig) :
    result NativeError ServerConfig :=
  transport ← build_quinn_transport_config disable_gso c;
  Ok (mkTlsServerConfig (tsc_cert_chain config) (tsc_key config) (tsc_alpn config) (Some transport)).
Definition apply_to_client_config (disable_gso : bool) (c : NativeTransportConfig) (config : ClientConfig) :
    result NativeError ClientConfig :=
  transport ← build_quinn_transport_config disable_gso c;
  Ok (mkClientConfig (cc_verifier config) (cc_alpn config) (Some transport)).

Record Endpoint := mkEndpoint { ep_addr : SocketAddr; ep_config : ClientConfig }.
Record Connection := mkConnection { cn_remote : SocketAddr; cn_certificate : bytes; cn_offer : Offer }.

(** Socket of a client endpoint ([quinn::Endpoint::client]). *)
Definition endpoint_client (ephemeral : list Socket → Z) (addr : SocketAddr) (config : ClientConfig) :
    SE (list Socket) NativeError Endpoint :=
  addr ← endpoint_server ephemeral addr; mret (mkEndpoint addr config).
Definition bind_client_endpoint (ephemeral : list Socket → Z) (config : ClientConfig) : SE (list Socket) NativeError Endpoint :=
  endpoint_client ephemeral (SockV4 0 0 0 0 0) config.

Definition NativeDialTrust := rstring.
Definition native_client_endpoint (ephemeral : list Socket → Z) (disable_gso : bool) (bind_addr : SocketAddr)
    (trust : NativeDialTrust) : SE (list Socket) NativeError Endpoint :=
  let rustls_config := mkClientConfig (native_server_verifier trust) [NATIVE_ALPN] None in
  _ ← lift (map_err Transport (quic_client_config rustls_config));
  client_config ← lift (apply_to_client_config disable_gso default_transport rustls_config);
  endpoint_client ephemeral bind_addr client_config.

(** What becomes of a dial: refused at once, or after a time (in milliseconds)
    an error or the server's part of the handshake. *)
Record Attempt := mkAttempt { at_refused : option rstring; at_millis : Z; at_answer : rstring + Offer }.

(** [connecting.await] *)
Definition establish (endpoint : Endpoint) (remote : SocketAddr) (a : Attempt) : result NativeError Connection :=
  match at_answer a with
  | inl e => Err (Transport e)
  | inr o =>
    _ ← map_err Transport (client_handshake (ep_config endpoint) o);
    Ok (mkConnection remote (of_end_entity o) o)
  end.
Definition start_connecting (a : Attempt) : result NativeError unit :=
  match at_refused a with Some e => Err (Transport e) | None => Ok tt end.

(** [connect] of transport.rs *)
Definition connect (network : SocketAddr → SocketAddr → Attempt) (endpoint : Endpoint) (target : HostPort)
    (server_name : rstring) : result NativeError Connection :=
  _ ← transport_ensure (negb (is_blank server_name)) "server_name must not be empty";
  addr ← socket_addr (hp_host target) (hp_port target);
  let a := network (ep_addr endpoint) addr in
  _ ← start_connecting a;
  establish endpoint addr a.

Definition DEFAULT_ATTEMPT_TIMEOUT : Z := 2000.

Definition dial_pair (ephemeral : list Socket → Z) (disable_gso : bool) (network : SocketAddr → SocketAddr → Attempt)
    (pair : CandidatePair) (trust : NativeDialTrust) (attempt_timeout : Z) :
    SE (list Socket) NativeError (Endpoint * Connection) :=
  endpoint ← native_client_endpoint ephemeral disable_gso (nc_address (cp_local pair)) trust;
  let remote := nc_address (cp_remote pair) in
  let a := network (ep_addr endpoint) remote in
  _ ← lift (start_connecting a);
  _ ← lift (ensure (at_millis a <=? attempt_timeout) (Transport (str "candidate dial timed out")));
  connection ← lift (establish endpoint remote a);
  mret (endpoint, connection).

(** [dial_candidates]: each attempt has a socket of its own on the sockets of
    the machine. *)
Definition dial_with_trust (error_text : NativeError → rstring) (arrive : list CandidatePair → list CandidatePair)
    (ephemeral : list Socket → Z) (disable_gso : bool) (network : SocketAddr → SocketAddr → Attempt)
    (sockets : list Socket) (local_candidates remote_candidates : list NativeCandidate) (trust : NativeDialTrust) :
    result NativeError (Endpoint * Connection) :=
  dial_candidates error_text
    (λ pair, (dial_pair ephemeral disable_gso network pair trust DEFAULT_ATTEMPT_TIMEOUT sockets).1)
    arrive local_candidates remote_candidates.

(** ** Rendezvous *)

Definition RENDEZVOUS_ALPN : bytes := str "night-bridge-rendezvous-v1".

Definition rendezvous_server_config (generate_simple_self_signed : list rstring → result rstring (bytes * bytes)) :
    result rstring ServerConfig :=
  '(cert, key) ← map_err (λ _, str "generate rendezvous self-signed certificate")
                   (generate_simple_self_signed [str "localhost"]);
  _ ← map_err (λ _, str "build rendezvous TLS config") (with_single_cert [cert] key);
  let server_crypto := mkTlsServerConfig [cert] key [RENDEZVOUS_ALPN] None in
  _ ← map_err (λ _, str "build rendezvous QUIC TLS config") (quic_server_config server_crypto);
  Ok server_crypto.

(** quinn's configuration as it is by default. *)
Definition rendezvous_client_endpoint (ephemeral : list Socket → Z) (sockets : list Socket) : result rstring (Endpoint * list Socket) :=
  let rustls_config := mkClientConfig trust_any_server [RENDEZVOUS_ALPN] None in
  _ ← map_err (λ _, str "build rendezvous client TLS config") (quic_client_config rustls_config);
  '(addr, sockets) ← map_err (λ _, str "bind rendezvous client") (bind ephemeral Udp (SockV4 0 0 0 0 0) sockets);
  Ok (mkEndpoint addr rustls_config, sockets).

Record RendezvousClient := mkRendezvousClient {
  rvc_endpoint : Endpoint; rvc_server_addr : SocketAddr; rvc_server_name : rstring; rvc_connection : Connection }.

(** The socket is closed when the connection fails. *)
Definition rendezvous_connect (ephemeral : list Socket → Z) (network : SocketAddr → SocketAddr → Attempt) (url : rstring)
    (sockets : list Socket) : result rstring (RendezvousClient * list Socket) :=
  server_addr ← parse_rendezvous_url url;
  let server_name := str "localhost" in
  '(endpoint, sockets) ← rendezvous_client_endpoint ephemeral sockets;
  let a := network (ep_addr endpoint) server_addr in
  _ ← map_err (λ _, str "connect rendezvous client") (start_connecting a);
  connection ← map_err (λ _, str "establish rendezvous client connection") (establish endpoint server_addr a);
  Ok (mkRendezvousClient endpoint server_addr server_name connection, sockets).

(** ** The LocalSend client *)

(** [pinned_client]; reqwest may not take the configuration. *)
Definition pinned_client (use_preconfigured_tls : ClientConfig → result rstring unit) (expected_fingerprint : rstring) :
    result LocalSendError ClientConfig :=
  let config := mkClientConfig (pinned_cert_verifier expected_fingerprint) [] None in
  _ ← map_err LsHttp (use_preconfigured_tls config);
  Ok config.

Definition is_https (url : rstring) : bool := bool_decide (is_Some (strip_prefix (str "https:") url)).

(** What reqwest does with a request: under [https] nothing is sent before the
    handshake is complete; plain HTTP is as it is. *)
Definition over_tls {W} (client : ClientConfig) (offer : Call → Offer) (server : Call → W → Reply * W) (call : Call) (w : W) :
    Reply * W :=
  if is_https (call_url call) then
    match client_handshake client (offer call) with
    | Ok _ => server call w
    | Err e => (NoReply e, w)
    | Panic => (NoReply [], w)
    end
  else server call w.

(** [LocalSendClient::pinned] and [send_files_to_url]. *)
Definition pinned_send {W} (use_preconfigured_tls : ClientConfig → result rstring unit) (mime : path → option rstring)
    (make_url : rstring → string → option rstring) (offer : Call → Offer) (server : Call → W → Reply * W) (t : fs)
    (expected_fingerprint base_url : rstring) (paths : list path) (sender : DeviceInfo) : SE W LocalSendError unit :=
  client ← lift (pinned_client use_preconfigured_tls expected_fingerprint);
  send_files_to_url mime make_url (over_tls client offer server) t base_url paths sender.

Definition localsend_send_files {W} (use_preconfigured_tls : ClientConfig → result rstring unit) (mime : path → option rstring)
    (make_url : rstring → string → option rstring) (offer : Call → Offer) (server : Call → W → Reply * W) (t : fs)
    (peer : LanPeer) (paths : list path) (sender : DeviceInfo) : SE W LocalSendError unit :=
  let base_url := di_protocol (lp_info peer) ++ str "://" ++ show_sock (lp_address peer) in
  pinned_send use_preconfigured_tls mime make_url offer server t (di_fingerprint (lp_info peer)) base_url paths sender.
End pinned.

(** ** What a pin gives *)

Section pins.
Context `{CryptoSuite} `{Lowercase} `{RustlsLaws}.

Lemma check_fingerprint_Ok expected cert :
  check_fingerprint expected cert = Ok tt ↔ verifier_normalize_fingerprint expected = hex_encode (sha256 cert).
Proof. unfold check_fingerprint. rewrite ensure_Ok_inv, bool_decide_eq_true. by split. Qed.

(** A connection is to the holder of the certificate the verifier accepted. *)
Lemma establish_Ok endpoint remote a c :
  establish endpoint remote a = Ok c →
  at_answer a = inr (cn_offer c) ∧ cn_remote c = remote ∧ cn_certificate c = of_end_entity (cn_offer c) ∧
  client_handshake (ep_config endpoint) (cn_offer c) = Ok tt ∧
  verify_server_cert (cc_verifier (ep_config endpoint)) (cn_certificate c) (of_intermediates (cn_offer c)) = Ok tt ∧
  signature_ok (cc_verifier (ep_config endpoint)) (cn_offer c) = true.
Proof.
  unfold establish. destruct (at_answer a) as [e|o]; [done|].
  destruct (client_handshake (ep_config endpoint) o) as [[]| |] eqn:Hh; cbn [map_err mbind result_bind]; [|done..]. intros [= <-].
  destruct (client_handshake_verified _ _ Hh) as [? ?]. by split_and!.
Qed.

(** The client's configuration of a native endpoint. *)
Definition native_config (disable_gso : bool) (trust : NativeDialTrust) : ClientConfig :=
  mkClientConfig (native_server_verifier trust) [NATIVE_ALPN]
    (Some (mkQuinn 64 16 30000 (Some 10000) (negb disable_gso))).

Lemma apply_default disable_gso config :
  apply_to_client_config disable_gso default_transport config =
  Ok (mkClientConfig (cc_verifier config) (cc_alpn config) (Some (mkQuinn 64 16 30000 (Some 10000) (negb disable_gso)))).
Proof. by destruct disable_gso. Qed.

Lemma native_client_endpoint_Ok ephemeral disable_gso bind_addr trust sockets ep sockets' :
  native_client_endpoint ephemeral disable_gso bind_addr trust sockets = (Ok ep, sockets') ↔
  quic_client_config (mkClientConfig (native_server_verifier trust) [NATIVE_ALPN] None) = Ok tt ∧
  bind ephemeral Udp bind_addr sockets = Ok (ep_addr ep, sockets') ∧ ep_config ep = native_config disable_gso trust.
Proof.
  unfold native_client_endpoint, endpoint_client, endpoint_server. rewrite apply_default. split.
  - intros He. destruct (quic_client_config _) as [[]| |]; cbn [map_err] in He; [|done..].
    rewrite !SE_lift_Ok in He. unfold mbind, SE_bind in He.
    destruct (bind ephemeral Udp bind_addr sockets) as [[a l]| |]; [|done..]. by injection He as <- <-.
  - intros (Hq & Hb & Hc). rewrite Hq. cbn [map_err]. rewrite !SE_lift_Ok. unfold mbind, SE_bind. rewrite Hb.
    destruct ep as [a c]. cbn in Hc. by subst c.
Qed.

(** The pair leads to a server that has the pinned certificate: its socket can
    be bound, and the handshake succeeds in time. *)
Definition reaches ephemeral disable_gso network sockets (trust : NativeDialTrust) (pair : CandidatePair) (c : Connection) : Prop :=
  ∃ addr sockets', bind ephemeral Udp (nc_address (cp_local pair)) sockets = Ok (addr, sockets') ∧
    let a := network addr (nc_address (cp_remote pair)) in
    at_refused a = None ∧ at_millis a ≤ DEFAULT_ATTEMPT_TIMEOUT ∧ at_answer a = inr (cn_offer c) ∧
    client_handshake (native_config disable_gso trust) (cn_offer c) = Ok tt ∧
    c = mkConnection (nc_address (cp_remote pair)) (of_end_entity (cn_offer c)) (cn_offer c).

Lemma dial_pair_Ok ephemeral disable_gso network pair trust sockets ep c :
  (dial_pair ephemeral disable_gso network pair trust DEFAULT_ATTEMPT_TIMEOUT sockets).1 = Ok (ep, c) →
  ep_config ep = native_config disable_gso trust ∧ reaches ephemeral disable_gso network sockets trust pair c.
Proof.
  destruct (dial_pair _ _ _ _ _ _ _) as [r s'] eqn:Hd. cbn [fst]. intros ->. unfold dial_pair in Hd. inv_se.
  match goal with H : native_client_endpoint _ _ _ _ _ = _ |- _ => apply native_client_endpoint_Ok in H as (_ & Hb & Hc) end.
  match goal with H : establish _ _ _ = _ |- _ => destruct (establish_Ok _ _ _ _ H) as (Ha & Hr & Hcert & Hh & _) end.
  rewrite Hc in Hh. split; [done|]. exists (ep_addr ep), s'. cbv zeta. bools. split_and!; [done| |done..|].
  - match goal with H : start_connecting ?a = _ |- _ => revert H; unfold start_connecting; by destruct (at_refused a) end.
  - destruct c. cbn in *. congruence.
Qed.

Lemma dial_pair_reaches ephemeral disable_gso network pair trust sockets c :
  quic_client_config (mkClientConfig (native_server_verifier trust) [NATIVE_ALPN] None) = Ok tt →
  reaches ephemeral disable_gso network sockets trust pair c →
  ∃ ep, (dial_pair ephemeral disable_gso network pair trust DEFAULT_ATTEMPT_TIMEOUT sockets).1 = Ok (ep, c).
Proof.
  intros Hq (addr & sockets' & Hb & Hre & Hms & Ha & Hh & Hc).
  assert (He : native_client_endpoint ephemeral disable_gso (nc_address (cp_local pair)) trust sockets =
    (Ok (mkEndpoint addr (native_config disable_gso trust)), sockets')) by (by apply native_client_endpoint_Ok).
  exists (mkEndpoint addr (native_config disable_gso trust)). unfold dial_pair.
  rewrite (SE_bind_eq _ _ _ _ _ He). cbn [ep_addr]. unfold start_connecting. rewrite Hre. rewrite SE_lift_Ok.
  apply Z.leb_le in Hms. rewrite Hms. cbn [ensure]. rewrite SE_lift_Ok. unfold establish. rewrite Ha. cbn [ep_config].
  rewrite Hh. cbn [map_err mbind result_bind]. rewrite SE_lift_Ok. cbn. by rewrite <-Hc.
Qed.

Lemma pinned_certificate ephemeral disable_gso network sockets trust pair c :
  reaches ephemeral disable_gso network sockets trust pair c →
  trust = hex_encode (sha256 (cn_certificate c)) ∧ signature_ok (native_server_verifier trust) (cn_offer c) = true.
Proof.
  intros (addr & sockets' & _ & _ & _ & _ & Hh & Hc). apply client_handshake_verified in Hh as [Hv Hs]. split; [|done].
  rewrite Hc. cbn [cn_certificate]. cbn in Hv. unfold verify_certificate_fingerprint in Hv.
  apply ensure_Ok_inv, bool_decide_eq_true in Hv. by rewrite <-Hv.
Qed.

(** Dialing a peer's candidates gives a connection only to the peer whose
    certificate was pinned: one that signed the handshake with the key of a
    certificate of that digest, at the address of one of the candidates and
    within two seconds.  When some candidate leads to it, a connection is
    made, however the attempts are ordered and whoever else answers; when
    none does, the error lists every pair. *)
Theorem native_dial_pinned error_text arrive ephemeral disable_gso network sockets local_candidates remote_candidates trust :
  (∀ pairs, arrive pairs ≡ₚ pairs) →
  quic_client_config (mkClientConfig (native_server_verifier trust) [NATIVE_ALPN] None) = Ok tt →
  let pairs := candidate_pairs local_candidates remote_candidates in
  match dial_with_trust error_text arrive ephemeral disable_gso network sockets local_candidates remote_candidates trust with
  | Ok (_, c) =>
    trust = hex_encode (sha256 (cn_certificate c)) ∧ signature_ok (native_server_verifier trust) (cn_offer c) = true ∧
    ∃ pair, pair ∈ pairs ∧ cn_remote c = nc_address (cp_remote pair) ∧
      reaches ephemeral disable_gso network sockets trust pair c
  | Err e =>
    (∀ pair c, pair ∈ pairs → ¬ reaches ephemeral disable_gso network sockets trust pair c) ∧
    ∃ hint last_error, e = NoDirectPath (describe_pair <$> pairs) hint last_error
  | Panic => False
  end.
Proof.
  intros Harr Hq pairs. unfold dial_with_trust.
  pose proof (dial_candidates_correct error_text
    (λ pair, (dial_pair ephemeral disable_gso network pair trust DEFAULT_ATTEMPT_TIMEOUT sockets).1)
    arrive local_candidates remote_candidates Harr) as Hspec.
  destruct (dial_candidates _ _ _ _ _) as [[ep c]|e|]; [| |done].
  - destruct Hspec as (pair & Hin & [_ Hr]%dial_pair_Ok). destruct (pinned_certificate _ _ _ _ _ _ _ Hr).
    split_and!; [done..|]. exists pair. split_and!; [done| |done]. destruct Hr as (? & ? & _ & _ & _ & _ & _ & ->). done.
  - destruct Hspec as [Hno He]. split; [|exact He]. intros pair c Hin Hr.
    destruct (dial_pair_reaches _ _ _ _ _ _ _ Hq Hr) as [ep Hd]. specialize (Hno pair Hin). by rewrite Hd in Hno.
Qed.

(** *** Rendezvous *)

(** The rendezvous client authenticates nobody: of a server that takes part in
    the handshake neither the certificate nor the signature decides whether it
    is connected to, so whoever answers at the address of the URL is the
    server.  That no transfer goes astray for it is the pin's doing, which
    comes from the trust database and not from the server. *)
Theorem rendezvous_trusts_anyone ephemeral network url sockets o :
  (∀ config o, verify_server_cert (cc_verifier config) (of_end_entity o) (of_intermediates o) = Ok tt →
     signature_ok (cc_verifier config) o = true → client_handshake config o = Ok tt) →
  (∀ from to, at_refused (network from to) = None ∧ at_answer (network from to) = inr o) →
  match rendezvous_connect ephemeral network url sockets with
  | Ok (c, sockets') =>
    parse_rendezvous_url url = Ok (rvc_server_addr c) ∧
    rvc_connection c = mkConnection (rvc_server_addr c) (of_end_entity o) o ∧
    bind ephemeral Udp (SockV4 0 0 0 0 0) sockets = Ok (ep_addr (rvc_endpoint c), sockets')
  | Err e =>
    parse_rendezvous_url url = Err e ∨
    e = str "build rendezvous client TLS config" ∨ e = str "bind rendezvous client"
  | Panic => True
  end.
Proof.
  intros Hcomplete Hnet. unfold rendezvous_connect, rendezvous_client_endpoint.
  destruct (parse_rendezvous_url url) as [addr|e|]; cbn [mbind result_bind]; [|by left|done].
  destruct (quic_client_config _) as [[]| |]; cbn [map_err mbind result_bind]; [|by right; left|done].
  destruct (bind _ _ _ _) as [[a s']| |] eqn:Hb; cbn [map_err mbind result_bind]; [|by right; right|done].
  destruct (Hnet a addr) as [Hre Han]. unfold start_connecting, establish. cbn [ep_addr ep_config]. rewrite Hre, Han.
  cbn [map_err mbind result_bind]. rewrite Hcomplete; [done..|]. unfold signature_ok. by destruct (of_version o).
Qed.

(** *** LocalSend *)

Lemma is_https_app s : is_https (str "https:" ++ s) = true.
Proof. unfold is_https, strip_prefix. rewrite take_app_length. by rewrite !bool_decide_true. Qed.

End pins.
