(* ===== verification/LocalMulticast.v ===== *)
(** * LocalSend discovery on its sockets

    Model of the rest of crates/protocol-localsend-v2/src/discovery.rs: the
    builders of the announcer and the browser, the multicast socket both listen
    on, announcing once, and listening for one peer, over the sockets of a
    machine and the datagrams of its network.

    [os] answers the calls of the socket API that only the system can refuse;
    whether an address can be bound is decided here, by the sockets that are
    open. *)

From stdpp Require Import prelude strings.
From Stdlib Require Import ZArith Lia.
From S2P Require Import Prelude RustStr Errors Inet Identity TrustStore LocalSession LocalServer Transport LocalDiscovery.

Local Open Scope Z_scope.

(** ** Settings *)

Definition DEFAULT_MULTICAST_IP : IpAddr := IpV4 224 0 0 167.
Definition DEFAULT_DISCOVERY_PORT : Z := 53317.
Definition DEFAULT_DISCOVERY_ADDR : SocketAddr := socket_new DEFAULT_MULTICAST_IP DEFAULT_DISCOVERY_PORT.

(** Durations in milliseconds; of the channel, whether there is one. *)
Record DiscoveryAnnouncer := mkAnnouncer {
  da_info : DeviceInfo; da_multicast_addr : SocketAddr; da_interval : Z; da_peer_tx : bool }.
Definition announcer_new (info : DeviceInfo) : DiscoveryAnnouncer := mkAnnouncer info DEFAULT_DISCOVERY_ADDR 5000 false.
Definition announcer_with_multicast_addr (a : DiscoveryAnnouncer) (multicast_addr : SocketAddr) : DiscoveryAnnouncer :=
  mkAnnouncer (da_info a) multicast_addr (da_interval a) (da_peer_tx a).
Definition with_interval (a : DiscoveryAnnouncer) (interval : Z) : DiscoveryAnnouncer :=
  mkAnnouncer (da_info a) (da_multicast_addr a) interval (da_peer_tx a).
Definition with_peer_tx (a : DiscoveryAnnouncer) : DiscoveryAnnouncer :=
  mkAnnouncer (da_info a) (da_multicast_addr a) (da_interval a) true.

Record DiscoveryBrowser := mkBrowser { db_self_fingerprint : rstring; db_multicast_addr : SocketAddr; db_timeout : Z }.
Definition browser_new (self_fingerprint : rstring) : DiscoveryBrowser := mkBrowser self_fingerprint DEFAULT_DISCOVERY_ADDR 5000.
Definition browser_with_multicast_addr (b : DiscoveryBrowser) (multicast_addr : SocketAddr) : DiscoveryBrowser :=
  mkBrowser (db_self_fingerprint b) multicast_addr (db_timeout b).
Definition with_timeout (b : DiscoveryBrowser) (timeout : Z) : DiscoveryBrowser :=
  mkBrowser (db_self_fingerprint b) (db_multicast_addr b) timeout.

(** ** Sockets that may share a port *)

Record UdpSocket := mkUdp {
  us_addr : SocketAddr; us_reuse_address : bool; us_reuse_port : bool; us_groups : list IpAddr }.

(** Both sockets must have asked for it. *)
Definition shares (a b : UdpSocket) : bool :=
  us_reuse_address a && us_reuse_address b && us_reuse_port a && us_reuse_port b.
Definition udp_conflicts (a b : UdpSocket) : bool :=
  conflicts (mkSocket Udp (us_addr a)) (mkSocket Udp (us_addr b)) && negb (shares a b).
Definition udp_bind (socket : UdpSocket) (sockets : list UdpSocket) : result io_error UdpSocket :=
  if existsb (udp_conflicts socket) sockets then Err OtherIo else Ok socket.

Inductive SocketCall :=
| SocketNew | SetReuseAddress | SetReusePort | JoinMulticastV4 (group interface : IpAddr) | SetNonblocking
| SetMulticastLoopV4 | FromStd.

Record Packet := mkPacket { pk_source : SocketAddr; pk_dest : SocketAddr; pk_payload : bytes }.

Section sockets.
Context (os : SocketCall → result io_error unit).

Definition UNSPECIFIED : IpAddr := IpV4 0 0 0 0.

(** On Unix.  A socket that is given up is closed. *)
Definition bind_multicast_socket (multicast_addr : SocketAddr) (sockets : list UdpSocket) : result LocalSendError UdpSocket :=
  _ ← map_err LsIo (os SocketNew);
  _ ← map_err LsIo (os SetReuseAddress);
  _ ← map_err LsIo (os SetReusePort);
  socket ← map_err LsIo (udp_bind (mkUdp (socket_new UNSPECIFIED (sock_port multicast_addr)) true true []) sockets);
  _ ← map_err LsIo (os (JoinMulticastV4 (sock_ip multicast_addr) UNSPECIFIED));
  _ ← map_err LsIo (os SetNonblocking);
  Ok (mkUdp (us_addr socket) true true [sock_ip multicast_addr]).

(** What of the network's traffic a socket receives: what is sent to its port
    and to a group it joined. *)
Definition delivered (socket : UdpSocket) (traffic : list (Z * Packet)) : list (Z * Packet) :=
  filter (λ '(_, p), sock_port (pk_dest p) = sock_port (us_addr socket) ∧ sock_ip (pk_dest p) ∈ us_groups socket) traffic.

(** The datagrams that come in time, each awaited from the one before on. *)
Fixpoint in_time (timeout since : Z) (arrivals : list (Z * Packet)) : list (bytes * SocketAddr) :=
  match arrivals with
  | [] => []
  | (at_, p) :: arrivals =>
    if at_ <=? since + timeout then (pk_payload p, pk_source p) :: in_time timeout at_ arrivals else []
  end.

Context `{AnnouncementJson}.

(** [announce_once]: from a socket of its own, on a host of address [host]. *)
Definition announce_once (ephemeral : list UdpSocket → Z) (host : IpAddr) (send_to : Packet → result io_error Z)
    (a : DiscoveryAnnouncer) (sockets : list UdpSocket) : result LocalSendError (Z * Packet) :=
  socket ← map_err LsIo (udp_bind (mkUdp (socket_new UNSPECIFIED (ephemeral sockets)) false false []) sockets);
  _ ← map_err LsIo (os SetMulticastLoopV4);
  let payload := announcement_to_vec (announce_of (da_info a)) in
  let packet := mkPacket (socket_new host (sock_port (us_addr socket))) (da_multicast_addr a) payload in
  sent ← map_err LsIo (send_to packet);
  Ok (sent, packet).

(** [listen_once], begun at the time [now]. *)
Definition browser_listen_once (b : DiscoveryBrowser) (now : Z) (traffic : list (Z * Packet)) (sockets : list UdpSocket) :
    result LocalSendError (option LanPeer) :=
  socket ← bind_multicast_socket (db_multicast_addr b) sockets;
  _ ← map_err LsIo (os FromStd);
  listen_once (db_self_fingerprint b) (in_time (db_timeout b) now (delivered socket traffic)).

(** [run], with what the sockets then bring. *)
Definition announcer_run `{CryptoSuite} `{Lowercase} (a : DiscoveryAnnouncer) (sockets : list UdpSocket)
    (inputs : UdpSocket → list Input) : result LocalSendError unit * list Action :=
  match (socket ← bind_multicast_socket (da_multicast_addr a) sockets; _ ← map_err LsIo (os FromStd); Ok socket) with
  | Ok socket => run (da_info a) (da_peer_tx a) (inputs socket)
  | Err e => (Err e, [])
  | Panic => (Panic, [])
  end.
End sockets.

(** ** Correctness *)

(** A datagram is read back as it was written. *)
Class AnnouncementRoundtrip `{AnnouncementJson} := {
  announcement_roundtrip a :
    0 ≤ di_port (an_info a) ≤ 65535 → announcement_from_slice (announcement_to_vec a) = Some a }.

Lemma existsb_ext {A} (f g : A → bool) l : (∀ x, f x = g x) → existsb f l = existsb g l.
Proof. intros Hfg. induction l as [|x l IH]; cbn; [done|]. by rewrite Hfg, IH. Qed.

Section multicast.
Context (os : SocketCall → result io_error unit).

(** Any number of announcers and browsers of one machine listen side by side;
    what keeps them out is a socket on their port that is not shared, and no
    other socket. *)
Theorem multicast_sockets_share multicast_addr sockets :
  (∀ call, os call = Ok tt) →
  let mine := mkUdp (socket_new UNSPECIFIED (sock_port multicast_addr)) true true [sock_ip multicast_addr] in
  bind_multicast_socket os multicast_addr sockets =
    if existsb (λ s, (sock_port (us_addr s) =? sock_port multicast_addr) && negb (us_reuse_address s && us_reuse_port s)) sockets
    then Err (LsIo OtherIo) else Ok mine.
Proof.
  intros Hos mine. unfold bind_multicast_socket. rewrite !Hos. cbn [map_err mbind result_bind].
  unfold udp_bind. set (own := mkUdp _ true true []).
  assert (Hc : ∀ s, udp_conflicts own s =
    (sock_port (us_addr s) =? sock_port multicast_addr) && negb (us_reuse_address s && us_reuse_port s)).
  { intros s. unfold udp_conflicts, conflicts, shares, own.
    cbn [us_addr us_reuse_address us_reuse_port so_addr so_protocol socket_new UNSPECIFIED sock_port sock_ip andb].
    rewrite bool_decide_true, Z.eqb_sym by done. change (is_unspecified UNSPECIFIED) with true.
    by rewrite orb_true_r, orb_true_l, !andb_true_r. }
  rewrite (existsb_ext _ _ sockets Hc). case_match; rewrite ?Hos; done.
Qed.

Context `{AnnouncementJsonLaws} `{!AnnouncementRoundtrip}.

Definition peer_of (a : DiscoveryAnnouncer) (source : SocketAddr) : LanPeer :=
  mkLanPeerFound (da_info a) (peer_api_address source (di_port (da_info a))) source.

(** What an announcer says fits the buffers and its port is one. *)
Definition fits (a : DiscoveryAnnouncer) : Prop :=
  0 ≤ di_port (da_info a) ≤ 65535 ∧
  (length (announcement_to_vec (announce_of (da_info a))) ≤ 16 * 1024)%nat ∧
  (length (announcement_to_vec (response_of (da_info a))) ≤ 16 * 1024)%nat.

Lemma parse_own_payload self_fingerprint info announcement announce source :
  0 ≤ di_port info ≤ 65535 →
  (length (announcement_to_vec (mkAnnouncement info announcement announce)) ≤ 16 * 1024)%nat →
  parse_peer self_fingerprint
    (take (Z.to_nat (16 * 1024)) (announcement_to_vec (mkAnnouncement info announcement announce))) source =
  Ok (if bool_decide (di_fingerprint info = self_fingerprint) then None
      else Some (mkLanPeerFound info (peer_api_address source (di_port info)) source)).
Proof.
  intros Hp Hl. rewrite take_ge by (change (Z.to_nat (16 * 1024)) with (16 * 1024)%nat; done). unfold parse_peer, parse_announcement.
  rewrite announcement_roundtrip by done. cbn. by case_bool_decide.
Qed.

(** The first datagrams of a browser that are its own are passed over. *)
Lemma listen_once_own self_fingerprint own rest :
  Forall (λ d, parse_peer self_fingerprint (take (Z.to_nat (16 * 1024)) d.1) d.2 = Ok None) own →
  listen_once self_fingerprint (own ++ rest) = listen_once self_fingerprint rest.
Proof. induction 1 as [|[payload source] own Ho _ IH]; [done|]. cbn [app listen_once]. cbn in Ho. by rewrite Ho. Qed.

(** Each of the datagrams arrives before the time-out that runs since the one
    before. *)
Fixpoint timely (timeout since : Z) (arrivals : list (Z * Packet)) : Prop :=
  match arrivals with
  | [] => True
  | (at_, _) :: arrivals => at_ ≤ since + timeout ∧ timely timeout at_ arrivals
  end.

Lemma in_time_app timeout since arrivals rest :
  timely timeout since arrivals →
  ∃ more, in_time timeout since (arrivals ++ rest) = ((λ '(_, p), (pk_payload p, pk_source p)) <$> arrivals) ++ more.
Proof.
  revert since. induction arrivals as [|[at_ p] arrivals IH]; intros since; cbn; [by eexists|].
  intros [Ht%Z.leb_le Hrest]. rewrite Ht. destruct (IH at_ Hrest) as [more ->]. by eexists.
Qed.

Lemma bound_socket multicast_addr sockets socket :
  bind_multicast_socket os multicast_addr sockets = Ok socket →
  sock_port (us_addr socket) = sock_port multicast_addr ∧ us_groups socket = [sock_ip multicast_addr].
Proof.
  unfold bind_multicast_socket, udp_bind. intros Hb. inv_ok.
  match goal with H : (if existsb _ _ then _ else _) = _ |- _ => destruct (existsb _ _); inversion H end. by subst.
Qed.

(** An announced device is found: whoever listens on a machine whose port is
    not taken, to the group the device announces to, is told of the first
    device of another fingerprint whose announcement arrives in time, with what
    it says of itself and, as the address to reach it, the address its
    datagram came from with the announced port.  Traffic for other groups and
    ports makes no difference, and neither do the announcements of the
    listener's own fingerprint. *)
Theorem announced_device_found b a ephemeral host send_to theirs own sent packet before after mine now at_ :
  (∀ call, os call = Ok tt) →
  announce_once os ephemeral host send_to a theirs = Ok (sent, packet) → fits a →
  da_multicast_addr a = db_multicast_addr b → di_fingerprint (da_info a) ≠ db_self_fingerprint b →
  bind_multicast_socket os (db_multicast_addr b) mine = Ok own →
  let heard := delivered own before in
  timely (db_timeout b) now (heard ++ [(at_, packet)]) →
  Forall (λ '(_, p), parse_peer (db_self_fingerprint b) (take (Z.to_nat (16 * 1024)) (pk_payload p)) (pk_source p) = Ok None) heard →
  browser_listen_once os b now (before ++ (at_, packet) :: after) mine = Ok (Some (peer_of a (pk_source packet))).
Proof.
  intros Hos Hsend (Hport & Hlen & _) Hgroup Hfp Hbind heard Htime Hown. unfold browser_listen_once.
  rewrite Hbind, Hos. cbn [map_err mbind result_bind].
  destruct (bound_socket _ _ _ Hbind) as [Hbp Hbg]. unfold announce_once in Hsend. inv_ok.
  apply pair_equal_spec in Hsend as [_ Hpacket].
  assert (Hd : delivered own (before ++ (at_, packet) :: after) = (heard ++ [(at_, packet)]) ++ delivered own after).
  { unfold delivered. rewrite filter_app, filter_cons_True; [by rewrite <-app_assoc|].
    rewrite <-Hpacket. cbn [pk_dest]. rewrite Hgroup, Hbg. split; [done|by left]. }
  rewrite Hd. destruct (in_time_app _ _ _ (delivered own after) Htime) as [more ->].
  rewrite fmap_app, <-app_assoc, listen_once_own.
  - cbn [fmap list_fmap app listen_once]. rewrite <-Hpacket. cbn [pk_payload pk_source]. unfold announce_of.
    rewrite parse_own_payload by done. by rewrite bool_decide_false.
  - apply Forall_fmap. eapply Forall_impl; [exact Hown|]. by intros [? ?].
Qed.

(** What an announcer makes of a datagram another one sent. *)
Lemma heard_datagram `{CryptoSuite} `{Lowercase} a b source answer fallback_sent announcement announce :
  0 ≤ di_port (da_info a) ≤ 65535 →
  (length (announcement_to_vec (mkAnnouncement (da_info a) announcement announce)) ≤ 16 * 1024)%nat →
  di_fingerprint (da_info a) ≠ di_fingerprint (da_info b) →
  let target := peer_api_address source (di_port (da_info a)) in
  handle_input (da_info b) true
    (Datagram (announcement_to_vec (mkAnnouncement (da_info a) announcement announce)) source answer fallback_sent) =
  if (announcement || announce) && is_safe_localsend_target (sock_ip target) (sock_port target) (di_protocol (da_info a)) then
    let '(registered, posted) :=
      post_register_url (da_info b) (di_protocol (da_info a)) (register_url target (di_protocol (da_info a)))
        (di_fingerprint (da_info a)) answer in
    if registered then (Ok tt, Forward (peer_of a source) :: posted)
    else (if fallback_sent then Ok tt else Err (LsIo OtherIo),
          Forward (peer_of a source) :: posted ++ [Multicast (announcement_to_vec (response_of (da_info b)))])
  else (Ok tt, [Forward (peer_of a source)]).
Proof.
  intros Hp Hl Hfp target. cbn [handle_input]. unfold handle_datagram. rewrite parse_own_payload by done. rewrite bool_decide_false by done.
  rewrite take_ge by (change (Z.to_nat (16 * 1024)) with (16 * 1024)%nat; done).
  unfold should_answer, parse_announcement. rewrite announcement_roundtrip by done.
  cbn [mbind result_bind an_announcement an_announce an_info]. rewrite bool_decide_false, andb_true_r by done.
  destruct (announcement || announce); [|done]. cbv zeta. fold target. rewrite andb_true_l.
  by destruct (is_safe_localsend_target _ _ _).
Qed.

(** Two devices meet: the one that hears the other's announcement reports it,
    and the other learns of it in turn, either from the registration posted to
    it or, should that fail, from the response, which it reports and does not
    answer, so that no exchange goes on for ever. *)
Theorem announcers_meet `{CryptoSuite} `{Lowercase} a b source_a source_b answer fallback_sent :
  fits a → fits b → di_fingerprint (da_info a) ≠ di_fingerprint (da_info b) →
  is_safe_localsend_target (sock_ip source_a) (di_port (da_info a)) (di_protocol (da_info a)) = true →
  let '(_, actions) :=
    handle_input (da_info b) true (Datagram (announcement_to_vec (announce_of (da_info a))) source_a answer fallback_sent) in
  Forward (peer_of a source_a) ∈ actions ∧
  ((∃ certificate,
      Posted (register_url (peer_api_address source_a (di_port (da_info a))) (di_protocol (da_info a))) certificate (da_info b)
      ∈ actions) ∨
   (Multicast (announcement_to_vec (response_of (da_info b))) ∈ actions ∧
    ∀ answer' fallback_sent',
      handle_input (da_info a) true
        (Datagram (announcement_to_vec (response_of (da_info b))) source_b answer' fallback_sent') =
      (Ok tt, [Forward (peer_of b source_b)]))).
Proof.
  intros (Hpa & Hla & _) (Hpb & _ & Hlb) Hfp Hsafe. unfold announce_of in *. rewrite heard_datagram by done.
  destruct (peer_api_address_ip source_a (di_port (da_info a))) as [-> ->]. rewrite Hsafe. cbn [orb andb].
  destruct (post_register_url _ _ _ _ _) as [[] posted] eqn:Hpost; (split; [by left|]).
  - left. unfold post_register_url in Hpost. destruct answer as [|certificate status]; [done|].
    exists certificate. case_match; simplify_eq. right. by left.
  - right. split; [|intros answer' fallback'; unfold response_of in *; by rewrite heard_datagram].
    right. apply elem_of_app. right. by left.
Qed.
End multicast.
