(* ===== verification/NativeWan.v ===== *)
(** * Sending to a WAN peer

    The native client of crates/protocol-native-v1/src/client.rs with the dial
    of PinnedTls.v in it: files sent to the candidates of a peer reach the
    machine that holds the pinned certificate, or nobody. *)

From stdpp Require Import prelude gmap strings relations.
From Stdlib Require Import ZArith Lia.
From S2P Require Import Prelude RustStr Errors Chunk Dto Manifest Fs ChunkFrame Framing Transfer Receiver Inet Identity TrustStore Candidates Transport Conversation NativeNet PinnedTls.

Local Open Scope Z_scope.

(** The local candidate of [send_files_to_candidates]. *)
Definition any_local : list NativeCandidate := [mkCandidate Local_ (SockV4 0 0 0 0 0) 100].

Section wan.
Context `{!Json Hello, !Json HelloAck, !Json RequestTransfer, !Json AcceptTransfer,
          !Json ChunkAck, !Json CancelTransfer, !Json DoneTransfer, !Json ResumeRequest}.
Context `{!JsonRoundtrip Hello, !JsonRoundtrip HelloAck, !JsonRoundtrip RequestTransfer,
          !JsonRoundtrip AcceptTransfer, !JsonRoundtrip ChunkAck, !JsonRoundtrip CancelTransfer,
          !JsonRoundtrip DoneTransfer, !JsonRoundtrip ResumeRequest}.
Context `{Blake3Hex} {U : Uuid} `{CryptoLaws} `{Lowercase} `{RustlsLaws}.
Context (channel_binding_of : Endpoint * Connection → bytes).
Context (keypair nonce : bytes) (alias : rstring) (pubkey : bytes) (inbox : path).

(** The sockets of the sending machine and the network it is in. *)
Context (error_text : NativeError → rstring) (arrive : list CandidatePair → list CandidatePair)
  (ephemeral : list Socket → Z) (disable_gso : bool) (network : SocketAddr → SocketAddr → Attempt) (sockets : list Socket).
Hypothesis arrive_all : ∀ pairs, arrive pairs ≡ₚ pairs.

Definition dial (trust : NativeDialTrust) (pair : CandidatePair) : result NativeError (Endpoint * Connection) :=
  (dial_pair ephemeral disable_gso network pair trust DEFAULT_ATTEMPT_TIMEOUT sockets).1.
Definition wan_send (trust : NativeDialTrust) (remote : list NativeCandidate) (paths : list path) : net World unit :=
  send_files_to_candidates channel_binding_of error_text (dial trust) arrive remote paths keypair.

(** C2: Sending files to the candidates of a WAN peer, with the certificate it
    is known by.  If some candidate leads to the machine that holds that
    certificate, and the daemon there trusts the sender and is ready for the
    files, then they arrive, complete, at that machine, under every
    interleaving of the two sides, whoever else answers at the other
    candidates.  If none does, not a byte of the transfer is sent, and the
    sender fails. *)
Theorem wan_transfer_pinned trust remote sources cw d :
  quic_client_config (mkClientConfig (native_server_verifier trust) [NATIVE_ALPN] None) = Ok tt →
  (∀ p c, (p, c) ∈ sources → w_fs cw !! resolve p = Some (File c)) →
  let pairs := candidate_pairs any_local remote in
  let leads pair c := pair ∈ pairs ∧ reaches ephemeral disable_gso network sockets trust pair c in
  ((∃ pair c, leads pair c) →
   (∀ ep pair c, leads pair c → net_ready channel_binding_of keypair nonce alias pubkey inbox (ep, c) sources cw d) →
   ∃ ep c, trust = hex_encode (sha256 (cn_certificate c)) ∧
     PinnedTls.signature_ok (native_server_verifier trust) (cn_offer c) = true ∧
     ∃ n final, delivered keypair inbox sources cw final ∧
       ∀ m conf, nsteps step m (mkConf (wan_send trust remote (sources.*1)) cw []
           (handle_native_connection (channel_binding_of (ep, c)) nonce alias pubkey inbox) d []) conf →
         ∃ k, (m + k = n)%nat ∧ nsteps step k conf final) ∧
  ((∀ pair c, ¬ leads pair c) → ∃ e, solo (wan_send trust remote (sources.*1)) cw [] [] (Ret (Err e)) cw []).
Proof.
  intros Hq Hfiles pairs leads.
  pose proof (dial_candidates_correct error_text (dial trust) arrive any_local remote arrive_all) as Hdial.
  fold pairs in Hdial. split.
  - intros (pair & c & Hin & Hr) Hready. destruct (dial_candidates _ _ _ _ _) as [[ep c']|e|] eqn:Hd; [| |done].
    + destruct Hdial as (pair' & Hin' & [_ Hr']%dial_pair_Ok). destruct (pinned_certificate _ _ _ _ _ _ _ Hr') as [Ht Hs].
      exists ep, c'. split_and!; [done..|].
      apply (candidates_transfer_delivers channel_binding_of keypair nonce alias pubkey inbox error_text (dial trust) arrive
        remote (ep, c') sources cw d Hd). by apply (Hready ep pair').
    + destruct Hdial as [Hno _]. destruct (dial_pair_reaches _ _ _ _ _ _ _ Hq Hr) as [ep Hok].
      specialize (Hno pair Hin). unfold dial in Hno. by rewrite Hok in Hno.
  - intros Hno. destruct (dial_candidates _ _ _ _ _) as [[ep c']|e|] eqn:Hd; [| |done].
    + destruct Hdial as (pair' & Hin' & [_ Hr']%dial_pair_Ok). by destruct (Hno pair' c').
    + eexists. unfold wan_send, send_files_to_candidates. eapply solo_quiet; [by apply check_files_runs|].
      fold any_local. rewrite Hd. apply solo_refl.
Qed.
End wan.
