(* ===== verification/Databases.v ===== *)
(** * Opening the databases

    Model of [TrustStore::open], [migrate_schema] and [column_exists] of
    crates/core/src/trust/store.rs over schema.sql, and of
    [ManifestStore::open] and [init_connection] of
    crates/protocol-native-v1/src/manifest.rs over manifest_schema.sql.

    A database is its tables, with the columns they have and the rows, and the
    names of its indexes.  Opening is a program that issues SQL statements one
    at a time; a statement is atomic, and between two of them other openers of
    the same file may issue theirs, so several openers are a step relation
    over the programs they have left and the database they share. *)

From stdpp Require Import prelude gmap strings relations.
From Stdlib Require Import ZArith Lia.
From S2P Require Import Prelude RustStr Errors Fs Identity TrustStore.

Local Open Scope Z_scope.

(** ** Databases and statements *)

Inductive Value := Null | Integer (z : Z) | TextValue (s : rstring) | Blob (b : bytes).
Record Table := mkTable { tb_columns : list rstring; tb_rows : list (list Value) }.
Record Db := mkDb { db_tables : gmap rstring Table; db_indexes : list rstring; db_journal_mode : rstring }.
Definition empty_db : Db := mkDb ∅ [] (str "delete").
Definition set_tables (d : Db) m : Db := mkDb m (db_indexes d) (db_journal_mode d).

Inductive Stmt :=
| JournalMode (mode : rstring)
| ForeignKeysOn
| CreateTableIfNotExists (table : rstring) (columns : list rstring)
| CreateIndexIfNotExists (index table : rstring) (columns : list rstring)
| TableInfo (table : rstring)
| AddColumn (table column : rstring).

Inductive SqlError := NoSuchTable | NoSuchColumn | DuplicateColumn.

(** A statement answers with the names a query returns; a failed one changes
    nothing.  A new column is null in the rows there are. *)
Definition execute (s : Stmt) (d : Db) : result SqlError (list rstring) * Db :=
  match s with
  | JournalMode mode => (Ok [], mkDb (db_tables d) (db_indexes d) mode)
  | ForeignKeysOn => (Ok [], d)
  | CreateTableIfNotExists table columns =>
    (Ok [], match db_tables d !! table with
            | Some _ => d
            | None => set_tables d (<[table := mkTable columns []]> (db_tables d))
            end)
  | CreateIndexIfNotExists index table columns =>
    if bool_decide (index ∈ db_indexes d) then (Ok [], d)
    else match db_tables d !! table with
         | None => (Err NoSuchTable, d)
         | Some t => if bool_decide (Forall (λ c, c ∈ tb_columns t) columns)
                     then (Ok [], mkDb (db_tables d) (index :: db_indexes d) (db_journal_mode d))
                     else (Err NoSuchColumn, d)
         end
  | TableInfo table => (Ok (default [] (tb_columns <$> db_tables d !! table)), d)
  | AddColumn table column =>
    match db_tables d !! table with
    | None => (Err NoSuchTable, d)
    | Some t =>
      if bool_decide (column ∈ tb_columns t) then (Err DuplicateColumn, d)
      else (Ok [], set_tables d (<[table := mkTable (tb_columns t ++ [column]) ((λ r, r ++ [Null]) <$> tb_rows t)]> (db_tables d)))
    end
  end.

(** ** Programs *)

Inductive Sql (A : Type) : Type :=
| Done (a : A)
| Issue (s : Stmt) (k : result SqlError (list rstring) → Sql A).
Arguments Done {A} _.
Arguments Issue {A} _ _.

(** A statement in a function that returns at its first error. *)
Fixpoint sql_bind {E A B} (m : Sql (result E A)) (k : A → Sql (result E B)) : Sql (result E B) :=
  match m with
  | Done (Ok a) => k a
  | Done (Err e) => Done (Err e)
  | Done Panic => Done Panic
  | Issue s c => Issue s (λ r, sql_bind (c r) k)
  end.
Definition run_stmt {E} (error : SqlError → E) (s : Stmt) : Sql (result E (list rstring)) :=
  Issue s (λ r, Done (map_err error r)).
(** [execute_batch] *)
Fixpoint execute_batch {E} (error : SqlError → E) (batch : list Stmt) : Sql (result E unit) :=
  match batch with
  | [] => Done (Ok tt)
  | s :: batch => sql_bind (run_stmt error s) (λ _, execute_batch error batch)
  end.

(** ** The trust database *)

Definition peers_columns : list rstring :=
  str <$> ["fingerprint"; "pubkey"; "label"; "trusted_at"; "last_seen"; "native_certificate_fingerprint"; "policy"]%string.
Definition localsend_peers_columns : list rstring :=
  str <$> ["fingerprint"; "alias"; "label"; "status"; "first_seen"; "last_seen"; "attempt_count"; "source_ip"]%string.
Definition localsend_lan_peers_columns : list rstring :=
  str <$> ["fingerprint"; "alias"; "source_ip"; "port"; "protocol"; "device_model"; "device_type"; "download"; "first_seen"; "last_seen"]%string.

Definition TRUST_SCHEMA : list Stmt :=
  [CreateTableIfNotExists (str "peers") peers_columns;
   CreateIndexIfNotExists (str "idx_peers_last_seen") (str "peers") [str "last_seen"];
   CreateTableIfNotExists (str "localsend_peers") localsend_peers_columns;
   CreateIndexIfNotExists (str "idx_localsend_peers_status_seen") (str "localsend_peers") [str "status"; str "last_seen"];
   CreateTableIfNotExists (str "localsend_lan_peers") localsend_lan_peers_columns;
   CreateIndexIfNotExists (str "idx_localsend_lan_peers_seen") (str "localsend_lan_peers") [str "last_seen"]].

Definition sqlite (_ : SqlError) : CoreError := Sqlite.

(** The loop over the rows of [PRAGMA table_info]. *)
Definition column_exists (table column : rstring) : Sql (result CoreError bool) :=
  sql_bind (run_stmt sqlite (TableInfo table)) (λ names, Done (Ok (existsb (λ name, bool_decide (name = column)) names))).

Definition migrate_schema : Sql (result CoreError unit) :=
  sql_bind (column_exists (str "peers") (str "native_certificate_fingerprint")) (λ exists_,
    if exists_ : bool then Done (Ok tt)
    else sql_bind (run_stmt sqlite (AddColumn (str "peers") (str "native_certificate_fingerprint"))) (λ _, Done (Ok tt))).

(** [connected] is SQLite's answer to opening the file. *)
Definition trust_open (connected : bool) : Sql (result CoreError unit) :=
  if connected then
    sql_bind (run_stmt sqlite (JournalMode (str "wal"))) (λ _,
    sql_bind (run_stmt sqlite ForeignKeysOn) (λ _,
    sql_bind (execute_batch sqlite TRUST_SCHEMA) (λ _, migrate_schema)))
  else Done (Err Sqlite).
Definition trust_open_in_memory (connected : bool) : Sql (result CoreError unit) :=
  if connected then sql_bind (execute_batch sqlite TRUST_SCHEMA) (λ _, migrate_schema) else Done (Err Sqlite).

(** ** The manifest database *)

Definition transfers_columns : list rstring :=
  str <$> ["transfer_id"; "peer_fingerprint"; "direction"; "state"; "created_at"; "updated_at"]%string.
Definition transfer_files_columns : list rstring :=
  str <$> ["transfer_id"; "file_id"; "file_name"; "size"; "blake3"]%string.
Definition verified_chunks_columns : list rstring :=
  str <$> ["transfer_id"; "file_id"; "offset"; "length"; "blake3"]%string.
Definition MANIFEST_SCHEMA : list Stmt :=
  [CreateTableIfNotExists (str "transfers") transfers_columns;
   CreateTableIfNotExists (str "transfer_files") transfer_files_columns;
   CreateTableIfNotExists (str "verified_chunks") verified_chunks_columns].

Section manifest.
(** [error.to_string()] *)
Context (error_text : SqlError → rstring) (connected : bool).
Definition sqlite_error (error : SqlError) : NativeError := Manifest (error_text error).
Definition init_connection : Sql (result NativeError unit) :=
  sql_bind (run_stmt sqlite_error ForeignKeysOn) (λ _, execute_batch sqlite_error MANIFEST_SCHEMA).
(** The directory of the file is made first; the text is that of SQLite when
    the file cannot be opened. *)
Definition manifest_open (t : fs) (p : path) (cannot_open : rstring) : result NativeError fs * Sql (result NativeError unit) :=
  match create_dir_all t (removelast p) with
  | Ok t' => (Ok t', if connected then init_connection else Done (Err (Manifest cannot_open)))
  | Err e => (Err (Io e), Done (Err (Io e)))
  | Panic => (Panic, Done Panic)
  end.
Definition manifest_open_in_memory (cannot_open : rstring) : Sql (result NativeError unit) :=
  if connected then init_connection else Done (Err (Manifest cannot_open)).
End manifest.

(** ** Running *)

(** Alone. *)
Fixpoint sql_run {A} (m : Sql A) (d : Db) : A * Db :=
  match m with
  | Done a => (a, d)
  | Issue s k => let '(r, d') := execute s d in sql_run (k r) d'
  end.

(** Among others: some program issues its next statement. *)
Inductive sql_step {A} : list (Sql A) * Db → list (Sql A) * Db → Prop :=
| sql_step_issue before s k after d r d' :
    execute s d = (r, d') →
    sql_step (before ++ Issue s k :: after, d) (before ++ k r :: after, d').

(** A run in which the given programs step in turn. *)
Fixpoint interleave {A} (schedule : list nat) (c : list (Sql A) * Db) : option (list (Sql A) * Db) :=
  match schedule with
  | [] => Some c
  | i :: schedule =>
    match c.1 !! i with
    | Some (Issue s k) => let '(r, d) := execute s c.2 in interleave schedule (<[i := k r]> c.1, d)
    | _ => None
    end
  end.
Lemma interleave_nsteps {A} schedule (c c' : list (Sql A) * Db) :
  interleave schedule c = Some c' → nsteps sql_step (length schedule) c c'.
Proof.
  revert c. induction schedule as [|i schedule IH]; intros [ms d]; cbn; [intros [= <-]; constructor|].
  destruct (ms !! i) as [[a|s k]|] eqn:Hi; [done| |done]. destruct (execute s d) as [r d1] eqn:He. intros Hs.
  eapply nsteps_l; [|by apply IH]. rewrite <-(take_drop_middle _ _ _ Hi) at 1.
  rewrite insert_take_drop by (by eapply lookup_lt_Some). by constructor.
Qed.

(** ** Reading *)

(** What a row holds under the name of a column. *)
Definition cell (columns : list rstring) (row : list Value) (column : rstring) : Value :=
  default Null ('(i, _) ← list_find (column =.) columns; row !! i).
Definition text_value (v : Value) : option rstring := match v with TextValue s => Some s | _ => None end.
Definition integer_value (v : Value) : option Z := match v with Integer z => Some z | _ => None end.
Definition blob_value (v : Value) : option bytes := match v with Blob b => Some b | _ => None end.
(** [Option<_>]: null is none. *)
Definition nullable {A} (f : Value → option A) (v : Value) : option (option A) :=
  match v with Null => Some None | _ => Some <$> f v end.

(** The rows of [peers] as the queries of the store read them. *)
Definition read_peer (columns : list rstring) (row : list Value) : option (rstring * peer_row) :=
  fingerprint ← text_value (cell columns row (str "fingerprint"));
  pubkey ← blob_value (cell columns row (str "pubkey"));
  label ← text_value (cell columns row (str "label"));
  trusted_at ← integer_value (cell columns row (str "trusted_at"));
  last_seen ← nullable integer_value (cell columns row (str "last_seen"));
  certificate ← nullable text_value (cell columns row (str "native_certificate_fingerprint"));
  policy ← text_value (cell columns row (str "policy"));
  Some (fingerprint, mkPeerRow pubkey label trusted_at last_seen certificate policy).
Definition read_peers (t : Table) : option (list (rstring * peer_row)) := mapM (read_peer (tb_columns t)) (tb_rows t).
Definition full_rows (t : Table) : Prop := Forall (λ r, length r = length (tb_columns t)) (tb_rows t).

(** ** What openers keep *)

(** A table has got columns that are null in the rows it had. *)
Definition table_extends (t t' : Table) : Prop :=
  ∃ new, tb_columns t' = tb_columns t ++ new ∧ tb_rows t' = (λ r, r ++ replicate (length new) Null) <$> tb_rows t.
Definition kept (d d' : Db) : Prop :=
  ∀ name t, db_tables d !! name = Some t → ∃ t', db_tables d' !! name = Some t' ∧ table_extends t t'.

#[export] Instance table_extends_preorder : PreOrder table_extends.
Proof.
  split.
  - intros t. exists []. rewrite app_nil_r. split; [done|]. symmetry. rewrite <-(list_fmap_id (tb_rows t)) at 2.
    apply list_fmap_ext. intros i r _. by rewrite app_nil_r.
  - intros t1 t2 t3 (n1 & Hc1 & Hr1) (n2 & Hc2 & Hr2). exists (n1 ++ n2). split; [by rewrite Hc2, Hc1, app_assoc|].
    rewrite Hr2, Hr1, <-list_fmap_compose. apply list_fmap_ext. intros i r _. cbn.
    by rewrite <-app_assoc, <-replicate_add, length_app.
Qed.
#[export] Instance kept_preorder : PreOrder kept.
Proof.
  split; [intros d name t Ht; by exists t|]. intros d1 d2 d3 H12 H23 name t Ht.
  destruct (H12 _ _ Ht) as (t2 & Ht2 & He2). destruct (H23 _ _ Ht2) as (t3 & Ht3 & He3). exists t3. split; [done|by etrans].
Qed.

(** A table with at least these columns. *)
Definition has (name : rstring) (columns : list rstring) (d : Db) : Prop :=
  ∃ t, db_tables d !! name = Some t ∧ Forall (λ c, c ∈ tb_columns t) columns.
(** The tables there are have at least the columns required of them. *)
Definition known (required : list (rstring * list rstring)) (d : Db) : Prop :=
  Forall (λ '(name, columns), is_Some (db_tables d !! name) → has name columns d) required.

Lemma has_kept name columns d d' : has name columns d → kept d d' → has name columns d'.
Proof.
  intros (t & Ht & Hc) Hk. destruct (Hk _ _ Ht) as (t' & Ht' & new & Hn & _). exists t'. split; [done|].
  eapply Forall_impl; [exact Hc|]. cbn. intros c Hin. rewrite Hn. apply elem_of_app. by left.
Qed.

(** A statement of an opener: a table it makes has what is required. *)
Definition makes (required : list (rstring * list rstring)) (s : Stmt) : Prop :=
  match s with
  | CreateTableIfNotExists table columns =>
    Forall (λ '(name, needed), name = table → Forall (λ c, c ∈ columns) needed) required
  | _ => True
  end.

Lemma execute_kept s d : kept d (execute s d).2.
Proof.
  destruct s as [mode| |table columns|index table columns|table|table column]; cbn [execute];
    try reflexivity.
  - intros name t Ht. by exists t.
  - destruct (db_tables d !! table) eqn:Ht; cbn [snd]; [done|]. intros name t Hn. exists t. split; [|reflexivity].
    cbn. rewrite lookup_insert_ne; [done|]. intros <-. congruence.
  - case_bool_decide; [done|]. destruct (db_tables d !! table); [|done]. case_bool_decide; [|done]. intros name t0 Ht0. by exists t0.
  - destruct (db_tables d !! table) as [t|] eqn:Ht; cbn [snd]; [|done]. case_bool_decide; [done|].
    intros name t0 Ht0. cbn. destruct (decide (name = table)) as [->|Hne].
    + rewrite lookup_insert_eq. eexists. split; [done|]. exists [column]. cbn. by simplify_eq.
    + rewrite lookup_insert_ne by done. by exists t0.
Qed.

Lemma execute_known required s d : makes required s → known required d → known required (execute s d).2.
Proof.
  intros Hm Hk. pose proof (execute_kept s d) as Hkept. unfold known in *. rewrite Forall_forall in *.
  intros [name columns] Hin [t' Ht']. destruct (db_tables d !! name) as [t|] eqn:Ht.
  { apply (has_kept _ _ d); [|done]. apply (Hk _ Hin). by exists t. }
  destruct s as [mode| |table cs|index table cs|table|table column]; cbn in Ht', Hm; try congruence.
  - destruct (db_tables d !! table) eqn:Htab; [congruence|]. cbn in Ht'. cbn [execute]. rewrite Htab. cbn [snd].
    destruct (decide (name = table)) as [->|Hne]; [|rewrite lookup_insert_ne in Ht'; congruence].
    rewrite Forall_forall in Hm. exists (mkTable cs []). split; [by apply lookup_insert_eq|]. by apply (Hm _ Hin).
  - revert Ht'. case_bool_decide; [cbn; congruence|]. destruct (db_tables d !! table); [|cbn; congruence]. case_bool_decide; cbn; congruence.
  - revert Ht'. destruct (db_tables d !! table) as [t|] eqn:Htab; [|cbn; congruence]. case_bool_decide; cbn; [congruence|].
    rewrite lookup_insert_ne; congruence.
Qed.

(** ** Openers among others

    What a program achieves whatever the others do in between, [rely] being
    what every statement of every opener keeps. *)
Section interleaving.
Context {A : Type} (required : list (list (rstring * list rstring))).

Definition rely (d d' : Db) : Prop := kept d d' ∧ Forall (λ r, known r d → known r d') required.
Definition opening (s : Stmt) : Prop := Forall (λ r, makes r s) required.

#[export] Instance rely_preorder : PreOrder rely.
Proof.
  split.
  - intros d. split; [done|]. apply Forall_forall. auto.
  - intros d1 d2 d3 [? H12] [? H23]. split; [by etrans|]. rewrite Forall_forall in *. auto.
Qed.
Lemma execute_rely s d : opening s → rely d (execute s d).2.
Proof.
  intros Ho. split; [apply execute_kept|]. unfold opening in Ho. rewrite Forall_forall in *. intros r Hr. by apply execute_known, Ho.
Qed.
Lemma rely_known r d d' : r ∈ required → rely d d' → known r d → known r d'.
Proof. intros Hr [_ H]. rewrite Forall_forall in H. by apply H. Qed.

Fixpoint secures {B} (Q : Db → B → Prop) (m : Sql B) (d : Db) : Prop :=
  match m with
  | Done a => ∀ d', rely d d' → Q d' a
  | Issue s k => opening s ∧ ∀ d', rely d d' → secures Q (k (execute s d').1) (execute s d').2
  end.

Lemma secures_rely {B} (Q : Db → B → Prop) m d d' : secures Q m d → rely d d' → secures Q m d'.
Proof.
  destruct m as [a|s k]; cbn; [intros HQ Hr d2 H2; apply HQ; by etrans|].
  intros [Ho Hk] Hr. split; [done|]. intros d2 H2. apply Hk. by etrans.
Qed.

Lemma secures_bind {E B C} (Q : Db → result E C → Prop) (m : Sql (result E B)) (k : B → Sql (result E C)) d :
  secures (λ d r, match r with
                  | Ok b => secures Q (k b) d
                  | Err e => ∀ d', rely d d' → Q d' (Err e)
                  | Panic => ∀ d', rely d d' → Q d' Panic
                  end) m d → secures Q (sql_bind m k) d.
Proof.
  revert d. induction m as [r|s c IH]; intros d; cbn.
  - intros H. specialize (H d (reflexivity d)). by destruct r.
  - intros [Ho Hk]. split; [done|]. intros d' Hd'. by apply IH, Hk.
Qed.
Lemma secures_stmt {E} (Q : Db → result E (list rstring) → Prop) error s d :
  opening s → (∀ d1 d2, rely d d1 → rely (execute s d1).2 d2 → Q d2 (map_err error (execute s d1).1)) →
  secures Q (run_stmt error s) d.
Proof. intros Ho HQ. cbn. split; [done|]. intros d1 H1 d2 H2. by apply HQ. Qed.

(** A batch makes every table it indexes, by columns that are required. *)
Fixpoint batch_ok (r : list (rstring * list rstring)) (present : list rstring) (batch : list Stmt) : bool :=
  match batch with
  | [] => true
  | CreateTableIfNotExists table _ :: batch => batch_ok r (table :: present) batch
  | CreateIndexIfNotExists _ table columns :: batch =>
    bool_decide (table ∈ present) &&
    existsb (λ '(name, needed), bool_decide (name = table) && bool_decide (Forall (λ c, c ∈ needed) columns)) r &&
    batch_ok r present batch
  | _ => false
  end.
Fixpoint made (batch : list Stmt) : list rstring :=
  match batch with
  | [] => []
  | CreateTableIfNotExists table _ :: batch => table :: made batch
  | _ :: batch => made batch
  end.

Lemma present_kept present d d' :
  Forall (λ n, is_Some (db_tables d !! n)) present → kept d d' → Forall (λ n, is_Some (db_tables d' !! n)) present.
Proof.
  intros Hp Hk. eapply Forall_impl; [exact Hp|]. cbn. intros n [t Ht]. destruct (Hk _ _ Ht) as (t' & Ht' & _). by exists t'.
Qed.

Lemma secures_batch {E} r (Q : Db → result E unit → Prop) error batch present d :
  r ∈ required → batch_ok r present batch = true → Forall opening batch →
  known r d → Forall (λ n, is_Some (db_tables d !! n)) present →
  (∀ d', rely d d' → Forall (λ n, is_Some (db_tables d' !! n)) (made batch ++ present) → Q d' (Ok tt)) →
  secures Q (execute_batch error batch) d.
Proof.
  intros Hr. revert present d. induction batch as [|s batch IH]; intros present d Hb Hop Hk Hp HQ.
  { cbn. intros d' Hd. apply HQ; [done|]. eapply present_kept; [exact Hp|apply Hd]. }
  apply Forall_cons in Hop as [Ho Hop]. apply secures_bind, secures_stmt; [done|]. intros d1 d2 H1 H2.
  pose proof (execute_rely s d1 Ho) as H12. assert (Hd : rely d d2) by (by do 2 (etrans; [eassumption|])).
  assert (Hp2 : Forall (λ n, is_Some (db_tables d2 !! n)) present) by (eapply present_kept; [exact Hp|apply Hd]).
  assert (Hk2 : known r d2) by (by eapply rely_known).
  destruct s as [mode| |table columns|index table columns|table|table column]; cbn [batch_ok] in Hb; try done.
  - cbn [execute fst map_err]. apply (IH (table :: present)); [done..| |].
    + constructor; [|done]. cbn [execute snd] in H2. destruct (db_tables d1 !! table) as [t|] eqn:Ht.
      * destruct (proj1 H2 _ _ Ht) as (t' & Ht' & _). by exists t'.
      * destruct (proj1 H2 table (mkTable columns [])) as (t' & Ht' & _); [apply lookup_insert_eq|]. by exists t'.
    + intros d' Hd' Hm. apply HQ; [by etrans|]. cbn [made].
      apply Forall_app in Hm as [Hm [Ht Hpr]%Forall_cons]. apply Forall_app. split; [by constructor|done].
  - apply andb_true_iff in Hb as [[Hin Hex]%andb_true_iff Hb]. bools.
    assert (Hok : is_ok (execute (CreateIndexIfNotExists index table columns) d1).1 = true).
    { cbn [execute]. case_bool_decide; [done|]. assert (Hp1 : Forall (λ n, is_Some (db_tables d1 !! n)) present) by (eapply present_kept; [exact Hp|apply H1]).
      rewrite Forall_forall in Hp1. specialize (Hp1 _ Hin). pose proof Hp1 as [t Ht]. rewrite Ht.
      rewrite bool_decide_true; [done|]. apply existsb_exists in Hex as ([name needed] & Hn & Hneed). bools. subst name.
      assert (Hk1 : known r d1) by (by eapply rely_known). unfold known in Hk1. rewrite Forall_forall in Hk1.
      apply list_elem_of_In in Hn. destruct (Hk1 _ Hn Hp1) as (t0 & Ht0 & Hc). rewrite Ht in Ht0. simplify_eq.
      rewrite !Forall_forall in *. auto. }
    destruct (execute _ d1).1; [|done..]. cbn [map_err]. apply (IH present); [done..|]. intros d' Hd'. apply HQ. by etrans.
Qed.

Lemma sql_steps_secure (Q : Db → A → Prop) ms d ms' d' :
  rtc sql_step (ms, d) (ms', d') → Forall (λ m, secures Q m d) ms → rely d d' ∧ Forall (λ m, secures Q m d') ms'.
Proof.
  intros Hrtc. remember (ms, d) as c eqn:Hc. remember (ms', d') as c' eqn:Hc'. revert ms d Hc.
  induction Hrtc as [|c c1 c' Hstep _ IH]; intros ms d -> Hms.
  { simplify_eq. split; [reflexivity|done]. }
  inversion Hstep as [before s k after d0 r d1 He Heq1 Heq2]; subst. simplify_eq.
  apply Forall_app in Hms as [Hb [Hi Ha]%Forall_cons]. cbn in Hi. destruct Hi as [Ho Hk].
  specialize (Hk d (reflexivity d)). pose proof (execute_rely s d Ho) as Hr. rewrite He in Hk, Hr. cbn in Hk, Hr.
  destruct (IH eq_refl _ _ eq_refl) as [Hr' Hms'].
  { apply Forall_app. split; [|constructor; [done|]]; (eapply Forall_impl; [eassumption|]; cbn; intros m Hm; by eapply secures_rely). }
  split; [by etrans|done].
Qed.
End interleaving.

#[export] Instance opening_dec required (s : Stmt) : Decision (opening required s).
Proof.
  unfold opening. apply Forall_dec. intros r. destruct s; apply _.
Defined.

(** ** The trust database among several openers *)

Definition old_trust : list (rstring * list rstring) :=
  [(str "peers", filter (λ c, c ≠ str "native_certificate_fingerprint") peers_columns);
   (str "localsend_peers", localsend_peers_columns); (str "localsend_lan_peers", localsend_lan_peers_columns)].
Definition full_trust : list (rstring * list rstring) :=
  [(str "peers", peers_columns); (str "localsend_peers", localsend_peers_columns);
   (str "localsend_lan_peers", localsend_lan_peers_columns)].
Definition all_of (schema : list (rstring * list rstring)) (d : Db) : Prop := Forall (λ '(name, columns), has name columns d) schema.

Abbreviation trust_rely := (rely [old_trust; full_trust]).
Abbreviation trust_opening := (opening [old_trust; full_trust]).

Lemma full_is_old d : known full_trust d → known old_trust d.
Proof.
  unfold known, full_trust, old_trust. rewrite !Forall_cons. intros (Hp & Hl & Hn & _). split_and!; [|done|done|constructor].
  intros Hs. destruct (Hp Hs) as (t & Ht & Hc). exists t. split; [done|]. rewrite Forall_forall in *.
  intros c [_ Hin]%list_elem_of_filter. auto.
Qed.


Definition certificate : rstring := str "native_certificate_fingerprint".

Lemma all_full d t :
  known old_trust d → Forall (λ n, is_Some (db_tables d !! n)) (fst <$> old_trust) →
  db_tables d !! str "peers" = Some t → certificate ∈ tb_columns t → all_of full_trust d.
Proof.
  unfold known, all_of, full_trust, old_trust. cbn [fmap list_fmap fst]. rewrite !Forall_cons. intros (Hp & Hl & Hn & _) (Hp' & Hl' & Hn' & _) Ht Hcert.
  split_and!; [|auto..|constructor]. exists t. split; [done|]. destruct (Hp Hp') as (t0 & Ht0 & Hc). rewrite Ht in Ht0. simplify_eq.
  rewrite Forall_forall in *. intros c Hin. destruct (decide (c = certificate)) as [->|Hne]; [done|].
  apply Hc, list_elem_of_filter. done.
Qed.

Lemma migrate_secures d0 d :
  known old_trust d0 → trust_rely d0 d → Forall (λ n, is_Some (db_tables d !! n)) (fst <$> old_trust) →
  secures [old_trust; full_trust] (λ d r, all_of full_trust d ∧ (r = Ok tt ∨ r = Err Sqlite ∧ ¬ known full_trust d0))
    migrate_schema d.
Proof.
  intros Hk0 Hd0 Hp. set (Q := λ (d : Db) (r : result CoreError unit), _).
  assert (Hfin : ∀ d1 d2 t, trust_rely d d1 → trust_rely d1 d2 → db_tables d1 !! str "peers" = Some t →
    certificate ∈ tb_columns t → all_of full_trust d2).
  { intros d1 d2 t H1 H2 Ht Hc. destruct (proj1 H2 _ _ Ht) as (t2 & Ht2 & new & Hnew & _).
    eapply all_full; [|eapply present_kept; [exact Hp|transitivity d1; [apply H1|apply H2]]|exact Ht2|].
    - eapply rely_known; [|etrans; [exact Hd0|etrans; [exact H1|exact H2]]|done]. left.
    - rewrite Hnew. apply elem_of_app. by left. }
  unfold migrate_schema, column_exists. do 2 apply secures_bind. apply secures_stmt; [apply (bool_decide_unpack _); by vm_compute|].
  intros d1 d2 H1 H2. cbn [execute fst snd map_err] in *.
  assert (Hpeers : is_Some (db_tables d1 !! str "peers")).
  { pose proof (present_kept _ _ _ Hp (proj1 H1)) as Hp1. by apply Forall_cons in Hp1 as [? _]. }
  destruct Hpeers as [t Ht]. rewrite Ht. cbn [fmap option_fmap option_map default].
  intros d3 H3. destruct (existsb _ _) eqn:He.
  - apply existsb_exists in He as (c & Hin & Hc). bools. subst c. apply list_elem_of_In in Hin.
    cbn. intros d4 H4. split; [|by left]. eapply (Hfin d1); [done| |done|done]. etrans; [exact H2|etrans; [exact H3|exact H4]].
  - assert (Hno : certificate ∉ tb_columns t).
    { intros Hin. apply not_true_iff_false in He. apply He, existsb_exists. exists certificate. split; [by apply list_elem_of_In|].
      by apply bool_decide_eq_true. }
    apply secures_bind, secures_stmt; [apply (bool_decide_unpack _); by vm_compute|]. intros d4 d5 H4 H5.
    assert (H14 : trust_rely d1 d4) by (etrans; [exact H2|etrans; [exact H3|exact H4]]).
    destruct (proj1 H14 _ _ Ht) as (t4 & Ht4 & _). cbn [execute] in *. rewrite Ht4 in *.
    case_bool_decide as Hin4; cbn [fst snd map_err] in *.
    + intros d6 H6. split.
      * eapply (Hfin d4); [by etrans| |done|done]. by etrans.
      * right. split; [done|]. intros Hfull. apply Hno.
        assert (Hf1 : known full_trust d1) by (eapply rely_known; [right; left|etrans; [exact Hd0|exact H1]|done]).
        apply Forall_cons in Hf1 as [Hf1 _]. destruct (Hf1 ltac:(by exists t)) as (t' & Ht' & Hc). rewrite Ht in Ht'. simplify_eq.
        rewrite Forall_forall in Hc. apply Hc. by apply (bool_decide_unpack _).
    + cbn. intros d6 H6. split; [|by left]. set (dA := set_tables _ _) in *.
      eapply (Hfin dA); [|etrans; [exact H5|exact H6]|apply lookup_insert_eq|apply elem_of_app; right; left].
      etrans; [exact H1|]. etrans; [exact H14|].
      pose proof (execute_rely [old_trust; full_trust] (AddColumn (str "peers") certificate) d4) as Hr.
      cbn [execute] in Hr. rewrite Ht4, bool_decide_false in Hr by done. apply Hr. by apply (bool_decide_unpack _).
Qed.

Lemma trust_open_secures d :
  known old_trust d →
  secures [old_trust; full_trust] (λ d' r, all_of full_trust d' ∧ (r = Ok tt ∨ r = Err Sqlite ∧ ¬ known full_trust d))
    (trust_open true) d.
Proof.
  intros Hk. unfold trust_open.
  apply secures_bind, secures_stmt; [apply (bool_decide_unpack _); by vm_compute|]. intros d1 d2 H1 H2. cbn [execute fst map_err].
  apply secures_bind, secures_stmt; [apply (bool_decide_unpack _); by vm_compute|]. intros d3 d4 H3 H4. cbn [execute fst map_err].
  assert (Hd : trust_rely d d4).
  { etrans; [exact H1|]. etrans; [apply (execute_rely _ (JournalMode (str "wal"))); apply (bool_decide_unpack _); by vm_compute|].
    etrans; [exact H2|]. etrans; [exact H3|exact H4]. }
  apply secures_bind, (secures_batch _ old_trust) with (present := []); [left|by vm_compute| | |constructor|].
  - apply (bool_decide_unpack _). by vm_compute.
  - eapply rely_known; [left|exact Hd|done].
  - intros d5 H5 Hp. apply migrate_secures; [done|by etrans|]. cbn [made TRUST_SCHEMA app] in Hp. exact Hp.
Qed.

(** *** Every opener ends *)

Fixpoint within {A} (n : nat) (m : Sql A) {struct m} : Prop :=
  match m with
  | Done _ => True
  | Issue _ k => match n with O => False | S n => ∀ r, within n (k r) end
  end.

Lemma within_mono {A} n n' (m : Sql A) : within n m → (n ≤ n')%nat → within n' m.
Proof.
  revert n n'. induction m as [a|s k IH]; intros n n' Hm Hle; [done|]. destruct n as [|n]; [done|]. destruct n' as [|n']; [lia|].
  cbn in *. intros r. eapply IH; [apply Hm|lia].
Qed.
Lemma within_bind {E A B} n1 n2 (m : Sql (result E A)) (k : A → Sql (result E B)) :
  within n1 m → (∀ a, within n2 (k a)) → within (n1 + n2) (sql_bind m k).
Proof.
  revert n1. induction m as [r|s c IH]; intros n1 Hm Hk.
  - destruct r as [a|e|]; [|done..]. cbn [sql_bind]. eapply within_mono; [apply Hk|lia].
  - destruct n1 as [|n1]; [done|]. cbn in *. intros r. by apply IH.
Qed.
Lemma within_batch {E} (error : SqlError → E) batch : within (length batch) (execute_batch error batch).
Proof. induction batch as [|s batch IH]; [done|]. cbn [execute_batch]. by apply (within_bind 1 (length batch)). Qed.
Lemma trust_open_within : within 10 (trust_open true).
Proof.
  unfold trust_open. apply (within_bind 1 9); [done|]. intros _. apply (within_bind 1 8); [done|]. intros _.
  apply (within_bind 6 2); [exact (within_batch sqlite TRUST_SCHEMA)|]. intros _. unfold migrate_schema, column_exists.
  apply (within_bind 1 1); [by apply (within_bind 1 0)|]. intros []; [done|]. by apply (within_bind 1 0).
Qed.

(** Statements that may still be issued. *)
Definition unfinished {A} (bound : nat) (ms : list (Sql A)) : Prop := ∃ ns, Forall2 within ns ms ∧ (sum_list ns ≤ bound)%nat.
Lemma sql_step_unfinished {A} bound (ms ms' : list (Sql A)) d d' :
  sql_step (ms, d) (ms', d') → unfinished bound ms → ∃ bound', bound = S bound' ∧ unfinished bound' ms'.
Proof.
  intros Hstep (ns & Hns & Hsum). inversion Hstep as [before s k after d0 r d1 He]; subst.
  apply Forall2_app_inv_r in Hns as (nb & nr & Hb & Hr & ->). apply Forall2_cons_inv_r in Hr as (n & na & Hn & Ha & ->).
  destruct n as [|n]; [done|]. rewrite sum_list_with_app in Hsum. cbn in Hsum. destruct bound as [|bound]; [lia|].
  exists bound. split; [done|]. exists (nb ++ n :: na). split; [apply Forall2_app; [done|]; constructor; [apply Hn|done]|].
  rewrite sum_list_with_app. cbn. lia.
Qed.
Lemma sql_steps_bounded {A} bound (ms : list (Sql A)) d k c :
  unfinished bound ms → nsteps sql_step k (ms, d) c → (k ≤ bound)%nat.
Proof.
  intros Hu Hk. remember (ms, d) as c0 eqn:Hc. revert bound ms d Hc Hu.
  induction Hk as [|k c0 [ms1 d1] c' Hs Hk IH]; intros bound ms d -> Hu; [lia|].
  destruct (sql_step_unfinished _ _ _ _ _ Hs Hu) as (b & -> & Hb). specialize (IH _ _ _ eq_refl Hb). lia.
Qed.

Lemma column_cell columns row new c :
  length row = length columns → cell (columns ++ new) (row ++ replicate (length new) Null) c = cell columns row c.
Proof.
  intros Hlen. unfold cell. destruct (list_find (c =.) columns) as [[i x]|] eqn:Hf.
  - rewrite (list_find_app_l _ _ _ _ _ Hf). cbn. apply list_find_Some in Hf as (Hi%lookup_lt_Some & _). by rewrite lookup_app_l by lia.
  - rewrite (list_find_app_r _ _ _ Hf). destruct (list_find (c =.) new) as [[i x]|]; cbn; [|done].
    rewrite lookup_app_r by lia. destruct (replicate (length new) Null !! _) as [v|] eqn:Hv; [|done]. by apply lookup_replicate in Hv as [-> _].
Qed.

(** Columns that are null in every row do not change what is read. *)
Lemma read_peers_extends t t' : full_rows t → table_extends t t' → read_peers t' = read_peers t.
Proof.
  intros Hf (new & Hc & Hr). unfold read_peers. rewrite Hc, Hr. apply option_eq. intros rows.
  rewrite !mapM_Some, Forall2_fmap_l. unfold full_rows in Hf.
  assert (Heq : Forall (λ r, read_peer (tb_columns t ++ new) (r ++ replicate (length new) Null) = read_peer (tb_columns t) r) (tb_rows t)).
  { eapply Forall_impl; [exact Hf|]. cbn. intros r Hl. unfold read_peer. by rewrite !column_cell. }
  clear -Heq. revert rows. induction Heq as [|r rs Hr _ IH]; intros rows.
  - split; by intros ->%Forall2_nil_inv_l.
  - split; inversion 1; subst; constructor; [unfold compose in *; congruence|by apply IH|congruence|by apply IH].
Qed.


(** A step is left as long as an opener is not done. *)
Lemma openers_progress {A} (ms : list (Sql A)) d :
  (∃ s k, Issue s k ∈ ms) → ∃ c, sql_step (ms, d) c.
Proof.
  intros (s & k & (before & after & ->)%list_elem_of_split). destruct (execute s d) as [r d1] eqn:He. eexists. by constructor.
Qed.

(** *** One opener alone *)

Lemma sql_run_bind {E A B} (m : Sql (result E A)) (k : A → Sql (result E B)) d :
  sql_run (sql_bind m k) d =
    let '(r, d') := sql_run m d in
    match r with Ok a => sql_run (k a) d' | Err e => (Err e, d') | Panic => (Panic, d') end.
Proof.
  revert d. induction m as [r|s c IH]; intros d; [by destruct r|]. cbn. destruct (execute s d) as [r d']. apply IH.
Qed.
Lemma secures_run required {A} (Q : Db → A → Prop) m d : secures required Q m d → Q (sql_run m d).2 (sql_run m d).1.
Proof.
  revert d. induction m as [a|s k IH]; intros d; cbn [secures sql_run]; [intros H; by apply H|].
  intros [_ H]. specialize (H d (reflexivity d)). destruct (execute s d) as [r d']. by apply IH.
Qed.

Lemma sql_run_kept {A} (m : Sql A) d : kept d (sql_run m d).2.
Proof.
  revert d. induction m as [a|s k IH]; intros d; cbn [sql_run]; [reflexivity|]. pose proof (execute_kept s d) as Hs.
  destruct (execute s d) as [r d']. etrans; [exact Hs|apply IH].
Qed.

(** An opener that is alone succeeds on a database of any version. *)
Theorem opens_alone d :
  known old_trust d → ∃ d', sql_run (trust_open true) d = (Ok tt, d') ∧ kept d d' ∧ all_of full_trust d'.
Proof.
  intros Hk. pose proof (trust_open_secures d Hk) as Hs. apply secures_run in Hs as [Hall Hr].
  destruct (sql_run (trust_open true) d) as [r d'] eqn:He. cbn [fst snd] in *. exists d'.
  pose proof (sql_run_kept (trust_open true) d) as Hkept. rewrite He in Hkept.
  destruct Hr as [->|[-> Hold]]; [by split_and!|]. exfalso. clear Hall Hold Hkept.
  unfold trust_open in He. rewrite !sql_run_bind in He. cbn [run_stmt sql_run execute map_err] in He.
  set (d1 := mkDb _ _ _) in He. rewrite sql_run_bind in He. cbn [run_stmt sql_run execute map_err] in He.
  rewrite sql_run_bind in He.
  assert (Hb : secures [old_trust; full_trust] (λ d' r, r = Ok tt ∧ Forall (λ n, is_Some (db_tables d' !! n)) (fst <$> old_trust))
    (execute_batch sqlite TRUST_SCHEMA) d1).
  { apply (secures_batch _ old_trust) with (present := []); [left|by vm_compute| |exact Hk|constructor|].
    - apply (bool_decide_unpack _). by vm_compute.
    - intros d2 H2 Hp. split; [done|]. cbn [made TRUST_SCHEMA app] in Hp. exact Hp. }
  apply secures_run in Hb as [Hr Hp]. destruct (sql_run (execute_batch _ _) d1) as [r2 d2]. cbn [fst snd] in Hr, Hp. subst r2.
  unfold migrate_schema, column_exists in He. rewrite !sql_run_bind in He. cbn [run_stmt sql_run execute map_err] in He.
  apply Forall_cons in Hp as [[t Ht] _]. cbn [fst] in Ht. rewrite Ht in He. cbn [fmap option_fmap option_map default] in He.
  destruct (existsb _ _) eqn:Hex; [done|]. rewrite sql_run_bind in He. cbn [run_stmt sql_run execute map_err] in He. rewrite Ht in He.
  rewrite bool_decide_false in He; [done|]. intros Hin. apply not_true_iff_false in Hex. apply Hex, existsb_exists.
  exists certificate. split; [by apply list_elem_of_In|]. by apply bool_decide_eq_true.
Qed.

(** The manifest database has its tables once it is open, and a transfer that
    was interrupted is still in it. *)
Definition manifest_tables : list (rstring * list rstring) :=
  [(str "transfers", transfers_columns); (str "transfer_files", transfer_files_columns);
   (str "verified_chunks", verified_chunks_columns)].
Theorem manifest_opens error_text d :
  known manifest_tables d → ∃ d', sql_run (init_connection error_text) d = (Ok tt, d') ∧ kept d d' ∧ all_of manifest_tables d'.
Proof.
  intros Hk. pose proof (sql_run_kept (init_connection error_text) d) as Hkept. revert Hkept.
  unfold init_connection. rewrite sql_run_bind. cbn [run_stmt sql_run execute map_err].
  assert (Hb : secures [manifest_tables] (λ d' r, r = Ok tt ∧ known manifest_tables d' ∧ Forall (λ n, is_Some (db_tables d' !! n)) (fst <$> manifest_tables))
    (execute_batch (sqlite_error error_text) MANIFEST_SCHEMA) d).
  { apply (secures_batch _ manifest_tables) with (present := []); [left|by vm_compute| |exact Hk|constructor|].
    - apply (bool_decide_unpack _). by vm_compute.
    - intros d2 H2 Hp. split_and!; [done|eapply rely_known; [left|exact H2|done]|]. cbn [made MANIFEST_SCHEMA app] in Hp. exact Hp. }
  apply secures_run in Hb as (Hr & Hk2 & Hp). destruct (sql_run (execute_batch _ _) d) as [r d2]. cbn [fst snd] in *. subst r.
  intros Hkept. exists d2. split_and!; [done..|]. unfold known, all_of in *. rewrite Forall_forall in *. intros [n cs] Hin.
  apply (Hk2 _ Hin). rewrite Forall_forall in Hp. apply Hp. apply list_elem_of_fmap. by exists (n, cs).
Qed.
