(* ===== verification/Config.v ===== *)
(** * Configuration

    Model of crates/core/src/config.rs and of what crates/daemon makes of it at
    start-up ([load_daemon_config], [localsend_receive_policy] and the defaults of the
    command line in main.rs,
    [DaemonState::from_args_with_metrics] of state.rs).

    The toml crate is a parameter: it turns the text into the tables below, in
    which a key may be absent; the defaults of absent keys and the validation
    are the program's. *)

From stdpp Require Import prelude gmap strings.
From Stdlib Require Import ZArith Lia.
From S2P Require Import Prelude RustStr Errors Fs Inet Text LocalSession LocalServer.

Local Open Scope Z_scope.

(** ** Data *)

Inductive HookConfig :=
| Webhook (url secret : rstring) (max_attempts : Z)
| Exec (command : rstring) (timeout_seconds : Z).
Record MetricsConfig := mkMetrics { mc_enabled : bool; mc_host : rstring; mc_port : Z }.
Record LoggingConfig := mkLogging { lc_format : rstring; lc_level : rstring }.
Record WanConfig := mkWan {
  wc_enabled : bool; wc_rendezvous_url : option rstring; wc_register_interval_seconds : Z;
  wc_stun_servers : list rstring }.
Record LocalSendConfig := mkLsConfig {
  sc_receive_policy : rstring; sc_inbox_dir : option rstring; sc_trusted_fingerprints : list rstring;
  sc_trusted_fingerprints_file : option rstring }.
Record AppConfig := mkAppConfig {
  ac_hooks : list HookConfig; ac_metrics : MetricsConfig; ac_logging : LoggingConfig; ac_wan : WanConfig;
  ac_localsend : LocalSendConfig }.

#[export] Instance AppConfig_eq_dec : EqDecision AppConfig.
Proof.
  assert (EqDecision HookConfig) by solve_decision. assert (EqDecision MetricsConfig) by solve_decision.
  assert (EqDecision LoggingConfig) by solve_decision. assert (EqDecision WanConfig) by solve_decision.
  assert (EqDecision LocalSendConfig) by solve_decision. solve_decision.
Defined.

(** ** Tables of the file *)

Inductive raw_hook :=
| RawWebhook (url secret : rstring) (max_attempts : option Z)
| RawExec (command : rstring) (timeout_seconds : option Z).
Record raw_metrics := mkRawMetrics { rm_enabled : option bool; rm_host : option rstring; rm_port : option Z }.
Record raw_logging := mkRawLogging { rl_format : option rstring; rl_level : option rstring }.
Record raw_wan := mkRawWan {
  rw_enabled : option bool; rw_rendezvous_url : option rstring; rw_register_interval_seconds : option Z;
  rw_stun_servers : option (list rstring) }.
Record raw_localsend := mkRawLs {
  rs_receive_policy : option rstring; rs_inbox_dir : option rstring; rs_trusted_fingerprints : option (list rstring);
  rs_trusted_fingerprints_file : option rstring }.
Record raw_config := mkRaw {
  rc_hooks : option (list raw_hook); rc_metrics : option raw_metrics; rc_logging : option raw_logging;
  rc_wan : option raw_wan; rc_localsend : option raw_localsend }.

Class Toml := toml_from_str : rstring → rstring + raw_config.

(** ** Defaults *)

Definition default_webhook_max_attempts : Z := 3.
Definition default_exec_timeout_seconds : Z := 10.
Definition default_metrics_host : rstring := str "127.0.0.1".
Definition default_metrics_port : Z := 53502.
Definition default_logging_format : rstring := str "json".
Definition default_logging_level : rstring := str "info".
Definition default_wan_register_interval_seconds : Z := 60.
Definition default_localsend_receive_policy : rstring := str "prompt".

Definition default_metrics : MetricsConfig := mkMetrics false default_metrics_host default_metrics_port.
Definition default_logging : LoggingConfig := mkLogging default_logging_format default_logging_level.
Definition default_wan : WanConfig := mkWan false None default_wan_register_interval_seconds [].
Definition default_localsend : LocalSendConfig := mkLsConfig default_localsend_receive_policy None [] None.
Definition default_config : AppConfig :=
  mkAppConfig [] default_metrics default_logging default_wan default_localsend.

(** What serde's derived code does with absent keys. *)
Definition hook_of (h : raw_hook) : HookConfig :=
  match h with
  | RawWebhook url secret max_attempts => Webhook url secret (default default_webhook_max_attempts max_attempts)
  | RawExec command timeout_seconds => Exec command (default default_exec_timeout_seconds timeout_seconds)
  end.
Definition metrics_of (m : raw_metrics) : MetricsConfig :=
  mkMetrics (default false (rm_enabled m)) (default default_metrics_host (rm_host m))
    (default default_metrics_port (rm_port m)).
Definition logging_of (l : raw_logging) : LoggingConfig :=
  mkLogging (default default_logging_format (rl_format l)) (default default_logging_level (rl_level l)).
Definition wan_of (w : raw_wan) : WanConfig :=
  mkWan (default false (rw_enabled w)) (rw_rendezvous_url w)
    (default default_wan_register_interval_seconds (rw_register_interval_seconds w))
    (default [] (rw_stun_servers w)).
Definition localsend_of (l : raw_localsend) : LocalSendConfig :=
  mkLsConfig (default default_localsend_receive_policy (rs_receive_policy l)) (rs_inbox_dir l)
    (default [] (rs_trusted_fingerprints l)) (rs_trusted_fingerprints_file l).
Definition deserialize (r : raw_config) : AppConfig :=
  mkAppConfig (hook_of <$> default [] (rc_hooks r)) (default default_metrics (metrics_of <$> rc_metrics r))
    (default default_logging (logging_of <$> rc_logging r)) (default default_wan (wan_of <$> rc_wan r))
    (default default_localsend (localsend_of <$> rc_localsend r)).

(** ** Validation *)

Definition require_nonblank (name : string) (value : rstring) : result CoreError unit :=
  ensure (negb (is_blank value)) (Config (str name ++ str " is required")).

(** [if let Some(value) = value { require_nonblank(name, value)? }] *)
Definition require_nonblank_opt (name : string) (value : option rstring) : result CoreError unit :=
  match value with Some value => require_nonblank name value | None => Ok tt end.

Definition validate_hook (h : HookConfig) : result CoreError unit :=
  match h with
  | Webhook url secret max_attempts =>
    _ ← require_nonblank "webhook url" url;
    _ ← require_nonblank "webhook secret" secret;
    ensure (negb (max_attempts =? 0)) (Config (str "webhook max_attempts must be greater than zero"))
  | Exec command timeout_seconds =>
    _ ← require_nonblank "exec command" command;
    ensure (negb (timeout_seconds =? 0)) (Config (str "exec timeout_seconds must be greater than zero"))
  end.

Definition validate_metrics (m : MetricsConfig) : result CoreError unit :=
  require_nonblank "metrics host" (mc_host m).

Definition validate_logging (l : LoggingConfig) : result CoreError unit :=
  _ ← require_nonblank "logging level" (lc_level l);
  ensure (bool_decide (lc_format l ∈ [str "json"; str "pretty"; str "compact"]))
    (Config (str "unsupported logging format " ++ lc_format l ++ str "; expected json, pretty, or compact")).

Definition validate_wan (w : WanConfig) : result CoreError unit :=
  _ ← if wc_enabled w then
        match wc_rendezvous_url w with
        | Some url => require_nonblank "rendezvous_url" url
        | None => Err (Config (str "rendezvous_url is required"))
        end
      else Ok tt;
  _ ← require_nonblank_opt "rendezvous_url" (wc_rendezvous_url w);
  _ ← ensure (negb (wc_register_interval_seconds w =? 0))
        (Config (str "wan register_interval_seconds must be greater than zero"));
  for_each (λ _ stun_server, require_nonblank "stun server" stun_server) tt (wc_stun_servers w).

Definition validate_localsend (l : LocalSendConfig) : result CoreError unit :=
  _ ← ensure (bool_decide (sc_receive_policy l ∈ [str "prompt"; str "trusted"; str "auto"]))
        (Config (str "unsupported localsend receive_policy " ++ sc_receive_policy l ++
                 str "; expected prompt, trusted, or auto"));
  _ ← require_nonblank_opt "localsend inbox_dir" (sc_inbox_dir l);
  _ ← for_each (λ _ fingerprint, require_nonblank "trusted LocalSend fingerprint" fingerprint) tt
        (sc_trusted_fingerprints l);
  require_nonblank_opt "trusted LocalSend fingerprints file" (sc_trusted_fingerprints_file l).

Definition validate (c : AppConfig) : result CoreError unit :=
  _ ← for_each (λ _ hook, validate_hook hook) tt (ac_hooks c);
  _ ← validate_metrics (ac_metrics c);
  _ ← validate_logging (ac_logging c);
  _ ← validate_wan (ac_wan c);
  validate_localsend (ac_localsend c).

(** ** Loading *)

Section loading.
Context `{Toml}.

Definition load_config (t : fs) (p : path) : result CoreError AppConfig :=
  contents ← map_err CoreIo (read_file t p);
  text ← ok_or (utf8_decode contents) (CoreIo OtherIo);
  raw ← match toml_from_str text with inl error => Err (Config error) | inr raw => Ok raw end;
  let config := deserialize raw in
  _ ← validate config;
  Ok config.

Definition load_config_or_default (t : fs) (p : path) : result CoreError AppConfig :=
  match load_config t p with
  | Err (CoreIo NotFound) => Ok default_config
  | r => r
  end.
End loading.

(** ** Start-up of the daemon *)

(** The command line, as far as the configuration and the state depend on it. *)
Record Args := mkArgs {
  arg_trust_db : option path; arg_localsend_port : Z; arg_alias : rstring; arg_inbox : option path;
  arg_localsend_receive_policy : option LocalSendReceivePolicy; arg_trusted_localsend_fingerprint : list rstring;
  arg_native_port : Z; arg_config : option path; arg_rendezvous : option rstring }.

Definition DEFAULT_LOCALSEND_PORT : Z := 53317.
Definition DEFAULT_NATIVE_PORT : Z := 53400.
Definition DEFAULT_API_GRPC_PORT : Z := 53500.
Definition DEFAULT_API_HTTP_PORT : Z := 53501.
Definition DEFAULT_ALIAS : rstring := str "night-bridge".

(** [env_var] reads the environment; a value that is not Unicode is none. *)
Definition default_alias (env_var : string → option rstring) : rstring :=
  let alias := match env_var "HOSTNAME" with Some alias => Some alias | None => env_var "COMPUTERNAME" end in
  match trim <$> alias with
  | Some alias => if bool_decide (alias = []) then DEFAULT_ALIAS else alias
  | None => DEFAULT_ALIAS
  end.
(** What an empty command line is read as. *)
Definition default_args (env_var : string → option rstring) : Args :=
  mkArgs None DEFAULT_LOCALSEND_PORT (default_alias env_var) None None [] DEFAULT_NATIVE_PORT None None.

(** The directories of the user's account ([paths] of crates/core). *)
Record Paths := mkPaths { p_config_dir : path; p_trust_db_file : path; p_default_inbox : path }.

Definition config_path (paths : Paths) (args : Args) : path :=
  default (p_config_dir paths ++ [str "config.toml"]) (arg_config args).

Definition load_daemon_config `{Toml} (paths : Paths) (t : fs) (args : Args) : result CoreError AppConfig :=
  config ← load_config_or_default t (config_path paths args);
  match arg_rendezvous args with
  | Some url =>
    let wan := ac_wan config in
    let config := mkAppConfig (ac_hooks config) (ac_metrics config) (ac_logging config)
      (mkWan true (Some url) (wc_register_interval_seconds wan) (wc_stun_servers wan)) (ac_localsend config) in
    _ ← validate config;
    Ok config
  | None => Ok config
  end.

Definition localsend_receive_policy (args_policy : option LocalSendReceivePolicy) (config : LocalSendConfig) :
    result rstring LocalSendReceivePolicy :=
  match args_policy with
  | Some policy => Ok policy
  | None =>
    if bool_decide (sc_receive_policy config = str "prompt") then Ok RpPrompt
    else if bool_decide (sc_receive_policy config = str "trusted") then Ok RpTrusted
    else if bool_decide (sc_receive_policy config = str "auto") then Ok RpAuto
    else Err (str "unsupported LocalSend receive policy " ++ sc_receive_policy config)
  end.

(** [PathBuf::from] *)
Definition path_from (s : rstring) : path := filter (λ c, c ≠ []) (split_on 47 s).

(** The daemon's state that does not change while it runs. *)
Record DaemonState := mkDaemonState {
  ds_alias : rstring; ds_identity : bytes; ds_fingerprint : rstring; ds_trust_db_path : path; ds_inbox_dir : path;
  ds_localsend_port : Z; ds_localsend_receive_policy : LocalSendReceivePolicy;
  ds_trusted_localsend_fingerprints : gset rstring; ds_trusted_localsend_fingerprints_file : option path;
  ds_native_port : Z; ds_api_token : rstring; ds_config : AppConfig; ds_metrics : option rstring }.

(** [expect] on an unsupported policy panics. *)
Definition from_args_with_metrics (paths : Paths) (args : Args) (identity : bytes) (fingerprint api_token : rstring)
    (config : AppConfig) (metrics : option rstring) : result rstring DaemonState :=
  match localsend_receive_policy (arg_localsend_receive_policy args) (ac_localsend config) with
  | Ok policy =>
    Ok (mkDaemonState (arg_alias args) identity fingerprint (default (p_trust_db_file paths) (arg_trust_db args))
      (match arg_inbox args with
       | Some inbox => inbox
       | None => match sc_inbox_dir (ac_localsend config) with
                 | Some dir => path_from dir
                 | None => p_default_inbox paths
                 end
       end)
      (arg_localsend_port args) policy
      (list_to_set (sc_trusted_fingerprints (ac_localsend config) ++ arg_trusted_localsend_fingerprint args))
      (path_from <$> sc_trusted_fingerprints_file (ac_localsend config))
      (arg_native_port args) api_token config metrics)
  | _ => Panic
  end.

(** ** Correctness *)

Definition hook_ok (h : HookConfig) : Prop :=
  match h with
  | Webhook url secret max_attempts => is_blank url = false ∧ is_blank secret = false ∧ max_attempts ≠ 0
  | Exec command timeout_seconds => is_blank command = false ∧ timeout_seconds ≠ 0
  end.

(** What the rest of the daemon may rely on. *)
Record config_ok (c : AppConfig) : Prop := {
  ok_hooks : Forall hook_ok (ac_hooks c);
  ok_metrics : is_blank (mc_host (ac_metrics c)) = false;
  ok_level : is_blank (lc_level (ac_logging c)) = false;
  ok_format : lc_format (ac_logging c) ∈ [str "json"; str "pretty"; str "compact"];
  ok_enabled : wc_enabled (ac_wan c) = true → is_Some (wc_rendezvous_url (ac_wan c));
  ok_url url : wc_rendezvous_url (ac_wan c) = Some url → is_blank url = false;
  ok_interval : wc_register_interval_seconds (ac_wan c) ≠ 0;
  ok_stun : Forall (λ s, is_blank s = false) (wc_stun_servers (ac_wan c));
  ok_policy : sc_receive_policy (ac_localsend c) ∈ [str "prompt"; str "trusted"; str "auto"];
  ok_inbox d : sc_inbox_dir (ac_localsend c) = Some d → is_blank d = false;
  ok_fingerprints : Forall (λ s, is_blank s = false) (sc_trusted_fingerprints (ac_localsend c));
  ok_file f : sc_trusted_fingerprints_file (ac_localsend c) = Some f → is_blank f = false
}.

Lemma require_nonblank_Ok name s : require_nonblank name s = Ok tt ↔ is_blank s = false.
Proof. unfold require_nonblank. by rewrite ensure_Ok_inv, negb_true_iff. Qed.

Lemma require_nonblank_opt_Ok name o : require_nonblank_opt name o = Ok tt ↔ ∀ s, o = Some s → is_blank s = false.
Proof.
  destruct o as [s|]; cbn [require_nonblank_opt]; [|by split; [intros _ s|]].
  rewrite require_nonblank_Ok. split; [by intros ? ? [= <-]|eauto].
Qed.

Lemma for_each_unit_Ok {E A} (f : A → result E unit) l : for_each (λ _ a, f a) tt l = Ok tt ↔ Forall (λ a, f a = Ok tt) l.
Proof.
  induction l as [|a l IH]; cbn [for_each]; [by split|]. rewrite Forall_cons, <-IH, bind_Ok_inv.
  split; [by intros ([] & ? & ?)|]. intros [? ?]. by exists tt.
Qed.

Lemma bind_unit_Ok {E} (m : result E unit) (k : unit → result E unit) : m ≫= k = Ok tt ↔ m = Ok tt ∧ k tt = Ok tt.
Proof. rewrite bind_Ok_inv. split; [by intros ([] & ? & ?)|]. intros [? ?]. by exists tt. Qed.

Lemma validate_hook_Ok h : validate_hook h = Ok tt ↔ hook_ok h.
Proof.
  destruct h; cbn [validate_hook hook_ok]; rewrite !bind_unit_Ok, !require_nonblank_Ok, ensure_Ok_inv, negb_true_iff, Z.eqb_neq; done.
Qed.

Lemma validate_wan_Ok w :
  validate_wan w = Ok tt ↔
  (wc_enabled w = true → is_Some (wc_rendezvous_url w)) ∧
  (∀ url, wc_rendezvous_url w = Some url → is_blank url = false) ∧
  wc_register_interval_seconds w ≠ 0 ∧ Forall (λ s, is_blank s = false) (wc_stun_servers w).
Proof.
  unfold validate_wan. rewrite !bind_unit_Ok, require_nonblank_opt_Ok, ensure_Ok_inv, negb_true_iff, Z.eqb_neq, for_each_unit_Ok.
  setoid_rewrite require_nonblank_Ok. destruct (wc_enabled w), (wc_rendezvous_url w) as [url|]; cbn.
  - rewrite require_nonblank_Ok. naive_solver.
  - split; [by intros [? _]|]. intros [[? ?] _]; done.
  - naive_solver.
  - naive_solver.
Qed.

Lemma validate_localsend_Ok l :
  validate_localsend l = Ok tt ↔
  sc_receive_policy l ∈ [str "prompt"; str "trusted"; str "auto"] ∧
  (∀ d, sc_inbox_dir l = Some d → is_blank d = false) ∧
  Forall (λ s, is_blank s = false) (sc_trusted_fingerprints l) ∧
  (∀ f, sc_trusted_fingerprints_file l = Some f → is_blank f = false).
Proof.
  unfold validate_localsend. rewrite !bind_unit_Ok, !require_nonblank_opt_Ok, ensure_Ok_inv, bool_decide_eq_true, for_each_unit_Ok.
  setoid_rewrite require_nonblank_Ok. done.
Qed.

Lemma validate_Ok c : validate c = Ok tt ↔ config_ok c.
Proof.
  unfold validate, validate_metrics, validate_logging.
  rewrite !bind_unit_Ok, for_each_unit_Ok, !require_nonblank_Ok, ensure_Ok_inv, bool_decide_eq_true, validate_wan_Ok,
    validate_localsend_Ok.
  setoid_rewrite validate_hook_Ok. split.
  - intros (? & ? & (? & ?) & (? & ? & ? & ?) & (? & ? & ? & ?)). by split.
  - intros []. by split_and!.
Qed.

Lemma validate_no_panic c : validate c ≠ Panic.
Proof.
  assert (Hl : ∀ {A} (f : A → result CoreError unit) l, (∀ a, f a ≠ Panic) → for_each (λ _ a, f a) tt l ≠ Panic).
  { intros A f l Hf. induction l as [|a l IH]; cbn [for_each]; [done|]. apply bind_no_panic; [done|]. by intros [] _. }
  unfold validate, validate_metrics, validate_logging, validate_wan, validate_localsend, require_nonblank_opt, require_nonblank.
  repeat first [apply ensure_no_panic | apply bind_no_panic; [|intros ? _] | apply Hl; intros ?
    | progress unfold validate_hook, require_nonblank | case_match | done].
Qed.

Lemma default_config_ok : config_ok default_config.
Proof. apply validate_Ok. by vm_compute. Qed.

Section startup.
Context `{Toml}.

Lemma load_config_or_default_spec t p :
  match load_config_or_default t p with
  | Ok c => config_ok c
  | Err _ => is_Some (t !! resolve p)
  | Panic => False
  end.
Proof.
  unfold load_config_or_default, load_config, read_file.
  destruct (t !! resolve p) as [[b|]|]; cbn [map_err mbind result_bind]; [|by eauto|apply default_config_ok].
  destruct (utf8_decode b) as [text|]; cbn [ok_or mbind result_bind]; [|by eauto].
  destruct (toml_from_str text) as [e|raw]; cbn [mbind result_bind]; [by eauto|].
  pose proof (validate_no_panic (deserialize raw)) as Hnp.
  destruct (validate (deserialize raw)) as [[]|e|] eqn:Hv; cbn [mbind result_bind]; [by apply validate_Ok| |done].
  destruct e as [[]| | | | |]; (by eauto) || apply default_config_ok.
Qed.

(** The configuration with the rendezvous server of the command line. *)
Lemma override_ok c url :
  config_ok c → is_blank url = false →
  config_ok (mkAppConfig (ac_hooks c) (ac_metrics c) (ac_logging c)
    (mkWan true (Some url) (wc_register_interval_seconds (ac_wan c)) (wc_stun_servers (ac_wan c))) (ac_localsend c)).
Proof. intros [] Hu. split; cbn; try done. by intros ? [= <-]. Qed.

Lemma policy_total args_policy l :
  sc_receive_policy l ∈ [str "prompt"; str "trusted"; str "auto"] →
  ∃ p, localsend_receive_policy args_policy l = Ok p ∧ (∀ q, args_policy = Some q → p = q).
Proof.
  intros Hp. unfold localsend_receive_policy. destruct args_policy as [q|]; [eexists; split; [done|by intros ? [= <-]]|].
  rewrite !elem_of_cons, elem_of_nil in Hp.
  destruct Hp as [->|[->|[->|[]]]]; eexists; (split; [by vm_compute|done]).
Qed.

Lemma state_total paths args identity fingerprint token c metrics :
  config_ok c → ∃ st,
    from_args_with_metrics paths args identity fingerprint token c metrics = Ok st ∧ ds_config st = c ∧
    ∀ p, arg_localsend_receive_policy args = Some p → ds_localsend_receive_policy st = p.
Proof.
  intros Hc. unfold from_args_with_metrics.
  destruct (policy_total (arg_localsend_receive_policy args) _ (ok_policy _ Hc)) as (p & -> & Hp). eauto.
Qed.

(** C26: the daemon runs on valid configurations only: whatever the file holds,
    loading does not panic and a configuration it returns satisfies every
    constraint, with the command line's rendezvous server enabled; the state
    is then built without panicking, its receive policy being the command
    line's if given.  Without a file the daemon starts with the defaults, and
    only a blank rendezvous URL on the command line stops it. *)
Theorem daemon_config_valid paths t args :
  match load_daemon_config paths t args with
  | Ok c =>
    config_ok c ∧
    (∀ url, arg_rendezvous args = Some url → wc_enabled (ac_wan c) = true ∧ wc_rendezvous_url (ac_wan c) = Some url) ∧
    (∀ identity fingerprint token metrics, ∃ st,
       from_args_with_metrics paths args identity fingerprint token c metrics = Ok st ∧ ds_config st = c ∧
       ∀ p, arg_localsend_receive_policy args = Some p → ds_localsend_receive_policy st = p)
  | Err _ => is_Some (t !! resolve (config_path paths args)) ∨
             ∃ url, arg_rendezvous args = Some url ∧ is_blank url = true
  | Panic => False
  end.
Proof.
  unfold load_daemon_config. pose proof (load_config_or_default_spec t (config_path paths args)) as Hl.
  destruct (load_config_or_default t (config_path paths args)) as [c|e|]; cbn [mbind result_bind]; [|by left|done].
  destruct (arg_rendezvous args) as [url|] eqn:Hurl.
  - set (c' := mkAppConfig _ _ _ _ _). pose proof (validate_no_panic c') as Hnp.
    destruct (is_blank url) eqn:Hb.
    + destruct (validate c') as [[]|e|] eqn:Hv; [|right; by exists url|done].
      apply validate_Ok in Hv. pose proof (ok_url _ Hv url eq_refl). congruence.
    + assert (Hok : config_ok c') by (by apply override_ok). rewrite (proj2 (validate_Ok c') Hok).
      cbn [mbind result_bind]. split_and!; [done|by intros ? [= <-]|]. intros. by apply state_total.
  - split_and!; [done|done|]. intros. by apply state_total.
Qed.
End startup.
