(* ===== verification/AppDirs.v ===== *)
(** * Directories of the user's account

    Model of crates/core/src/paths.rs.  The directories crate is a parameter:
    what it answers depends on the platform and the environment variables of
    the process; [DirectoriesLaws] is what its documentation says. *)

From stdpp Require Import prelude gmap strings.
From Stdlib Require Import ZArith Lia.
From S2P Require Import Prelude RustStr Fs Text LocalSession LocalServer Config.

Local Open Scope Z_scope.

Definition APP_DIR_NAME : rstring := str "night-bridge".

Inductive Platform := Linux | MacOs.
Abbreviation environment := (gmap rstring rstring).

Record ProjectDirs := mkProjectDirs { pd_config_dir : path; pd_data_dir : path }.

(** [ProjectDirs::from(qualifier, organization, application)], and the
    download directory of [UserDirs::new()]. *)
Class Directories := {
  project_dirs : Platform → environment → rstring → rstring → rstring → option ProjectDirs;
  download_dir : Platform → environment → option (option path) }.

(** Whether a path is absolute is whether its text starts with a slash. *)
Definition absolute (s : rstring) : bool := bool_decide (head s = Some 47).

(** A name that is used as it is: without spaces and capitals. *)
Definition plain_name (s : rstring) : Prop := Forall (λ c, 97 ≤ c ≤ 122 ∨ c = 45) s.

Class DirectoriesLaws `{Directories} : Prop := {
  linux_dirs environment home config data qualifier organization application :
    environment !! str "HOME" = Some home → environment !! str "XDG_CONFIG_HOME" = Some config →
    environment !! str "XDG_DATA_HOME" = Some data →
    absolute home = true → absolute config = true → absolute data = true → plain_name application →
    project_dirs Linux environment qualifier organization application =
      Some (mkProjectDirs (path_from config ++ [application]) (path_from data ++ [application]));
  macos_dirs environment home qualifier organization application :
    environment !! str "HOME" = Some home → absolute home = true →
    plain_name qualifier → plain_name organization → plain_name application →
    project_dirs MacOs environment qualifier organization application =
      let dir := path_from home ++ [str "Library"; str "Application Support";
                   qualifier ++ str "." ++ organization ++ str "." ++ application] in
      Some (mkProjectDirs dir dir) }.

Section paths.
Context `{Directories} (platform : Platform) (env : environment).

Definition app_dirs : option ProjectDirs := project_dirs platform env (str "dev") (str "nightbridge") APP_DIR_NAME.

Definition config_dir : path :=
  match app_dirs with Some dirs => pd_config_dir dirs | None => [str "etc"; APP_DIR_NAME] end.
Definition state_dir : path :=
  match app_dirs with Some dirs => pd_data_dir dirs | None => [str "var"; str "lib"; APP_DIR_NAME] end.
Definition default_inbox : path :=
  match download_dir platform env with
  | Some (Some downloads) => downloads ++ [APP_DIR_NAME]
  | _ =>
    match app_dirs with
    | Some dirs => pd_data_dir dirs ++ [str "inbox"]
    | None => [str "var"; str "lib"; APP_DIR_NAME; str "inbox"]
    end
  end.
Definition identity_file : path := config_dir ++ [str "identity.key"].
Definition api_token_file : path := config_dir ++ [str "api.token"].
Definition trust_db_file : path := state_dir ++ [str "trust.db"].

(** What the daemon uses of them. *)
Definition daemon_paths : Paths := mkPaths config_dir trust_db_file default_inbox.
End paths.
