(* ===== verification/DaemonApi.v ===== *)
(** * Operations of the daemon's API

    Model of what the HTTP and gRPC APIs of crates/daemon do: the event bus
    (events.rs), sending files (api/transfers.rs), scanning the network for
    LocalSend peers (localsend_lan.rs) and listing the inbox (api/inbox.rs).

    The world is the file system, the trust database, the events emitted so
    far, and a log of the transfers that were started on the network.  What
    the network answers to a request is its environment [Env]: the events of
    an mDNS browser, the answers to the probes and the order in which they
    arrive, the rendezvous answer, whether an HTTP client could be made, and
    how each outgoing transfer ends (the transfers themselves are the subject
    of NativeNet.v and LocalClient.v).  The trust database opens.  Where the
    source renders another error, a path or a name into the message of a
    status, the model keeps the fixed part of the message. *)

From stdpp Require Import prelude gmap strings.
From Stdlib Require Import ZArith Lia.
From S2P Require Import Prelude RustStr Errors Dto Fs Transfer Inet Text Identity TrustStore Discovery Candidates Conversation NativeNet NativeLan Rendezvous Wan LocalSession LocalServer Config.

Local Open Scope Z_scope.

(** ** Events (events.rs) *)

Inductive DaemonEvent :=
| TransferStarted (transfer_id : rstring)
| TransferProgress (transfer_id : rstring) (bytes_done bytes_total : Z)
| TransferCompleted (transfer_id : rstring)
| TransferFailed (transfer_id code message : rstring)
| InboxChanged
| PeerSeen (alias address : rstring) (port : Z).

Record DaemonEventEnvelope := mkEnvelope {
  ev_event_id : rstring; ev_occurred_at_unix_seconds : Z; ev_event : DaemonEvent }.

(** ** gRPC status *)

Inductive Code :=
| InvalidArgument | NotFoundCode | PermissionDenied | FailedPrecondition | Unauthenticated | Unimplemented | Internal.

Record Status := mkStatus { st_code : Code; st_message : rstring }.

#[export] Instance Code_eq_dec : EqDecision Code.
Proof. solve_decision. Defined.
#[export] Instance Status_eq_dec : EqDecision Status.
Proof. solve_decision. Defined.

(** [format!("{:?}", code)] *)
Definition code_name (c : Code) : rstring :=
  str match c with
      | InvalidArgument => "InvalidArgument" | NotFoundCode => "NotFound" | PermissionDenied => "PermissionDenied"
      | FailedPrecondition => "FailedPrecondition" | Unauthenticated => "Unauthenticated"
      | Unimplemented => "Unimplemented" | Internal => "Internal"
      end.

Definition internal_status (message : string) : Status := mkStatus Internal (str message).
Definition refuse (code : Code) (message : string) : Status := mkStatus code (str message).

(** ** The world of the API *)

(** A transfer started on the network, with the certificate it was pinned to. *)
Inductive Outgoing :=
| ToLocalSend (url : rstring) (pin : option rstring) (paths : list path)
| ToNative (url : rstring) (paths : list path) (pin : rstring)
| ToCandidates (candidates : list NativeCandidate) (paths : list path) (pin : rstring).

#[export] Instance NativeCandidate_eq_dec : EqDecision NativeCandidate.
Proof. assert (EqDecision CandidateKind) by solve_decision. solve_decision. Defined.
#[export] Instance Outgoing_eq_dec : EqDecision Outgoing.
Proof. solve_decision. Defined.

Record ApiWorld := mkApi {
  a_fs : fs; a_trust : TrustStore; a_events : list DaemonEventEnvelope; a_next_id : Z; a_uuid : nat;
  a_sent : list Outgoing }.

Definition set_trust (w : ApiWorld) (s : TrustStore) : ApiWorld :=
  mkApi (a_fs w) s (a_events w) (a_next_id w) (a_uuid w) (a_sent w).

(** [GET /api/localsend/v2/info] *)
Record InfoResponse := mkInfo {
  in_alias : rstring; in_device_model : option rstring; in_device_type : option rstring; in_fingerprint : rstring;
  in_port : option Z; in_protocol : option rstring; in_download : option bool }.

Record Env := mkEnv {
  e_now : Z;
  e_browse : result NativeError (list (Z * ServiceEvent)); e_deadline : Z;
  e_local_ipv4 : option (Z * Z * Z * Z);
  e_probe_info : string → (Z * Z * Z * Z) → option InfoResponse;
  e_probe_order : list (Z * Z * Z * Z) → list (Z * Z * Z * Z);
  e_lookup : bytes → result rstring LookupResponse;
  e_client : option rstring;  (* an error of making the HTTP client *)
  e_send : Outgoing → option rstring (* an error of the transfer *) }.

Abbreviation AM := (SE ApiWorld Status).

(** The counter is an [AtomicU64]: it wraps around. *)
Definition emit (env : Env) (event : DaemonEvent) : AM unit := modify (λ w,
  mkApi (a_fs w) (a_trust w) (a_events w ++ [mkEnvelope (show_dec (a_next_id w)) (e_now env) event])
    (add_u64 (a_next_id w) 1) (a_uuid w) (a_sent w)).

(** A transfer started on the network. *)
Definition outgoing (env : Env) (o : Outgoing) : AM unit := λ w,
  (match e_send env o with Some error => Err (mkStatus Internal error) | None => Ok tt end,
   mkApi (a_fs w) (a_trust w) (a_events w) (a_next_id w) (a_uuid w) (a_sent w ++ [o])).

(** [store.f().map_err(...)], for a call that only reads. *)
Definition store_read {A} (f : TrustStore → result CoreError A) (message : string) : AM A := λ w,
  (map_err (λ _, internal_status message) (f (a_trust w)), w).

(** ** Scanning for LocalSend peers (localsend_lan.rs) *)

Definition LOCALSEND_PORT : Z := 53317.

Definition probe_candidate (env : Env) (ip : Z * Z * Z * Z) : option LocalSendLanPeer :=
  '(info, protocol) ←
    match e_probe_info env "https" ip with
    | Some info => Some (info, str "https")
    | None => info ← e_probe_info env "http" ip; Some (info, str "http")
    end;
  let '(a, b, c, d) := ip in
  Some (mkLanPeer (in_fingerprint info) (in_alias info) (show_ipv4 a b c d) (default LOCALSEND_PORT (in_port info))
          (default protocol (in_protocol info)) (in_device_model info) (in_device_type info)
          (default true (in_download info)) 0 0).

(** The hosts of the /24 network, without the daemon's own address. *)
Definition scan_candidates (local_ip : Z * Z * Z * Z) : list (Z * Z * Z * Z) :=
  let '(a, b, c, _) := local_ip in
  filter (λ ip, ip ≠ local_ip) ((λ host, (a, b, c, host)) <$> seqZ 1 254).

Section api.
Context `{HashOrder} `{CryptoSuite} `{Lowercase} `{Uuid} (error_text : CoreError → rstring).

(** The loop over the finished probes: records each peer that answered. *)
Fixpoint record_discovered (now : Z) (found : list LocalSendLanPeer) (store : TrustStore) :
    list LocalSendLanPeer * TrustStore :=
  match found with
  | [] => ([], store)
  | peer :: found =>
    match record_localsend_lan_peer store now peer with
    | Ok (recorded, store') =>
      let '(discovered, store'') := record_discovered now found store' in (recorded :: discovered, store'')
    | _ => let '(discovered, store'') := record_discovered now found store in (peer :: discovered, store'')
    end
  end.

(** [*existing = peer] for the first entry with the fingerprint, or a push. *)
Fixpoint merge_peer (peers : list LocalSendLanPeer) (peer : LocalSendLanPeer) : list LocalSendLanPeer :=
  match peers with
  | [] => [peer]
  | existing :: peers =>
    if bool_decide (lan_fingerprint existing = lan_fingerprint peer) then peer :: peers
    else existing :: merge_peer peers peer
  end.

Definition scan_and_cache (env : Env) : AM (list LocalSendLanPeer) := λ w,
  match e_local_ipv4 env with
  | None => (Err (internal_status "failed to determine local IPv4 address"), w)
  | Some local_ip =>
    match e_client env with
    | Some error => (Err (mkStatus Internal error), w)
    | None =>
      let found := omap (probe_candidate env) (e_probe_order env (scan_candidates local_ip)) in
      let '(discovered, store) := record_discovered (e_now env) found (a_trust w) in
      (map_err (λ _, internal_status "listing LocalSend peers")
         (peers ← list_localsend_lan_peers store; Ok (foldl merge_peer peers discovered)),
       set_trust w store)
    end
  end.

(** ** Sending files (api/transfers.rs) *)

Inductive Target :=
| LocalsendUrl (url : rstring)
| NativeUrl (url : rstring)
| PeerFingerprint (peer : rstring)
| WanPeer (fingerprint : rstring).

Record SendRequest := mkSendRequest { sr_paths : list rstring; sr_target : option Target; sr_native : bool }.

(** Body of the loop of [validated_paths]. *)
Fixpoint validate_each (paths : list rstring) : AM (list path) :=
  match paths with
  | [] => mret []
  | p :: paths =>
    let p := path_from p in
    exists_ ← gets (λ w, path_exists (a_fs w) p);
    _ ← lift (ensure exists_ (refuse InvalidArgument "file does not exist"));
    file ← gets (λ w, is_file (a_fs w) p);
    _ ← lift (ensure file (refuse InvalidArgument "not a file"));
    validated ← validate_each paths;
    mret (p :: validated)
  end.
Definition validated_paths (paths : list rstring) : AM (list path) :=
  _ ← lift (ensure (negb (bool_decide (paths = []))) (refuse InvalidArgument "at least one file path is required"));
  validate_each paths.

Definition native_wan_certificate_fingerprint (peer : Peer) : result Status rstring :=
  match pr_policy peer with
  | Block => Err (refuse PermissionDenied "trusted peer is blocked")
  | Prompt => Err (refuse PermissionDenied "trusted peer requires prompt before native WAN send")
  | AutoAccept =>
    ok_or (pr_native_certificate_fingerprint peer)
      (refuse FailedPrecondition "trusted peer is missing native certificate metadata; re-pair or refresh trust")
  end.

(** [value.parse::<Fingerprint>().map_err(|error| Status::invalid_argument(..))] *)
Definition parse_or_refuse (value : rstring) (message : string) : result Status bytes :=
  map_err (λ _, refuse InvalidArgument message) (parse_fingerprint value).

Definition native_lan_url (peer : NativeLanPeer) : rstring :=
  str "quic://" ++ show_ip (nl_address peer) ++ 58 :: show_dec (nl_port peer).

Definition send_files_to_native_lan_peer (env : Env) (st : DaemonState) (peer_ref : rstring) (paths : list path) : AM unit :=
  peers ← lift (map_err (λ _, internal_status "native discovery")
                  (discover error_text (e_deadline env) (e_browse env) (ds_fingerprint st)));
  peer ← lift (map_err (λ _, refuse NotFoundCode "native peer") (resolve_peer_ref peers peer_ref));
  fingerprint ← lift (parse_or_refuse (nl_fingerprint peer) "invalid native peer fingerprint");
  found ← store_read (λ s, get s fingerprint) "failed to read trusted peer";
  trusted ← lift (ok_or found (refuse PermissionDenied "native peer is not trusted"));
  expected ← lift (native_wan_certificate_fingerprint trusted);
  advertised ← lift (ok_or (nl_native_certificate_fingerprint peer)
                       (refuse FailedPrecondition "native peer did not advertise certificate metadata"));
  _ ← lift (ensure (bool_decide (advertised = expected))
              (refuse PermissionDenied "native peer certificate fingerprint mismatch"));
  outgoing env (ToNative (native_lan_url peer) paths expected).

Definition normalize_localsend_peer_ref (value : rstring) : rstring :=
  filter (λ ch, ch ≠ 58 ∧ ch ≠ 45) value ≫= char_to_lowercase.

Definition localsend_peer_matches (peer_ref : rstring) (peer : LocalSendLanPeer) : bool :=
  bool_decide (normalize_localsend_peer_ref (lan_fingerprint peer) = normalize_localsend_peer_ref peer_ref)
  || eq_ignore_ascii_case (lan_alias peer) peer_ref.

Definition resolve_localsend_lan_peer (env : Env) (peer_ref : rstring) : AM LocalSendLanPeer :=
  if bool_decide (normalize_localsend_peer_ref peer_ref = []) then
    fail (refuse InvalidArgument "LocalSend peer is required")
  else
    peers ← scan_and_cache env;
    match filter (λ peer, localsend_peer_matches peer_ref peer = true) peers with
    | [] => fail (refuse NotFoundCode "LocalSend LAN peer was not discovered")
    | [peer] => mret peer
    | _ => fail (refuse FailedPrecondition "LocalSend LAN peer is ambiguous; use its fingerprint")
    end.

(** [LocalSendClient::new] and [LocalSendClient::pinned] *)
Definition localsend_client (env : Env) : AM unit :=
  match e_client env with Some error => fail (mkStatus Internal error) | None => mret tt end.

Definition send_files_to_localsend_lan_peer (env : Env) (peer_ref : rstring) (paths : list path) : AM unit :=
  peer ← resolve_localsend_lan_peer env peer_ref;
  let url := lan_protocol peer ++ str "://" ++ lan_source_ip peer ++ 58 :: show_dec (lan_port peer) in
  _ ← localsend_client env;
  outgoing env (ToLocalSend url (Some (lan_fingerprint peer)) paths).

Definition send_files_to_wan_peer (env : Env) (st : DaemonState) (fingerprint : rstring) (paths : list path) : AM unit :=
  let wan := ac_wan (ds_config st) in
  _ ← lift (ensure (wc_enabled wan && bool_decide (is_Some (wc_rendezvous_url wan)))
              (refuse FailedPrecondition "WAN rendezvous is not configured"));
  fingerprint ← lift (parse_or_refuse fingerprint "invalid WAN peer fingerprint");
  found ← store_read (λ s, get s fingerprint) "failed to read trusted peer";
  peer ← lift (ok_or found (refuse NotFoundCode "trusted peer not found"));
  expected ← lift (native_wan_certificate_fingerprint peer);
  candidates ← lift (map_err (mkStatus Internal) (lookup_peer_candidates (e_lookup env (pr_pubkey peer))));
  outgoing env (ToCandidates candidates paths expected).

Definition send_to_target (env : Env) (st : DaemonState) (native : bool) (target : Target) (paths : list path) : AM unit :=
  match target with
  | LocalsendUrl url => outgoing env (ToLocalSend url None paths)
  | NativeUrl _ => fail (refuse FailedPrecondition "native URL sends require pinned certificate metadata")
  | PeerFingerprint peer =>
    if native then send_files_to_native_lan_peer env st peer paths
    else send_files_to_localsend_lan_peer env peer paths
  | WanPeer fingerprint => send_files_to_wan_peer env st fingerprint paths
  end.

(** [match result { Ok(()) => ..., Err(status) => ... }]: the last event. *)
Definition report (env : Env) (transfer_id : rstring) (m : AM unit) : AM rstring := λ w,
  match m w with
  | (Ok _, w') => (_ ← emit env (TransferCompleted transfer_id); mret transfer_id) w'
  | (Err status, w') =>
    (_ ← emit env (TransferFailed transfer_id (code_name (st_code status)) (st_message status)); fail status) w'
  | (Panic, w') => (Panic, w')
  end.

(** The [?] on [LocalSendClient::new] leaves the function, not the match. *)
Definition send_files (env : Env) (st : DaemonState) (request : SendRequest) : AM rstring :=
  paths ← validated_paths (sr_paths request);
  target ← lift (ok_or (sr_target request) (refuse InvalidArgument "send target is required"));
  transfer_id ← (λ w, (Ok (new_v4 (a_uuid w)),
                       mkApi (a_fs w) (a_trust w) (a_events w) (a_next_id w) (S (a_uuid w)) (a_sent w)));
  _ ← emit env (TransferStarted transfer_id);
  _ ← match target with LocalsendUrl _ => localsend_client env | _ => mret tt end;
  report env transfer_id (send_to_target env st (sr_native request) target paths).

(** ** The inbox (api/inbox.rs) *)

Record InboxEntry := mkInboxEntry { ie_file_name : rstring; ie_path : path; ie_size : Z }.

(** [s.ends_with(suffix)] *)
Definition ends_with (s suffix : rstring) : bool := bool_decide (is_Some (strip_suffix suffix s)).

(** The files of a directory, listed in the order of the map of the tree. *)
Definition list_inbox_entries (t : fs) (inbox_dir : path) : result io_error (list InboxEntry) :=
  if negb (path_exists t inbox_dir) then Ok []
  else
    let dir := resolve inbox_dir in
    match t !! dir with
    | Some (File _) => Err NotADirectory
    | _ =>
      Ok (stable_sort (λ a b, lex_leb (ie_file_name a) (ie_file_name b))
        (omap (λ '(p, n),
          match n with
          | File b =>
            if bool_decide (removelast p = dir ∧ p ≠ []) then
              name ← last p;
              if ends_with name (str ".incoming") then None
              else Some (mkInboxEntry name p (zlen b))
            else None
          | Dir => None
          end) (map_to_list t)))
    end.
End api.

(** ** Sending: one attempt, and what it is pinned to *)

Section sending.
Context `{HashOrderLaws} `{CryptoLaws} `{LowercaseLaws} `{Uuid} (error_text : CoreError → rstring).
Context (env : Env) (st : DaemonState).

(** Nothing but the trust database and the log of transfers changes. *)
Definition quiet (w w' : ApiWorld) : Prop :=
  a_fs w' = a_fs w ∧ a_events w' = a_events w ∧ a_next_id w' = a_next_id w ∧ a_uuid w' = a_uuid w.

(** The operation makes at most one transfer, one that satisfies [P], and
    succeeds only if it made one and that one succeeded. *)
Definition attempts (P : Outgoing → Prop) (m : AM unit) (w : ApiWorld) : Prop :=
  let '(r, w') := m w in
  quiet w w' ∧
  ((r ≠ Ok tt ∧ a_sent w' = a_sent w) ∨
   ∃ o, P o ∧ a_sent w' = a_sent w ++ [o] ∧
     r = match e_send env o with Some error => Err (mkStatus Internal error) | None => Ok tt end).

Lemma attempts_outgoing (P : Outgoing → Prop) o w : P o → attempts P (outgoing env o) w.
Proof. intros Ho. split; [done|]. right. by exists o. Qed.

Lemma attempts_fail P s w : attempts P (fail s) w.
Proof. split; [done|]. by left. Qed.

Lemma attempts_lift {A} P (r : result Status A) k w :
  (∀ a, r = Ok a → attempts P (k a) w) → attempts P (lift r ≫= k) w.
Proof. intros Hk. destruct r as [a| |]; [by apply Hk|split; [done|by left]..]. Qed.

Lemma attempts_read {A} P (f : TrustStore → result CoreError A) msg k w :
  (∀ a, f (a_trust w) = Ok a → attempts P (k a) w) → attempts P (store_read f msg ≫= k) w.
Proof.
  intros Hk. unfold attempts, store_read, mbind, SE_bind.
  destruct (f (a_trust w)) as [a| |]; [by apply Hk|split; [done|by left]..].
Qed.

Lemma attempts_bind {A} P (m : AM A) k w :
  (∀ r w', m w = (r, w') → quiet w w' ∧ a_sent w' = a_sent w ∧ (∀ a, r = Ok a → attempts P (k a) w')) →
  attempts P (m ≫= k) w.
Proof.
  intros Hm. unfold attempts, mbind, SE_bind. destruct (m w) as [r w1] eqn:Hmw.
  destruct (Hm r w1 eq_refl) as ((Q1 & Q2 & Q3 & Q4) & Hs & Hk).
  destruct r as [a|e|]; [|by split; [|left]..].
  specialize (Hk a eq_refl). unfold attempts in Hk. destruct (k a w1) as [r' w'].
  destruct Hk as ((R1 & R2 & R3 & R4) & Hr). split; [unfold quiet; split_and!; congruence|]. by rewrite <-Hs.
Qed.

Lemma trusted_pin peer c :
  native_wan_certificate_fingerprint peer = Ok c →
  pr_policy peer = AutoAccept ∧ pr_native_certificate_fingerprint peer = Some c.
Proof. unfold native_wan_certificate_fingerprint. intros Hc. destruct (pr_policy peer); [|done..]. by inv_ok. Qed.

Lemma parse_or_refuse_Ok v msg fp : parse_or_refuse v msg = Ok fp ↔ parse_fingerprint v = Ok fp.
Proof. unfold parse_or_refuse. apply map_err_Ok_inv. Qed.

Lemma resolve_peer_ref_Ok peers ref p :
  resolve_peer_ref peers ref = Ok p → p ∈ peers ∧ peer_matches ref p = true.
Proof.
  unfold resolve_peer_ref. case_bool_decide; [done|]. destruct (filter _ peers) as [|q [|]] eqn:Hf; [done| |done].
  intros [= <-]. assert (Hin : q ∈ filter (λ peer, peer_matches ref peer = true) peers) by (rewrite Hf; by left).
  by apply list_elem_of_filter in Hin as [? ?].
Qed.

(** The transfers a request may start, given the state it finds. *)
Inductive permitted (w : ApiWorld) (native : bool) (paths : list path) : Target → Outgoing → Prop :=
| permit_url url : permitted w native paths (LocalsendUrl url) (ToLocalSend url None paths)
| permit_localsend ref peers peer :
    native = false → (scan_and_cache env w).1 = Ok peers → peer ∈ peers → localsend_peer_matches ref peer = true →
    permitted w native paths (PeerFingerprint ref)
      (ToLocalSend (lan_protocol peer ++ str "://" ++ lan_source_ip peer ++ 58 :: show_dec (lan_port peer))
         (Some (lan_fingerprint peer)) paths)
| permit_native ref peers p trusted pin :
    native = true → discover error_text (e_deadline env) (e_browse env) (ds_fingerprint st) = Ok peers →
    p ∈ peers → peer_matches ref p = true →
    get (a_trust w) (from_pubkey (nl_pubkey p)) = Ok (Some trusted) → pr_policy trusted = AutoAccept →
    pr_native_certificate_fingerprint trusted = Some pin → nl_native_certificate_fingerprint p = Some pin →
    permitted w native paths (PeerFingerprint ref) (ToNative (native_lan_url p) paths pin)
| permit_wan text fp trusted candidates pin :
    parse_fingerprint text = Ok fp → get (a_trust w) fp = Ok (Some trusted) → pr_policy trusted = AutoAccept →
    pr_native_certificate_fingerprint trusted = Some pin →
    lookup_peer_candidates (e_lookup env (pr_pubkey trusted)) = Ok candidates →
    permitted w native paths (WanPeer text) (ToCandidates candidates paths pin).

Lemma scan_quiet w r w' : scan_and_cache env w = (r, w') → quiet w w' ∧ a_sent w' = a_sent w.
Proof.
  unfold scan_and_cache. destruct (e_local_ipv4 env); [|by intros [= _ <-]]. destruct (e_client env); [by intros [= _ <-]|].
  destruct (record_discovered _ _ _). by intros [= _ <-].
Qed.

Lemma native_attempts ref paths w :
  attempts (permitted w true paths (PeerFingerprint ref))
    (send_files_to_native_lan_peer error_text env st ref paths) w.
Proof.
  unfold send_files_to_native_lan_peer.
  apply attempts_lift. intros peers Hd%map_err_Ok_inv. apply attempts_lift. intros p Hp%map_err_Ok_inv.
  destruct (resolve_peer_ref_Ok _ _ _ Hp) as [Hin Hmatch].
  destruct (discover_Ok _ _ _ _ _ Hd) as (events & _ & _ & _ & Hok). destruct (Hok p Hin) as (Hfp & _).
  apply attempts_lift. intros fp Hfp'%parse_or_refuse_Ok. rewrite Hfp in Hfp'. apply Ok_inj in Hfp' as <-.
  apply attempts_read. intros found Hget. apply attempts_lift. intros trusted ->%ok_or_Ok_inv.
  apply attempts_lift. intros pin [Hpol Hpin]%trusted_pin. apply attempts_lift. intros adv Hadv%ok_or_Ok_inv.
  apply attempts_lift. intros ? ->%ensure_Ok_inv%bool_decide_eq_true. apply attempts_outgoing. by eapply permit_native.
Qed.

Lemma localsend_attempts ref paths w :
  attempts (permitted w false paths (PeerFingerprint ref)) (send_files_to_localsend_lan_peer env ref paths) w.
Proof.
  unfold send_files_to_localsend_lan_peer. apply attempts_bind. intros r w' Hr.
  unfold resolve_localsend_lan_peer in Hr. destruct (bool_decide (normalize_localsend_peer_ref ref = [])).
  { cbn in Hr. injection Hr as <- <-. done. }
  unfold mbind, SE_bind in Hr. destruct (scan_and_cache env w) as [rs ws] eqn:Hs.
  destruct (scan_quiet _ _ _ Hs) as [Hq Hsent].
  destruct rs as [peers|e|]; [|injection Hr as <- <-; done..].
  destruct (filter _ peers) as [|p [|]] eqn:Hf; cbn in Hr; injection Hr as <- <-; split_and!; try done.
  intros a [= <-]. unfold localsend_client. destruct (e_client env); cbn [mbind]; [apply attempts_fail|].
  apply (attempts_outgoing _ (ToLocalSend _ _ _)).
  assert (Hin : p ∈ filter (λ peer, localsend_peer_matches ref peer = true) peers) by (rewrite Hf; by left).
  apply list_elem_of_filter in Hin as [Hm Hin]. eapply permit_localsend; [done|by rewrite Hs|done|done].
Qed.

Lemma wan_attempts text native paths w :
  attempts (permitted w native paths (WanPeer text)) (send_files_to_wan_peer env st text paths) w.
Proof.
  unfold send_files_to_wan_peer. apply attempts_lift. intros _ _. apply attempts_lift. intros fp Hfp%parse_or_refuse_Ok.
  apply attempts_read. intros found Hget. apply attempts_lift. intros trusted ->%ok_or_Ok_inv.
  apply attempts_lift. intros pin [Hpol Hpin]%trusted_pin. apply attempts_lift. intros cands Hc%map_err_Ok_inv.
  apply attempts_outgoing. by eapply permit_wan.
Qed.

Lemma target_attempts native target paths w :
  attempts (permitted w native paths target) (send_to_target error_text env st native target paths) w.
Proof.
  destruct target as [url|url|ref|text]; cbn [send_to_target].
  - apply attempts_outgoing. constructor.
  - apply attempts_fail.
  - destruct native; [apply native_attempts|apply localsend_attempts].
  - apply wan_attempts.
Qed.

Lemma permitted_trust w w' native paths target o :
  a_trust w' = a_trust w → permitted w native paths target o → permitted w' native paths target o.
Proof.
  intros Ht Hp. destruct Hp; [constructor|eapply permit_localsend; try done|
    eapply permit_native; try done; by rewrite Ht|eapply permit_wan; try done; by rewrite Ht].
  match goal with Hs : (scan_and_cache _ _).1 = _ |- _ => rewrite <-Hs end.
  unfold scan_and_cache. rewrite Ht. destruct (e_local_ipv4 env); [|done]. destruct (e_client env); [done|].
  by destruct (record_discovered _ _ _).
Qed.

Lemma validate_each_spec ps w :
  ∃ r, validate_each ps w = (r, w) ∧
    match r with
    | Ok l => l = path_from <$> ps ∧ Forall (λ p, is_file (a_fs w) p = true) l
    | Err s => st_code s = InvalidArgument
    | Panic => False
    end.
Proof.
  induction ps as [|p ps (r & Hr & IH)]; [by exists (Ok [])|]. cbn [validate_each].
  unfold gets, lift, mbind, SE_bind. destruct (path_exists (a_fs w) (path_from p)); [|by eexists].
  cbn [ensure]. destruct (is_file (a_fs w) (path_from p)) eqn:Hf; [|by eexists]. cbn [ensure]. rewrite Hr.
  destruct r as [l|e|]; [|by eexists|done]. destruct IH as [-> Hl]. eexists. split; [done|]. by split; [|constructor].
Qed.

Lemma validated_paths_spec ps w :
  ∃ r, validated_paths ps w = (r, w) ∧
    match r with
    | Ok l => l = path_from <$> ps ∧ Forall (λ p, is_file (a_fs w) p = true) l
    | Err s => st_code s = InvalidArgument
    | Panic => False
    end.
Proof.
  unfold validated_paths. destruct (bool_decide (ps = [])); [by eexists|]. cbn [negb ensure].
  rewrite SE_lift_Ok. apply validate_each_spec.
Qed.

(** The world with the transfer announced. *)
Definition started (w : ApiWorld) : ApiWorld :=
  mkApi (a_fs w) (a_trust w)
    (a_events w ++ [mkEnvelope (show_dec (a_next_id w)) (e_now env) (TransferStarted (new_v4 (a_uuid w)))])
    (add_u64 (a_next_id w) 1) (S (a_uuid w)) (a_sent w).

Lemma send_files_cases request w :
  (∃ s, send_files error_text env st request w = (Err s, w) ∧ st_code s = InvalidArgument) ∨
  ∃ target, sr_target request = Some target ∧
    let paths := path_from <$> sr_paths request in
    let id := new_v4 (a_uuid w) in
    Forall (λ p, is_file (a_fs w) p = true) paths ∧
    send_files error_text env st request w =
      (_ ← match target with LocalsendUrl _ => localsend_client env | _ => mret tt end;
       report env id (send_to_target error_text env st (sr_native request) target paths)) (started w).
Proof.
  unfold send_files.
  destruct (validated_paths_spec (sr_paths request) w) as (r & Hr & Hspec).
  destruct r as [l|s|]; [|left; exists s; by rewrite (SE_bind_Err _ _ _ _ _ Hr)|done].
  destruct Hspec as [-> Hl]. rewrite (SE_bind_eq _ _ _ _ _ Hr).
  destruct (sr_target request) as [target|]; [|left; by eexists]. right. by exists target.
Qed.

Definition new_events (w w' : ApiWorld) (l : list DaemonEvent) : Prop :=
  ev_event <$> a_events w' = (ev_event <$> a_events w) ++ l.

(** No transfer was made that succeeded. *)
Definition none_sent (w w' : ApiWorld) : Prop :=
  a_sent w' = a_sent w ∨ ∃ o, a_sent w' = a_sent w ++ [o] ∧ is_Some (e_send env o).

Lemma report_spec P id m w r w' :
  attempts P m w → report env id m w = (r, w') →
  a_fs w' = a_fs w ∧ a_uuid w' = a_uuid w ∧
  (a_sent w' = a_sent w ∨ ∃ o, P o ∧ a_sent w' = a_sent w ++ [o]) ∧
  match r with
  | Ok id' => id' = id ∧ new_events w w' [TransferCompleted id] ∧ ∃ o, a_sent w' = a_sent w ++ [o] ∧ e_send env o = None
  | Err s => new_events w w' [TransferFailed id (code_name (st_code s)) (st_message s)] ∧ none_sent w w'
  | Panic => new_events w w' [] ∧ none_sent w w'
  end.
Proof.
  unfold attempts, report, new_events, none_sent. destruct (m w) as [rm wm]. intros ((Hfs & Hev & _ & Huu) & Hout) Hr.
  assert (Hsent : a_sent wm = a_sent w ∨ ∃ o, P o ∧ a_sent wm = a_sent w ++ [o]).
  { destruct Hout as [[_ ?]|(o & ? & ? & _)]; [by left|right; by exists o]. }
  destruct rm as [[]|s|]; cbn in Hr; injection Hr as <- <-; cbn [a_fs a_uuid a_events a_sent].
  - split_and!; try done; [by rewrite Hev, fmap_app|].
    destruct Hout as [[? _]|(o & _ & Hs & Ho)]; [done|]. exists o. split; [done|]. by destruct (e_send env o).
  - split_and!; try done; [by rewrite Hev, fmap_app|].
    destruct Hout as [[_ ?]|(o & _ & Hs & Ho)]; [by left|]. right. exists o. split; [done|]. by destruct (e_send env o).
  - split_and!; try done; [by rewrite Hev, app_nil_r|].
    destruct Hout as [[_ ?]|(o & _ & Hs & Ho)]; [by left|]. by destruct (e_send env o).
Qed.

Lemma send_files_spec request w r w' :
  send_files error_text env st request w = (r, w') →
  (∃ s, r = Err s ∧ st_code s = InvalidArgument ∧ w' = w) ∨
  ∃ target tail,
    let paths := path_from <$> sr_paths request in
    let id := new_v4 (a_uuid w) in
    sr_target request = Some target ∧ Forall (λ p, is_file (a_fs w) p = true) paths ∧
    a_fs w' = a_fs w ∧ a_uuid w' = S (a_uuid w) ∧ new_events w w' (TransferStarted id :: tail) ∧
    (a_sent w' = a_sent w ∨ ∃ o, permitted w (sr_native request) paths target o ∧ a_sent w' = a_sent w ++ [o]) ∧
    match r with
    | Ok id' => id' = id ∧ tail = [TransferCompleted id] ∧ ∃ o, a_sent w' = a_sent w ++ [o] ∧ e_send env o = None
    | Err s => none_sent w w' ∧
               (tail = [TransferFailed id (code_name (st_code s)) (st_message s)] ∨
                tail = [] ∧ (∃ url, target = LocalsendUrl url) ∧ e_client env = Some (st_message s))
    | Panic => none_sent w w' ∧ tail = []
    end.
Proof.
  intros Hs. destruct (send_files_cases request w) as [(s & Hc & Hcode)|(target & Ht & Hl & Hc)].
  { rewrite Hc in Hs. injection Hs as <- <-. left. by exists s. }
  right. exists target. set (paths := path_from <$> sr_paths request) in *. set (id := new_v4 (a_uuid w)) in *.
  assert (Hstart : new_events w (started w) [TransferStarted id]) by (unfold new_events; cbn; by rewrite fmap_app).
  assert (Hrun : report env id (send_to_target error_text env st (sr_native request) target paths) (started w) = (r, w') ∨
    ∃ url error, target = LocalsendUrl url ∧ e_client env = Some error ∧ r = Err (mkStatus Internal error) ∧ w' = started w).
  { rewrite Hc in Hs. destruct target as [url| | |]; [|by left..]. unfold localsend_client in Hs.
    destruct (e_client env) as [error|]; [right|by left]. cbn in Hs. injection Hs as <- <-. by exists url, error. }
  destruct Hrun as [Hrun|(url & error & -> & Hcl & -> & ->)].
  - pose proof (target_attempts (sr_native request) target paths (started w)) as Ha.
    destruct (report_spec _ _ _ _ _ _ Ha Hrun) as (Hfs & Huu & Hsent & Hout).
    assert (Hsent' : a_sent w' = a_sent w ∨ ∃ o, permitted w (sr_native request) paths target o ∧ a_sent w' = a_sent w ++ [o]).
    { destruct Hsent as [?|(o & Ho & ?)]; [by left|right; exists o; split; [|done]]. by eapply permitted_trust, Ho. }
    unfold new_events in *. rewrite Hstart in Hout.
    destruct r as [id'|s|]; [destruct Hout as (-> & Hev & Ho)|destruct Hout as [Hev Ho]|destruct Hout as [Hev Ho]];
      rewrite <-app_assoc in Hev; cbn [app] in Hev; eexists; split_and!; try done; by left.
  - exists []. split_and!; try done; [by left|by left|]. right. split_and!; [done|by exists url|done].
Qed.


(** C5: a send request starts at most one transfer, of existing regular files:
    over the native protocol only to a peer of the trust database whose policy
    is to accept automatically, pinned to the certificate stored for it, which
    for a peer of the local network is also the one it announces under the
    fingerprint of its key; to a LocalSend peer of the network pinned to the
    peer found under the given name; and unpinned only to a LocalSend URL the
    caller gave. *)
Theorem send_files_pinned request w r w' :
  send_files error_text env st request w = (r, w') →
  a_sent w' = a_sent w ∨
  ∃ target o, sr_target request = Some target ∧ a_sent w' = a_sent w ++ [o] ∧
    Forall (λ p, is_file (a_fs w) p = true) (path_from <$> sr_paths request) ∧
    permitted w (sr_native request) (path_from <$> sr_paths request) target o.
Proof.
  intros Hs. destruct (send_files_spec request w r w' Hs)
    as [(s & -> & Hc & ->)|(target & tail & Ht & Hf & _ & _ & _ & [Hsent|(o & Ho & Hsent)] & _)]; [by left..|].
  right. by exists target, o.
Qed.
End sending.

(** ** Addresses of LAN peers as URLs *)

(** Hexadecimal digits, then a colon. *)
Definition colon_first (s : rstring) : Prop :=
  ∃ h rest, s = h ++ 58 :: rest ∧ Forall (λ c, is_ascii_hexdigit c = true) h.

Lemma hex_char_digit n : 0 ≤ n < 16 → is_ascii_hexdigit (hex_char n) = true.
Proof.
  intros Hn. assert (Hall : Forall (λ n, is_ascii_hexdigit (hex_char n) = true) (seqZ 0 16))
    by (apply (bool_decide_unpack _); vm_compute; done).
  rewrite Forall_forall in Hall. apply Hall, elem_of_seqZ. lia.
Qed.

Lemma show_hex16_digits n : u16_ok n → Forall (λ c, is_ascii_hexdigit c = true) (show_hex16 n).
Proof.
  unfold u16_ok. intros Hn. unfold show_hex16. apply Forall_fmap.
  assert (Hd : Forall (λ d, 0 ≤ d < 16) [n / 4096; (n / 256) mod 16; (n / 16) mod 16; n mod 16]).
  { repeat constructor; try (apply Z.mod_pos_bound; lia); try (apply Z.div_pos; lia).
    apply Z.div_lt_upper_bound; lia. }
  rewrite !Forall_cons in Hd. destruct Hd as (H1 & H2 & H3 & H4 & _).
  repeat case_match; repeat (apply Forall_cons; split); try constructor; by apply hex_char_digit.
Qed.

Lemma show_segments_colon l t : Forall u16_ok l → colon_first (show_segments l ++ 58 :: t).
Proof.
  intros Hl. destruct Hl as [|g l Hg Hl]; [by exists [], t|]. pose proof (show_hex16_digits g Hg).
  destruct l as [|g' l]; [by exists (show_hex16 g), t|].
  exists (show_hex16 g). eexists. split; [|done].
  change (show_segments (g :: g' :: l)) with (show_hex16 g ++ 58 :: show_segments (g' :: l)).
  by rewrite <-app_assoc.
Qed.

Lemma show_ipv6_colon g t : Forall u16_ok g → colon_first (show_ipv6 g ++ 58 :: t).
Proof.
  intros Hg. assert (Hgen : colon_first ((let '(start, n) := zero_run g in
    if bool_decide (1 < n)%nat then show_segments (take start g) ++ str "::" ++ show_segments (drop (start + n) g)
    else show_segments g) ++ 58 :: t)).
  { destruct (zero_run g) as [start n]. case_bool_decide; [|by apply show_segments_colon].
    rewrite <-app_assoc. change (str "::" ++ ?x) with (58 :: 58 :: x). apply show_segments_colon. by apply Forall_take. }
  unfold show_ipv6. repeat (case_match; try exact Hgen); exists []; eexists; (split; [reflexivity|constructor]).
Qed.

Lemma read_digits_stops h rest ds r :
  Forall (λ c, is_ascii_hexdigit c = true) h → read_digits 10 (h ++ 58 :: rest) = (ds, r) → head r ≠ Some 46.
Proof.
  intros Hh. revert ds r. induction Hh as [|c h Hc Hh IH]; intros ds r; cbn [app read_digits].
  { intros [= <- <-]. done. }
  destruct (to_digit 10 c) as [d|].
  - destruct (read_digits 10 (h ++ 58 :: rest)) as [ds' r'] eqn:Hr. intros [= <- <-]. by apply (IH ds').
  - intros [= <- <-]. cbn. intros [= ->]. done.
Qed.

Lemma parse_sock_colon s : colon_first s → parse_sock s = None.
Proof.
  intros (h & rest & -> & Hh).
  assert (read_sock_v4 (h ++ 58 :: rest) = None) as Hv4.
  { unfold read_sock_v4, read_ipv4, read_octet, read_number.
    destruct (read_digits 10 (h ++ 58 :: rest)) as [ds r] eqn:Hr. pose proof (read_digits_stops _ _ _ _ Hh Hr) as Hs.
    repeat case_match; cbn [mbind option_bind]; try done.
    destruct r as [|c r]; cbn; [done|]. destruct (Z.eqb_spec c 46) as [->|]; [by destruct Hs|done]. }
  assert (read_sock_v6 (h ++ 58 :: rest) = None) as Hv6.
  { unfold read_sock_v6. destruct Hh as [|c h Hc Hh]; [done|]. cbn [app read_given_char].
    destruct (Z.eqb_spec c 91) as [->|]; [done|]. done. }
  unfold parse_sock. by rewrite Hv4, Hv6.
Qed.

Lemma strip_quic s : strip_prefix (str "quic://") (str "quic://" ++ s) = Some s.
Proof. unfold strip_prefix. rewrite take_app_length, drop_app_length. by rewrite bool_decide_true. Qed.

(** the URL the daemon builds for a discovered native peer names the peer's
    address and port to the client when the address is IPv4; for an IPv6
    address the client always rejects it. *)
Theorem native_lan_url_parses p :
  match nl_address p with
  | IpV4 a b c d => octet a → octet b → octet c → octet d → u16_ok (nl_port p) →
      native_socket_addr (native_lan_url p) = Ok (SockV4 a b c d (nl_port p))
  | IpV6 g => Forall u16_ok g → is_err (native_socket_addr (native_lan_url p)) = true
  end.
Proof.
  unfold native_socket_addr, native_lan_url. rewrite strip_quic.
  destruct (nl_address p) as [a b c d|g]; cbn [show_ip].
  - intros. pose proof (parse_show_v4 a b c d (nl_port p)) as Hp. cbn [show_sock] in Hp. by rewrite Hp.
  - intros Hg. by rewrite (parse_sock_colon _ (show_ipv6_colon _ _ Hg)).
Qed.
