(* ===== verification/DaemonHttp.v ===== *)
(** * The daemon's HTTP and gRPC APIs

    Model of the routes and handlers of crates/daemon/src/api/http.rs, and of
    the gRPC services (api/grpc.rs, peers.rs, transfers.rs, inbox.rs) behind
    the interceptor of api/auth.rs.

    Of axum: a request has a method, a path and an Authorization header (whose
    bytes may not be text); a route's parameter is a percent-decoded segment;
    the body of a POST is given as what its JSON extractor yields, which runs
    before the handler: the value, or the status of the rejection.  A reply
    holds the records its JSON object (ApiJson.v) or its message is a rendering
    of.  A handler that panics aborts the connection.  The events of a subscription are those
    emitted after it (the streams are the subject of Hooks.v).  The trust
    database opens. *)

From stdpp Require Import prelude gmap strings.
From Stdlib Require Import ZArith Lia.
From S2P Require Import Prelude RustStr Errors Dto Fs Transfer Inet Text Identity TrustStore Discovery Conversation NativeNet NativeLan LocalSession LocalServer Config DaemonApi.

Local Open Scope Z_scope.

(** ** Authorization *)

(** The value of the Authorization header: absent, not text, or text. *)
Inductive Header := NoHeader | NotText | Value (value : rstring).

(** [value.strip_prefix("Bearer ")] and the comparison in constant time. *)
Definition bearer (header : Header) (expected_token : rstring) : result string unit :=
  match header with
  | NoHeader => Err "missing bearer token"
  | NotText => Err "malformed bearer token"
  | Value value =>
    match strip_prefix (str "Bearer ") value with
    | None => Err "malformed bearer token"
    | Some token => ensure (bool_decide (utf8_encode token = utf8_encode expected_token)) "invalid bearer token"
    end
  end%string.

Record ApiError := mkApiError { ae_status : Z; ae_message : rstring }.

Definition authorize (headers : Header) (expected_token : rstring) : result ApiError unit :=
  map_err (λ m, mkApiError 401 (str m)) (bearer headers expected_token).

(** The interceptor of the gRPC services. *)
Definition authorize_metadata (metadata : Header) (expected_token : rstring) : result Status unit :=
  map_err (λ m, mkStatus Unauthenticated (str m)) (bearer metadata expected_token).

Definition internal (message : rstring) : ApiError := mkApiError 500 message.

Definition from_status (status : Status) : ApiError :=
  mkApiError
    match st_code status with
    | InvalidArgument => 400
    | Unimplemented => 501
    | Unauthenticated => 401
    | _ => 500
    end (st_message status).

(** ** Bodies *)

Record SendTransferDto := mkSendDto {
  sd_paths : list rstring; sd_localsend_url : option rstring; sd_native_url : option rstring;
  sd_peer_fingerprint : option rstring; sd_wan_peer : option rstring; sd_native : bool }.

Definition is_some {A} (o : option A) : Z := match o with Some _ => 1 | None => 0 end.

Definition into_proto (dto : SendTransferDto) : result ApiError SendRequest :=
  let target_count := is_some (sd_localsend_url dto) + is_some (sd_native_url dto)
                      + is_some (sd_peer_fingerprint dto) + is_some (sd_wan_peer dto) in
  _ ← ensure (target_count =? 1) (mkApiError 400 (str "exactly one transfer target is required"));
  _ ← ensure (negb (sd_native dto && (is_some (sd_localsend_url dto) =? 1)))
        (mkApiError 400 (str "native transfer target cannot use localsend_url"));
  let target :=
    match sd_localsend_url dto with
    | Some url => Some (LocalsendUrl url)
    | None =>
      match sd_native_url dto with
      | Some url => Some (NativeUrl url)
      | None =>
        match sd_peer_fingerprint dto with
        | Some peer => Some (PeerFingerprint peer)
        | None => WanPeer <$> sd_wan_peer dto
        end
      end
    end in
  Ok (mkSendRequest (sd_paths dto) target (sd_native dto)).

(** What the routes of the API answer with. *)
Inductive Reply :=
| StatusDto (alias fingerprint : rstring) (inbox_dir : path) (localsend_port native_port : Z)
| TrustedPeers (peers : list Peer)
| LanPeers (peers : list LocalSendLanPeer)
| NativePeers (peers : list NativeLanPeer)
| TrustedPeerReply (peer : Peer)
| LocalSendPeers (peers : list LocalSendPeer)
| LocalSendPeerReply (peer : LocalSendPeer)
| InboxReply (entries : list InboxEntry)
| ActiveTransfers
| Sent (transfer_id : rstring)
| Cancelled (transfer_id : rstring)
| Subscription (seen : nat).

(** A file of the web interface, as lsi_webui embeds it. *)
Record EmbeddedAsset := mkAsset { ea_data : bytes; ea_content_type : rstring }.

Inductive Response :=
| Aborted
| Plain (status : Z)
| Metrics (text : rstring)
| Asset (asset : EmbeddedAsset)
| ErrorBody (status : Z) (message : rstring)
| Json (reply : Reply).

(** ** Operations behind both APIs *)

Section operations.
Context `{HashOrder} `{CryptoSuite} `{Lowercase} `{Uuid} (error_text : CoreError → rstring).

Definition status (st : DaemonState) : Reply :=
  StatusDto (ds_alias st) (ds_fingerprint st) (ds_inbox_dir st) (ds_localsend_port st) (ds_native_port st).

(** A call that changes the store; one that fails changes nothing. *)
Definition store_write {A} (f : TrustStore → result CoreError (A * TrustStore)) : AM A := λ w,
  match f (a_trust w) with
  | Ok (a, s) => (Ok a, set_trust w s)
  | Err e => (Err (mkStatus Internal (error_text e)), w)
  | Panic => (Panic, w)
  end.

Definition list_trusted : AM Reply := peers ← store_read TrustStore.list_peers "trust store"; mret (TrustedPeers peers).
Definition list_lan (env : Env) : AM Reply := peers ← scan_and_cache env; mret (LanPeers peers).
Definition list_pending_localsend : AM Reply :=
  peers ← store_read list_pending_localsend_peers "trust store"; mret (LocalSendPeers peers).
Definition approve_localsend (env : Env) (fingerprint : rstring) (label : option rstring) : AM Reply :=
  peer ← store_write (λ s, approve_localsend_peer s (e_now env) fingerprint label); mret (LocalSendPeerReply peer).
Definition deny_localsend (env : Env) (fingerprint : rstring) : AM Reply :=
  peer ← store_write (λ s, deny_localsend_peer s (e_now env) fingerprint); mret (LocalSendPeerReply peer).
Definition list_inbox (st : DaemonState) : AM Reply := λ w,
  (map_err (λ _, internal_status "inbox") (InboxReply <$> list_inbox_entries (a_fs w) (ds_inbox_dir st)), w).
Definition send_transfer (env : Env) (st : DaemonState) (request : SendRequest) : AM Reply :=
  id ← send_files error_text env st request; mret (Sent id).
Definition resume_transfer (transfer_id : rstring) : AM Reply :=
  fail (mkStatus Unimplemented (str "resume is not wired to daemon API yet for transfer " ++ transfer_id)).
Definition cancel_transfer (transfer_id : rstring) : AM Reply := mret (Cancelled transfer_id).
Definition events : AM Reply := w ← gets id; mret (Subscription (length (a_events w))).

(** ** gRPC *)

(** [PeerPolicy::try_from(value).unwrap_or(PeerPolicy::AutoAccept)] and its
    mapping: an unknown value counts as automatic acceptance. *)
Definition policy_of_proto (value : Z) : PeerPolicy :=
  if value =? 2 then Prompt else if value =? 3 then Block else AutoAccept.

(** In milliseconds, the unit of the instants of [e_browse]. *)
Definition discovery_timeout (timeout_ms : Z) : Z := if timeout_ms =? 0 then 1500 else timeout_ms.

Definition list_native_lan (env : Env) (st : DaemonState) (timeout_ms : Z) : AM Reply :=
  let timeout := discovery_timeout timeout_ms in
  peers ← lift (map_err (λ _, internal_status "native discovery")
                  (discover error_text timeout (e_browse env) (ds_fingerprint st)));
  mret (NativePeers peers).

Definition trust_peer (env : Env) (peer : NativeLanPeer) (label : option rstring) (policy : PeerPolicy) : AM Peer := λ w,
  match trust_discovered_peer (a_trust w) (e_now env) peer label policy with
  | Ok (p, s) => (Ok p, set_trust w s)
  | Err _ => (Err (internal_status "trusting native LAN peer"), w)
  | Panic => (Panic, w)
  end.

Definition trust_native_lan (env : Env) (st : DaemonState) (peer_ref : rstring) (label : option rstring)
    (policy timeout_ms : Z) : AM Reply :=
  let timeout := discovery_timeout timeout_ms in
  peers ← lift (map_err (λ _, internal_status "native discovery")
                  (discover error_text timeout (e_browse env) (ds_fingerprint st)));
  peer ← lift (map_err (λ _, refuse NotFoundCode "native peer") (resolve_peer_ref peers peer_ref));
  trusted ← trust_peer env peer label (policy_of_proto policy);
  mret (TrustedPeerReply trusted).

Inductive DaemonCall := GetStatus.
Inductive EventsCall := Watch.
Inductive PeersCall :=
| GListTrusted | GListLan | GListNativeLan (timeout_ms : Z)
| GTrustNativeLan (peer : rstring) (label : option rstring) (policy timeout_ms : Z)
| GListPending | GApprove (fingerprint : rstring) (label : option rstring) | GDeny (fingerprint : rstring).
Inductive TransfersCall :=
| GListActive | GSend (request : SendRequest) | GResume (transfer_id : rstring) | GCancel (transfer_id : rstring).
Inductive InboxCall := GListInbox.
Inductive GrpcCall :=
| ToDaemon (call : DaemonCall) | ToEvents (call : EventsCall) | ToPeers (call : PeersCall)
| ToTransfers (call : TransfersCall) | ToInbox (call : InboxCall).

Definition daemon_service (st : DaemonState) (call : DaemonCall) : AM Reply :=
  match call with GetStatus => mret (status st) end.
Definition events_service (call : EventsCall) : AM Reply :=
  match call with Watch => events end.
Definition peers_service (env : Env) (st : DaemonState) (call : PeersCall) : AM Reply :=
  match call with
  | GListTrusted => list_trusted
  | GListLan => list_lan env
  | GListNativeLan timeout_ms => list_native_lan env st timeout_ms
  | GTrustNativeLan peer label policy timeout_ms => trust_native_lan env st peer label policy timeout_ms
  | GListPending => list_pending_localsend
  | GApprove fingerprint label => approve_localsend env fingerprint label
  | GDeny fingerprint => deny_localsend env fingerprint
  end.
Definition transfers_service (env : Env) (st : DaemonState) (call : TransfersCall) : AM Reply :=
  match call with
  | GListActive => mret ActiveTransfers
  | GSend request => send_transfer env st request
  | GResume transfer_id => resume_transfer transfer_id
  | GCancel transfer_id => cancel_transfer transfer_id
  end.
Definition inbox_service (st : DaemonState) (call : InboxCall) : AM Reply :=
  match call with GListInbox => list_inbox st end.

Definition grpc_method (env : Env) (st : DaemonState) (call : GrpcCall) : AM Reply :=
  match call with
  | ToDaemon call => daemon_service st call
  | ToEvents call => events_service call
  | ToPeers call => peers_service env st call
  | ToTransfers call => transfers_service env st call
  | ToInbox call => inbox_service st call
  end.

Definition grpc (env : Env) (st : DaemonState) (metadata : Header) (call : GrpcCall) : AM Reply :=
  _ ← lift (authorize_metadata metadata (ds_api_token st));
  grpc_method env st call.

(** ** HTTP *)

Inductive Method := GET | HEAD | POST | OtherMethod.

Record Request := mkRequest {
  rq_method : Method; rq_path : rstring; rq_authorization : Header;
  rq_approve_body : Z + option rstring; rq_send_body : Z + SendTransferDto }.

Inductive Route :=
| Healthz | Readyz | MetricsRoute | StatusRoute | ListTrusted | ListLan | ListPending | Approve (fingerprint : rstring)
| Deny (fingerprint : rstring) | ListInbox | ListActive | SendRoute | Resume (transfer_id : rstring)
| Cancel (transfer_id : rstring) | EventsRoute | WebuiIndex | WebuiAsset (path : rstring) | Fallback.

(** Whether the handler was registered with [post] or with [get]. *)
Definition is_post (r : Route) : bool :=
  match r with Approve _ | Deny _ | SendRoute | Resume _ | Cancel _ => true | _ => false end.

Definition seg (s : rstring) (name : string) : bool := bool_decide (s = str name).

(** The route of a path, by its segments; a parameter is one segment that is
    not empty, a wildcard the rest of the path. *)
Definition route_v1 (l : list rstring) : Route :=
  match l with
  | [a] => if seg a "status" then StatusRoute else if seg a "inbox" then ListInbox
           else if seg a "events" then EventsRoute else Fallback
  | [a; b] =>
    if seg a "peers" && seg b "trusted" then ListTrusted
    else if seg a "peers" && seg b "lan" then ListLan
    else if seg a "localsend" && seg b "pending-peers" then ListPending
    else if seg a "transfers" && seg b "active" then ListActive
    else if seg a "transfers" && seg b "send" then SendRoute
    else Fallback
  | [a; param; c] =>
    if seg a "transfers" && negb (bool_decide (param = [])) then
      if seg c "resume" then Resume param else if seg c "cancel" then Cancel param else Fallback
    else Fallback
  | [a; b; param; d] =>
    if seg a "localsend" && seg b "pending-peers" && negb (bool_decide (param = [])) then
      if seg d "approve" then Approve param else if seg d "deny" then Deny param else Fallback
    else Fallback
  | _ => Fallback
  end.
Definition router (path : rstring) : Route :=
  match split_on 47 path with
  | [[]; []] => WebuiIndex
  | [[]; a] => if seg a "healthz" then Healthz else if seg a "readyz" then Readyz
               else if seg a "metrics" then MetricsRoute else Fallback
  | [] :: a :: b :: l =>
    if seg a "assets" then
      let rest := join [47] (b :: l) in
      if bool_decide (rest = []) then Fallback else WebuiAsset rest
    else if seg a "api" && seg b "v1" then route_v1 l else Fallback
  | _ => Fallback
  end.

(** Percent-decoding of a parameter, and the files embedded by the build. *)
Context (decode : rstring → option rstring) (embedded : rstring → option bytes).

Definition normalize_path (path : rstring) : rstring :=
  let path := trim_start_matches 47 path in if bool_decide (path = []) then str "index.html" else path.

(** By what follows the last dot, the whole name if there is none. *)
Definition content_type (path : rstring) : rstring :=
  let extension := default [] (last (split_on 46 path)) in
  if seg extension "css" then str "text/css; charset=utf-8"
  else if seg extension "html" then str "text/html; charset=utf-8"
  else if seg extension "js" then str "text/javascript; charset=utf-8"
  else if seg extension "json" then str "application/json"
  else if seg extension "svg" then str "image/svg+xml"
  else if seg extension "wasm" then str "application/wasm"
  else str "application/octet-stream".

Definition asset (path : rstring) : option EmbeddedAsset :=
  let path := normalize_path path in (λ data, mkAsset data (content_type path)) <$> embedded path.

Definition webui_response (path : rstring) : Response :=
  match asset path with Some asset => Asset asset | None => Plain 404 end.

(** [Result<Json<T>, ApiError>] as a response; [wrap] is how the handler turns
    an error of the operation into one of the API. *)
Definition json (wrap : Status → ApiError) (m : AM Reply) (w : ApiWorld) : Response * ApiWorld :=
  match m w with
  | (Ok reply, w') => (Json reply, w')
  | (Err s, w') => let e := wrap s in (ErrorBody (ae_status e) (ae_message e), w')
  | (Panic, w') => (Aborted, w')
  end.

(** The guard at the head of every handler of the API. *)
Definition guarded (st : DaemonState) (request : Request) (k : ApiWorld → Response * ApiWorld) (w : ApiWorld) :
    Response * ApiWorld :=
  match authorize (rq_authorization request) (ds_api_token st) with
  | Ok _ => k w
  | Err e => (ErrorBody (ae_status e) (ae_message e), w)
  | Panic => (Aborted, w)
  end.

(** A route with a parameter: a segment that does not decode is rejected. *)
Definition with_param (param : rstring) (k : rstring → ApiWorld → Response * ApiWorld) (w : ApiWorld) : Response * ApiWorld :=
  match decode param with Some p => k p w | None => (Plain 400, w) end.

(** [ApiError::internal] on every error of the operation. *)
Definition as_internal (s : Status) : ApiError := internal (st_message s).

Definition handle_route (env : Env) (st : DaemonState) (request : Request) (r : Route) (w : ApiWorld) :
    Response * ApiWorld :=
  let guarded := guarded st request in
  match r with
  | Healthz | Readyz => (Plain 200, w)
  | MetricsRoute => (match ds_metrics st with Some text => Metrics text | None => Plain 404 end, w)
  | WebuiIndex => (webui_response (str "index.html"), w)
  | WebuiAsset path => with_param path (λ path w, (webui_response (str "assets/" ++ path), w)) w
  | Fallback =>
    (if bool_decide (strip_prefix (str "/api/") (rq_path request) = None) then webui_response (str "index.html")
     else Plain 404, w)
  | StatusRoute => guarded (json as_internal (mret (status st))) w
  | ListTrusted => guarded (json as_internal list_trusted) w
  | ListLan => guarded (json as_internal (list_lan env)) w
  | ListPending => guarded (json as_internal list_pending_localsend) w
  | Approve fingerprint =>
    with_param fingerprint (λ fingerprint,
      match rq_approve_body request with
      | inl rejection => λ w, (Plain rejection, w)
      | inr label => guarded (json as_internal (approve_localsend env fingerprint label))
      end) w
  | Deny fingerprint =>
    with_param fingerprint (λ fingerprint, guarded (json as_internal (deny_localsend env fingerprint))) w
  | ListInbox => guarded (json as_internal (list_inbox st)) w
  | ListActive => guarded (json as_internal (mret ActiveTransfers)) w
  | SendRoute =>
    match rq_send_body request with
    | inl rejection => (Plain rejection, w)
    | inr dto =>
      guarded (λ w,
        match into_proto dto with
        | Ok request => json from_status (send_transfer env st request) w
        | Err e => (ErrorBody (ae_status e) (ae_message e), w)
        | Panic => (Aborted, w)
        end) w
    end
  | Resume transfer_id => with_param transfer_id (λ id, guarded (json from_status (resume_transfer id))) w
  | Cancel transfer_id => with_param transfer_id (λ id, guarded (json as_internal (cancel_transfer id))) w
  | EventsRoute => guarded (json as_internal events) w
  end.

Definition handle (env : Env) (st : DaemonState) (request : Request) (w : ApiWorld) : Response * ApiWorld :=
  let r := router (rq_path request) in
  let allowed :=
    match r with
    | Fallback => true
    | _ => match rq_method request with GET | HEAD => negb (is_post r) | POST => is_post r | OtherMethod => false end
    end in
  if allowed then handle_route env st request r w else (Plain 405, w).
End operations.

(** ** Correctness *)

Section access.
Context `{HashOrder} `{CryptoSuite} `{Lowercase} `{Uuid} (error_text : CoreError → rstring)
  (decode : rstring → option rstring) (embedded : rstring → option bytes).
Abbreviation handle := (handle error_text decode embedded).
Abbreviation handle_route := (handle_route error_text decode embedded).
Abbreviation grpc := (grpc error_text).

(** The header that carries the token. *)
Definition presents (h : Header) (token : rstring) : Prop := h = Value (str "Bearer " ++ token).

#[export] Instance Header_eq_dec : EqDecision Header.
Proof. solve_decision. Defined.
#[export] Instance presents_dec h token : Decision (presents h token).
Proof. unfold presents. apply _. Defined.

(** Rust strings hold Unicode scalar values. *)
Definition text_header (h : Header) : Prop := match h with Value v => Forall scalar v | _ => True end.

Lemma utf8_encode_inj s t : Forall scalar s → Forall scalar t → utf8_encode s = utf8_encode t → s = t.
Proof.
  intros Hs Ht Heq. pose proof (utf8_decode_encode s Hs) as Ds. rewrite Heq, utf8_decode_encode in Ds by done. congruence.
Qed.

Lemma strip_prefix_Some p s t : strip_prefix p s = Some t ↔ s = p ++ t.
Proof.
  unfold strip_prefix. case_bool_decide as Hp.
  - split.
    + intros [= <-]. rewrite <-Hp at 1. by rewrite take_drop.
    + intros ->. by rewrite drop_app_length.
  - split; [done|]. intros ->. by rewrite take_app_length in Hp.
Qed.

Lemma bearer_spec h token :
  text_header h → Forall scalar token →
  bearer h token = Ok tt ∧ presents h token ∨ (∃ m, bearer h token = Err m) ∧ ¬ presents h token.
Proof.
  intros Hh Ht. unfold presents. destruct h as [| |v]; cbn [bearer text_header] in *; [right; split; [by eexists|done]..|].
  destruct (strip_prefix (str "Bearer ") v) as [tok|] eqn:Hs.
  - apply strip_prefix_Some in Hs as ->. apply Forall_app in Hh as [_ Hh]. case_bool_decide as Heq; cbn [ensure].
    + left. split; [done|]. by rewrite (utf8_encode_inj tok token).
    + right. split; [by eexists|]. intros Hv. assert (Heqv : str "Bearer " ++ tok = str "Bearer " ++ token) by congruence.
      apply app_inv_head in Heqv as ->. done.
  - right. split; [by eexists|]. intros Hv. assert (Heqv : v = str "Bearer " ++ token) by congruence.
    apply strip_prefix_Some in Heqv. congruence.
Qed.

Lemma guarded_denied st request k w :
  text_header (rq_authorization request) → Forall scalar (ds_api_token st) →
  ¬ presents (rq_authorization request) (ds_api_token st) → ∃ m, guarded st request k w = (ErrorBody 401 m, w).
Proof.
  intros Hh Ht Hp. unfold guarded, authorize. destruct (bearer_spec _ _ Hh Ht) as [[_ ?]|[[m ->] _]]; [done|]. by eexists.
Qed.

Lemma guarded_granted st request k w :
  text_header (rq_authorization request) → Forall scalar (ds_api_token st) →
  presents (rq_authorization request) (ds_api_token st) → guarded st request k w = k w.
Proof.
  intros Hh Ht Hp. unfold guarded, authorize. destruct (bearer_spec _ _ Hh Ht) as [[-> _]|[_ ?]]; done.
Qed.

(** A response that says no, or that only the interface of the web needs. *)
Definition refusal (r : Response) : Prop := match r with Plain _ => True | ErrorBody s _ => s = 401 | _ => False end.
Definition public (r : Response) : Prop := match r with Metrics _ | Asset _ => True | _ => False end.

Lemma route_denied env st request r w :
  text_header (rq_authorization request) → Forall scalar (ds_api_token st) →
  ¬ presents (rq_authorization request) (ds_api_token st) →
  ∃ resp, handle_route env st request r w = (resp, w) ∧
    (refusal resp ∨ public resp ∧
     match r with
     | MetricsRoute | WebuiIndex | WebuiAsset _ => True
     | Fallback => strip_prefix (str "/api/") (rq_path request) = None
     | _ => False
     end).
Proof.
  intros Hh Ht Hp.
  assert (Hg : ∀ k, ∃ resp, guarded st request k w = (resp, w) ∧ refusal resp).
  { intros k. destruct (guarded_denied st request k w Hh Ht Hp) as [m ->]. by eexists. }
  assert (Hg' : ∀ k (P : Prop), ∃ resp, guarded st request k w = (resp, w) ∧ (refusal resp ∨ public resp ∧ P)).
  { intros k P. destruct (Hg k) as (resp & ? & ?). exists resp. by auto. }
  assert (Hw : ∀ p, refusal (webui_response embedded p) ∨ public (webui_response embedded p)).
  { intros p. unfold webui_response. destruct (asset embedded p); [by right|by left]. }
  destruct r; cbn [DaemonHttp.handle_route]; unfold with_param; repeat case_match; try apply Hg';
    try (eexists; split; [reflexivity|]; by left).
  - eexists. split; [reflexivity|]. by right.
  - eexists. split; [reflexivity|]. destruct (Hw (str "index.html")); [by left|by right].
  - eexists. split; [reflexivity|]. destruct (Hw (str "assets/" ++ l)); [by left|by right].
  - match goal with H : bool_decide _ = true |- _ => apply bool_decide_eq_true in H end.
    eexists. split; [reflexivity|]. destruct (Hw (str "index.html")); [by left|by right].
Qed.

Lemma api_route path :
  strip_prefix (str "/api/") path ≠ None →
  match router path with MetricsRoute | WebuiIndex | WebuiAsset _ | Healthz | Readyz => False | _ => True end.
Proof.
  destruct (strip_prefix (str "/api/") path) as [rest|] eqn:Hs; [|done]. intros _.
  apply strip_prefix_Some in Hs as ->. unfold router.
  change (str "/api/" ++ rest) with ([] ++ 47 :: str "api" ++ 47 :: rest).
  rewrite split_on_app, split_on_app by (apply (bool_decide_unpack _); by vm_compute).
  pose proof (split_on_nonempty 47 rest). destruct (split_on 47 rest) as [|b l]; [done|].
  assert (seg (str "api") "assets" = false) as -> by (by vm_compute). assert (seg (str "api") "api" = true) as -> by (by vm_compute).
  cbn [andb]. destruct (seg b "v1"); [|done]. unfold route_v1. by repeat case_match.
Qed.

End access.
