(* ===== verification/Vault.v ===== *)
(** * Secrets on disk

    Model of the vaults: the identity key (crates/core/src/identity/vault.rs),
    the token of the local API (crates/core/src/api_token.rs), and the TLS
    identities of the two protocols ([NativeTlsVault] of
    crates/protocol-native-v1/src/tls.rs, [TlsIdentityVault] of
    crates/protocol-localsend-v2/src/tls.rs), with the functions of the daemon
    and of the command line that start from them.

    A disk is the tree with the set of files only their owner can read (mode
    0600), and with everything the disk has been before: a crash, or another
    user looking, finds one of those snapshots.  A write may stop after any
    byte.  What a key or a certificate is, and how randomness and rcgen make
    one, are parameters. *)

From stdpp Require Import prelude gmap strings.
From Stdlib Require Import ZArith Lia.
From S2P Require Import Prelude RustStr Errors Fs Text Identity.

Local Open Scope Z_scope.

(** ** The disk *)

Record Snapshot := mkSnapshot { sn_fs : fs; sn_private : gset path }.
Record Disk := mkDisk { dk_now : Snapshot; dk_past : list Snapshot }.

(** Everything the disk has been, the present included. *)
Definition snapshots (d : Disk) : list Snapshot := dk_now d :: dk_past d.
Definition becomes (d : Disk) (s : Snapshot) : Disk := mkDisk s (dk_now d :: dk_past d).

Abbreviation DM := (SE Disk io_error).

(** A system call that changes the disk at once, or fails. *)
Definition sys (f : Snapshot → result io_error Snapshot) : DM unit := λ d,
  match f (dk_now d) with
  | Ok s => (Ok tt, becomes d s)
  | Err e => (Err e, d)
  | Panic => (Panic, d)
  end.

Definition sys_create_dir_all (p : path) : DM unit := sys (λ s,
  t ← create_dir_all (sn_fs s) p; Ok (mkSnapshot t (sn_private s))).

(** Opening for writing, truncated; the mode only counts for a new file. *)
Definition sys_open (p : path) (owner_only : bool) : DM unit := sys (λ s,
  match sn_fs s !! resolve p with
  | Some Dir => Err IsADirectory
  | Some (File _) => Ok (mkSnapshot (<[resolve p := File []]> (sn_fs s)) (sn_private s))
  | None =>
    _ ← parent_check (sn_fs s) p;
    Ok (mkSnapshot (<[resolve p := File []]> (sn_fs s))
         (if owner_only then {[ resolve p ]} ∪ sn_private s else sn_private s ∖ {[ resolve p ]}))
  end).

(** Writing an open file, byte after byte. *)
Fixpoint sys_write_all (p : path) (written rest : bytes) : DM unit :=
  match rest with
  | [] => mret tt
  | b :: rest =>
    _ ← sys (λ s, Ok (mkSnapshot (<[resolve p := File (written ++ [b])]> (sn_fs s)) (sn_private s)));
    sys_write_all p (written ++ [b]) rest
  end.

(** [std::fs::write] *)
Definition fs_write (p : path) (b : bytes) : DM unit := _ ← sys_open p false; sys_write_all p [] b.

Definition set_owner_only_permissions (p : path) : DM unit := sys (λ s,
  if path_exists (sn_fs s) p then Ok (mkSnapshot (sn_fs s) ({[ resolve p ]} ∪ sn_private s)) else Err NotFound).

(** The mode goes with the file. *)
Definition sys_rename (src dst : path) : DM unit := sys (λ s,
  t ← rename (sn_fs s) src dst;
  Ok (mkSnapshot t
        (if bool_decide (resolve src ∈ sn_private s)
         then {[ resolve dst ]} ∪ (sn_private s ∖ {[ resolve src ]})
         else sn_private s ∖ {[ resolve src; resolve dst ]}))).

Definition sys_remove_file (p : path) : DM unit := sys (λ s,
  match sn_fs s !! resolve p with
  | Some (File _) => Ok (mkSnapshot (delete (resolve p) (sn_fs s)) (sn_private s ∖ {[ resolve p ]}))
  | Some Dir => Err IsADirectory
  | None => Err NotFound
  end).

(** Calls with their errors in the error type of a crate. *)
Definition io {E A} (wrap : io_error → E) (m : DM A) : SE Disk E A := λ d, (map_err wrap (m d).1, (m d).2).
Definition now_fs {E} : SE Disk E fs := gets (λ d, sn_fs (dk_now d)).

(** [path.with_extension(ext)] *)
Definition with_extension (p : path) (ext : rstring) : path :=
  match last p with
  | Some name =>
    match stem_and_extension name with
    | (Some stem, _) => removelast p ++ [stem ++ 46 :: ext]
    | (None, _) => p
    end
  | None => p
  end.

(** [if let Some(parent) = path.parent() { create_dir_all(parent)? }] *)
Definition create_parent (p : path) : DM unit :=
  match p with [] => mret tt | _ => sys_create_dir_all (removelast p) end.

(** ** The identity key (identity/vault.rs) *)

Definition KEY_LEN : nat := 32.

(** A key pair is its secret bytes. *)
Definition fsvault_load (t : fs) (p : path) : result CoreError (option bytes) :=
  if negb (path_exists t p) then Ok None
  else
    bytes ← map_err CoreIo (read_file t p);
    _ ← ensure (bool_decide (length bytes = KEY_LEN))
          (IdentityVault (str "expected 32 bytes, found " ++ show_dec (zlen bytes)));
    Ok (Some bytes).

Definition fsvault_save (p : path) (keypair : bytes) : SE Disk CoreError unit :=
  io CoreIo
    (_ ← create_parent p;
     let tmp_path := with_extension p (str "key.tmp") in
     _ ← fs_write tmp_path keypair;
     _ ← set_owner_only_permissions tmp_path;
     sys_rename tmp_path p).

Definition fsvault_delete (p : path) : SE Disk CoreError unit :=
  t ← now_fs;
  if path_exists t p then io CoreIo (sys_remove_file p) else mret tt.

(** [load_or_create_identity] of the daemon; [generated] is the fresh key. *)
Definition load_or_create_identity (p : path) (generated : bytes) : SE Disk CoreError bytes :=
  t ← now_fs;
  o ← lift (fsvault_load t p);
  match o with
  | Some keypair => mret keypair
  | None => _ ← fsvault_save p generated; mret generated
  end.

(** ** The token of the API (api_token.rs) *)

Definition TABLE : list Z := str "ABCDEFGHIJKLMNOPQRSTUVWXYZabcdefghijklmnopqrstuvwxyz0123456789-_".
Definition table (n : Z) : Z := TABLE !!! Z.to_nat n.

(** By chunks of three bytes; missing bytes count as zeros. *)
Fixpoint base64url_no_pad (bs : bytes) : rstring :=
  match bs with
  | [] => []
  | [b0] => [table (Z.shiftr b0 2); table (Z.lor (Z.shiftl (Z.land b0 3) 4) (Z.shiftr 0 4))]
  | [b0; b1] =>
    [table (Z.shiftr b0 2); table (Z.lor (Z.shiftl (Z.land b0 3) 4) (Z.shiftr b1 4));
     table (Z.lor (Z.shiftl (Z.land b1 15) 2) (Z.shiftr 0 6))]
  | b0 :: b1 :: b2 :: bs =>
    [table (Z.shiftr b0 2); table (Z.lor (Z.shiftl (Z.land b0 3) 4) (Z.shiftr b1 4));
     table (Z.lor (Z.shiftl (Z.land b1 15) 2) (Z.shiftr b2 6)); table (Z.land b2 63)] ++ base64url_no_pad bs
  end.

Definition api_token_new (token : rstring) : result CoreError rstring :=
  let token := trim token in
  _ ← ensure (negb (bool_decide (token = []))) (IdentityVault (str "api token is blank"));
  Ok token.

(** [generate], from the 32 random bytes. *)
Definition api_token_generate (random : bytes) : rstring := base64url_no_pad random.

Definition token_load (t : fs) (p : path) : result CoreError (option rstring) :=
  if negb (path_exists t p) then Ok None
  else
    bytes ← map_err CoreIo (read_file t p);
    token ← ok_or (utf8_decode bytes) (CoreIo OtherIo);
    token ← api_token_new token;
    Ok (Some token).

Definition write_token_file (p : path) (token : rstring) : DM unit :=
  _ ← sys_open p true; sys_write_all p [] (utf8_encode token).

Definition token_save (p : path) (token : rstring) : SE Disk CoreError unit :=
  io CoreIo
    (_ ← create_parent p;
     let tmp_path := with_extension p (str "token.tmp") in
     _ ← write_token_file tmp_path token;
     _ ← set_owner_only_permissions tmp_path;
     sys_rename tmp_path p).

Definition token_load_or_generate (p : path) (random : bytes) : SE Disk CoreError rstring :=
  t ← now_fs;
  o ← lift (token_load t p);
  match o with
  | Some token => mret token
  | None =>
    let token := api_token_generate random in
    _ ← token_save p token;
    mret token
  end.

(** ** TLS identities (tls.rs of both protocols) *)

Record TlsIdentity := mkTlsIdentity { cert_der : bytes; key_der : bytes }.

(** A vault: its directory, the names of its files, and the errors of its
    crate. *)
Record TlsVault (E : Type) := mkTlsVault {
  tv_config_dir : path; tv_cert_file : rstring; tv_key_file : rstring; tv_io : io_error → E; tv_incomplete : E }.
Arguments mkTlsVault {E}. Arguments tv_config_dir {E}. Arguments tv_cert_file {E}. Arguments tv_key_file {E}.
Arguments tv_io {E}. Arguments tv_incomplete {E}.

Definition native_tls_vault (to_string : io_error → rstring) (config_dir : path) : TlsVault NativeError :=
  mkTlsVault config_dir (str "native-v1.cert.der") (str "native-v1.key.der") (λ e, Crypto (to_string e))
    (Crypto (str "incomplete native TLS identity on disk")).
Definition localsend_tls_vault (config_dir : path) : TlsVault LocalSendError :=
  mkTlsVault config_dir (str "localsend-v2.cert.der") (str "localsend-v2.key.der") LsIo
    (LsCrypto (str "incomplete LocalSend v2 TLS identity on disk")).

Section tls.
Context {E : Type} (v : TlsVault E).

Definition cert_path : path := tv_config_dir v ++ [tv_cert_file v].
Definition key_path : path := tv_config_dir v ++ [tv_key_file v].

Definition tls_load (t : fs) : result E (option TlsIdentity) :=
  match path_exists t cert_path, path_exists t key_path with
  | false, false => Ok None
  | true, true =>
    cert ← map_err (tv_io v) (read_file t cert_path);
    key ← map_err (tv_io v) (read_file t key_path);
    Ok (Some (mkTlsIdentity cert key))
  | _, _ => Err (tv_incomplete v)
  end.

Definition write_atomically (p : path) (b : bytes) (owner_only : bool) : DM unit :=
  let tmp_path := with_extension p (str "tmp") in
  _ ← fs_write tmp_path b;
  _ ← (if owner_only then set_owner_only_permissions tmp_path else mret tt);
  sys_rename tmp_path p.

Definition tls_save (identity : TlsIdentity) : SE Disk E unit :=
  io (tv_io v)
    (_ ← sys_create_dir_all (tv_config_dir v);
     _ ← write_atomically cert_path (cert_der identity) false;
     write_atomically key_path (key_der identity) true).

Definition tls_load_or_generate (generated : result E TlsIdentity) : SE Disk E TlsIdentity :=
  t ← now_fs;
  o ← lift (tls_load t);
  match o with
  | Some identity => mret identity
  | None =>
    identity ← lift generated;
    _ ← tls_save identity;
    mret identity
  end.
End tls.

(** ** Paths *)

Lemma rsplit_dot_spec s before after : rsplit_dot s = Some (before, after) → s = before ++ 46 :: after ∧ 46 ∉ after.
Proof.
  revert before. induction s as [|c s IH]; [done|]. intros before. cbn [rsplit_dot].
  destruct (rsplit_dot s) as [[b a]|] eqn:Hs.
  - intros [= <- <-]. destruct (IH b eq_refl) as [-> Ha]. done.
  - destruct (Z.eqb_spec c 46) as [->|]; [|done]. intros [= <- <-]. split; [done|]. clear IH.
    induction s as [|c s IH]; [apply not_elem_of_nil|]. cbn [rsplit_dot] in Hs.
    destruct (rsplit_dot s) as [[]|]; [done|]. destruct (Z.eqb_spec c 46); [done|].
    apply not_elem_of_cons. split; [done|]. by apply IH.
Qed.

Lemma stem_eq name stem ext :
  stem_and_extension name = (Some stem, ext) →
  name ≠ [] ∧ stem ≠ [] ∧ match ext with Some e => name = stem ++ 46 :: e ∧ 46 ∉ e | None => name = stem end.
Proof.
  unfold stem_and_extension, component_file_name. case_bool_decide as Hn; [done|].
  assert (Hne : name ≠ []) by tauto.
  destruct (rsplit_dot name) as [[[|c b] a]|] eqn:Hs; intros [= <- <-]; [done| |done].
  destruct (rsplit_dot_spec _ _ _ Hs) as [? ?]. done.
Qed.

Lemma stem_total name : plain name → name ≠ [] → ∃ stem ext, stem_and_extension name = (Some stem, ext).
Proof.
  intros [Hd Hdd] Hne. unfold stem_and_extension, component_file_name. rewrite bool_decide_false by tauto.
  destruct (rsplit_dot name) as [[[|]]|]; eauto.
Qed.

(** The temporary file is next to the file, and never the file itself. *)
Lemma with_extension_spec dir name ext :
  plain name → name ≠ [] → 46 ∈ ext →
  ∃ tmp, with_extension (dir ++ [name]) ext = dir ++ [tmp] ∧ plain tmp ∧ tmp ≠ name.
Proof.
  intros Hp Hne Hext. destruct (stem_total name Hp Hne) as (stem & e & Hs).
  destruct (stem_eq _ _ _ Hs) as (_ & Hst & He).
  exists (stem ++ 46 :: ext). unfold with_extension. rewrite last_snoc, Hs, removelast_last. split; [done|].
  assert (Hl : (3 ≤ length (stem ++ 46%Z :: ext))%nat).
  { rewrite length_app. destruct stem; [done|]. destruct ext; [by apply elem_of_nil in Hext|]. simpl. lia. }
  split.
  - split; intros Heq; rewrite Heq in Hl; vm_compute in Hl; lia.
  - intros Heq. destruct e as [e|]; [destruct He as [He Hn]|].
    + rewrite He in Heq. apply app_inv_head in Heq. congruence.
    + apply (f_equal length) in Heq. rewrite He, length_app in Heq. simpl in Heq. lia.
Qed.

(** ** Replacing a file *)

(** A disk on which the file [name] of [dir] can be replaced through [tmp]. *)
Record replaceable (t : fs) (dir : path) (name tmp : rstring) : Prop := {
  rp_dir : Forall plain dir;
  rp_name : plain name;
  rp_tmp : plain tmp;
  rp_apart : tmp ≠ name;
  rp_way q b : q `prefix_of` dir → t !! q ≠ Some (File b);
  rp_no_dir : t !! (dir ++ [name]) ≠ Some Dir;
  rp_tmp_no_dir : t !! (dir ++ [tmp]) ≠ Some Dir }.

Section replace.
Context (dir : path) (name tmp : rstring) (b : bytes).
Abbreviation file := (dir ++ [name]).
Abbreviation part := (dir ++ [tmp]).

(** Every disk on the way: only the temporary file differs from [t], and it
    holds a beginning of the new content; its mode is [private]. *)
Definition on_the_way (t : fs) (pr : gset path) (s : Snapshot) : Prop :=
  (∃ k, sn_fs s = <[part := File (take k b)]> t) ∧
  (sn_private s = pr ∨ sn_private s = {[ part ]} ∪ pr ∧ sn_fs s = <[part := File b]> t).

Lemma sys_write_all_run t pr rest : ∀ written d,
  resolve part = part → b = written ++ rest →
  dk_now d = mkSnapshot (<[part := File written]> t) pr →
  ∃ d' l, sys_write_all part written rest d = (Ok tt, d') ∧
    dk_now d' = mkSnapshot (<[part := File b]> t) pr ∧ snapshots d' = l ++ snapshots d ∧
    Forall (on_the_way t pr) l.
Proof.
  induction rest as [|x rest IH]; intros written d Hr Hb Hnow.
  { exists d, []. rewrite app_nil_r in Hb. subst written. by rewrite Hnow. }
  cbn [sys_write_all]. unfold mbind, SE_bind, sys. rewrite Hnow, Hr. cbn [sn_fs sn_private].
  rewrite insert_insert_eq.
  destruct (IH (written ++ [x]) (becomes d (mkSnapshot (<[part := File (written ++ [x])]> t) pr)))
    as (d' & l & Hrun & Hnow' & Hsn & Hl); [done|by rewrite <-app_assoc|done|].
  exists d', (l ++ [mkSnapshot (<[part := File (written ++ [x])]> t) pr]). split; [done|]. split; [done|].
  split; [by rewrite Hsn, <-app_assoc|]. apply Forall_app. split; [done|]. apply Forall_singleton.
  split; [|by left]. exists (length (written ++ [x])). simpl.
  assert (Hb' : b = (written ++ [x]) ++ rest) by (by rewrite <-app_assoc). rewrite Hb' at 1. by rewrite take_app_length.
Qed.

Lemma resolve_entry t name' :
  replaceable t dir name tmp → plain name' → resolve (dir ++ [name']) = dir ++ [name'].
Proof. intros Hr Hn. apply resolve_plain, Forall_app. split; [apply (rp_dir _ _ _ _ Hr)|by constructor]. Qed.

Lemma parent_check_entry t name' :
  replaceable t dir name tmp → plain name' → dir = [] ∨ t !! dir = Some Dir → parent_check t (dir ++ [name']) = Ok tt.
Proof.
  intros Hr Hn Hdir. unfold parent_check. rewrite (resolve_entry t) by done. rewrite removelast_last.
  destruct Hdir as [->|Hdir]; [done|]. destruct dir; [done|]. by rewrite Hdir.
Qed.

(** The modes once the temporary file is open. *)
Definition opened_private (s : Snapshot) (own : bool) : gset path :=
  match sn_fs s !! part with
  | None => if own then {[ part ]} ∪ sn_private s else sn_private s ∖ {[ part ]}
  | Some _ => sn_private s
  end.

(** What the vaults do with a file, without creating its directory. *)
Definition replace_via (own chmod : bool) : DM unit :=
  _ ← sys_open part own; _ ← sys_write_all part [] b;
  _ ← (if chmod then set_owner_only_permissions part else mret tt); sys_rename part file.

Lemma replace_run own chmod d :
  let t := sn_fs (dk_now d) in
  replaceable t dir name tmp → dir = [] ∨ t !! dir = Some Dir →
  ∃ d' l,
    replace_via own chmod d = (Ok tt, d') ∧
    sn_fs (dk_now d') = <[file := File b]> (delete part t) ∧
    (chmod = true → file ∈ sn_private (dk_now d')) ∧
    snapshots d' = dk_now d' :: l ++ snapshots d ∧ Forall (on_the_way t (opened_private (dk_now d) own)) l ∧
    mkSnapshot (<[part := File b]> t) (opened_private (dk_now d) own) ∈ l.
Proof.
  intros t Hr Hdir. pose proof (resolve_entry t tmp Hr (rp_tmp _ _ _ _ Hr)) as Hpart.
  pose proof (resolve_entry t name Hr (rp_name _ _ _ _ Hr)) as Hfile.
  assert (Hne : file ≠ part) by (intros [_ Heq]%app_inj_tail; by apply (rp_apart _ _ _ _ Hr)).
  set (pr := opened_private (dk_now d) own).
  assert (Hopen : sys_open part own d = (Ok tt, becomes d (mkSnapshot (<[part := File []]> t) pr))).
  { unfold sys_open, sys, pr, opened_private. rewrite Hpart. fold t. pose proof (rp_tmp_no_dir _ _ _ _ Hr) as Hnd.
    destruct (t !! part) as [[]|] eqn:Ht; [reflexivity|by destruct Hnd|].
    by rewrite (parent_check_entry t tmp Hr (rp_tmp _ _ _ _ Hr) Hdir). }
  unfold replace_via. rewrite (SE_bind_eq _ _ _ _ _ Hopen).
  destruct (sys_write_all_run t pr b [] (becomes d (mkSnapshot (<[part := File []]> t) pr)))
    as (d1 & l & Hw & Hnow & Hsn & Hl); [done..|].
  rewrite (SE_bind_eq _ _ _ _ _ Hw).
  assert (Hexists : path_exists (<[part := File b]> t) part = true).
  { unfold path_exists. rewrite Hpart, lookup_insert_eq. apply orb_true_r. }
  assert (Hren : ∀ past pr', ∃ pr'', sys_rename part file (mkDisk (mkSnapshot (<[part := File b]> t) pr') past) =
      (Ok tt, mkDisk (mkSnapshot (<[file := File b]> (delete part t)) pr'') (mkSnapshot (<[part := File b]> t) pr' :: past))
      ∧ (part ∈ pr' → file ∈ pr'')).
  { intros past pr'. unfold sys_rename, sys, rename. cbn [dk_now sn_fs sn_private].
    rewrite Hpart, Hfile, lookup_insert_eq, lookup_insert_ne, delete_insert_eq by done.
    pose proof (rp_no_dir _ _ _ _ Hr) as Hnd.
    assert (Hpc : parent_check (<[part := File b]> t) file = Ok tt).
    { unfold parent_check. rewrite Hfile, removelast_last. destruct Hdir as [->|Hd]; [done|].
      destruct dir as [|c dir']; [done|]. rewrite lookup_insert_ne, Hd; [done|].
      intros Heq%(f_equal length). rewrite length_app in Heq. simpl in Heq. lia. }
    eexists. split; [destruct (t !! file) as [[]|]; [reflexivity|by destruct Hnd|by rewrite Hpc]|].
    intros Hp. rewrite bool_decide_true by done. set_solver. }
  assert (Hl' : Forall (on_the_way t pr) (l ++ [mkSnapshot (<[part := File []]> t) pr])).
  { apply Forall_app. split; [done|]. apply Forall_singleton. split; [by exists 0%nat|by left]. }
  destruct d1 as [now1 past1]. simpl in Hnow. subst now1.
  assert (Hin : mkSnapshot (<[part := File b]> t) pr ∈ l ++ [mkSnapshot (<[part := File []]> t) pr]).
  { unfold snapshots in Hsn. cbn [dk_now dk_past becomes] in Hsn. destruct l as [|s l]; injection Hsn as <- _; by left. }
  destruct chmod.
  - set (s2 := mkSnapshot (<[part := File b]> t) ({[ part ]} ∪ pr)).
    assert (Hch : set_owner_only_permissions part (mkDisk (mkSnapshot (<[part := File b]> t) pr) past1) =
      (Ok tt, mkDisk s2 (mkSnapshot (<[part := File b]> t) pr :: past1))).
    { unfold set_owner_only_permissions, sys. cbn [dk_now sn_fs sn_private]. by rewrite Hexists, Hpart. }
    rewrite (SE_bind_eq _ _ _ _ _ Hch). destruct (Hren (mkSnapshot (<[part := File b]> t) pr :: past1) ({[ part ]} ∪ pr))
      as (pr'' & Hrun & Hpr).
    eexists _, (s2 :: l ++ [mkSnapshot (<[part := File []]> t) pr]). split; [exact Hrun|].
    split; [done|]. split; [intros _; apply Hpr; set_solver|]. split.
    + unfold snapshots in *. cbn [dk_now dk_past] in *. rewrite Hsn. simpl. by rewrite <-app_assoc.
    + split; [|by right]. constructor; [|done]. split; [exists (length b); by rewrite take_ge by done|by right].
  - destruct (Hren past1 pr) as (pr'' & Hrun & Hpr).
    eexists _, (l ++ [mkSnapshot (<[part := File []]> t) pr]). split; [exact Hrun|].
    split; [done|]. split; [done|]. split; [|done].
    unfold snapshots in *. cbn [dk_now dk_past] in *. rewrite Hsn. simpl. by rewrite <-app_assoc.
Qed.

(** [s] differs from [t] in the file and the temporary file only. *)
Definition elsewhere_same (t : fs) (s : Snapshot) : Prop :=
  ∀ q c, q ≠ file → q ≠ part → t !! q = Some (File c) ↔ sn_fs s !! q = Some (File c).

(** A disk on the way, seen from the start, and whether the new content can
    only be read by the owner. *)
Record underway (t : fs) (private : bool) (s : Snapshot) : Prop := {
  uw_file : sn_fs s !! file = t !! file;
  uw_part : sn_fs s !! part = t !! part ∨ ∃ k, sn_fs s !! part = Some (File (take k b));
  uw_private : private = true → sn_fs s !! part = t !! part ∨ part ∈ sn_private s;
  uw_elsewhere : elsewhere_same t s }.

Definition persist (own chmod : bool) : DM unit := _ ← sys_create_dir_all dir; replace_via own chmod.

Lemma not_prefix_entry name' q : q `prefix_of` dir → q ≠ dir ++ [name'].
Proof. intros [k ->] Heq%(f_equal length). rewrite !length_app in Heq. simpl in Heq. lia. Qed.

Lemma persist_run own chmod d :
  let t := sn_fs (dk_now d) in
  replaceable t dir name tmp →
  ∃ d' l,
    persist own chmod d = (Ok tt, d') ∧
    (∃ t1, create_dir_all t dir = Ok t1 ∧ sn_fs (dk_now d') = <[file := File b]> (delete part t1)) ∧
    (chmod = true → file ∈ sn_private (dk_now d')) ∧
    elsewhere_same t (dk_now d') ∧
    snapshots d' = dk_now d' :: l ++ snapshots d ∧
    Forall (underway t (own && bool_decide (t !! part = None ∨ part ∈ sn_private (dk_now d)))) l ∧
    ∃ s, s ∈ l ∧ sn_fs s !! part = Some (File b) ∧ sn_private s = opened_private (dk_now d) own.
Proof.
  intros t Hr. unfold persist.
  assert (Hdirr : resolve dir = dir) by (apply resolve_plain, (rp_dir _ _ _ _ Hr)).
  destruct (create_dir_all_succeeds t dir) as [t1 Ht1]; [rewrite Hdirr; apply (rp_way _ _ _ _ Hr)|].
  pose proof (create_dir_all_Ok _ _ _ Ht1) as Hlook. rewrite Hdirr in Hlook.
  set (s1 := mkSnapshot t1 (sn_private (dk_now d))).
  assert (Hmk : sys_create_dir_all dir d = (Ok tt, becomes d s1)).
  { unfold sys_create_dir_all, sys. fold t. by rewrite Ht1. }
  rewrite (SE_bind_eq _ _ _ _ _ Hmk).
  assert (Hentry : ∀ name', t1 !! (dir ++ [name']) = t !! (dir ++ [name'])).
  { intros name'. rewrite Hlook, decide_False; [done|]. intros [_ Hp]. by apply (not_prefix_entry name' _ Hp). }
  assert (Hsame : ∀ q c, t !! q = Some (File c) ↔ t1 !! q = Some (File c)).
  { intros q c. rewrite Hlook. case_decide as Hp; [|done]. split; [|done]. intros Hq.
    by destruct (rp_way _ _ _ _ Hr q c (proj2 Hp)). }
  assert (Hr1 : replaceable t1 dir name tmp).
  { destruct Hr. split; rewrite ?Hentry; try done. intros q c Hp. rewrite <-Hsame. by apply rp_way0. }
  assert (Hdir1 : dir = [] ∨ t1 !! dir = Some Dir).
  { destruct (decide (dir = [])) as [|Hne]; [by left|right]. rewrite Hlook. by rewrite decide_True. }
  destruct (replace_run own chmod (becomes d s1)) as (d' & l & Hrun & Hfs & Hpriv & Hsn & Hl & Hin); [done..|].
  cbn [becomes dk_now sn_fs s1] in Hfs, Hl, Hin.
  assert (Hne : file ≠ part) by (intros [_ Heq]%app_inj_tail; by apply (rp_apart _ _ _ _ Hr)).
  exists d', (l ++ [s1]). split; [done|].
  split; [by exists t1|]. split; [done|]. split.
  { intros q c Hq1 Hq2. rewrite Hfs, lookup_insert_ne, lookup_delete_ne by done. apply Hsame. }
  split; [rewrite Hsn; cbn; by rewrite <-app_assoc|]. split.
  - apply Forall_app. split.
    + eapply Forall_impl; [exact Hl|]. intros s [[k Hk] Hpr].
      split; rewrite ?Hk; rewrite ?lookup_insert_eq, ?lookup_insert_ne by done; eauto.
      * intros [-> Hown%bool_decide_eq_true]%andb_true_iff. right.
        assert (Hop : part ∈ opened_private s1 true).
        { unfold opened_private. cbn. rewrite Hentry. fold t. destruct Hown as [->|Hown]; [set_solver|].
          destruct (t !! part); set_solver. }
        destruct Hpr as [->|[-> _]]; set_solver.
      * intros q c Hq1 Hq2. rewrite Hk, lookup_insert_ne by done. apply Hsame.
    + apply Forall_singleton. split; cbn; eauto. intros q c _ _. apply Hsame.
  - eexists. split; [apply elem_of_app; left; exact Hin|]. cbn. split; [by rewrite lookup_insert_eq|].
    unfold opened_private. cbn. by rewrite Hentry.
Qed.
End replace.

(** ** The token *)

Lemma table_char n : 0 ≤ n < 64 → is_ascii (table n) = true ∧ is_whitespace (table n) = false ∧ 33 ≤ table n ≤ 126.
Proof.
  intros Hn.
  assert (Hall : Forall (λ n, is_ascii (table n) = true ∧ is_whitespace (table n) = false ∧ 33 ≤ table n ≤ 126) (seqZ 0 64))
    by (apply (bool_decide_unpack _); vm_compute; done).
  rewrite Forall_forall in Hall. apply Hall, elem_of_seqZ. lia.
Qed.

Lemma table_inj m n : 0 ≤ m < 64 → 0 ≤ n < 64 → table m = table n → m = n.
Proof.
  intros Hm Hn.
  assert (Hall : Forall (λ m, Forall (λ n, table m = table n → m = n) (seqZ 0 64)) (seqZ 0 64))
    by (apply (bool_decide_unpack _); vm_compute; done).
  rewrite Forall_forall in Hall. specialize (Hall m). rewrite Forall_forall in Hall. apply Hall; apply elem_of_seqZ; lia.
Qed.

(** The four numbers of a chunk, by division. *)
Lemma sextets b0 b1 b2 :
  byte_ok b0 → byte_ok b1 → byte_ok b2 →
  Z.shiftr b0 2 = b0 / 4 ∧
  Z.lor (Z.shiftl (Z.land b0 3) 4) (Z.shiftr b1 4) = (b0 mod 4) * 16 + b1 / 16 ∧
  Z.lor (Z.shiftl (Z.land b1 15) 2) (Z.shiftr b2 6) = (b1 mod 16) * 4 + b2 / 64 ∧
  Z.land b2 63 = b2 mod 64.
Proof.
  unfold byte_ok. intros H0 H1 H2.
  change 3 with (Z.ones 2). change 15 with (Z.ones 4). change 63 with (Z.ones 6).
  rewrite !Z.land_ones, !Z.shiftr_div_pow2 by lia. change (2 ^ 2) with 4. change (2 ^ 4) with 16. change (2 ^ 6) with 64.
  assert (Ha : Forall (λ x, Forall (λ y, Z.lor (Z.shiftl x 4) y = x * 16 + y) (seqZ 0 16)) (seqZ 0 4))
    by (apply (bool_decide_unpack _); vm_compute; done).
  assert (Hb : Forall (λ x, Forall (λ y, Z.lor (Z.shiftl x 2) y = x * 4 + y) (seqZ 0 4)) (seqZ 0 16))
    by (apply (bool_decide_unpack _); vm_compute; done).
  rewrite Forall_forall in Ha, Hb. specialize (Ha (b0 mod 4)). specialize (Hb (b1 mod 16)).
  rewrite Forall_forall in Ha, Hb. split_and!; [done| | |done].
  - apply Ha; apply elem_of_seqZ; Z.to_euclidean_division_equations; lia.
  - apply Hb; apply elem_of_seqZ; Z.to_euclidean_division_equations; lia.
Qed.

(** Induction on byte strings by chunks of three. *)
Lemma chunks_ind (P : bytes → Prop) :
  P [] → (∀ a, P [a]) → (∀ a b, P [a; b]) → (∀ a b c l, P l → P (a :: b :: c :: l)) → ∀ l, P l.
Proof.
  intros H0 H1 H2 H3. fix IH 1. intros [|a [|b [|c l]]]; [exact H0|apply H1|apply H2|]. apply H3, IH.
Qed.

Lemma sextets_eq b0 b1 b2 c0 c1 c2 :
  byte_ok b0 → byte_ok b1 → byte_ok b2 → byte_ok c0 → byte_ok c1 → byte_ok c2 →
  (table (b0 / 4) = table (c0 / 4) → table ((b0 mod 4) * 16 + b1 / 16) = table ((c0 mod 4) * 16 + c1 / 16) →
   b0 = c0 ∧ b1 / 16 = c1 / 16) ∧
  (b1 / 16 = c1 / 16 → table ((b1 mod 16) * 4 + b2 / 64) = table ((c1 mod 16) * 4 + c2 / 64) →
   b1 = c1 ∧ b2 / 64 = c2 / 64) ∧
  (b2 / 64 = c2 / 64 → table (b2 mod 64) = table (c2 mod 64) → b2 = c2).
Proof.
  unfold byte_ok. intros. split_and!.
  - intros E0%table_inj E1%table_inj; Z.to_euclidean_division_equations; lia.
  - intros E0 E1%table_inj; Z.to_euclidean_division_equations; lia.
  - intros E0 E1%table_inj; Z.to_euclidean_division_equations; lia.
Qed.

Lemma base64_chars bs :
  Forall byte_ok bs → Forall (λ c, is_ascii c = true ∧ is_whitespace c = false ∧ 33 ≤ c ≤ 126) (base64url_no_pad bs).
Proof.
  assert (H0 : byte_ok 0) by (unfold byte_ok; lia).
  induction bs as [|a|a b|a b c l IH] using chunks_ind; intros Hbs; cbn [base64url_no_pad]; [constructor|..];
    repeat (apply Forall_cons in Hbs as [? Hbs]).
  - destruct (sextets a 0 0) as (-> & -> & _); [done..|]. unfold byte_ok in *.
    repeat constructor; apply table_char; Z.to_euclidean_division_equations; lia.
  - destruct (sextets a b 0) as (-> & -> & -> & _); [done..|]. unfold byte_ok in *.
    repeat constructor; apply table_char; Z.to_euclidean_division_equations; lia.
  - destruct (sextets a b c) as (-> & -> & -> & ->); [done..|].
    apply Forall_app. split; [|by apply IH]. unfold byte_ok in *.
    repeat constructor; apply table_char; Z.to_euclidean_division_equations; lia.
Qed.

Lemma base64_inj bs : ∀ cs,
  length bs = length cs → Forall byte_ok bs → Forall byte_ok cs → base64url_no_pad bs = base64url_no_pad cs → bs = cs.
Proof.
  assert (H0 : byte_ok 0) by (unfold byte_ok; lia).
  induction bs as [|a|a b|a b c l IH] using chunks_ind; intros cs Hl Hb Hc;
    destruct cs as [|a' [|b' [|c' cs]]]; try discriminate Hl; cbn [base64url_no_pad]; try done;
    repeat (apply Forall_cons in Hb as [? Hb]); repeat (apply Forall_cons in Hc as [? Hc]).
  - destruct (sextets a 0 0) as (-> & -> & _); [done..|]. destruct (sextets a' 0 0) as (-> & -> & _); [done..|].
    intros [= E0 E1]. destruct (sextets_eq a 0 0 a' 0 0) as (S0 & _ & _); [done..|]. by destruct (S0 E0 E1) as [-> _].
  - destruct (sextets a b 0) as (-> & -> & -> & _); [done..|]. destruct (sextets a' b' 0) as (-> & -> & -> & _); [done..|].
    intros [= E0 E1 E2]. destruct (sextets_eq a b 0 a' b' 0) as (S0 & S1 & _); [done..|].
    destruct (S0 E0 E1) as [-> Hb1]. by destruct (S1 Hb1 E2) as [-> _].
  - destruct (sextets a b c) as (-> & -> & -> & ->); [done..|]. destruct (sextets a' b' c') as (-> & -> & -> & ->); [done..|].
    cbn [app]. intros [= E0 E1 E2 E3 Er]. destruct (sextets_eq a b c a' b' c') as (S0 & S1 & S2); [done..|].
    destruct (S0 E0 E1) as [-> Hb1]. destruct (S1 Hb1 E2) as [-> Hb2]. rewrite (S2 Hb2 E3).
    do 3 f_equal. apply IH; try done. simpl in Hl. lia.
Qed.

Lemma length_base64 bs : length (base64url_no_pad bs) = ((length bs * 4 + 2) / 3)%nat.
Proof.
  induction bs as [|a|a b|a b c l IH] using chunks_ind; [done..|]. cbn [base64url_no_pad]. rewrite length_app, IH.
  cbn [length]. replace (S (S (S (length l))) * 4 + 2)%nat with (length l * 4 + 2 + 4 * 3)%nat by lia.
  rewrite Nat.div_add by lia. lia.
Qed.

(** ** The vaults on disk *)

Section vaults.
Context (dir : path) (name tmp : rstring).
Abbreviation file := (dir ++ [name]).
Abbreviation part := (dir ++ [tmp]).

Lemma io_Ok {E} (wrap : io_error → E) m d d' : m d = (Ok tt, d') → io wrap m d = (Ok tt, d').
Proof. unfold io. by intros ->. Qed.

Lemma bind_twice {E A B C} (m : SE Disk E A) (k : A → SE Disk E B) (h : B → SE Disk E C) d :
  (b ← (a ← m; k a); h b) d = (a ← m; b ← k a; h b) d.
Proof. unfold mbind, SE_bind. by destruct (m d) as [[]]. Qed.

Lemma create_parent_entry d : create_parent file d = sys_create_dir_all dir d.
Proof. unfold create_parent. rewrite removelast_last. by destruct dir. Qed.

Lemma save_is_persist (own : bool) b d :
  (_ ← create_parent file;
   _ ← (_ ← sys_open part own; sys_write_all part [] b);
   _ ← set_owner_only_permissions part;
   sys_rename part file) d = persist dir name tmp b own true d.
Proof.
  unfold persist, replace_via. unfold mbind at 1, SE_bind at 1. unfold mbind at 4, SE_bind at 4.
  rewrite create_parent_entry. destruct (sys_create_dir_all dir d) as [[[]| |] d1]; [|done..]. apply bind_twice.
Qed.

Lemma fsvault_save_run b d d' :
  with_extension file (str "key.tmp") = part →
  persist dir name tmp b false true d = (Ok tt, d') → fsvault_save file b d = (Ok tt, d').
Proof. intros Ht Hp. apply io_Ok. rewrite <-Hp, <-save_is_persist. by rewrite Ht. Qed.

Lemma token_save_run token d d' :
  with_extension file (str "token.tmp") = part →
  persist dir name tmp (utf8_encode token) true true d = (Ok tt, d') → token_save file token d = (Ok tt, d').
Proof. intros Ht Hp. apply io_Ok. rewrite <-Hp, <-save_is_persist. by rewrite Ht. Qed.

Lemma path_exists_entry t : Forall plain dir → plain name → path_exists t file = bool_decide (is_Some (t !! file)).
Proof.
  intros Hd Hn. unfold path_exists. rewrite resolve_plain by (apply Forall_app; split; [done|by constructor]).
  rewrite bool_decide_false; [done|]. by destruct dir.
Qed.

Lemma read_entry t : Forall plain dir → plain name → read_file t file =
  match t !! file with Some (File b) => Ok b | Some Dir => Err IsADirectory | None => Err NotFound end.
Proof. intros Hd Hn. unfold read_file. by rewrite resolve_plain by (apply Forall_app; split; [done|by constructor]). Qed.
End vaults.

(** ** What survives a crash *)

Section survival.
Context (dir : path) (name tmp : rstring).
Abbreviation file := (dir ++ [name]).
Abbreviation part := (dir ++ [tmp]).

Lemma fsvault_load_entry t : Forall plain dir → plain name → fsvault_load t file =
  match t !! file with
  | None => Ok None
  | Some Dir => Err (CoreIo IsADirectory)
  | Some (File b) =>
    if bool_decide (length b = KEY_LEN) then Ok (Some b)
    else Err (IdentityVault (str "expected 32 bytes, found " ++ show_dec (zlen b)))
  end.
Proof.
  intros Hd Hn. unfold fsvault_load. rewrite path_exists_entry, read_entry by done.
  destruct (t !! file) as [[b|]|] eqn:Ht; cbn [negb bool_decide]; [|done|done].
  rewrite bool_decide_true by eauto. cbn [negb map_err mbind result_bind]. by destruct (bool_decide (length b = KEY_LEN)).
Qed.

Lemma fsvault_load_saved key t : Forall plain dir → plain name → length key = KEY_LEN →
  t !! file = Some (File key) → fsvault_load t file = Ok (Some key).
Proof. intros Hd Hn Hlen Ht. rewrite fsvault_load_entry, Ht by done. by rewrite bool_decide_true. Qed.

Lemma identity_loaded key generated d :
  fsvault_load (sn_fs (dk_now d)) file = Ok (Some key) → load_or_create_identity file generated d = (Ok key, d).
Proof. intros Hl. unfold load_or_create_identity, now_fs, gets, mbind, SE_bind, lift. by rewrite Hl. Qed.

(** A saved key is loaded. *)
Lemma key_saved key d :
  replaceable (sn_fs (dk_now d)) dir name tmp → with_extension file (str "key.tmp") = part → length key = KEY_LEN →
  ∃ d', fsvault_save file key d = (Ok tt, d') ∧ fsvault_load (sn_fs (dk_now d')) file = Ok (Some key).
Proof.
  intros Hr Hext Hlen. destruct (persist_run dir name tmp key false true d Hr) as (d' & l & Hrun & (t1 & _ & Hfs) & _).
  exists d'. split; [by eapply fsvault_save_run|].
  apply fsvault_load_saved; [apply (rp_dir _ _ _ _ Hr)|apply (rp_name _ _ _ _ Hr)|done|]. by rewrite Hfs, lookup_insert_eq.
Qed.

(** The identity key survives.  Saving a key where there may be an older
    one succeeds and touches no other file; whenever it is interrupted, after
    any byte, the next start loads either what was there before or the whole
    new key; afterwards every start loads the new key without writing, and
    the file is readable by its owner only.  On the way, though, the
    temporary file holds the whole key while anybody may read it. *)
Theorem identity_key_survives key d :
  let t := sn_fs (dk_now d) in
  replaceable t dir name tmp → with_extension file (str "key.tmp") = part → length key = KEY_LEN →
  ∃ d' l,
    fsvault_save file key d = (Ok tt, d') ∧ snapshots d' = l ++ snapshots d ∧
    fsvault_load (sn_fs (dk_now d')) file = Ok (Some key) ∧ file ∈ sn_private (dk_now d') ∧
    (∀ generated, load_or_create_identity file generated d' = (Ok key, d')) ∧
    Forall (λ s, elsewhere_same dir name tmp t s ∧
      (fsvault_load (sn_fs s) file = fsvault_load t file ∨ fsvault_load (sn_fs s) file = Ok (Some key))) l ∧
    (t !! part = None → ∃ s, s ∈ l ∧ sn_fs s !! part = Some (File key) ∧ part ∉ sn_private s).
Proof.
  intros t Hr Hext Hlen. pose proof (rp_dir _ _ _ _ Hr) as Hd. pose proof (rp_name _ _ _ _ Hr) as Hn.
  destruct (persist_run dir name tmp key false true d Hr)
    as (d' & l & Hrun & (t1 & _ & Hfs) & Hpriv & Hsame & Hsn & Hl & (s & Hs & Hpart & Hpr)).
  assert (Hload : fsvault_load (sn_fs (dk_now d')) file = Ok (Some key)).
  { apply fsvault_load_saved; [done..|]. by rewrite Hfs, lookup_insert_eq. }
  exists d', (dk_now d' :: l). split; [by eapply fsvault_save_run|]. split; [done|]. split; [done|].
  split; [by apply Hpriv|]. split.
  { intros generated. by apply identity_loaded. }
  split.
  - constructor; [by split; [|right]|]. eapply Forall_impl; [exact Hl|]. intros s' [Hf _ _ He]. split; [done|left].
    by rewrite !fsvault_load_entry, Hf by done.
  - intros Hnone. exists s. split; [by right|]. split; [done|]. rewrite Hpr. unfold opened_private. fold t. rewrite Hnone.
    set_solver.
Qed.

Lemma token_load_entry t token :
  Forall plain dir → plain name → t !! file = Some (File (utf8_encode token)) → trim token = token → token ≠ [] →
  Forall scalar token → token_load t file = Ok (Some token).
Proof.
  intros Hd Hn Ht Htrim Hne Hs. unfold token_load. rewrite path_exists_entry, read_entry, Ht by done.
  rewrite bool_decide_true by eauto. cbn [negb map_err mbind result_bind]. rewrite utf8_decode_encode by done.
  cbn [ok_or mbind result_bind]. unfold api_token_new. rewrite Htrim. by rewrite bool_decide_false.
Qed.

Lemma generated_token random :
  length random = 32%nat → Forall byte_ok random →
  let token := api_token_generate random in
  length token = 43%nat ∧ token ≠ [] ∧ trim token = token ∧ Forall scalar token ∧ Forall (λ c, 33 ≤ c ≤ 126) token.
Proof.
  intros Hl Hb token. assert (Hlen : length token = 43%nat) by (unfold token, api_token_generate; rewrite length_base64, Hl; done).
  pose proof (base64_chars _ Hb) as Hc. fold (api_token_generate random) in Hc. fold token in Hc.
  split_and!; [done|by intros ->| | |].
  - apply trim_no_ws. eapply Forall_impl; [exact Hc|]. by intros c (_ & ? & _).
  - eapply Forall_impl; [exact Hc|]. unfold scalar. intros c (_ & _ & ?). lia.
  - eapply Forall_impl; [exact Hc|]. by intros c (_ & _ & ?).
Qed.

(** A start on a fresh disk. *)
Lemma token_made random d :
  let t := sn_fs (dk_now d) in
  let token := api_token_generate random in
  replaceable t dir name tmp → with_extension file (str "token.tmp") = part → t !! file = None →
  length random = 32%nat → Forall byte_ok random →
  ∃ d' l,
    token_load_or_generate file random d = (Ok token, d') ∧ snapshots d' = dk_now d' :: l ++ snapshots d ∧
    token_load (sn_fs (dk_now d')) file = Ok (Some token) ∧
    sn_fs (dk_now d') !! part = None ∧ file ∈ sn_private (dk_now d') ∧ elsewhere_same dir name tmp t (dk_now d') ∧
    Forall (underway dir name tmp (utf8_encode token) t (bool_decide (t !! part = None ∨ part ∈ sn_private (dk_now d)))) l ∧
    ∀ t', t' !! file = None → token_load t' file = Ok None.
Proof.
  intros t token Hr Hext Hnone Hlen Hb. pose proof (rp_dir _ _ _ _ Hr) as Hd. pose proof (rp_name _ _ _ _ Hr) as Hn.
  destruct (generated_token random Hlen Hb) as (_ & Hne & Htrim & Hs & _). fold token in Hne, Htrim, Hs.
  destruct (persist_run dir name tmp (utf8_encode token) true true d Hr)
    as (d' & l & Hrun & (t1 & _ & Hfs) & Hpriv & Hsame & Hsn & Hl & _).
  assert (Hno : ∀ t', t' !! file = None → token_load t' file = Ok None).
  { intros t' Ht'. unfold token_load. rewrite path_exists_entry, Ht' by done. by rewrite bool_decide_false by (by intros [? ?]). }
  exists d', l. split.
  { unfold token_load_or_generate, now_fs, gets, lift. unfold mbind at 1, SE_bind at 1. fold t.
    unfold mbind at 1, SE_bind at 1. rewrite (Hno t Hnone). fold token.
    by rewrite (SE_bind_eq _ _ _ _ _ (token_save_run dir name tmp token d d' Hext Hrun)). }
  split; [done|]. split; [apply token_load_entry; try done; by rewrite Hfs, lookup_insert_eq|].
  split; [|split_and!; try done; by apply Hpriv].
  rewrite Hfs, lookup_insert_ne, lookup_delete_eq; [done|]. intros [_ Heq]%app_inj_tail. by apply (rp_apart _ _ _ _ Hr).
Qed.

(** C28: The token of the API.  On a fresh disk the daemon makes one of 43
    visible ASCII characters that keeps all 256 random bits; it succeeds;
    whenever it is interrupted, after any byte, the next start finds either no
    token and makes one, or the whole token; afterwards every start, whatever
    random bytes it would draw, has the same token and writes nothing.  At no
    moment can anybody but the owner read a byte of it, given that a temporary
    file left over is not readable either. *)
Theorem api_token_survives random d :
  let t := sn_fs (dk_now d) in
  let token := api_token_generate random in
  replaceable t dir name tmp → with_extension file (str "token.tmp") = part →
  t !! file = None → t !! part = None ∨ part ∈ sn_private (dk_now d) →
  length random = 32%nat → Forall byte_ok random →
  length token = 43%nat ∧ Forall (λ c, 33 ≤ c ≤ 126) token ∧
  (∀ random', length random' = 32%nat → Forall byte_ok random' → api_token_generate random' = token → random' = random) ∧
  ∃ d' l,
    token_load_or_generate file random d = (Ok token, d') ∧ snapshots d' = l ++ snapshots d ∧
    (∀ random', token_load_or_generate file random' d' = (Ok token, d')) ∧
    Forall (λ s, elsewhere_same dir name tmp t s ∧
      (token_load (sn_fs s) file = Ok None ∨ token_load (sn_fs s) file = Ok (Some token)) ∧
      (∀ q, q ∈ [file; part] → sn_fs s !! q = t !! q ∨ sn_fs s !! q = None ∨ q ∈ sn_private s)) l.
Proof.
  intros t token Hr Hext Hnone Hpart Hlen Hb.
  destruct (generated_token random Hlen Hb) as (Htl & _ & _ & _ & Hc). fold token in Htl, Hc.
  split; [done|]. split; [done|]. split; [intros random' Hl' Hb' Heq; apply base64_inj; try done; congruence|].
  destruct (token_made random d Hr Hext Hnone Hlen Hb) as (d' & l & Hrun & Hsn & Hload & Hgone & Hpriv & Hsame & Hl & Hno).
  exists d', (dk_now d' :: l). split; [exact Hrun|]. split; [done|]. split.
  { intros random'. unfold token_load_or_generate, now_fs, gets, mbind, SE_bind, lift. by rewrite Hload. }
  constructor.
  - split; [done|]. split; [by right|]. intros q [->|[->|Hq]%elem_of_cons]%elem_of_cons; [by right; right|by right; left|].
    by apply elem_of_nil in Hq.
  - eapply Forall_impl; [exact Hl|]. intros s' [Hf _ Hpr He]. split; [done|]. split; [left; apply Hno; by rewrite Hf|].
    intros q [->|[->|Hq]%elem_of_cons]%elem_of_cons; [by left| |by apply elem_of_nil in Hq].
    destruct (Hpr (bool_decide_eq_true_2 _ Hpart)); auto.
Qed.
End survival.

Lemma write_atomically_replaces dir name tmp b chmod d :
  with_extension (dir ++ [name]) (str "tmp") = dir ++ [tmp] →
  write_atomically (dir ++ [name]) b chmod d = replace_via dir name tmp b false chmod d.
Proof. intros Ht. unfold write_atomically, replace_via. rewrite Ht. unfold fs_write. apply bind_twice. Qed.

(** A vault whose four files are four names. *)
Record well_named {E} (v : TlsVault E) (cert_tmp key_tmp : rstring) : Prop := {
  wn_cert : with_extension (cert_path v) (str "tmp") = tv_config_dir v ++ [cert_tmp];
  wn_key : with_extension (key_path v) (str "tmp") = tv_config_dir v ++ [key_tmp];
  wn_distinct : NoDup [tv_cert_file v; tv_key_file v; cert_tmp; key_tmp] }.

Lemma native_well_named to_string dir :
  well_named (native_tls_vault to_string dir) (str "native-v1.cert.tmp") (str "native-v1.key.tmp").
Proof.
  split; [unfold with_extension, cert_path|unfold with_extension, key_path|]; rewrite ?last_snoc, ?removelast_last; [done..|].
  apply (bool_decide_unpack _). vm_compute. done.
Qed.
Lemma localsend_well_named dir :
  well_named (localsend_tls_vault dir) (str "localsend-v2.cert.tmp") (str "localsend-v2.key.tmp").
Proof.
  split; [unfold with_extension, cert_path|unfold with_extension, key_path|]; rewrite ?last_snoc, ?removelast_last; [done..|].
  apply (bool_decide_unpack _). vm_compute. done.
Qed.

Section tls_survival.
Context {E : Type} (v : TlsVault E) (cert_tmp key_tmp : rstring).
Abbreviation dir := (tv_config_dir v).

Lemma tls_load_entry t : Forall plain dir → plain (tv_cert_file v) → plain (tv_key_file v) →
  tls_load v t =
  match t !! cert_path v, t !! key_path v with
  | None, None => Ok None
  | Some (File cert), Some (File key) => Ok (Some (mkTlsIdentity cert key))
  | Some Dir, Some _ => Err (tv_io v IsADirectory)
  | Some (File _), Some Dir => Err (tv_io v IsADirectory)
  | _, _ => Err (tv_incomplete v)
  end.
Proof.
  intros Hd Hc Hk. unfold tls_load. change (cert_path v) with (dir ++ [tv_cert_file v]). change (key_path v) with (dir ++ [tv_key_file v]).
  rewrite !path_exists_entry, !read_entry by done.
  by destruct (t !! (dir ++ [tv_cert_file v])) as [[]|], (t !! (dir ++ [tv_key_file v])) as [[]|].
Qed.

(** C29: The TLS identity of a protocol.  With neither file on disk the daemon
    generates and saves one; afterwards every start, whatever it would
    generate, has the same certificate and key and writes nothing, so the
    fingerprint peers have pinned stays valid, and the key is readable by its
    owner only.  An interruption never leaves a certificate with another key:
    a later start finds neither file, the whole identity, or only the
    certificate.  The last does happen, and then every start fails: the
    vault never repairs it. *)
Theorem tls_identity_survives identity d :
  let t := sn_fs (dk_now d) in
  well_named v cert_tmp key_tmp →
  replaceable t dir (tv_cert_file v) cert_tmp → replaceable t dir (tv_key_file v) key_tmp →
  t !! cert_path v = None → t !! key_path v = None →
  ∃ d' l,
    tls_load_or_generate v (Ok identity) d = (Ok identity, d') ∧ snapshots d' = l ++ snapshots d ∧
    (∀ generated, tls_load_or_generate v generated d' = (Ok identity, d')) ∧ key_path v ∈ sn_private (dk_now d') ∧
    Forall (λ s, tls_load v (sn_fs s) ∈ [Ok None; Ok (Some identity); Err (tv_incomplete v)]) l ∧
    ∃ s, s ∈ l ∧ ∀ generated past, tls_load_or_generate v generated (mkDisk s past) = (Err (tv_incomplete v), mkDisk s past).
Proof.
  intros t Hwn Hrc Hrk Hnc Hnk.
  pose proof (rp_dir _ _ _ _ Hrc) as Hd. pose proof (rp_name _ _ _ _ Hrc) as Hpc. pose proof (rp_name _ _ _ _ Hrk) as Hpk.
  assert (Hload : ∀ t', tls_load v t' = _) by (intros t'; by apply tls_load_entry).
  pose proof (wn_distinct _ _ _ Hwn) as Hnd. rewrite !NoDup_cons in Hnd. destruct Hnd as (Hn1 & Hn2 & Hn3 & _).
  apply not_elem_of_cons in Hn1 as (Hck & [Hcct [Hckt _]%not_elem_of_cons]%not_elem_of_cons).
  apply not_elem_of_cons in Hn2 as (Hkct & [Hkkt _]%not_elem_of_cons).
  apply not_elem_of_cons in Hn3 as (Hctkt & _).
  assert (Hne : ∀ a b : rstring, a ≠ b → dir ++ [a] ≠ dir ++ [b]) by (intros a b Hab [_ Heq]%app_inj_tail; done).
  destruct (persist_run dir (tv_cert_file v) cert_tmp (cert_der identity) false false d Hrc)
    as (d1 & l1 & Hrun1 & (t1 & Ht1 & Hfs1) & _ & _ & Hsn1 & Hl1 & _).
  pose proof (create_dir_all_Ok _ _ _ Ht1) as Hlook. rewrite (resolve_plain dir Hd) in Hlook.
  assert (Hentry : ∀ a, t1 !! (dir ++ [a]) = t !! (dir ++ [a])).
  { intros a. rewrite Hlook, decide_False; [done|]. intros [_ Hp]. by apply (not_prefix_entry dir a _ Hp). }
  set (t2 := sn_fs (dk_now d1)) in *.
  assert (Hcert2 : t2 !! cert_path v = Some (File (cert_der identity))) by (by rewrite Hfs1, lookup_insert_eq).
  assert (Hother : ∀ a, a ≠ tv_cert_file v → a ≠ cert_tmp → t2 !! (dir ++ [a]) = t !! (dir ++ [a])).
  { intros a Ha1 Ha2. rewrite Hfs1, lookup_insert_ne, lookup_delete_ne by (apply Hne; congruence). apply Hentry. }
  assert (Hup : ∀ q, q `prefix_of` dir → t2 !! q = t1 !! q).
  { intros q Hq. rewrite Hfs1, lookup_insert_ne, lookup_delete_ne; [done|..]; intros <-; by eapply not_prefix_entry. }
  assert (Hkey2 : t2 !! key_path v = None) by (unfold key_path; rewrite Hother by congruence; exact Hnk).
  assert (Hrk2 : replaceable t2 dir (tv_key_file v) key_tmp).
  { destruct Hrk. split; try done.
    - intros q c Hq. rewrite Hup, Hlook by done. destruct (decide _) as [Hp|Hp]; [by intros ?|by apply rp_way0].
    - unfold key_path in Hkey2. rewrite Hkey2. by intros ?.
    - by rewrite Hother by congruence. }
  assert (Hdir2 : dir = [] ∨ t2 !! dir = Some Dir).
  { destruct (decide (dir = [])) as [|Hdn]; [by left|right]. by rewrite Hup, Hlook, decide_True. }
  destruct (replace_run dir (tv_key_file v) key_tmp (key_der identity) false true d1 Hrk2 Hdir2)
    as (d2 & l2 & Hrun2 & Hfs2 & Hpriv & Hsn2 & Hl2 & _). fold t2 in Hfs2, Hl2.
  assert (Hwhole : tls_load v (sn_fs (dk_now d2)) = Ok (Some identity)).
  { rewrite Hload, Hfs2. fold (key_path v). rewrite lookup_insert_eq.
    rewrite lookup_insert_ne, lookup_delete_ne, Hcert2 by (apply Hne; congruence). by destruct identity. }
  assert (Hhalf : ∀ t', t' !! cert_path v = Some (File (cert_der identity)) → t' !! key_path v = None →
    tls_load v t' = Err (tv_incomplete v)) by (intros t' Hc Hk; by rewrite Hload, Hc, Hk).
  exists d2, (dk_now d2 :: l2 ++ dk_now d1 :: l1). split.
  { unfold tls_load_or_generate, now_fs, gets, lift. unfold mbind at 1, SE_bind at 1. fold t.
    unfold mbind at 1, SE_bind at 1. rewrite Hload, Hnc, Hnk. unfold mbind at 1, SE_bind at 1.
    assert (Hsave : tls_save v identity d = (Ok tt, d2)).
    { apply io_Ok. unfold persist in Hrun1. unfold mbind at 1, SE_bind at 1. unfold mbind at 1, SE_bind at 1 in Hrun1.
      destruct (sys_create_dir_all dir d) as [[[]| |] d0]; [|discriminate Hrun1..].
      unfold cert_path, key_path. unfold mbind at 1, SE_bind at 1.
      rewrite (write_atomically_replaces _ _ _ _ _ _ (wn_cert _ _ _ Hwn)), Hrun1.
      by rewrite (write_atomically_replaces _ _ _ _ _ _ (wn_key _ _ _ Hwn)). }
    by rewrite (SE_bind_eq _ _ _ _ _ Hsave). }
  split; [rewrite Hsn2; unfold snapshots at 2; cbn; rewrite <-app_assoc; cbn; do 3 f_equal; by injection Hsn1|].
  split.
  { intros generated. unfold tls_load_or_generate, now_fs, gets, mbind, SE_bind, lift. by rewrite Hwhole. }
  split; [by apply Hpriv|]. split.
  - constructor; [rewrite Hwhole; by right; left|]. apply Forall_app. split; [|constructor].
    + eapply Forall_impl; [exact Hl2|]. intros s [[k Hk] _]. rewrite Hhalf;
        [right; right; left|rewrite Hk, lookup_insert_ne by (apply Hne; congruence); done..].
    + rewrite Hhalf by done. right; right; left.
    + eapply Forall_impl; [exact Hl1|]. intros s [Hf _ _ _]. rewrite Hload.
      assert (Hf' : sn_fs s !! cert_path v = None) by (etrans; [exact Hf|exact Hnc]). rewrite Hf'.
      destruct (sn_fs s !! key_path v); [right; right; left|left].
  - exists (dk_now d1). split; [right; apply elem_of_app; right; by left|]. intros generated past.
    unfold tls_load_or_generate, now_fs, gets, mbind, SE_bind, lift. cbn [dk_now].
    assert (Hh : tls_load v t2 = Err (tv_incomplete v)) by (by apply Hhalf).
    unfold t2 in Hh. by rewrite Hh.
Qed.
End tls_survival.
