(* ===== verification/Startup.v ===== *)
(** * Starting and stopping the daemon

    Model of [main] of crates/daemon/src/main.rs with the starting and stopping
    of the servers (main.rs, [start_grpc_runtime] of api/grpc.rs,
    [start_http_runtime] of api/http.rs, [start_wan_runtime] of wan.rs), over
    the disk of Vault.v and the sockets of Transport.v.

    What the machine answers is the environment [StartEnv]: the fresh key,
    token and certificates, whether the trust database opens and a recorder can
    be installed, the free ports, the route to the outside, the mDNS
    daemon, and how names resolve.  The databases are not files of
    this disk.  An error is its outermost text. *)

From stdpp Require Import prelude gmap strings.
From Stdlib Require Import ZArith Lia.
From S2P Require Import Prelude RustStr Errors Dto Fs Inet Text Identity TrustStore Discovery Candidates NativeNet NativeLan Rendezvous Wan LocalSession LocalServer Config Transport Vault.

Local Open Scope Z_scope.

(** ** Arguments and environment *)

(** The arguments that the configuration and the state do not depend on. *)
Record StartArgs := mkStartArgs {
  sa_args : Args; sa_identity : option path; sa_disable_localsend_v2 : bool; sa_disable_native : bool;
  sa_disable_native_discovery : bool; sa_native_manifest_db : option path;
  sa_api_grpc_port : Z; sa_api_http_port : Z; sa_disable_api : bool }.

Definition default_start_args (env_var : string → option rstring) : StartArgs :=
  mkStartArgs (default_args env_var) None false false false None DEFAULT_API_GRPC_PORT DEFAULT_API_HTTP_PORT false.

Record StartEnv := mkStartEnv {
  se_identity : bytes; se_token : bytes;
  se_localsend_tls : rstring → result LocalSendError TlsIdentity;
  se_native_tls : rstring → result NativeError TlsIdentity;
  se_quinn_server_config : TlsIdentity → bool;
  se_metrics : result rstring rstring; se_trust_opens : bool;
  se_ephemeral : list Socket → Z; se_disable_gso : bool;
  se_route : option IpAddr; (* the local address of a socket connected to the outside *)
  se_service_info : rstring → rstring → rstring → IpAddr → Z → gmap rstring rstring → result rstring rstring; (* its full name *)
  se_mdns : result rstring (rstring → result rstring unit); (* the mDNS daemon *)
  se_lookup_host : rstring → option (list SocketAddr);
  se_signals : bool }.

(** What a start changes: the disk and the sockets. *)
Record Node := mkNode { nd_disk : Disk; nd_sockets : list Socket }.

Abbreviation BM := (SE Node rstring).

Definition on_disk {E A} (message : string) (m : SE Disk E A) : BM A := λ n,
  let '(r, d) := m (nd_disk n) in (map_err (λ _, str message) r, mkNode d (nd_sockets n)).
Definition on_sockets {E A} (message : string) (m : SE (list Socket) E A) : BM A := λ n,
  let '(r, sockets) := m (nd_sockets n) in (map_err (λ _, str message) r, mkNode (nd_disk n) sockets).
(** [.with_context(message)] around a step. *)
Definition in_context {A} (message : string) (m : BM A) : BM A := λ n,
  (map_err (λ _, str message) (m n).1, (m n).2).

(** [TcpListener::bind] *)
Definition listen (env : StartEnv) (addr : SocketAddr) : SE (list Socket) io_error SocketAddr := λ sockets,
  match bind (se_ephemeral env) Tcp addr sockets with
  | Ok (addr, sockets) => (Ok addr, sockets)
  | Err e => (Err e, sockets)
  | Panic => (Panic, sockets)
  end.

(** ** What runs *)

Record NativeRuntime := mkNativeRuntime {
  nr_local_addr : SocketAddr; nr_tls_identity : TlsIdentity; nr_peer_info : NativePeerInfo;
  nr_discovery : option NativeDiscoveryAnnouncer;
  nr_manifest_path : path }.
Record LocalSendRuntime := mkLocalSendRuntime {
  lr_local_addr : SocketAddr; lr_tls_identity : TlsIdentity; lr_state : ServerState }.
Record WanRuntime := mkWanRuntime {
  wr_rendezvous_url : rstring; wr_native_port : Z; wr_stun_servers : list SocketAddr;
  wr_ttl_seconds : Z; wr_register_interval_seconds : Z }.
Record Running := mkRunning {
  rn_state : DaemonState; rn_api : option (SocketAddr * SocketAddr); rn_localsend : option LocalSendRuntime;
  rn_native : option NativeRuntime; rn_wan : option WanRuntime }.

Section startup.
Context `{CryptoSuite} `{Lowercase} `{Toml} (to_string : io_error → rstring) (paths : Paths) (state_dir : path).
Context (args : StartArgs) (env : StartEnv).

(** [paths::identity_file] and [paths::api_token_file] *)
Definition identity_path : path := default (p_config_dir paths ++ [str "identity.key"]) (sa_identity args).
Definition api_token_path : path := p_config_dir paths ++ [str "api.token"].

(** A path without a parent only gets a warning. *)
Definition ensure_parent_dir (p : path) : DM unit :=
  match p with [] => mret tt | _ => sys_create_dir_all (removelast p) end.

Definition start_grpc_runtime (port : Z) : BM SocketAddr :=
  on_sockets "failed to bind gRPC API" (listen env (SockV4 127 0 0 1 port)).
Definition start_http_runtime (port : Z) : BM SocketAddr :=
  on_sockets "failed to bind HTTP API" (listen env (SockV4 127 0 0 1 port)).

Definition LOCALSEND_VERSION : rstring := str "2.0".
Definition LOCALSEND_SESSION_TTL : Z := from_secs (60 * 60).

Definition device_info (alias : rstring) (port : Z) (tls_identity : TlsIdentity) : DeviceInfo :=
  mkDeviceInfo alias LOCALSEND_VERSION None (Some (str "server"))
    (certificate_fingerprint_sha256_hex (cert_der tls_identity)) port (str "https") true.

Definition start_localsend_v2 (state : DaemonState) : BM LocalSendRuntime :=
  tls_identity ← on_disk "failed to load or generate LocalSend v2 TLS identity"
                   (tls_load_or_generate (localsend_tls_vault (p_config_dir paths)) (se_localsend_tls env (ds_alias state)));
  let info := device_info (ds_alias state) (ds_localsend_port state) tls_identity in
  bound_addr ← on_sockets "binding" (listen env (SockV4 0 0 0 0 (ds_localsend_port state)));
  mret (mkLocalSendRuntime bound_addr tls_identity (bind_state
    (mkServerState info LOCALSEND_SESSION_TTL (ds_inbox_dir state) (ds_localsend_receive_policy state)
       (ds_trusted_localsend_fingerprints state) (ds_trusted_localsend_fingerprints_file state)
       (Some (ds_trust_db_path state))))).

Definition bind_native_endpoint (native_port : Z) : SE (list Socket) NativeError SocketAddr :=
  if native_port =? 0 then endpoint_server (se_ephemeral env) (SockV4 0 0 0 0 0)
  else bind_server_endpoint (se_ephemeral env) (mkHostPort (show_ipv4 0 0 0 0) native_port).

Definition local_advertise_ipv4 : result rstring IpAddr :=
  match se_route env with
  | Some (IpV4 a b c d) =>
    if negb (is_unspecified (IpV4 a b c d)) && negb (is_loopback (IpV4 a b c d)) then Ok (IpV4 a b c d)
    else Err (str "native advertise route resolved to unusable IPv4")
  | Some (IpV6 g) => Err (str "native advertise route resolved to IPv6")
  | None => Err (str "resolve native advertise route")
  end.

(** An address that cannot be found and a refusal of mDNS are only logged. *)
Definition start_native_discovery (peer_info : NativePeerInfo) : option NativeDiscoveryAnnouncer :=
  if sa_disable_native_discovery args then None
  else
    match local_advertise_ipv4 with
    | Ok advertise_ip =>
      let instance := arg_alias (sa_args args) in
      let host := mdns_hostname (arg_alias (sa_args args)) in
      match announcer_register (se_service_info env) id (se_mdns env) peer_info instance host advertise_ip with
      | Ok announcer => Some announcer
      | _ => None
      end
    | _ => None
    end.

(** The directory of the trust database. *)
Definition native_tls_dir (trust_db_path : path) : path :=
  match trust_db_path with [] => p_config_dir paths | _ => removelast trust_db_path end.

Definition start_native_runtime (state : DaemonState) : BM NativeRuntime :=
  let native_tls_dir := native_tls_dir (ds_trust_db_path state) in
  tls_identity ← on_disk "failed to load or generate native TLS identity"
                   (tls_load_or_generate (native_tls_vault to_string native_tls_dir) (se_native_tls env (ds_alias state)));
  _ ← lift (ensure (se_quinn_server_config env tls_identity) (str "native TLS server config"));
  _ ← lift (map_err (λ _, str "failed to build native QUIC server config")
              (build_quinn_transport_config (se_disable_gso env) default_transport));
  local_addr ← on_sockets "failed to bind native QUIC endpoint" (bind_native_endpoint (ds_native_port state));
  let peer_info := native_peer_info (ds_alias state) (ds_identity state) (sock_port local_addr)
                     (certificate_fingerprint_sha256_hex (cert_der tls_identity)) in
  let discovery := start_native_discovery peer_info in
  let manifest_path := default (state_dir ++ [str "native-manifests.db"]) (sa_native_manifest_db args) in
  _ ← on_disk "failed to prepare native manifest db" (ensure_parent_dir manifest_path);
  mret (mkNativeRuntime local_addr tls_identity peer_info discovery manifest_path).

Definition start_wan_runtime (state : DaemonState) (native_port : Z) : BM (option WanRuntime) :=
  let wan := ac_wan (ds_config state) in
  if negb (wc_enabled wan) then mret None
  else
    rendezvous_url ← lift (ok_or (wc_rendezvous_url wan) (str "rendezvous_url is required when WAN is enabled"));
    stun_servers ← lift (resolve_stun_servers (se_lookup_host env) (wc_stun_servers wan));
    mret (Some (mkWanRuntime rendezvous_url native_port stun_servers
                  (registration_ttl_seconds (wc_register_interval_seconds wan)) (wc_register_interval_seconds wan))).

(** [main], up to waiting for a signal. *)
Definition load_state : BM DaemonState :=
  t ← gets (λ n, sn_fs (dk_now (nd_disk n)));
  config ← lift (map_err (λ _, str "failed to load daemon config") (load_daemon_config paths t (sa_args args)));
  identity ← on_disk "failed to load or create identity" (load_or_create_identity identity_path (se_identity env));
  let fingerprint := show_fingerprint (from_pubkey (public_bytes identity)) in
  api_token ← on_disk "failed to load or create API token" (token_load_or_generate api_token_path (se_token env));
  metrics ← (if mc_enabled (ac_metrics config)
             then lift (map_err (λ _, str "failed to install Prometheus recorder") (Some <$> se_metrics env))
             else mret None);
  state ← lift (from_args_with_metrics paths (sa_args args) identity fingerprint api_token config metrics);
  _ ← on_disk "failed to prepare trust store" (ensure_parent_dir (ds_trust_db_path state));
  _ ← lift (ensure (se_trust_opens env) (str "failed to open trust store"));
  mret state.

Definition start_servers (state : DaemonState) : BM Running :=
  api ← (if sa_disable_api args then mret None
         else
           grpc ← in_context "failed to start gRPC API" (start_grpc_runtime (sa_api_grpc_port args));
           http ← in_context "failed to start HTTP API" (start_http_runtime (sa_api_http_port args));
           mret (Some (grpc, http)));
  localsend ← (if sa_disable_localsend_v2 args then mret None
               else
                 runtime ← in_context "failed to start LocalSend v2 receiver" (start_localsend_v2 state);
                 mret (Some runtime));
  native ← (if sa_disable_native args then mret None
            else
              runtime ← in_context "failed to start native LAN listener" (start_native_runtime state);
              mret (Some runtime));
  wan ← match native with
        | Some runtime =>
          in_context "failed to start WAN rendezvous runtime" (start_wan_runtime state (sock_port (nr_local_addr runtime)))
        | None => mret None
        end;
  mret (mkRunning state api localsend native wan).

Definition start : BM Running :=
  state ← load_state;
  start_servers state.

(** ** Stopping *)

(** How a task that was told to stop ended. *)
Inductive TaskEnd := EndedWell | EndedWith (error : rstring) | Panicked.
Record Ends := mkEnds {
  en_wan : TaskEnd; en_native : TaskEnd; en_localsend_server : TaskEnd; en_localsend_announcer : TaskEnd;
  en_http : TaskEnd; en_grpc : TaskEnd }.
Inductive Part := WanPart | NativePart | LocalSendPart | HttpPart | GrpcPart | HooksPart.
#[export] Instance Part_eq_dec : EqDecision Part.
Proof. solve_decision. Defined.

(** [task.await.context(message)] *)
Definition join (message : string) (e : TaskEnd) : result rstring (result rstring unit) :=
  match e with EndedWell => Ok (Ok tt) | EndedWith error => Ok (Err error) | Panicked => Err (str message) end.
Definition join_both (message : string) (e : TaskEnd) : result rstring unit := r ← join message e; r.

(** The parts stopped so far are the state. *)
Abbreviation StopM := (SE (list Part) rstring).
Definition stopped (part : Part) : StopM unit := modify (λ parts, parts ++ [part]).

Definition stop_wan_runtime (ends : Ends) : StopM unit :=
  _ ← lift (join_both "WAN rendezvous task panicked" (en_wan ends)); stopped WanPart.
Definition stop_native_runtime (ends : Ends) : StopM unit :=
  _ ← lift (join_both "native listener task panicked" (en_native ends)); stopped NativePart.
Definition stop_localsend_v2 (ends : Ends) : StopM unit :=
  server_result ← lift (join "LocalSend v2 server task panicked" (en_localsend_server ends));
  announcer_result ← lift (join "LocalSend v2 announcer task panicked" (en_localsend_announcer ends));
  _ ← lift server_result;
  _ ← lift announcer_result;
  stopped LocalSendPart.
Definition stop_http_runtime (ends : Ends) : StopM unit :=
  _ ← lift (join_both "HTTP API server task panicked" (en_http ends)); stopped HttpPart.
Definition stop_grpc_runtime (ends : Ends) : StopM unit :=
  _ ← lift (join_both "gRPC API server task panicked" (en_grpc ends)); stopped GrpcPart.

(** The end of [main]. *)
Definition stop (running : Running) (ends : Ends) : StopM unit :=
  _ ← match rn_wan running with Some _ => stop_wan_runtime ends | None => mret tt end;
  _ ← match rn_native running with Some _ => stop_native_runtime ends | None => mret tt end;
  _ ← match rn_localsend running with Some _ => stop_localsend_v2 ends | None => mret tt end;
  _ ← match rn_api running with Some _ => _ ← stop_http_runtime ends; stop_grpc_runtime ends | None => mret tt end;
  stopped HooksPart.

(** The whole of [main]; when it returns the process ends. *)
Definition main (ends : Running → Ends) (n : Node) : result rstring unit * list Part * Node :=
  let '(r, n) := start n in
  match r with
  | Ok running =>
    if se_signals env then let '(r, parts) := stop running (ends running) [] in (r, parts, n)
    else (Err (str "failed to install SIGINT handler"), [], n)
  | Err e => (Err e, [], n)
  | Panic => (Panic, [], n)
  end.
End startup.

(** ** Writing secrets *)

(** Directories stay, and elsewhere than at [touched] the files are the same. *)
Definition kept (touched : list path) (t t' : fs) : Prop :=
  (∀ q, t !! q = Some Dir → t' !! q = Some Dir) ∧
  (∀ q b, q ∉ touched → t !! q = Some (File b) ↔ t' !! q = Some (File b)).
Abbreviation fs_of d := (sn_fs (dk_now d)).

#[export] Instance kept_preorder touched : PreOrder (kept touched).
Proof.
  split; [by split|]. intros t1 t2 t3 [D1 F1] [D2 F2]. split; [naive_solver|].
  intros q b Hq. by rewrite F1, F2.
Qed.

Lemma kept_weaken s1 s2 t t' : s1 ⊆ s2 → kept s1 t t' → kept s2 t t'.
Proof. intros Hs [D F]. split; [done|]. intros q b Hq. apply F. intros Hin. apply Hq. by apply Hs. Qed.

Lemma kept_insert touched t p b : p ∈ touched → t !! p ≠ Some Dir → kept touched t (<[p := File b]> t).
Proof.
  intros Hp Hnd. split.
  - intros q Hq. rewrite lookup_insert_ne; [done|]. intros <-. done.
  - intros q c Hq. rewrite lookup_insert_ne; [done|]. by intros <-.
Qed.

Lemma create_dir_all_kept touched t p t' : create_dir_all t p = Ok t' → kept touched t t'.
Proof.
  intros Hc. pose proof (create_dir_all_Ok _ _ _ Hc) as Hlook. split.
  - intros q Hq. rewrite Hlook. by case_decide.
  - intros q b _. rewrite Hlook. case_decide as Hp; [|done]. split; [|done]. intros Hq.
    by destruct (create_dir_all_no_file _ _ _ q b Hc (proj1 Hp) (proj2 Hp)).
Qed.

Lemma write_all_run p rest : ∀ written d,
  fs_of d !! resolve p = Some (File written) →
  ∃ d', sys_write_all p written rest d = (Ok tt, d') ∧ fs_of d' = <[resolve p := File (written ++ rest)]> (fs_of d).
Proof.
  induction rest as [|x rest IH]; intros written d Hw; cbn [sys_write_all].
  - exists d. split; [done|]. by rewrite app_nil_r, insert_id.
  - unfold mbind, SE_bind, sys.
    destruct (IH (written ++ [x]) (becomes d (mkSnapshot (<[resolve p := File (written ++ [x])]> (fs_of d)) (sn_private (dk_now d)))))
      as (d' & Hrun & Hfs); [apply lookup_insert_eq|].
    exists d'. split; [exact Hrun|]. rewrite Hfs. cbn. by rewrite insert_insert_eq, <-app_assoc.
Qed.

(** A file written anew, or nothing. *)
Lemma write_file_run p own b d r d' :
  (_ ← sys_open p own; sys_write_all p [] b) d = (r, d') →
  r = Ok tt ∧ fs_of d !! resolve p ≠ Some Dir ∧ fs_of d' = <[resolve p := File b]> (fs_of d) ∨
  r ≠ Ok tt ∧ fs_of d' = fs_of d.
Proof.
  unfold mbind at 1, SE_bind at 1. intros Hrun.
  assert (Hopened : ∀ pr, fs_of d !! resolve p ≠ Some Dir →
    sys_write_all p [] b (becomes d (mkSnapshot (<[resolve p := File []]> (fs_of d)) pr)) = (r, d') →
    r = Ok tt ∧ fs_of d !! resolve p ≠ Some Dir ∧ fs_of d' = <[resolve p := File b]> (fs_of d)).
  { intros pr Hnd Hw. destruct (write_all_run p b [] (becomes d (mkSnapshot (<[resolve p := File []]> (fs_of d)) pr)))
      as (d1 & Hrun1 & Hfs); [apply lookup_insert_eq|]. rewrite Hrun1 in Hw.
    apply pair_equal_spec in Hw as [<- <-]. split; [done|]. split; [done|]. rewrite Hfs. cbn. by rewrite insert_insert_eq. }
  unfold sys_open, sys in Hrun. destruct (fs_of d !! resolve p) as [[c|]|] eqn:Hp.
  - left. by eapply Hopened.
  - right. by apply pair_equal_spec in Hrun as [<- <-].
  - destruct (parent_check (fs_of d) p) as [[]|e|]; cbn [mbind result_bind] in Hrun.
    + left. by eapply Hopened.
    + right. by apply pair_equal_spec in Hrun as [<- <-].
    + right. by apply pair_equal_spec in Hrun as [<- <-].
Qed.

(** Writing next to a file and renaming over it. *)
Lemma replace_effect p tmp own (chmod : bool) b d r d' :
  (_ ← (_ ← sys_open tmp own; sys_write_all tmp [] b);
   _ ← (if chmod then set_owner_only_permissions tmp else mret tt);
   sys_rename tmp p) d = (r, d') →
  kept [resolve tmp; resolve p] (fs_of d) (fs_of d') ∧ (r = Ok tt → fs_of d' !! resolve p = Some (File b)).
Proof.
  unfold mbind at 1, SE_bind at 1. destruct ((_ ← sys_open tmp own; sys_write_all tmp [] b) d) as [r1 d1] eqn:Hw.
  intros Hrun. destruct (write_file_run _ _ _ _ _ _ Hw) as [(-> & Hnd & Hfs)|[Hne Hfs]].
  - assert (Hk1 : kept [resolve tmp; resolve p] (fs_of d) (fs_of d1)) by (rewrite Hfs; apply kept_insert; [by left|done]).
    assert (Hchmod : ∃ rc d2, (if chmod then set_owner_only_permissions tmp else mret tt) d1 = (rc, d2) ∧ fs_of d2 = fs_of d1).
    { destruct chmod; [|by exists (Ok tt), d1]. unfold set_owner_only_permissions, sys. destruct (path_exists _ _); by eexists _, _. }
    destruct Hchmod as (rc & d2 & Hc & Hfs2). unfold mbind, SE_bind in Hrun. rewrite Hc in Hrun.
    destruct rc as [[]|e|]; [|apply pair_equal_spec in Hrun as [<- <-]; by rewrite Hfs2..].
    unfold sys_rename, sys, rename in Hrun. rewrite Hfs2, Hfs, lookup_insert_eq in Hrun.
    assert (Hrename : ∀ (t : fs), t !! resolve tmp = Some (File b) → t !! resolve p ≠ Some Dir →
      kept [resolve tmp; resolve p] t (<[resolve p := File b]> (delete (resolve tmp) t))).
    { intros t Htmp Hp. split.
      - intros q Hq. rewrite lookup_insert_ne by congruence. rewrite lookup_delete_ne by congruence. done.
      - intros q c Hq. rewrite lookup_insert_ne by set_solver. rewrite lookup_delete_ne by set_solver. done. }
    destruct (<[resolve tmp := File b]> (fs_of d) !! resolve p) as [[c|]|] eqn:Hp.
    + apply pair_equal_spec in Hrun as [<- <-]. split; [|intros _; apply lookup_insert_eq].
      etrans; [exact Hk1|]. rewrite Hfs. apply Hrename; [apply lookup_insert_eq|by rewrite Hp].
    + apply pair_equal_spec in Hrun as [<- <-]. rewrite Hfs2. by split.
    + destruct (parent_check _ p) as [[]|e|]; cbn [mbind result_bind] in Hrun; apply pair_equal_spec in Hrun as [<- <-];
        [|by rewrite Hfs2..]. split; [|intros _; apply lookup_insert_eq].
      etrans; [exact Hk1|]. rewrite Hfs. apply Hrename; [apply lookup_insert_eq|by rewrite Hp].
  - destruct r1 as [[]|e|]; [done|..]; apply pair_equal_spec in Hrun as [<- <-]; by rewrite Hfs.
Qed.

(** What a save does, whether it succeeds or not. *)
Definition saves (touched : list path) (p : path) (b : bytes) {E} (m : SE Disk E unit) : Prop :=
  ∀ d r d', m d = (r, d') → kept touched (fs_of d) (fs_of d') ∧ (r = Ok tt → fs_of d' !! resolve p = Some (File b)).

Lemma io_inv {E} (wrap : io_error → E) (m : DM unit) d r d' :
  io wrap m d = (r, d') → ∃ r0, m d = (r0, d') ∧ (r = Ok tt → r0 = Ok tt).
Proof.
  unfold io. destruct (m d) as [r0 d0]. cbn. intros [<- <-]%pair_equal_spec. exists r0. split; [done|].
  by destruct r0 as [[]| |].
Qed.

Lemma sys_create_dir_all_kept touched p d r d' : sys_create_dir_all p d = (r, d') → kept touched (fs_of d) (fs_of d').
Proof.
  unfold sys_create_dir_all, sys. destruct (create_dir_all (fs_of d) p) as [t| |] eqn:Hc; cbn;
    intros [<- <-]%pair_equal_spec; [by eapply create_dir_all_kept|done..].
Qed.
Lemma create_parent_kept touched p d r d' : create_parent p d = (r, d') → kept touched (fs_of d) (fs_of d').
Proof.
  unfold create_parent. destruct p; [intros [<- <-]%pair_equal_spec; done|apply sys_create_dir_all_kept].
Qed.

Lemma saves_after {E} touched p b (prep : SE Disk E unit) (m : SE Disk E unit) :
  (∀ d r d', prep d = (r, d') → kept touched (fs_of d) (fs_of d')) → saves touched p b m → saves touched p b (_ ← prep; m).
Proof.
  intros Hp Hm d r d'. unfold mbind, SE_bind. destruct (prep d) as [r0 d0] eqn:Hd. pose proof (Hp _ _ _ Hd) as Hk.
  destruct r0 as [[]|e|]; [|intros [<- <-]%pair_equal_spec; by split..].
  intros Hrun. destruct (Hm _ _ _ Hrun) as [Hk' Hb]. split; [by etrans|done].
Qed.

Lemma io_saves {E} touched p b (wrap : io_error → E) (m : DM unit) : saves touched p b m → saves touched p b (io wrap m).
Proof. intros Hm d r d' (r0 & Hrun & Hr)%io_inv. destruct (Hm _ _ _ Hrun). auto. Qed.

Definition key_tmp (p : path) : path := with_extension p (str "key.tmp").
Definition token_tmp (p : path) : path := with_extension p (str "token.tmp").
Definition tls_tmp (p : path) : path := with_extension p (str "tmp").

Lemma fsvault_save_saves p key : saves [resolve (key_tmp p); resolve p] p key (fsvault_save p key).
Proof.
  apply io_saves, saves_after; [apply create_parent_kept|]. intros d r d' Hrun. by eapply (replace_effect _ _ false true).
Qed.
Lemma token_save_saves p token : saves [resolve (token_tmp p); resolve p] p (utf8_encode token) (token_save p token).
Proof.
  apply io_saves, saves_after; [apply create_parent_kept|]. intros d r d' Hrun. by eapply (replace_effect _ _ true true).
Qed.
Lemma write_atomically_saves p b own : saves [resolve (tls_tmp p); resolve p] p b (write_atomically p b own).
Proof. intros d r d' Hrun. by eapply (replace_effect _ _ false own). Qed.

(** *** Loading depends on the files only *)

Lemma exists_file t p b : t !! resolve p = Some (File b) → path_exists t p = true ∧ read_file t p = Ok b.
Proof.
  intros Hp. unfold path_exists, read_file. rewrite Hp. split; [|done]. rewrite (bool_decide_true (is_Some _)) by eauto.
  apply orb_true_r.
Qed.
Lemma read_file_inv t p b : read_file t p = Ok b → t !! resolve p = Some (File b).
Proof. unfold read_file. destruct (t !! resolve p) as [[]|]; congruence. Qed.

Lemma fsvault_load_file t p key :
  fsvault_load t p = Ok (Some key) ↔ t !! resolve p = Some (File key) ∧ length key = KEY_LEN.
Proof.
  unfold fsvault_load. split.
  - destruct (path_exists t p); [|done]. cbn [negb]. intros Hl. inv_ok. bools.
    assert (Hk : x = key) by congruence. subst x. split; [by apply read_file_inv|done].
  - intros [Hp Hlen]. destruct (exists_file _ _ _ Hp) as [-> ->]. cbn [negb map_err mbind result_bind].
    by rewrite bool_decide_true.
Qed.

(** What is read from a file as a token. *)
Definition token_of (b : bytes) : result CoreError rstring := token ← ok_or (utf8_decode b) (CoreIo OtherIo); api_token_new token.

Lemma token_load_file t p token :
  token_load t p = Ok (Some token) ↔ ∃ b, t !! resolve p = Some (File b) ∧ token_of b = Ok token.
Proof.
  unfold token_load, token_of. split.
  - destruct (path_exists t p); [|done]. cbn [negb]. intros Hl. inv_ok.
    exists x. split; [by apply read_file_inv|]. match goal with H : utf8_decode x = _ |- _ => rewrite H end. cbn. congruence.
  - intros (b & Hp & Hb). destruct (exists_file _ _ _ Hp) as [-> ->]. cbn [negb map_err mbind result_bind].
    inv_ok. match goal with H : utf8_decode b = _ |- _ => rewrite H end. cbn [ok_or mbind result_bind].
    match goal with H : api_token_new _ = _ |- _ => by rewrite H end.
Qed.

Lemma tls_load_file {E} (v : TlsVault E) t identity :
  tls_load v t = Ok (Some identity) ↔
  t !! resolve (cert_path v) = Some (File (cert_der identity)) ∧ t !! resolve (key_path v) = Some (File (key_der identity)).
Proof.
  unfold tls_load. split.
  - destruct (path_exists t (cert_path v)), (path_exists t (key_path v)); try done. intros Hl. inv_ok.
    assert (Hi : mkTlsIdentity x x0 = identity) by congruence. subst identity. split; by apply read_file_inv.
  - intros [Hc Hk]. destruct (exists_file _ _ _ Hc) as [-> ->], (exists_file _ _ _ Hk) as [-> ->]. by destruct identity.
Qed.

(** *** Steps of a start *)

(** A step that leaves a secret in files: it touches [touched] only, afterwards
    the files hold what it returned, and from such files it returns the same
    and changes nothing. *)
Definition settles {E A : Type} (touched : list path) (holds : A → fs → Prop) (m : SE Disk E A) : Prop :=
  ∀ d a d', m d = (Ok a, d') → kept touched (fs_of d) (fs_of d') ∧ holds a (fs_of d').
Definition recalls {E A : Type} (holds : A → fs → Prop) (m : SE Disk E A) : Prop :=
  ∀ d a, holds a (fs_of d) → m d = (Ok a, d).

Definition key_in (p : path) (key : bytes) (t : fs) : Prop := t !! resolve p = Some (File key) ∧ length key = KEY_LEN.
Definition token_in (p : path) (token : rstring) (t : fs) : Prop :=
  ∃ b, t !! resolve p = Some (File b) ∧ token_of b = Ok token.
Definition tls_in {E} (v : TlsVault E) (identity : TlsIdentity) (t : fs) : Prop :=
  t !! resolve (cert_path v) = Some (File (cert_der identity)) ∧ t !! resolve (key_path v) = Some (File (key_der identity)).

Lemma identity_settles p generated :
  length generated = KEY_LEN → settles [resolve (key_tmp p); resolve p] (key_in p) (load_or_create_identity p generated).
Proof.
  intros Hlen d key d' Hrun. unfold load_or_create_identity, now_fs in Hrun. inv_se.
  match goal with H : fsvault_load _ p = Ok ?o |- _ => rename H into Hload; destruct o as [k|] end.
  - inv_se. apply fsvault_load_file in Hload as [Hp Hl]. subst. by split.
  - inv_se. match goal with H : fsvault_save _ _ _ = (Ok ?u, _) |- _ =>
      destruct u; destruct (fsvault_save_saves _ _ _ _ _ H) as [Hk Hp] end.
    split; [done|]. split; [by apply Hp|done].
Qed.
Lemma identity_recalls p generated : recalls (key_in p) (load_or_create_identity p generated).
Proof.
  intros d key Hin. apply fsvault_load_file in Hin. unfold load_or_create_identity, now_fs, gets, mbind, SE_bind, lift.
  by rewrite Hin.
Qed.

Lemma token_of_generated random :
  length random = 32%nat → Forall byte_ok random →
  token_of (utf8_encode (api_token_generate random)) = Ok (api_token_generate random).
Proof.
  intros Hl Hb. destruct (generated_token random Hl Hb) as (_ & Hne & Htrim & Hs & _).
  unfold token_of. rewrite utf8_decode_encode by done. cbn [ok_or mbind result_bind]. unfold api_token_new.
  rewrite Htrim. by rewrite bool_decide_false.
Qed.

Lemma token_settles p random :
  length random = 32%nat → Forall byte_ok random →
  settles [resolve (token_tmp p); resolve p] (token_in p) (token_load_or_generate p random).
Proof.
  intros Hl Hb d token d' Hrun. unfold token_load_or_generate, now_fs in Hrun. inv_se.
  match goal with H : token_load _ p = Ok ?o |- _ => rename H into Hload; destruct o as [k|] end.
  - inv_se. apply token_load_file in Hload. by split.
  - inv_se. match goal with H : token_save _ _ _ = (Ok ?u, _) |- _ =>
      destruct u; destruct (token_save_saves _ _ _ _ _ H) as [Hk Hp] end.
    split; [done|]. eexists. split; [by apply Hp|]. by apply token_of_generated.
Qed.
Lemma token_recalls p random : recalls (token_in p) (token_load_or_generate p random).
Proof.
  intros d token Hin. apply token_load_file in Hin. unfold token_load_or_generate, now_fs, gets, mbind, SE_bind, lift.
  by rewrite Hin.
Qed.

Definition tls_scratch {E} (v : TlsVault E) : list path := [resolve (tls_tmp (cert_path v)); resolve (tls_tmp (key_path v))].
Definition tls_files {E} (v : TlsVault E) : list path := [resolve (cert_path v); resolve (key_path v)].

Lemma tls_settles {E} (v : TlsVault E) generated :
  resolve (cert_path v) ∉ [resolve (tls_tmp (key_path v)); resolve (key_path v)] →
  settles (tls_scratch v ++ tls_files v) (tls_in v) (tls_load_or_generate v generated).
Proof.
  intros Hne d identity d' Hrun. unfold tls_load_or_generate, now_fs in Hrun. inv_se.
  match goal with H : tls_load _ _ = Ok ?o |- _ => rename H into Hload; destruct o as [k|] end.
  - inv_se. apply tls_load_file in Hload. by split.
  - inv_se. match goal with H : tls_save _ _ _ = (Ok ?u, _) |- _ => destruct u; rename H into Hsave end.
    unfold tls_save in Hsave. apply io_inv in Hsave as (r0 & Hsave & Hr). rewrite (Hr eq_refl) in Hsave. inv_se.
    match goal with H : sys_create_dir_all _ _ = _ |- _ => pose proof (sys_create_dir_all_kept [] _ _ _ _ H) as Hk0 end.
    match goal with H : write_atomically (cert_path v) _ _ _ = (Ok ?u, _) |- _ =>
      destruct u; destruct (write_atomically_saves _ _ _ _ _ _ H) as [Hk1 Hc] end.
    match goal with H : write_atomically (key_path v) _ _ _ = (Ok ?u, _) |- _ =>
      destruct (write_atomically_saves _ _ _ _ _ _ H) as [Hk2 Hp] end.
    split.
    + etrans; [eapply kept_weaken; [|exact Hk0]|etrans; eapply kept_weaken; [|exact Hk1| |exact Hk2]];
        unfold tls_scratch, tls_files; intros q Hq; set_solver.
    + split; [|by apply Hp]. apply Hk2; [done|]. by apply Hc.
Qed.
Lemma tls_recalls {E} (v : TlsVault E) generated : recalls (tls_in v) (tls_load_or_generate v generated).
Proof.
  intros d identity Hin. apply tls_load_file in Hin. unfold tls_load_or_generate, now_fs, gets, mbind, SE_bind, lift.
  by rewrite Hin.
Qed.

(** Secrets stay where nothing is touched. *)
Lemma key_in_kept p key touched t t' : resolve p ∉ touched → kept touched t t' → key_in p key t → key_in p key t'.
Proof. intros Hp Hk [Hin Hl]. split; [by apply Hk|done]. Qed.
Lemma token_in_kept p token touched t t' : resolve p ∉ touched → kept touched t t' → token_in p token t → token_in p token t'.
Proof. intros Hp Hk (b & Hin & Hb). exists b. split; [by apply Hk|done]. Qed.
Lemma tls_in_kept {E} (v : TlsVault E) identity touched t t' :
  resolve (cert_path v) ∉ touched → resolve (key_path v) ∉ touched → kept touched t t' → tls_in v identity t →
  tls_in v identity t'.
Proof. intros Hc Hk Hkept [Hci Hki]. split; by apply Hkept. Qed.

(** ** A start and the next one *)

Lemma on_disk_Ok {E A} message (m : SE Disk E A) n a n' :
  on_disk message m n = (Ok a, n') → m (nd_disk n) = (Ok a, nd_disk n').
Proof. unfold on_disk. destruct (m (nd_disk n)) as [[x|e|] d]; intros [Hr <-]%pair_equal_spec; [|done..]. cbn in *. congruence. Qed.
Lemma on_sockets_disk {E A} message (m : SE (list Socket) E A) n r n' :
  on_sockets message m n = (r, n') → nd_disk n' = nd_disk n.
Proof. unfold on_sockets. destruct (m (nd_sockets n)) as [x s]. by intros [_ <-]%pair_equal_spec. Qed.
Lemma on_sockets_Ok {E A} message (m : SE (list Socket) E A) n a n' :
  on_sockets message m n = (Ok a, n') → m (nd_sockets n) = (Ok a, nd_sockets n').
Proof. unfold on_sockets. destruct (m (nd_sockets n)) as [[x|e|] d]; intros [Hr <-]%pair_equal_spec; [|done..]. cbn in *. congruence. Qed.
Lemma on_disk_sockets {E A} message (m : SE Disk E A) n r n' : on_disk message m n = (r, n') → nd_sockets n' = nd_sockets n.
Proof. unfold on_disk. destruct (m (nd_disk n)) as [x s]. by intros [_ <-]%pair_equal_spec. Qed.
Lemma in_context_Ok {A} message (m : BM A) n a n' : in_context message m n = (Ok a, n') → m n = (Ok a, n').
Proof. unfold in_context. destruct (m n) as [[x|e|] n1]; intros [Hr <-]%pair_equal_spec; cbn in *; congruence. Qed.

Abbreviation nfs n := (fs_of (nd_disk n)).

(** [m] touches no file outside [touched]. *)
Definition calm {A} (touched : list path) (m : BM A) : Prop := pres (λ n n', kept touched (nfs n) (nfs n')) m.

Section calm.
Context (touched : list path).
#[export] Instance calm_preorder : PreOrder (λ n n' : Node, kept touched (nfs n) (nfs n')).
Proof. split; [by intros n|]. intros n1 n2 n3 H1 H2. by etrans. Qed.

Lemma calm_run {A} (m : BM A) n r n' : calm touched m → m n = (r, n') → kept touched (nfs n) (nfs n').
Proof. intros Hm Hrun. specialize (Hm n). by rewrite Hrun in Hm. Qed.
Lemma calm_sockets {E A} message (m : SE (list Socket) E A) : calm touched (on_sockets message m).
Proof. intros n. destruct (on_sockets message m n) as [r n'] eqn:Hr. cbn. by rewrite (on_sockets_disk _ _ _ _ _ Hr). Qed.
Lemma calm_context {A} message (m : BM A) : calm touched m → calm touched (in_context message m).
Proof. intros Hm n. apply Hm. Qed.
Lemma calm_disk {A} message (m : DM A) :
  pres (λ d d', kept touched (fs_of d) (fs_of d')) m → calm touched (on_disk message m).
Proof. intros Hm n. unfold on_disk. pose proof (Hm (nd_disk n)) as Hk. by destruct (m (nd_disk n)). Qed.
Lemma calm_parent_dir p message : calm touched (on_disk message (ensure_parent_dir p)).
Proof.
  apply calm_disk. intros d. unfold ensure_parent_dir. destruct p; [done|].
  destruct (sys_create_dir_all _ d) eqn:Hr. by eapply sys_create_dir_all_kept.
Qed.
End calm.
#[export] Hint Resolve calm_sockets calm_context calm_parent_dir : pres.

(** What a computation does on any disk with [I], whatever its result. *)
Section again.
Context (I : fs → Prop) (I_kept : ∀ t t', kept [] t t' → I t → I t').

Definition again {A} (Q : A → Prop) (m : BM A) : Prop :=
  ∀ n r n', I (nfs n) → m n = (r, n') → kept [] (nfs n) (nfs n') ∧ ∀ a, r = Ok a → Q a.

Lemma again_bind {A B} (P : A → Prop) (Q : B → Prop) m k :
  again P m → (∀ a, P a → again Q (k a)) → again Q (m ≫= k).
Proof.
  intros Hm Hk n r n' Hn. unfold mbind, SE_bind. destruct (m n) as [r1 n1] eqn:H1.
  destruct (Hm _ _ _ Hn H1) as [Hkept HP]. destruct r1 as [a|e|]; [|intros [<- <-]%pair_equal_spec; by split..].
  intros Hrun. destruct (Hk a (HP a eq_refl) n1 r n' (I_kept _ _ Hkept Hn) Hrun) as [Hkept' HQ].
  split; [by etrans|done].
Qed.
Lemma again_calm {A} (m : BM A) : calm [] m → again (λ _, True) m.
Proof. intros Hm n r n' _ Hrun. split; [|done]. specialize (Hm n). by rewrite Hrun in Hm. Qed.
Lemma again_lift {A} (x : result rstring A) : again (λ a, x = Ok a) (lift x).
Proof. intros n r n' _ [<- <-]%pair_equal_spec. by split. Qed.
Lemma again_ret {A} (Q : A → Prop) a : Q a → again Q (mret a).
Proof. intros Ha n r n' _ [<- <-]%pair_equal_spec. split; [done|]. intros b Hb. by assert (a = b) as <- by congruence. Qed.
Lemma again_context {A} (Q : A → Prop) message (m : BM A) : again Q m → again Q (in_context message m).
Proof.
  intros Hm n r n' Hn. unfold in_context. destruct (m n) as [r1 n1] eqn:H1. intros [<- <-]%pair_equal_spec.
  destruct (Hm _ _ _ Hn H1) as [Hk HQ]. split; [done|]. intros a Ha. apply HQ. by destruct r1.
Qed.
Lemma again_recalls {E A : Type} (message : string) (holds : A → fs → Prop) (m : SE Disk E A) x :
  recalls holds m → (∀ t, I t → holds x t) → again (λ a, a = x) (on_disk message m).
Proof.
  intros Hm Hx n r n' Hn. unfold on_disk. rewrite (Hm _ _ (Hx _ Hn)). intros [<- <-]%pair_equal_spec.
  split; [done|]. cbn. congruence.
Qed.
End again.

Section restart.
Context `{CryptoSuite} `{Lowercase} `{Toml} (to_string : io_error → rstring) (paths : Paths) (state_dir : path).
Context (args : StartArgs).

Abbreviation trust_db := (default (p_trust_db_file paths) (arg_trust_db (sa_args args))).
Abbreviation identity_file := (identity_path paths args).
Abbreviation token_file := (api_token_path paths).
Abbreviation localsend_vault := (localsend_tls_vault (p_config_dir paths)).
Abbreviation native_vault := (native_tls_vault to_string (native_tls_dir paths trust_db)).

(** The files that make the daemon what it is for its peers and its clients,
    and the files that are renamed to them. *)
Definition secret_files : list path :=
  [resolve identity_file; resolve token_file] ++ tls_files localsend_vault ++ tls_files native_vault.
Definition scratch_files : list path :=
  [resolve (key_tmp identity_file); resolve (token_tmp token_file)] ++
  tls_scratch localsend_vault ++ tls_scratch native_vault.

Definition has_secrets (r : Running) (t : fs) : Prop :=
  key_in identity_file (ds_identity (rn_state r)) t ∧ token_in token_file (ds_api_token (rn_state r)) t ∧
  (if sa_disable_localsend_v2 args then rn_localsend r = None
   else ∃ l, rn_localsend r = Some l ∧ tls_in localsend_vault (lr_tls_identity l) t) ∧
  (if sa_disable_native args then rn_native r = None
   else ∃ l, rn_native r = Some l ∧ tls_in native_vault (nr_tls_identity l) t).

Lemma load_state_inbox env n state n' inbox :
  arg_inbox (sa_args args) = Some inbox → load_state paths args env n = (Ok state, n') → ds_inbox_dir state = inbox.
Proof.
  intros Hi Hrun. unfold load_state in Hrun. inv_se.
  match goal with H : from_args_with_metrics _ _ _ _ _ _ _ = _ |- _ =>
    unfold from_args_with_metrics in H; rewrite Hi in H; destruct (localsend_receive_policy _ _); inversion H; done end.
Qed.

Lemma start_state env n run n' :
  start to_string paths state_dir args env n = (Ok run, n') → ∃ n1, load_state paths args env n = (Ok (rn_state run), n1).
Proof. intros Hrun. unfold start, start_servers in Hrun. inv_se. eauto. Qed.

Lemma state_fields identity fingerprint token config metrics state :
  from_args_with_metrics paths (sa_args args) identity fingerprint token config metrics = Ok state →
  ds_identity state = identity ∧ ds_fingerprint state = fingerprint ∧ ds_api_token state = token ∧
  ds_trust_db_path state = trust_db.
Proof. unfold from_args_with_metrics. destruct (localsend_receive_policy _ _); intros [= <-]. done. Qed.

(** The paths are pairwise different. *)
Context (apart : NoDup (scratch_files ++ secret_files)).

Abbreviation localsend_touched := (tls_scratch localsend_vault ++ tls_files localsend_vault).
Abbreviation native_touched := (tls_scratch native_vault ++ tls_files native_vault).

Lemma apart_facts :
  (resolve (cert_path localsend_vault) ∉ [resolve (tls_tmp (key_path localsend_vault)); resolve (key_path localsend_vault)] ∧
   resolve (cert_path native_vault) ∉ [resolve (tls_tmp (key_path native_vault)); resolve (key_path native_vault)]) ∧
  (resolve identity_file ∉ [resolve (token_tmp token_file); resolve token_file] ∧
   resolve identity_file ∉ localsend_touched ∧ resolve identity_file ∉ native_touched) ∧
  (resolve token_file ∉ localsend_touched ∧ resolve token_file ∉ native_touched) ∧
  (resolve (cert_path localsend_vault) ∉ native_touched ∧ resolve (key_path localsend_vault) ∉ native_touched).
Proof.
  clear -apart. unfold scratch_files, secret_files, tls_scratch, tls_files in *.
  cbn [app] in *. rewrite !NoDup_cons, !not_elem_of_cons in apart. destruct_and!.
  rewrite !not_elem_of_cons. repeat apply conj; solve [assumption|apply not_eq_sym; assumption|apply not_elem_of_nil].
Qed.

Lemma localsend_step env state n l n' :
  start_localsend_v2 paths env state n = (Ok l, n') →
  kept localsend_touched (nfs n) (nfs n') ∧ tls_in localsend_vault (lr_tls_identity l) (nfs n').
Proof.
  intros Hrun. unfold start_localsend_v2 in Hrun. inv_se.
  match goal with H : on_disk _ _ _ = _ |- _ => apply on_disk_Ok in H as Hd end.
  match goal with H : on_sockets _ _ _ = _ |- _ => pose proof (on_sockets_disk _ _ _ _ _ H) as Hs end.
  apply tls_settles in Hd as [Hk Hin]; [|apply apart_facts]. rewrite <-Hs in Hk, Hin. by subst.
Qed.

Lemma native_step env state n l n' :
  ds_trust_db_path state = trust_db → start_native_runtime to_string paths state_dir args env state n = (Ok l, n') →
  kept native_touched (nfs n) (nfs n') ∧ tls_in native_vault (nr_tls_identity l) (nfs n').
Proof.
  intros Hdb Hrun. unfold start_native_runtime in Hrun. rewrite Hdb in Hrun. inv_se.
  match goal with H : on_disk _ (tls_load_or_generate _ _) _ = _ |- _ => apply on_disk_Ok in H as Hd end.
  match goal with H : on_sockets _ _ _ = _ |- _ => pose proof (on_sockets_disk _ _ _ _ _ H) as Hs end.
  match goal with H : on_disk _ (ensure_parent_dir _) _ = _ |- _ =>
    pose proof (calm_run [] _ _ _ _ (calm_parent_dir [] _ _) H) as Hp end.
  apply tls_settles in Hd as [Hk Hin]; [|apply apart_facts]. rewrite <-Hs in Hk, Hin. split.
  - etrans; [exact Hk|]. eapply kept_weaken; [|exact Hp]. by intros ? ?%elem_of_nil.
  - eapply tls_in_kept; [..|exact Hp|exact Hin]; apply not_elem_of_nil.
Qed.

(** After a start that succeeded the files hold what the daemon runs with. *)
Lemma load_state_secrets env n state n' :
  length (se_identity env) = KEY_LEN → length (se_token env) = 32%nat → Forall byte_ok (se_token env) →
  load_state paths args env n = (Ok state, n') →
  kept (scratch_files ++ secret_files) (nfs n) (nfs n') ∧
  key_in identity_file (ds_identity state) (nfs n') ∧ token_in token_file (ds_api_token state) (nfs n') ∧
  ds_fingerprint state = show_fingerprint (from_pubkey (public_bytes (ds_identity state))) ∧
  ds_trust_db_path state = trust_db.
Proof.
  intros Hk Ht Hb Hrun. unfold load_state in Hrun. inv_se.
  match goal with H : on_disk _ (load_or_create_identity _ _) _ = _ |- _ => apply on_disk_Ok in H as Hid end.
  match goal with H : on_disk _ (token_load_or_generate _ _) _ = _ |- _ => apply on_disk_Ok in H as Htok end.
  match goal with H : from_args_with_metrics _ _ _ _ _ _ _ = _ |- _ => apply state_fields in H as (-> & -> & -> & Hdb) end.
  match goal with H : on_disk _ (ensure_parent_dir _) _ = _ |- _ =>
    pose proof (calm_run [] _ _ _ _ (calm_parent_dir [] _ _) H) as Hp end.
  match goal with H : context [se_metrics env] |- _ => apply (calm_run []) in H as Hm; [|unfold calm; pres_auto] end.
  apply identity_settles in Hid as [Hk1 Hkey]; [|done]. apply token_settles in Htok as [Hk2 Htoken]; [|done..].
  pose proof (transitivity Hm Hp) as Hrest. split; [|split; [|split; [|done]]].
  - unfold scratch_files, secret_files. etrans; [|etrans]; eapply kept_weaken; [|exact Hk1| |exact Hk2| |exact Hrest];
      intros q Hq; set_solver.
  - eapply key_in_kept; [|exact Hrest|]; [apply not_elem_of_nil|].
    eapply key_in_kept; [|exact Hk2|exact Hkey]. apply apart_facts.
  - eapply token_in_kept; [|exact Hrest|exact Htoken]. apply not_elem_of_nil.
Qed.

(** A part that may be switched off. *)
Abbreviation optional off message m := (if (off : bool) then mret None else x ← in_context message m; mret (Some x)).

Lemma optional_step {A : Type} (touched : list path) (holds : A → fs → Prop) (off : bool) (message : string) (m : BM A) n o n' :
  (∀ n a n', m n = (Ok a, n') → kept touched (nfs n) (nfs n') ∧ holds a (nfs n')) →
  optional off message m n = (Ok o, n') → kept touched (nfs n) (nfs n') ∧
  if off then o = None else ∃ a, o = Some a ∧ holds a (nfs n').
Proof.
  intros Hm Hrun. destruct off; inv_se; [by split|].
  match goal with H : in_context _ _ _ = _ |- _ => apply in_context_Ok, Hm in H as [Hk Hin] end. eauto.
Qed.

Lemma calm_api env :
  calm [] (if sa_disable_api args then mret None
           else
             grpc ← in_context "failed to start gRPC API" (start_grpc_runtime env (sa_api_grpc_port args));
             http ← in_context "failed to start HTTP API" (start_http_runtime env (sa_api_http_port args));
             mret (Some (grpc, http))).
Proof. unfold calm, start_grpc_runtime, start_http_runtime. pres_auto; apply calm_context, calm_sockets. Qed.

Lemma calm_wan env state (native : option NativeRuntime) :
  calm [] (match native with
           | Some runtime =>
             in_context "failed to start WAN rendezvous runtime"
               (start_wan_runtime env state (sock_port (nr_local_addr runtime)))
           | None => mret None
           end).
Proof.
  destruct native; [|apply pres_ret, _]. apply calm_context. unfold calm, start_wan_runtime. pres_auto.
Qed.

Lemma start_secrets env n run n' :
  length (se_identity env) = KEY_LEN → length (se_token env) = 32%nat → Forall byte_ok (se_token env) →
  start to_string paths state_dir args env n = (Ok run, n') →
  has_secrets run (nfs n') ∧ kept (scratch_files ++ secret_files) (nfs n) (nfs n').
Proof.
  intros Hk Ht Hb Hrun. unfold start, start_servers in Hrun. inv_se.
  match goal with H : load_state _ _ _ _ = _ |- _ => apply load_state_secrets in H as (Hk0 & Hkey & Htoken & Hfp & Hdb); [|done..] end.
  match goal with H : context [sa_disable_api args] |- _ => apply (calm_run [] _ _ _ _ (calm_api env)) in H as Hk1 end.
  match goal with H : context [sa_disable_localsend_v2 args] |- _ =>
    apply (optional_step _ (λ l, tls_in localsend_vault (lr_tls_identity l)) _ _ _ _ _ _ (localsend_step env _)) in H as [Hk2 Hls] end.
  match goal with H : context [sa_disable_native args] |- _ =>
    apply (optional_step _ (λ l, tls_in native_vault (nr_tls_identity l)) _ _ _ _ _ _ (λ n l n', native_step env _ n l n' Hdb)) in H as [Hk3 Hnat] end.
  match goal with H : context [start_wan_runtime env x] |- _ => apply (calm_run [] _ _ _ _ (calm_wan env _ _)) in H as Hk4 end.
  destruct apart_facts as (_ & (_ & Hid2 & Hid3) & (Htk2 & Htk3) & Hc & Hky).
  pose proof (@not_elem_of_nil path) as Hnil.
  split; [|etrans; [exact Hk0|]; unfold scratch_files, secret_files; etrans; [|etrans; [|etrans]]; eapply kept_weaken;
    [|exact Hk1| |exact Hk2| |exact Hk3| |exact Hk4]; intros q Hq; clear -Hq; set_solver].
  split; [|split; [|split]]; cbn [rn_state rn_localsend rn_native].
  - eauto 8 using key_in_kept.
  - eauto 8 using token_in_kept.
  - destruct (sa_disable_localsend_v2 args); [done|]. destruct Hls as (l & Hl & Hin). exists l. split; [done|].
    eauto 8 using tls_in_kept.
  - destruct (sa_disable_native args); [done|]. destruct Hnat as (l & Hl & Hin). exists l. split; [done|].
    eauto 8 using tls_in_kept.
Qed.

Lemma has_secrets_kept run t t' : kept [] t t' → has_secrets run t → has_secrets run t'.
Proof.
  intros Hk (Hkey & Htoken & Hls & Hnat). pose proof (@not_elem_of_nil path) as Hnil. split; [|split; [|split]].
  - eauto using key_in_kept.
  - eauto using token_in_kept.
  - destruct (sa_disable_localsend_v2 args); [done|]. destruct Hls as (l & Hl & Hin). eauto 6 using tls_in_kept.
  - destruct (sa_disable_native args); [done|]. destruct Hnat as (l & Hl & Hin). eauto 6 using tls_in_kept.
Qed.

Lemma has_secrets_same run t t' :
  (∀ p, p ∈ secret_files → t' !! p = t !! p) → has_secrets run t → has_secrets run t'.
Proof.
  intros Hs (Hkey & Htoken & Hls & Hnat). unfold secret_files, tls_files in Hs. unfold has_secrets, key_in, token_in, tls_in in *.
  rewrite !Hs by set_solver. done.
Qed.

(** *** The next start *)

(** What the daemon is: the keys and the token. *)
Record Self := mkSelf {
  sf_identity : bytes; sf_token : rstring; sf_localsend : option TlsIdentity; sf_native : option TlsIdentity }.
Definition self_of (r : Running) : Self :=
  mkSelf (ds_identity (rn_state r)) (ds_api_token (rn_state r)) (lr_tls_identity <$> rn_localsend r)
    (nr_tls_identity <$> rn_native r).

Section next.
Context (run : Running) (env : StartEnv).
Abbreviation again := (again (has_secrets run)).
Let I_kept := has_secrets_kept run.

Lemma load_state_again :
  again (λ state, ds_identity state = ds_identity (rn_state run) ∧ ds_api_token state = ds_api_token (rn_state run) ∧
                  ds_trust_db_path state = trust_db) (load_state paths args env).
Proof.
  unfold load_state.
  eapply again_bind; [done|apply again_calm, pres_gets, _|]. intros t _.
  eapply again_bind; [done|apply again_lift|]. intros config _.
  eapply again_bind; [done|apply (again_recalls _ _ (key_in identity_file) _ (ds_identity (rn_state run))); [apply identity_recalls|by intros t' (? & _)]|].
  intros identity ->.
  eapply again_bind; [done|apply (again_recalls _ _ (token_in token_file) _ (ds_api_token (rn_state run))); [apply token_recalls|by intros t' (_ & ? & _)]|].
  intros token ->.
  eapply again_bind; [done|apply again_calm; destruct (mc_enabled _); [apply pres_lift|apply pres_ret]; apply _|]. intros metrics _.
  eapply again_bind; [done|apply again_lift|]. intros state Hst%state_fields.
  eapply again_bind; [done|apply again_calm, calm_parent_dir|]. intros _ _.
  eapply again_bind; [done|apply again_lift|]. intros _ _.
  apply again_ret. naive_solver.
Qed.

Lemma localsend_again state :
  sa_disable_localsend_v2 args = false →
  again (λ l, Some (lr_tls_identity l) = lr_tls_identity <$> rn_localsend run) (start_localsend_v2 paths env state).
Proof.
  intros Hon. destruct (rn_localsend run) as [l|] eqn:Hl.
  - unfold start_localsend_v2.
    eapply again_bind; [done|apply (again_recalls _ _ (tls_in localsend_vault) _ (lr_tls_identity l)); [apply tls_recalls|]|].
    { intros t (_ & _ & Hls & _). rewrite Hon, Hl in Hls. destruct Hls as (l' & Heq & Hin). by assert (l = l') as -> by congruence. }
    intros identity ->. eapply again_bind; [done|apply again_calm, calm_sockets|]. intros addr _. by apply again_ret.
  - intros n r n' (_ & _ & Hls & _). rewrite Hon, Hl in Hls. naive_solver.
Qed.

Lemma native_again state :
  sa_disable_native args = false → ds_trust_db_path state = trust_db →
  again (λ l, Some (nr_tls_identity l) = nr_tls_identity <$> rn_native run)
    (start_native_runtime to_string paths state_dir args env state).
Proof.
  intros Hon Hdb. destruct (rn_native run) as [l|] eqn:Hl.
  - unfold start_native_runtime. rewrite Hdb.
    eapply again_bind; [done|apply (again_recalls _ _ (tls_in native_vault) _ (nr_tls_identity l)); [apply tls_recalls|]|].
    { intros t (_ & _ & _ & Hls). rewrite Hon, Hl in Hls. destruct Hls as (l' & Heq & Hin). by assert (l = l') as -> by congruence. }
    intros identity ->. eapply again_bind; [done|apply again_lift|]. intros _ _.
    eapply again_bind; [done|apply again_lift|]. intros _ _.
    eapply again_bind; [done|apply again_calm, calm_sockets|]. intros addr _.
    eapply again_bind; [done|apply again_calm, calm_parent_dir|]. intros _ _. by apply again_ret.
  - intros n r n' (_ & _ & _ & Hls). rewrite Hon, Hl in Hls. naive_solver.
Qed.

Lemma optional_again {A} (Q : option A → Prop) (off : bool) message (m : BM A) :
  (off = true → Q None) → (off = false → again (λ a, Q (Some a)) m) → again Q (optional off message m).
Proof.
  intros Hoff Hon. destruct off; [by apply again_ret, Hoff|].
  eapply again_bind; [done|by apply again_context, Hon|]. intros a Ha. by apply again_ret.
Qed.

Lemma start_again :
  again (λ run', (∃ n, has_secrets run n) → self_of run' = self_of run) (start to_string paths state_dir args env).
Proof.
  unfold start, start_servers. eapply again_bind; [done|apply load_state_again|]. intros state (Hid & Htok & Hdb).
  eapply again_bind; [done|apply again_calm, calm_api|]. intros api _.
  eapply again_bind; [done|apply (optional_again (λ o, (∃ n, has_secrets run n) →
    lr_tls_identity <$> o = lr_tls_identity <$> rn_localsend run))|].
  { intros Hoff (n & _ & _ & Hls & _). rewrite Hoff in Hls. by rewrite Hls. }
  { intros Hon n r n' Hn Hrun. destruct (localsend_again state Hon n r n' Hn Hrun). naive_solver. }
  intros localsend Hls.
  eapply again_bind; [done|apply (optional_again (λ o, (∃ n, has_secrets run n) →
    nr_tls_identity <$> o = nr_tls_identity <$> rn_native run))|].
  { intros Hoff (n & _ & _ & _ & Hn). rewrite Hoff in Hn. by rewrite Hn. }
  { intros Hon n r n' Hn Hrun. destruct (native_again state Hon Hdb n r n' Hn Hrun). naive_solver. }
  intros native Hnat.
  eapply again_bind; [done|apply again_calm, calm_wan|]. intros wan _.
  apply again_ret. intros Hsome. unfold self_of. cbn [rn_state rn_localsend rn_native].
  by rewrite Hid, Htok, (Hls Hsome), (Hnat Hsome).
Qed.
End next.
(** *** What others see of it *)

(** The identity fingerprint, the certificate fingerprint announced to
    LocalSend peers, and what is announced to native peers: the fingerprint,
    the public key and the pin. *)
Definition presented (r : Running) : rstring * option rstring * option (rstring * bytes * option rstring) :=
  (ds_fingerprint (rn_state r), (λ l, di_fingerprint (sv_info (lr_state l))) <$> rn_localsend r,
   (λ l, (pi_fingerprint (nr_peer_info l), pi_pubkey (nr_peer_info l), pi_native_certificate_fingerprint (nr_peer_info l)))
     <$> rn_native r).
Definition face (s : Self) : rstring * option rstring * option (rstring * bytes * option rstring) :=
  let fingerprint := show_fingerprint (from_pubkey (public_bytes (sf_identity s))) in
  (fingerprint, (λ i, certificate_fingerprint_sha256_hex (cert_der i)) <$> sf_localsend s,
   (λ i, (fingerprint, public_bytes (sf_identity s), Some (certificate_fingerprint_sha256_hex (cert_der i)))) <$> sf_native s).

Lemma load_state_fingerprint env n state n' :
  load_state paths args env n = (Ok state, n') →
  ds_fingerprint state = show_fingerprint (from_pubkey (public_bytes (ds_identity state))).
Proof.
  intros Hrun. unfold load_state in Hrun. inv_se.
  by match goal with H : from_args_with_metrics _ _ _ _ _ _ _ = _ |- _ => apply state_fields in H as (-> & -> & _) end.
Qed.

Lemma start_presents env n run n' :
  start to_string paths state_dir args env n = (Ok run, n') → presented run = face (self_of run).
Proof.
  intros Hrun. unfold start, start_servers in Hrun. inv_se.
  match goal with H : load_state _ _ _ _ = _ |- _ => apply load_state_fingerprint in H as Hfp end.
  unfold presented, face, self_of. cbn [rn_state rn_localsend rn_native sf_identity sf_localsend sf_native].
  rewrite <-!option_fmap_compose, Hfp. f_equal; [f_equal|].
  - match goal with H : context [sa_disable_localsend_v2 args] |- _ => rename H into Hls end.
    destruct (sa_disable_localsend_v2 args); inv_se; [done|].
    match goal with H : in_context _ _ _ = _ |- _ => apply in_context_Ok in H end.
    unfold start_localsend_v2 in *. inv_se. done.
  - match goal with H : context [sa_disable_native args] |- _ => rename H into Hls end.
    destruct (sa_disable_native args); inv_se; [done|].
    match goal with H : in_context "failed to start native LAN listener" _ _ = _ |- _ => apply in_context_Ok in H end.
    unfold start_native_runtime in *. cbv zeta in *. inv_se. done.
Qed.

End restart.

(** ** WAN candidates *)

(** A round of the registration loop on a machine where [held] is bound. *)
Definition gathered_with (held : Socket) (w : WanRuntime) (r : round) : Prop :=
  ∃ sockets ephemeral transaction_id exchange probe,
    held ∈ sockets ∧
    rn_gathered r = gather_candidates (discover_server_reflexive_candidate ephemeral sockets transaction_id exchange)
                      probe (wr_native_port w) (wr_stun_servers w).

Lemma bind_native_endpoint_Ok env port sockets addr sockets' :
  (∀ l, se_ephemeral env l ≠ 0) → bind_native_endpoint env port sockets = (Ok addr, sockets') →
  mkSocket Udp addr ∈ sockets' ∧ sock_port addr ≠ 0.
Proof.
  intros He Hrun. unfold bind_native_endpoint, bind_server_endpoint in Hrun.
  assert (Hserver : ∀ a, endpoint_server (se_ephemeral env) a sockets = (Ok addr, sockets') →
    mkSocket Udp addr ∈ sockets' ∧ sock_port addr ≠ 0).
  { unfold endpoint_server. intros a Ha. destruct (bind _ _ _ _) as [[x s]| |] eqn:Hb; [|done..].
    apply pair_equal_spec in Ha as [Hx <-]. assert (x = addr) as -> by congruence.
    pose proof (bind_port _ _ _ _ _ _ He Hb). apply bind_Ok in Hb as (-> & _ & _). split; [by left|done]. }
  destruct (port =? 0); [by eapply Hserver|]. inv_se. by eapply Hserver.
Qed.

Section wan.
Context `{CryptoSuite} `{Lowercase} `{Toml} (to_string : io_error → rstring) (paths : Paths) (state_dir : path).
Context (args : StartArgs).

Lemma native_socket env state n l n' :
  (∀ l, se_ephemeral env l ≠ 0) → start_native_runtime to_string paths state_dir args env state n = (Ok l, n') →
  mkSocket Udp (nr_local_addr l) ∈ nd_sockets n' ∧ sock_port (nr_local_addr l) ≠ 0.
Proof.
  intros He Hrun. unfold start_native_runtime in Hrun. cbv zeta in Hrun. inv_se. cbn [nr_local_addr].
  match goal with H : on_disk _ (ensure_parent_dir _) _ = _ |- _ => rewrite (on_disk_sockets _ _ _ _ _ H) end.
  match goal with H : on_sockets _ _ _ = _ |- _ => apply on_sockets_Ok in H end.
  by eapply bind_native_endpoint_Ok.
Qed.

Lemma wan_port env state port n w n' :
  start_wan_runtime env state port n = (Ok (Some w), n') → wr_native_port w = port ∧ n' = n.
Proof.
  unfold start_wan_runtime. cbv zeta. destruct (wc_enabled _); cbn [negb]; intros Hrun; inv_se; [by simplify_eq|done].
Qed.

Lemma start_wan env n run n' w :
  (∀ l, se_ephemeral env l ≠ 0) → start to_string paths state_dir args env n = (Ok run, n') → rn_wan run = Some w →
  ∃ native, rn_native run = Some native ∧ wr_native_port w = sock_port (nr_local_addr native) ∧ wr_native_port w ≠ 0 ∧
    mkSocket Udp (nr_local_addr native) ∈ nd_sockets n'.
Proof.
  intros He Hrun Hw. unfold start, start_servers in Hrun. inv_se. cbn [rn_wan rn_native] in *. subst.
  match goal with H : context [start_wan_runtime env ?x] |- _ => rename H into Hwan end.
  match type of Hwan with match ?o with _ => _ end _ = _ => destruct o as [native|] end; [|by inv_se].
  exists native. split; [done|].
  match goal with H : context [sa_disable_native args] |- _ => rename H into Hnat end.
  destruct (sa_disable_native args); [by inv_se|]. inv_se.
  match goal with H : in_context "failed to start native LAN listener" _ _ = _ |- _ => apply in_context_Ok in H as Hn end.
  apply in_context_Ok, wan_port in Hwan as [-> ->]. destruct (native_socket _ _ _ _ _ He Hn). done.
Qed.

(** C40: A daemon registers none but its local addresses.  Once a start came up
    with the native listener and WAN, the port it asks STUN servers from is
    held by its own listener: whatever the servers would answer, and whatever
    else is bound, every round of the registration loop gathers local
    candidates only.  The loop does not fail, and every registration it sends
    offers candidates of the kind Local alone: no address that a peer outside
    the local network could reach. *)
Theorem wan_registers_only_local env n run n' w alias key ttl rounds :
  (∀ l, se_ephemeral env l ≠ 0) →
  start to_string paths state_dir args env n = (Ok run, n') → rn_wan run = Some w →
  ∃ held, held ∈ nd_sockets n' ∧
    (Forall (gathered_with held w) rounds →
     let '(result, requests) := run_register_loop alias key ttl rounds in
     result = Ok tt ∧ Forall (λ request, Forall (λ c, cd_kind c = RvLocal) (rg_candidates request)) requests).
Proof.
  intros He Hrun Hw. destruct (start_wan _ _ _ _ _ He Hrun Hw) as (native & _ & Hport & Hne & Hin).
  eexists. split; [exact Hin|]. intros Hrounds. induction Hrounds as [|r rounds Hr _ IH]; [done|].
  destruct Hr as (sockets & ephemeral & tid & exchange & probe & Hheld & Hg).
  destruct (gather_no_answer (discover_server_reflexive_candidate ephemeral sockets tid exchange) probe (wr_native_port w)
    (wr_stun_servers w)) as (cs & Hcs & Hlocal); [done| |].
  { intros s. eapply is_err_not_ok, stun_port_taken; [exact Hheld|done|by rewrite Hport]. }
  cbn [run_register_loop]. rewrite Hg, Hcs.
  assert (Hreq : Forall (λ c, cd_kind c = RvLocal) (rg_candidates (build_register_request alias key cs ttl))).
  { cbn. apply Forall_fmap. eapply Forall_impl; [exact Hlocal|]. intros c Hc. cbn. by rewrite Hc. }
  destruct (rn_shutdown r); [by repeat constructor|]. destruct (run_register_loop alias key ttl rounds) as [result requests].
  destruct IH as [-> HF]. split; [done|]. by constructor.
Qed.
End wan.

(** ** Stopping *)

Definition ended_well (e : TaskEnd) : bool := match e with EndedWell => true | _ => false end.

Definition part_ended_well (ends : Ends) (part : Part) : bool :=
  match part with
  | WanPart => ended_well (en_wan ends)
  | NativePart => ended_well (en_native ends)
  | LocalSendPart => ended_well (en_localsend_server ends) && ended_well (en_localsend_announcer ends)
  | HttpPart => ended_well (en_http ends)
  | GrpcPart => ended_well (en_grpc ends)
  | HooksPart => true
  end.

(** The parts that run, in the order in which they are stopped. *)
Definition shutdown_order (r : Running) : list Part :=
  (if rn_wan r is Some _ then [WanPart] else []) ++ (if rn_native r is Some _ then [NativePart] else []) ++
  (if rn_localsend r is Some _ then [LocalSendPart] else []) ++ (if rn_api r is Some _ then [HttpPart; GrpcPart] else []) ++ [HooksPart].

Definition stops (ends : Ends) (order : list Part) (m : SE (list Part) rstring unit) : Prop :=
  ∀ parts, (m parts).2 = parts ++ take_while (part_ended_well ends) order ∧
           ((m parts).1 = Ok tt ↔ Forall (λ part, part_ended_well ends part = true) order) ∧ (m parts).1 ≠ Panic.

Lemma stops_bind ends order1 order2 m1 m2 :
  stops ends order1 m1 → stops ends order2 m2 → stops ends (order1 ++ order2) (_ ← m1; m2).
Proof.
  intros H1 H2 parts. destruct (H1 parts) as (Hp & Hok & Hnp). unfold mbind, SE_bind.
  destruct (m1 parts) as [[[]|e|] parts1]; cbn [fst snd] in *; subst parts1; [|split; [|split]|done].
  - destruct (H2 (parts ++ take_while (part_ended_well ends) order1)) as (Hp2 & Hok2 & Hnp2).
    pose proof (proj1 Hok eq_refl) as Hall. rewrite Hp2, Forall_app, Hok2. split; [|naive_solver].
    by rewrite (take_while_all _ _ Hall), take_while_app_all, <-app_assoc.
  - by rewrite take_while_app_stop by (intros Hall; by apply Hok in Hall).
  - rewrite Forall_app. naive_solver.
  - done.
Qed.

Lemma stops_optional {A} ends order (o : option A) m :
  stops ends order m → stops ends (if o is Some _ then order else []) (match o with Some _ => m | None => mret tt end).
Proof. intros Hm. destruct o; [done|]. intros parts. cbn. rewrite app_nil_r. split; [done|]. split; [|done]. by split. Qed.

Lemma stops_task ends message e part :
  part_ended_well ends part = ended_well e → stops ends [part] (_ ← lift (join_both message e); stopped part).
Proof.
  intros He parts. rewrite Forall_singleton. cbn [take_while]. rewrite He.
  destruct e; cbn; rewrite ?app_nil_r; (split; [done|split; [split; done|done]]).
Qed.
Lemma stops_localsend ends : stops ends [LocalSendPart] (stop_localsend_v2 ends).
Proof.
  intros parts. rewrite Forall_singleton. unfold stop_localsend_v2. cbn [take_while part_ended_well].
  destruct (en_localsend_server ends), (en_localsend_announcer ends); cbn; rewrite ?app_nil_r;
    (split; [done|split; [split; done|done]]).
Qed.
Lemma stops_hooks ends : stops ends [HooksPart] (stopped HooksPart).
Proof. intros parts. rewrite Forall_singleton. done. Qed.

(** What the daemon stops.  The parts that run are stopped in the fixed
    order WAN, native listener, LocalSend, HTTP, gRPC, hooks, up to the first
    one whose task ended with an error or a panic: all after it are never told
    to stop, and are cut off when the process ends.  The daemon ends without an
    error exactly when every part that ran ended well, and stopping never
    panics. *)
Theorem stop_stops_in_order running ends :
  let '(r, parts) := stop running ends [] in
  parts = take_while (part_ended_well ends) (shutdown_order running) ∧
  (r = Ok tt ↔ Forall (λ part, part_ended_well ends part = true) (shutdown_order running)) ∧ r ≠ Panic.
Proof.
  assert (Hs : stops ends (shutdown_order running) (stop running ends)).
  { unfold shutdown_order, stop. repeat apply stops_bind; try apply stops_optional; try apply (stops_bind _ [_] [_]);
      first [by apply stops_task|apply stops_localsend|apply stops_hooks]. }
  specialize (Hs []). destruct (stop running ends []). exact Hs.
Qed.

(** ** Ports *)

Section ports.
Context `{CryptoSuite} `{Lowercase} `{Toml} (to_string : io_error → rstring) (paths : Paths) (state_dir : path).
Context (args : StartArgs).

(** Sockets that were bound before the daemon started stay bound. *)
Definition grows {A} (m : BM A) : Prop := pres (λ n n', nd_sockets n ⊆ nd_sockets n') m.
#[export] Instance grows_preorder : PreOrder (λ n n' : Node, nd_sockets n ⊆ nd_sockets n').
Proof. split; [by intros n s|]. intros n1 n2 n3 H12 H23 s Hs. auto. Qed.

Lemma grows_disk {E A} message (m : SE Disk E A) : grows (on_disk message m).
Proof. intros n. destruct (on_disk message m n) as [r n'] eqn:Hr. cbn. by rewrite (on_disk_sockets _ _ _ _ _ Hr). Qed.
Lemma grows_context {A} message (m : BM A) : grows m → grows (in_context message m).
Proof. intros Hm n. apply Hm. Qed.
Lemma grows_listen env message addr : grows (on_sockets message (listen env addr)).
Proof.
  intros n. unfold on_sockets, listen. destruct (bind _ _ _ _) as [[a s]| |] eqn:Hb; cbn; [|done..].
  apply bind_Ok in Hb as (-> & _). intros x Hx. by right.
Qed.

(** Of what was bound before, nothing is in the way of what the daemon binds. *)
Definition free_for (protocol : Protocol) (port : Z) (sockets : list Socket) : Prop :=
  ∀ taken, taken ∈ sockets → so_protocol taken = protocol → sock_port (so_addr taken) ≠ port.

Lemma bind_free ephemeral protocol port sockets x :
  port ≠ 0 → bind ephemeral protocol (SockV4 0 0 0 0 port) sockets = Ok x → free_for protocol port sockets.
Proof.
  intros Hne Hb taken Hin Hp Hport. by rewrite (bind_taken _ _ (SockV4 0 0 0 0 port) _ _ Hin Hp Hport) in Hb.
Qed.

Lemma load_state_grows env : grows (load_state paths args env).
Proof. unfold load_state, grows. pres_auto; apply grows_disk. Qed.

Lemma load_state_ports env n state n' :
  load_state paths args env n = (Ok state, n') →
  ds_localsend_port state = arg_localsend_port (sa_args args) ∧ ds_native_port state = arg_native_port (sa_args args).
Proof.
  intros Hrun. unfold load_state in Hrun. inv_se.
  match goal with H : from_args_with_metrics _ _ _ _ _ _ _ = _ |- _ =>
    unfold from_args_with_metrics in H; destruct (localsend_receive_policy _ _); inversion H; done end.
Qed.

Lemma localsend_port_free env state n l n' :
  ds_localsend_port state ≠ 0 → start_localsend_v2 paths env state n = (Ok l, n') →
  free_for Tcp (ds_localsend_port state) (nd_sockets n).
Proof.
  intros Hne Hrun. unfold start_localsend_v2 in Hrun. inv_se.
  match goal with H : on_disk _ _ _ = _ |- _ => apply on_disk_sockets in H as Hs end.
  match goal with H : on_sockets _ _ _ = _ |- _ => apply on_sockets_Ok in H as Hl end.
  rewrite <-Hs. unfold listen in Hl.
  destruct (bind _ _ _ _) as [[a s]| |] eqn:Hb; [|done..]. by eapply bind_free.
Qed.

Lemma native_port_free env state n l n' :
  ds_native_port state ≠ 0 → start_native_runtime to_string paths state_dir args env state n = (Ok l, n') →
  free_for Udp (ds_native_port state) (nd_sockets n).
Proof.
  intros Hne Hrun. unfold start_native_runtime in Hrun. cbv zeta in Hrun. inv_se.
  match goal with H : on_disk _ (tls_load_or_generate _ _) _ = _ |- _ => apply on_disk_sockets in H as Hs end.
  match goal with H : on_sockets _ _ _ = _ |- _ => apply on_sockets_Ok in H as Hl end.
  rewrite <-Hs. unfold bind_native_endpoint, bind_server_endpoint in Hl. apply Z.eqb_neq in Hne as Hz. rewrite Hz in Hl.
  inv_se. rename select (socket_addr _ _ = Ok _) into Haddr. cbn [hp_host hp_port] in Haddr.
  rewrite (host_port_address 0 0 0 0), Hz in Haddr by (split; lia). apply Ok_inj in Haddr. subst.
  unfold endpoint_server in Hl. destruct (bind _ _ _ _) as [x'| |] eqn:Hb; [|done..]. by eapply bind_free.
Qed.

Lemma api_grows env :
  grows (if sa_disable_api args then mret None
         else
           grpc ← in_context "failed to start gRPC API" (start_grpc_runtime env (sa_api_grpc_port args));
           http ← in_context "failed to start HTTP API" (start_http_runtime env (sa_api_http_port args));
           mret (Some (grpc, http))).
Proof. unfold grows, start_grpc_runtime, start_http_runtime. pres_auto; apply grows_context, grows_listen. Qed.
Lemma localsend_grows env state : grows (start_localsend_v2 paths env state).
Proof. unfold grows, start_localsend_v2. pres_auto; [apply grows_disk|apply grows_listen]. Qed.
Lemma grows_run {A} (m : BM A) n r n' : grows m → m n = (r, n') → nd_sockets n ⊆ nd_sockets n'.
Proof. intros Hm Hrun. specialize (Hm n). by rewrite Hrun in Hm. Qed.
Lemma free_for_before protocol port l l' : l ⊆ l' → free_for protocol port l' → free_for protocol port l.
Proof. intros Hs Hf taken Hin. apply Hf. by apply Hs. Qed.

(** A daemon that is up found its ports free. *)
Lemma start_ports env n run n' :
  start to_string paths state_dir args env n = (Ok run, n') →
  (sa_disable_localsend_v2 args = false → arg_localsend_port (sa_args args) ≠ 0 →
     free_for Tcp (arg_localsend_port (sa_args args)) (nd_sockets n)) ∧
  (sa_disable_native args = false → arg_native_port (sa_args args) ≠ 0 →
     free_for Udp (arg_native_port (sa_args args)) (nd_sockets n)).
Proof.
  intros Hrun. unfold start, start_servers in Hrun. inv_se.
  match goal with H : load_state _ _ _ _ = _ |- _ =>
    pose proof (grows_run _ _ _ _ (load_state_grows env) H) as Hg1; apply load_state_ports in H as [<- <-] end.
  match goal with H : context [sa_disable_api args] |- _ => pose proof (grows_run _ _ _ _ (api_grows env) H) as Hg2 end.
  match goal with H : context [sa_disable_localsend_v2 args] |- _ => rename H into Hls end.
  match goal with H : context [sa_disable_native args] |- _ => rename H into Hnat end.
  pose proof (transitivity Hg1 Hg2) as Hg. split; intros Hon Hne.
  - rewrite Hon in Hls. inv_se.
    match goal with H : in_context "failed to start LocalSend v2 receiver" _ _ = _ |- _ => apply in_context_Ok in H end.
    eapply free_for_before; [exact Hg|by eapply localsend_port_free].
  - assert (Hg3 : grows (if sa_disable_localsend_v2 args then mret None
      else runtime ← in_context "failed to start LocalSend v2 receiver" (start_localsend_v2 paths env x); mret (Some runtime))).
    { unfold grows. pres_auto. apply grows_context, localsend_grows. }
    apply (grows_run _ _ _ _ Hg3) in Hls. rewrite Hon in Hnat. inv_se.
    match goal with H : in_context "failed to start native LAN listener" _ _ = _ |- _ => apply in_context_Ok in H end.
    eapply free_for_before; [exact (transitivity Hg Hls)|by eapply native_port_free].
Qed.

(** The ports of the API are the ones that were asked for. *)
Lemma start_api_ports env n run n' :
  start to_string paths state_dir args env n = (Ok run, n') → sa_disable_api args = false →
  sa_api_grpc_port args ≠ 0 → sa_api_http_port args ≠ 0 →
  rn_api run = Some (SockV4 127 0 0 1 (sa_api_grpc_port args), SockV4 127 0 0 1 (sa_api_http_port args)).
Proof.
  intros Hrun Hon Hg Hh. unfold start, start_servers in Hrun. rewrite Hon in Hrun. inv_se. cbn [rn_api].
  assert (Hlisten : ∀ message port n a n', port ≠ 0 →
    on_sockets message (listen env (SockV4 127 0 0 1 port)) n = (Ok a, n') → a = SockV4 127 0 0 1 port).
  { intros message port n1 a n1' Hne Hl. apply on_sockets_Ok in Hl. unfold listen in Hl.
    destruct (bind _ _ _ _) as [[a' s]| |] eqn:Hb; [|done..]. apply bind_Ok in Hb as (_ & _ & Hb).
    apply pair_equal_spec in Hl as [Hl _]. apply Ok_inj in Hl. subst. by apply Hb. }
  repeat match goal with H : in_context _ _ _ = _ |- _ => apply in_context_Ok in H end.
  unfold start_grpc_runtime, start_http_runtime in *.
  repeat match goal with H : on_sockets _ (listen _ _) _ = _ |- _ => apply Hlisten in H; [|done] end. by subst.
Qed.

(** *** The sockets of a daemon that is up *)

Definition holds (protocol : Protocol) (port : Z) (n : Node) : Prop := ¬ free_for protocol port (nd_sockets n).
Lemma holds_later protocol port n n' : nd_sockets n ⊆ nd_sockets n' → holds protocol port n → holds protocol port n'.
Proof. intros Hs Hh Hf. apply Hh. by eapply free_for_before. Qed.
Lemma bind_holds ephemeral protocol addr sockets addr' sockets' :
  sock_port addr ≠ 0 → bind ephemeral protocol addr sockets = Ok (addr', sockets') → ¬ free_for protocol (sock_port addr) sockets'.
Proof.
  intros Hne Hb Hf. apply bind_Ok in Hb as (-> & _ & Ha). rewrite (Ha Hne) in Hf.
  by eapply (Hf (mkSocket protocol addr)); [left|..].
Qed.

Lemma localsend_holds env state n l n' :
  ds_localsend_port state ≠ 0 → start_localsend_v2 paths env state n = (Ok l, n') → holds Tcp (ds_localsend_port state) n'.
Proof.
  intros Hne Hrun. unfold start_localsend_v2 in Hrun. inv_se.
  match goal with H : on_sockets _ _ _ = _ |- _ => apply on_sockets_Ok in H as Hl end.
  unfold listen in Hl. destruct (bind _ _ _ _) as [[addr s]| |] eqn:Hb; [|done..].
  apply pair_equal_spec in Hl as [_ Hl]. unfold holds. rewrite <-Hl. by apply bind_holds in Hb.
Qed.

Lemma native_grows env state : grows (start_native_runtime to_string paths state_dir args env state).
Proof.
  unfold start_native_runtime, grows. pres_auto; try apply grows_disk.
  intros n. unfold on_sockets, bind_native_endpoint, bind_server_endpoint, endpoint_server.
  assert (Hg : ∀ addr, nd_sockets n ⊆ (match bind (se_ephemeral env) Udp addr (nd_sockets n) with
    | Ok (addr, sockets) => (Ok addr, sockets) | Err e => (Err (Io e), nd_sockets n) | Panic => (Panic, nd_sockets n) end).2).
  { intros addr. destruct (bind _ _ _ _) as [[addr1 s]| |] eqn:Hb; cbn; [|done..]. apply bind_Ok in Hb as (-> & _). intros x Hx. by right. }
  destruct (_ =? 0).
  - specialize (Hg (SockV4 0 0 0 0 0)). by destruct (bind _ _ _ _) as [[? ?]| |].
  - unfold mbind, SE_bind, lift. destruct (socket_addr _ _) as [addr| |]; cbn; [|done..].
    specialize (Hg addr). by destruct (bind _ _ _ _) as [[? ?]| |].
Qed.

Lemma start_holds env n run n' :
  start to_string paths state_dir args env n = (Ok run, n') → sa_disable_localsend_v2 args = false →
  arg_localsend_port (sa_args args) ≠ 0 → holds Tcp (arg_localsend_port (sa_args args)) n'.
Proof.
  intros Hrun Hon Hne. unfold start, start_servers in Hrun. inv_se.
  match goal with H : load_state _ _ _ _ = _ |- _ => apply load_state_ports in H as [Hp _] end. rewrite <-Hp in *.
  match goal with H : (if sa_disable_localsend_v2 args then _ else _) _ = _ |- _ => rename H into Hls end. rewrite Hon in Hls. inv_se.
  match goal with H : in_context "failed to start LocalSend v2 receiver" _ _ = _ |- _ =>
    apply in_context_Ok, localsend_holds in H as Hh; [|done] end.
  eapply holds_later; [|exact Hh].
  match goal with H : (if sa_disable_native args then _ else _) _ = _ |- _ => rename H into Hnat end.
  match goal with H : match ?o with Some _ => _ | None => _ end _ = _ |- _ => rename H into Hwan end.
  etrans; [eapply grows_run; [|exact Hnat]|eapply grows_run; [|exact Hwan]].
  - unfold grows. pres_auto. apply grows_context, native_grows.
  - unfold grows, start_wan_runtime. case_match; pres_auto. apply grows_context. unfold grows. pres_auto.
Qed.
End ports.

(** While a daemon is up no other comes up on its LocalSend port, whatever
    else is asked of it and wherever its files are: with the ports left at
    their defaults there is one daemon to a machine, and two never serve one
    trust database side by side unless they were given ports. *)
Theorem one_daemon_per_port `{CryptoSuite} `{Lowercase} `{Toml} to_string paths state_dir args env n run n1
    paths2 state_dir2 args2 env2 n2 :
  start to_string paths state_dir args env n = (Ok run, n1) →
  sa_disable_localsend_v2 args = false → sa_disable_localsend_v2 args2 = false →
  arg_localsend_port (sa_args args) ≠ 0 → arg_localsend_port (sa_args args2) = arg_localsend_port (sa_args args) →
  nd_sockets n1 ⊆ nd_sockets n2 →
  is_ok (start to_string paths2 state_dir2 args2 env2 n2).1 = false.
Proof.
  intros Hrun Hon Hon2 Hne Hsame Hsub. apply start_holds in Hrun; [|done..]. eapply holds_later in Hrun; [|exact Hsub].
  destruct (start _ paths2 _ _ _ _) as [[run2| |] n3] eqn:Hrun2; [|done..]. destruct Hrun.
  apply start_ports in Hrun2 as [Hfree _]. rewrite <-Hsame in *. by apply Hfree.
Qed.

(** With the paths of the account the secret and temporary files differ. *)
Lemma with_extension_snoc dir name ext :
  with_extension (dir ++ [name]) ext =
  dir ++ [match stem_and_extension name with (Some stem, _) => stem ++ 46 :: ext | (None, _) => name end].
Proof. unfold with_extension. rewrite last_snoc, removelast_last. by destruct (stem_and_extension name) as [[stem|] e]. Qed.

Lemma native_tls_dir_snoc paths dir name : native_tls_dir paths (dir ++ [name]) = dir.
Proof. unfold native_tls_dir. destruct (dir ++ [name]) eqn:Heq; [by destruct dir|]. rewrite <-Heq. apply removelast_last. Qed.

Lemma default_paths_apart to_string paths args data :
  sa_identity args = None → arg_trust_db (sa_args args) = None → p_trust_db_file paths = data ++ [str "trust.db"] →
  NoDup (scratch_files to_string paths args ++ secret_files to_string paths args).
Proof.
  intros Hid Hdb Hp. apply (NoDup_fmap_1 last). unfold scratch_files, secret_files, tls_scratch, tls_files.
  rewrite Hdb. cbn [default]. rewrite Hp. unfold identity_path. rewrite Hid. cbn [default].
  rewrite native_tls_dir_snoc. unfold key_tmp, token_tmp, tls_tmp, api_token_path, cert_path, key_path, localsend_tls_vault, native_tls_vault.
  cbn [tv_config_dir tv_cert_file tv_key_file app fmap list_fmap].
  rewrite !with_extension_snoc, !resolve_app_plain by (split; vm_compute; discriminate). rewrite !last_snoc.
  apply (bool_decide_unpack _). vm_compute. exact I.
Qed.
