(* ===== verification/Gui.v ===== *)
(** * The graphical client

    Model of crates/gui: the settings file (settings.rs) and the daemon the
    client runs itself (daemon.rs), over the disk of Vault.v and a table of
    processes.  Url::parse and serde_json are parameters, and so is what
    the operating system answers to a call ([GuiCall]).  The window itself is
    tauri's and the web interface's. *)

From stdpp Require Import prelude gmap strings.
From Stdlib Require Import ZArith Lia.
From S2P Require Import Prelude RustStr Errors Fs Inet Text Identity TrustStore LocalSession LocalServer Config AppDirs Transport Vault Startup.

Local Open Scope Z_scope.

(** ** Settings (settings.rs) *)

Definition SETTINGS_FILE_NAME : rstring := str "gui-settings.json".

Inductive GuiMode := Remote | Standalone.
#[export] Instance GuiMode_eq_dec : EqDecision GuiMode.
Proof. solve_decision. Defined.
Record GuiSettings := mkGuiSettings {
  gs_mode : GuiMode; gs_remote_endpoint : option rstring; gs_api_token : option rstring }.
#[export] Instance GuiSettings_eq_dec : EqDecision GuiSettings.
Proof. solve_decision. Defined.

Inductive SettingsError :=
| MissingConfigDir
| InvalidEndpoint (endpoint reason : rstring)
| ReadSettings (e : io_error)
| WriteSettings (e : io_error)
| ParseSettings.

(** [Url::parse]: the text of the error, or the scheme. *)
Class UrlParse := url_parse : rstring → rstring + rstring.
(** serde_json on the settings. *)
Class GuiJson := { gui_to_json : GuiSettings → bytes; gui_from_json : bytes → option GuiSettings }.
Definition settings_text (s : GuiSettings) : Prop :=
  Forall scalar (default [] (gs_remote_endpoint s)) ∧ Forall scalar (default [] (gs_api_token s)).
Class GuiJsonRoundtrip `{GuiJson} : Prop := gui_from_to s : settings_text s → gui_from_json (gui_to_json s) = Some s.

Definition default_settings : GuiSettings := mkGuiSettings Remote None None.

(** [s.trim_end_matches(ch)] *)
Definition trim_end_matches (ch : Z) (s : rstring) : rstring := reverse (trim_start_matches ch (reverse s)).

Definition non_empty (value : rstring) : option rstring :=
  let trimmed := trim value in if bool_decide (trimmed = []) then None else Some trimmed.

Section settings.
Context `{UrlParse} `{GuiJson}.

Definition validate_endpoint (endpoint : rstring) : result SettingsError unit :=
  match url_parse endpoint with
  | inl reason => Err (InvalidEndpoint endpoint reason)
  | inr scheme =>
    ensure (bool_decide (scheme ∈ [str "http"; str "https"]))
      (InvalidEndpoint endpoint (str "unsupported scheme `" ++ scheme ++ str "`"))
  end.

Definition normalized (s : GuiSettings) : result SettingsError GuiSettings :=
  _ ← match gs_remote_endpoint s with Some endpoint => validate_endpoint endpoint | None => Ok tt end;
  Ok (mkGuiSettings (gs_mode s)
        (endpoint ← gs_remote_endpoint s; trim_end_matches 47 <$> non_empty endpoint)
        (gs_api_token s ≫= non_empty)).

Definition load_settings_from (t : fs) (p : path) : result SettingsError GuiSettings :=
  match read_file t p with
  | Ok bytes =>
    settings ← ok_or (gui_from_json bytes) ParseSettings;
    normalized settings
  | Err NotFound => Ok default_settings
  | Err error => Err (ReadSettings error)
  | Panic => Panic
  end.

Definition save_settings_to (p : path) (settings : GuiSettings) : SE Disk SettingsError unit :=
  settings ← lift (normalized settings);
  _ ← io WriteSettings (create_parent p);
  let bytes := gui_to_json settings in
  io WriteSettings (fs_write p bytes).

(** The file among the directories of the account. *)
Definition default_settings_path `{Directories} (platform : Platform) (env : environment) : result SettingsError path :=
  dirs ← ok_or (project_dirs platform env (str "com") (str "nightbridge") (str "NightBridge")) MissingConfigDir;
  Ok (pd_config_dir dirs ++ [SETTINGS_FILE_NAME]).
Definition load_settings `{Directories} (platform : Platform) (env : environment) (t : fs) : result SettingsError GuiSettings :=
  p ← default_settings_path platform env; load_settings_from t p.
Definition save_settings `{Directories} (platform : Platform) (env : environment) (settings : GuiSettings) :
    SE Disk SettingsError unit :=
  p ← lift (default_settings_path platform env); save_settings_to p settings.
End settings.

(** ** The embedded daemon (daemon.rs) *)

Definition API_HTTP_PORT : Z := 53561.
Definition API_GRPC_PORT : Z := 53562.

Record DaemonSpec := mkDaemonSpec {
  sp_executable : path; sp_state_root : path; sp_inbox_dir : path; sp_api_http_port : Z; sp_api_grpc_port : Z;
  sp_args : list rstring; sp_env : list (rstring * rstring) }.

Inductive DaemonError :=
| MissingStateDir
| AlreadyRunning
| NotRunning
| Prepare (e : io_error)
| Start (p : path) (e : io_error)
| Stop (e : io_error)
| ReadToken (e : io_error).

Record EmbeddedDaemonStatus := mkStatus {
  es_running : bool; es_endpoint : option rstring; es_api_token : option rstring }.
#[export] Instance EmbeddedDaemonStatus_eq_dec : EqDecision EmbeddedDaemonStatus.
Proof. solve_decision. Defined.
Definition stopped_status : EmbeddedDaemonStatus := mkStatus false None None.

(** [path.to_string_lossy()] of an absolute path. *)
Definition show_path (p : path) : rstring := match p with [] => str "/" | _ => p ≫= λ c, 47 :: c end.

(** A handle of a child is its place in the table of processes. *)
Record EmbeddedDaemonManager := mkManager { em_child : option nat; em_spec : option DaemonSpec }.
Definition new_manager : EmbeddedDaemonManager := mkManager None None.

Record Process := mkProcess {
  pr_executable : path; pr_args : list rstring; pr_env : environment; pr_alive : bool }.
Record GuiWorld := mkGui { gw_disk : Disk; gw_processes : list Process; gw_manager : EmbeddedDaemonManager }.

(** What the system answers during one call. *)
Record GuiCall := mkCall {
  gc_current_exe : option path; gc_spawn : option io_error; gc_kill : option io_error;
  gc_wait : option io_error; gc_try_wait : option io_error }.
Definition answered (wrap : io_error → DaemonError) (error : option io_error) : result DaemonError unit :=
  match error with Some e => Err (wrap e) | None => Ok tt end.

Abbreviation GM := (SE GuiWorld DaemonError).

Definition gui_disk {A} (wrap : io_error → DaemonError) (m : DM A) : GM A := λ w,
  let '(r, d) := m (gw_disk w) in (map_err wrap r, mkGui d (gw_processes w) (gw_manager w)).
Definition set_manager (f : EmbeddedDaemonManager → EmbeddedDaemonManager) : GM unit :=
  modify (λ w, mkGui (gw_disk w) (gw_processes w) (f (gw_manager w))).
Definition set_processes (f : list Process → list Process) : GM unit :=
  modify (λ w, mkGui (gw_disk w) (f (gw_processes w)) (gw_manager w)).

Definition exited (p : Process) : Process := mkProcess (pr_executable p) (pr_args p) (pr_env p) false.
Definition alive (processes : list Process) (pid : nat) : bool :=
  match processes !! pid with Some p => pr_alive p | None => false end.

Definition read_optional_token (t : fs) (p : path) : result DaemonError (option rstring) :=
  match read_file t p with
  | Ok bytes =>
    token ← ok_or (utf8_decode bytes) (ReadToken OtherIo);
    let token := trim token in
    Ok (if bool_decide (token = []) then None else Some token)
  | Err NotFound => Ok None
  | Err error => Err (ReadToken error)
  | Panic => Panic
  end.

Section manager.
Context `{Directories} (platform : Platform) (parent_env : environment) (EXE_SUFFIX : rstring).

Definition daemon_executable_path (current_exe : option path) : path :=
  match current_exe with
  | Some ((_ :: _) as p) => removelast p ++ [str "night-bridge-daemon" ++ EXE_SUFFIX]
  | _ => [str "night-bridge-daemon" ++ EXE_SUFFIX]
  end.

Definition from_root (current_exe : option path) (root : path) : DaemonSpec :=
  let inbox_dir := root ++ [str "inbox"] in
  let root_string := show_path root in
  mkDaemonSpec (daemon_executable_path current_exe) root inbox_dir API_HTTP_PORT API_GRPC_PORT
    [str "--alias"; str "NightBridge Desktop"; str "--api-http-port"; show_dec API_HTTP_PORT;
     str "--api-grpc-port"; show_dec API_GRPC_PORT; str "--inbox"; show_path inbox_dir]
    [(str "HOME", root_string); (str "XDG_CONFIG_HOME", root_string ++ str "/config");
     (str "XDG_DATA_HOME", root_string ++ str "/data")].

Definition spec_new (current_exe : option path) : result DaemonError DaemonSpec :=
  dirs ← ok_or (project_dirs platform parent_env (str "com") (str "nightbridge") (str "NightBridge")) MissingStateDir;
  Ok (from_root current_exe (pd_data_dir dirs ++ [str "standalone-daemon"])).

Definition api_token_path (spec : DaemonSpec) : path :=
  sp_state_root spec ++ [str "Library"; str "Application Support"; str "dev.nightbridge.night-bridge"; str "api.token"].
Definition endpoint (spec : DaemonSpec) : rstring := str "http://127.0.0.1:" ++ show_dec (sp_api_http_port spec).

(** The environment of the child: the client's with the pairs of [spec]. *)
Definition child_env (spec : DaemonSpec) : environment := foldl (λ e kv, <[kv.1 := kv.2]> e) parent_env (sp_env spec).

Definition spawn (call : GuiCall) (spec : DaemonSpec) : GM nat :=
  pid ← gets (λ w, length (gw_processes w));
  _ ← lift (answered (Start (sp_executable spec)) (gc_spawn call));
  _ ← set_processes (λ ps, ps ++ [mkProcess (sp_executable spec) (sp_args spec) (child_env spec) true]);
  mret pid.

Definition status (call : GuiCall) : GM EmbeddedDaemonStatus :=
  w ← gets id;
  match em_child (gw_manager w) with
  | Some child =>
    _ ← lift (answered Stop (gc_try_wait call));
    if negb (alive (gw_processes w) child) then
      _ ← set_manager (λ _, mkManager None None);
      mret stopped_status
    else
      spec ← lift (ok_or (em_spec (gw_manager w)) NotRunning);
      token ← lift (read_optional_token (sn_fs (dk_now (gw_disk w))) (api_token_path spec));
      mret (mkStatus true (Some (endpoint spec)) token)
  | None => mret stopped_status
  end.

Definition start (call : GuiCall) : GM EmbeddedDaemonStatus :=
  child ← gets (λ w, em_child (gw_manager w));
  match child with
  | Some _ => status call
  | None =>
    spec ← lift (spec_new (gc_current_exe call));
    _ ← gui_disk Prepare (sys_create_dir_all (sp_inbox_dir spec));
    child ← spawn call spec;
    t ← gets (λ w, sn_fs (dk_now (gw_disk w)));
    token ← lift (read_optional_token t (api_token_path spec));
    _ ← set_manager (λ _, mkManager (Some child) (Some spec));
    mret (mkStatus true (Some (endpoint spec)) token)
  end.

(** A process that has exited is killed without an error. *)
Definition stop (call : GuiCall) : GM unit :=
  child ← gets (λ w, em_child (gw_manager w));
  _ ← set_manager (λ m, mkManager None (em_spec m));
  match child with
  | None => set_manager (λ m, mkManager (em_child m) None)
  | Some child =>
    _ ← lift (answered Stop (gc_kill call));
    _ ← set_processes (alter exited child);
    _ ← lift (answered Stop (gc_wait call));
    set_manager (λ m, mkManager (em_child m) None)
  end.
End manager.

(** ** Settings are kept *)

Lemma trim_end_matches_idem ch s : trim_end_matches ch (trim_end_matches ch s) = trim_end_matches ch s.
Proof.
  unfold trim_end_matches. rewrite reverse_involutive. f_equal.
  induction (reverse s) as [|c l IH]; [done|]. cbn [trim_start_matches]. destruct (c =? ch) eqn:Hc; [done|].
  cbn [trim_start_matches]. by rewrite Hc.
Qed.
Lemma Forall_trim_end_matches (P : Z → Prop) ch s : Forall P s → Forall P (trim_end_matches ch s).
Proof.
  intros Hs. unfold trim_end_matches. apply Forall_reverse. apply Forall_reverse in Hs.
  induction Hs as [|c l Hc Hl IH]; [constructor|]. cbn [trim_start_matches]. destruct (c =? ch); [done|by constructor].
Qed.
Lemma non_empty_Some value trimmed : non_empty value = Some trimmed ↔ trimmed = trim value ∧ trimmed ≠ [].
Proof. unfold non_empty. case_bool_decide; naive_solver. Qed.

Section settings_proofs.
Context `{UrlParse} `{GuiJsonRoundtrip}.

(** Settings that another normalization would not change. *)
Definition settled (s : GuiSettings) : Prop :=
  (∀ e, gs_remote_endpoint s = Some e → validate_endpoint e = Ok tt ∧ trim e = e ∧ e ≠ []).

Lemma normalized_fields s n :
  normalized s = Ok n →
  gs_mode n = gs_mode s ∧
  (∀ e, gs_remote_endpoint s = Some e → validate_endpoint e = Ok tt) ∧
  gs_remote_endpoint n = (e ← gs_remote_endpoint s; trim_end_matches 47 <$> non_empty e) ∧
  gs_api_token n = gs_api_token s ≫= non_empty.
Proof.
  unfold normalized. intros Hn. inv_ok. subst. destruct (gs_remote_endpoint s) as [e|] eqn:He; split_and!; try done; cbn.
  intros e' [= <-]. by match goal with H : validate_endpoint _ = Ok ?u |- _ => destruct u end.
Qed.

Lemma normalized_settled s n : normalized s = Ok n → settled n → normalized n = Ok n.
Proof.
  intros Hn Hs. destruct (normalized_fields _ _ Hn) as (_ & _ & He & Ht). unfold normalized.
  assert (Htoken : gs_api_token n ≫= non_empty = gs_api_token n).
  { rewrite Ht. destruct (gs_api_token s) as [t|]; [|done]. cbn. destruct (non_empty t) as [t'|] eqn:Hne; [|done].
    apply non_empty_Some in Hne as [-> Hne]. apply non_empty_Some. by rewrite trim_idem. }
  assert (Hend : (e ← gs_remote_endpoint n; trim_end_matches 47 <$> non_empty e) = gs_remote_endpoint n).
  { destruct (gs_remote_endpoint n) as [e|] eqn:Hn'; [|done]. destruct (Hs e Hn') as (_ & Htrim & Hne). cbn.
    rewrite (proj2 (non_empty_Some e e)) by done. cbn. f_equal.
    destruct (gs_remote_endpoint s) as [e0|]; [|done]. cbn in He. destruct (non_empty e0); [|done].
    cbn in He. injection He as ->. apply trim_end_matches_idem. }
  rewrite Htoken, Hend. destruct (gs_remote_endpoint n) as [e|] eqn:Hn'.
  - destruct (Hs e Hn') as [-> _]. by destruct n; cbn in *; subst.
  - by destruct n; cbn in *; subst.
Qed.

Lemma normalized_text s n : settings_text s → normalized s = Ok n → settings_text n.
Proof.
  intros [He Ht] Hn. destruct (normalized_fields _ _ Hn) as (_ & _ & Hne & Hnt). split.
  - rewrite Hne. destruct (gs_remote_endpoint s) as [e|]; [|constructor]. cbn in *. destruct (non_empty e) eqn:Hx; [|constructor].
    apply non_empty_Some in Hx as [-> _]. cbn. by apply Forall_trim_end_matches, Forall_trim.
  - rewrite Hnt. destruct (gs_api_token s) as [t|]; [|constructor]. cbn in *. destruct (non_empty t) eqn:Hx; [|constructor].
    apply non_empty_Some in Hx as [-> _]. cbn. by apply Forall_trim.
Qed.
Lemma write_all_private p rest : ∀ written d, sn_private (dk_now (sys_write_all p written rest d).2) = sn_private (dk_now d).
Proof.
  induction rest as [|x rest IH]; intros written d; [done|]. cbn [sys_write_all]. unfold mbind, SE_bind, sys. by rewrite IH.
Qed.

Lemma fs_write_mode p b d d' :
  fs_write p b d = (Ok tt, d') → fs_of d !! resolve p = None → resolve p ∉ sn_private (dk_now d').
Proof.
  intros Hrun Hnone. unfold fs_write in Hrun. inv_se. unfold sys_open, sys in *. rewrite Hnone in *.
  destruct (parent_check _ _); cbn [mbind result_bind] in *; [|done..].
  match goal with H : (Ok _, _) = (Ok _, _) |- _ => apply pair_equal_spec in H as [_ <-] end.
  match type of Hrun with sys_write_all _ _ _ ?d0 = _ => pose proof (write_all_private p b [] d0) as Hp end.
  rewrite Hrun in Hp. cbn in Hp. rewrite Hp. set_solver.
Qed.

#[export] Instance kept_disk_preorder touched : PreOrder (λ d d' : Disk, kept touched (fs_of d) (fs_of d')).
Proof. split; [by intros d|]. intros d1 d2 d3 H1' H2'. by etrans. Qed.
Lemma pres_io {E A} R (wrap : io_error → E) (m : DM A) : pres R m → pres R (io wrap m).
Proof. intros Hm d. apply Hm. Qed.
Lemma pres_create_parent touched p : pres (λ d d', kept touched (fs_of d) (fs_of d')) (create_parent p).
Proof. intros d. destruct (create_parent p d) as [r d'] eqn:Hr. by eapply create_parent_kept. Qed.
Lemma pres_fs_write p b : pres (λ d d', kept [resolve p] (fs_of d) (fs_of d')) (fs_write p b).
Proof.
  intros d. destruct (fs_write p b d) as [r d'] eqn:Hr. cbn.
  destruct (write_file_run _ _ _ _ _ _ Hr) as [(_ & Hnd & ->)|[_ ->]]; [|done]. apply kept_insert; [by left|done].
Qed.

(** The settings of the graphical client.  Settings whose endpoint is not
    an http or https URL are refused and nothing is written.  Otherwise no
    other file is touched; what is stored is trimmed and without slashes at
    the end, a blank token counting as none, and what the next start reads is
    that, normalized once more, which is the same unless spaces stood before
    the slashes.  The file is made with the default mode, although it holds
    the token of the API. *)
Theorem gui_settings_kept p s d r d' :
  save_settings_to p s d = (r, d') →
  kept [resolve p] (fs_of d) (fs_of d') ∧
  match normalized s with
  | Ok n =>
    r = Ok tt →
    fs_of d' !! resolve p = Some (File (gui_to_json n)) ∧
    (settings_text s → load_settings_from (fs_of d') p = normalized n) ∧
    (settings_text s → settled n → load_settings_from (fs_of d') p = Ok n) ∧
    (∀ token, gs_api_token n = Some token → trim token = token ∧ token ≠ []) ∧
    (fs_of d !! resolve p = None → resolve p ∉ sn_private (dk_now d'))
  | Err e => r = Err e ∧ d' = d
  | Panic => False
  end.
Proof.
  unfold save_settings_to. intros Hrun. destruct (normalized s) as [n|e|] eqn:Hn.
  3: { unfold normalized, validate_endpoint in Hn. destruct (gs_remote_endpoint s) as [e|]; [|done].
       destruct (url_parse e); [done|]. by destruct (bool_decide _). }
  2: { cbn in Hrun. apply pair_equal_spec in Hrun as [<- <-]. done. }
  rewrite SE_lift_Ok in Hrun. cbv zeta in Hrun.
  assert (Hk : kept [resolve p] (fs_of d) (fs_of d')).
  { assert (Hp : pres (λ d d', kept [resolve p] (fs_of d) (fs_of d'))
      (_ ← io WriteSettings (create_parent p); io WriteSettings (fs_write p (gui_to_json n)))).
    { apply pres_bind; [apply _|apply pres_io, pres_create_parent|]. intros _. apply pres_io, pres_fs_write. }
    specialize (Hp d). by rewrite Hrun in Hp. }
  split; [done|]. intros ->. inv_se.
  match goal with H : io WriteSettings (create_parent p) d = (Ok ?u, _) |- _ =>
    destruct u; apply io_inv in H as (r0 & Hc & Hr0); rewrite (Hr0 eq_refl) in Hc end.
  apply io_inv in Hrun as (r1 & Hw & Hr1). rewrite (Hr1 eq_refl) in Hw.
  destruct (write_file_run _ _ _ _ _ _ Hw) as [(_ & Hnd & Hfs)|[Hne _]]; [|done].
  assert (Hread : settings_text s → load_settings_from (fs_of d') p = normalized n).
  { intros Htext. unfold load_settings_from, read_file. rewrite Hfs, lookup_insert_eq.
    by rewrite (gui_from_to _ (normalized_text _ _ Htext Hn)). }
  split_and!.
  - rewrite Hfs. apply lookup_insert_eq.
  - done.
  - intros Htext Hset. rewrite Hread by done. by eapply normalized_settled.
  - destruct (normalized_fields _ _ Hn) as (_ & _ & _ & ->). intros token. destruct (gs_api_token s); [|done]. cbn.
    intros [-> Hne]%non_empty_Some. by rewrite trim_idem.
  - intros Hnone. eapply fs_write_mode; [exact Hw|]. apply create_parent_kept with (touched := []) in Hc as [HD HF].
    destruct (fs_of x0 !! resolve p) as [[b|]|] eqn:Hp; [|done..].
    apply HF in Hp; [congruence|apply not_elem_of_nil].
Qed.
End settings_proofs.

(** ** The embedded daemon is managed *)

Lemma alive_alter processes pid q :
  alive (alter exited pid processes) q = true ↔ alive processes q = true ∧ q ≠ pid.
Proof.
  unfold alive. destruct (decide (pid = q)) as [->|Hne].
  - rewrite list_lookup_alter_eq. destruct (processes !! q); cbn; (split; [done|by intros [_ ?]]).
  - rewrite list_lookup_alter_ne by done. split; [by intros ->|by intros [-> _]].
Qed.
Lemma alive_lookup processes q : alive processes q = true → (q < length processes)%nat.
Proof. unfold alive. destruct (processes !! q) eqn:Hq; [|done]. intros _. by eapply lookup_lt_Some. Qed.
Lemma alive_app processes p q :
  alive (processes ++ [p]) q = true → alive processes q = true ∨ q = length processes.
Proof.
  unfold alive. destruct (decide (q < length processes)%nat).
  - rewrite lookup_app_l by done. auto.
  - rewrite lookup_app_r by lia. destruct (q - length processes)%nat as [|k] eqn:Hq; [intros _; right; lia|discriminate].
Qed.

Lemma read_optional_token_cases t p :
  (∃ o, read_optional_token t p = Ok o) ∨ ∃ e, read_optional_token t p = Err (ReadToken e).
Proof.
  unfold read_optional_token, read_file. destruct (t !! resolve p) as [[b|]|]; [|by eauto..].
  destruct (utf8_decode b); cbn; eauto.
Qed.

(** A call that may leave a process behind. *)
Definition fault {A} (r : result DaemonError A) : nat :=
  match r with Err (ReadToken _) | Err (Stop _) => 1 | _ => 0 end.

Section managed.
Context `{Directories} (platform : Platform) (parent_env : environment) (EXE_SUFFIX : rstring).
Abbreviation start := (start platform parent_env EXE_SUFFIX).

(** What can become of a client, with the number of faults: its own calls,
    processes that exit, and other programs that change files. *)
Inductive gui_reach : nat → GuiWorld → Prop :=
| reach_new d : gui_reach 0 (mkGui d [] new_manager)
| reach_start k w call r w' : gui_reach k w → start call w = (r, w') → gui_reach (k + fault r) w'
| reach_status k w call r w' : gui_reach k w → status call w = (r, w') → gui_reach k w'
| reach_stop k w call r w' : gui_reach k w → stop call w = (r, w') → gui_reach (k + fault r) w'
| reach_exit k w pid :
    gui_reach k w → gui_reach k (mkGui (gw_disk w) (alter exited pid (gw_processes w)) (gw_manager w))
| reach_files k w d : gui_reach k w → gui_reach k (mkGui d (gw_processes w) (gw_manager w)).

Record managed (lost : list nat) (w : GuiWorld) : Prop := {
  mg_child child : em_child (gw_manager w) = Some child → is_Some (em_spec (gw_manager w));
  mg_alive q : alive (gw_processes w) q = true → em_child (gw_manager w) = Some q ∨ q ∈ lost }.

Lemma managed_weaken lost lost' w : lost ⊆ lost' → managed lost w → managed lost' w.
Proof. intros Hs [Hc Ha]. split; [done|]. intros q Hq. destruct (Ha q Hq); auto. Qed.

Lemma managed_same lost w w' :
  gw_processes w' = gw_processes w → gw_manager w' = gw_manager w → managed lost w → managed lost w'.
Proof. intros Hp Hm [Hc Ha]. split; by rewrite ?Hp, Hm. Qed.

Lemma status_spec lost w call r w' :
  managed lost w → status call w = (r, w') →
  managed lost w' ∧ gw_processes w' = gw_processes w ∧ gw_disk w' = gw_disk w ∧
  r ≠ Err NotRunning ∧ r ≠ Panic ∧
  ∀ st, r = Ok st →
    (es_running st = true ↔ ∃ child, em_child (gw_manager w') = Some child ∧ alive (gw_processes w') child = true).
Proof.
  intros Hm Hrun. unfold status, set_manager in Hrun. destruct Hm as [Hc Ha]. 
  unfold mbind at 1, SE_bind at 1, gets in Hrun. cbn [id] in Hrun.
  destruct (em_child (gw_manager w)) as [child|] eqn:Hchild.
  - destruct (gc_try_wait call) as [e|].
    { apply pair_equal_spec in Hrun as [<- <-]. split; [by split; rewrite Hchild|]. by split_and!. }
    + cbn [answered] in Hrun. rewrite SE_lift_Ok in Hrun. destruct (alive (gw_processes w) child) eqn:Halive; cbn [negb] in Hrun.
      * destruct (Hc child eq_refl) as [spec Hspec]. rewrite Hspec in Hrun. cbn [ok_or] in Hrun. rewrite SE_lift_Ok in Hrun.
        destruct (read_optional_token_cases (fs_of (gw_disk w)) (api_token_path spec)) as [[o Ho]|[e Ho]]; rewrite Ho in Hrun;
          apply pair_equal_spec in Hrun as [<- <-]; (split; [by split; rewrite Hchild|]); split_and!; try done.
        intros st [= <-]. cbn. split; [|done]. intros _. by exists child.
      * apply pair_equal_spec in Hrun as [<- <-]. cbn. split_and!; try done.
        -- split; cbn; [done|]. intros q Hq. destruct (Ha q Hq) as [[= <-]|?]; [congruence|by right].
        -- intros st [= <-]. cbn. split; [done|]. by intros (? & ? & _).
  - apply pair_equal_spec in Hrun as [<- <-]. split; [by split; rewrite Hchild|]. split_and!; try done.
    intros st [= <-]. cbn. split; [done|]. intros (? & ? & _). congruence.
Qed.

Lemma start_managed lost w call r w' :
  managed lost w → start call w = (r, w') → ∃ lost', managed lost' w' ∧ (length lost' ≤ length lost + fault r)%nat.
Proof.
  intros Hm Hrun. unfold start in Hrun. unfold mbind at 1, SE_bind at 1, gets in Hrun.
  destruct (em_child (gw_manager w)) as [child|] eqn:Hchild.
  { destruct (status_spec _ _ _ _ _ Hm Hrun) as [Hm' _]. exists lost. split; [done|lia]. }
  destruct (spec_new _ _ _ _) as [spec|e|].
  2,3: apply pair_equal_spec in Hrun as [<- <-]; exists lost; split; [done|lia].
  rewrite SE_lift_Ok in Hrun. unfold mbind at 1, SE_bind at 1, gui_disk in Hrun.
  destruct (sys_create_dir_all (sp_inbox_dir spec) (gw_disk w)) as [[[]|e|] d]; cbn [map_err] in Hrun.
  2,3: apply pair_equal_spec in Hrun as [<- <-]; exists lost; split; [by apply (managed_same _ w)|lia].
  unfold spawn, gets, mbind, SE_bind, lift, mret, SE_ret, set_processes, set_manager, modify in Hrun.
  cbn [gw_processes gw_disk gw_manager] in Hrun.
  destruct (gc_spawn call) as [e|]; cbn [answered] in Hrun.
  { apply pair_equal_spec in Hrun as [<- <-]. exists lost. split; [by apply (managed_same _ w)|lia]. }
  cbn [gw_processes gw_disk gw_manager] in Hrun. set (p := mkProcess _ _ _ true) in Hrun. destruct Hm as [Hc Ha].
  assert (Hnew : ∀ q, alive (gw_processes w ++ [p]) q = true → q = length (gw_processes w) ∨ q ∈ lost).
  { intros q [Hq| ->]%alive_app; [|by left]. destruct (Ha q Hq) as [Hq'|]; [congruence|by right]. }
  destruct (read_optional_token_cases (fs_of d) (api_token_path spec)) as [[o Ho]|[e Ho]]; rewrite Ho in Hrun;
    apply pair_equal_spec in Hrun as [<- <-].
  - exists lost. split; [|cbn; lia]. split; cbn; [by intros child [= <-]|].
    intros q Hq. destruct (Hnew q Hq) as [->|]; auto.
  - exists (length (gw_processes w) :: lost). split; [|cbn; lia]. split; cbn; [intros child; congruence|].
    intros q Hq. right. destruct (Hnew q Hq) as [->|]; [by left|by right].
Qed.

Lemma stop_managed lost w call r w' :
  managed lost w → stop call w = (r, w') →
  (∃ lost', managed lost' w' ∧ (length lost' ≤ length lost + fault r)%nat) ∧
  (r = Ok tt → managed lost w' ∧ gw_manager w' = new_manager) ∧ (r ≠ Ok tt → fault r = 1%nat).
Proof.
  intros [Hc Ha] Hrun. unfold stop, gets, mbind, SE_bind, lift, mret, SE_ret, set_processes, set_manager, modify in Hrun.
  cbn [gw_processes gw_disk gw_manager em_child em_spec] in Hrun.
  destruct (em_child (gw_manager w)) as [child|] eqn:Hchild.
  - destruct (gc_kill call) as [e|]; cbn [answered] in Hrun.
    { apply pair_equal_spec in Hrun as [<- <-]. split; [|split; done]. exists (child :: lost). split; [|cbn; lia].
      split; cbn; [done|]. intros q Hq. right. destruct (Ha q Hq) as [[= <-]|]; [by left|by right]. }
    assert (Hm' : ∀ d m, em_child m = None → managed lost (mkGui d (alter exited child (gw_processes w)) m)).
    { intros d m Hm'. split; cbn; [by rewrite Hm'|]. intros q [Hq Hne]%alive_alter.
      destruct (Ha q Hq) as [[= <-]|]; [done|by right]. }
    destruct (gc_wait call) as [e|]; cbn [answered] in Hrun; apply pair_equal_spec in Hrun as [<- <-].
    + split; [|split; done]. exists lost. split; [by apply Hm'|cbn; lia].
    + split; [|split; [|done]]; [exists lost; split; [by apply Hm'|cbn; lia]|]. intros _. split; [by apply Hm'|done].
  - apply pair_equal_spec in Hrun as [<- <-].
    assert (Hm' : managed lost (mkGui (gw_disk w) (gw_processes w) new_manager)).
    { split; cbn; [done|]. intros q Hq. destruct (Ha q Hq); [done|by right]. }
    split; [|split; [|done]]; [exists lost; split; [done|cbn; lia]|]. intros _. done.
Qed.

Lemma reach_managed k w : gui_reach k w → ∃ lost, managed lost w ∧ (length lost ≤ k)%nat.
Proof.
  induction 1 as [d|k w call r w' _ (lost & Hm & Hl) Hrun|k w call r w' _ (lost & Hm & Hl) Hrun
    |k w call r w' _ (lost & Hm & Hl) Hrun|k w pid _ (lost & Hm & Hl)|k w d _ (lost & Hm & Hl)].
  - exists []. split; [|done]. by split.
  - destruct (start_managed _ _ _ _ _ Hm Hrun) as (lost' & Hm' & Hl'). exists lost'. split; [done|lia].
  - exists lost. split; [|done]. by eapply status_spec.
  - destruct (stop_managed _ _ _ _ _ Hm Hrun) as [(lost' & Hm' & Hl') _]. exists lost'. split; [done|lia].
  - exists lost. split; [|done]. destruct Hm as [Hc Ha]. split; [done|]. cbn. intros q [Hq _]%alive_alter. auto.
  - exists lost. split; [|done]. by apply (managed_same _ w).
Qed.

(** C19: The client's daemon.  Whatever the client does, whenever the daemon
    exits and whatever happens to the files, all processes that run are the
    one the client holds or one of at most as many as calls of it went wrong:
    a start whose token file could not be read, or a stop that the system
    refused.  As long as none did, at most one daemon runs, a status that says
    it is not running is right, and after a stop none runs.  The client never
    finds itself without the data of a daemon it holds. *)
Theorem embedded_daemon_managed k w :
  gui_reach k w →
  (∃ lost, (length lost ≤ k)%nat ∧ ∀ q, alive (gw_processes w) q = true → em_child (gw_manager w) = Some q ∨ q ∈ lost) ∧
  (∀ call r w', status call w = (r, w') →
     r ≠ Err NotRunning ∧ r ≠ Panic ∧
     ∀ st, r = Ok st →
       (es_running st = true ↔ ∃ child, em_child (gw_manager w') = Some child ∧ alive (gw_processes w') child = true) ∧
       (k = 0%nat → es_running st = false → ∀ q, alive (gw_processes w') q = false)) ∧
  (∀ call w', k = 0%nat → stop call w = (Ok tt, w') → ∀ q, alive (gw_processes w') q = false).
Proof.
  intros Hreach. destruct (reach_managed _ _ Hreach) as (lost & Hm & Hl). split; [|split].
  - exists lost. split; [done|]. apply Hm.
  - intros call r w' Hrun. destruct (status_spec _ _ _ _ _ Hm Hrun) as (Hm' & Hps & _ & Hn & Hp & Hst).
    split; [done|]. split; [done|]. intros st Hr. split; [by apply Hst|]. intros -> Hoff q.
    apply not_true_iff_false. intros Hq. destruct (mg_alive _ _ Hm' q Hq) as [Hchild|Hin].
    + assert (es_running st = true) by (apply (Hst st Hr); eauto). congruence.
    + destruct lost; [by apply elem_of_nil in Hin|cbn in Hl; lia].
  - intros call w' -> Hrun q. destruct (stop_managed _ _ _ _ _ Hm Hrun) as (_ & Hok & _).
    destruct (Hok eq_refl) as [Hm' Hnew]. apply not_true_iff_false. intros Hq.
    destruct (mg_alive _ _ Hm' q Hq) as [Hchild|Hin]; [by rewrite Hnew in Hchild|].
    destruct lost; [by apply elem_of_nil in Hin|cbn in Hl; lia].
Qed.
End managed.

(** ** The client and its daemon *)

Definition good_component (c : rstring) : Prop := c ≠ [] ∧ 47 ∉ c.
#[export] Instance good_component_dec c : Decision (good_component c).
Proof. unfold good_component. apply _. Defined.

Lemma path_from_cons c rest :
  good_component c → rest = [] ∨ head rest = Some 47 → path_from (47 :: c ++ rest) = c :: path_from rest.
Proof.
  intros [Hne Hc] Hrest. unfold path_from. cbn [split_on]. rewrite Z.eqb_refl, filter_cons_False by (intros Hx; by apply Hx).
  destruct rest as [|x rest].
  - rewrite app_nil_r, split_on_plain by done. by rewrite filter_cons_True.
  - destruct Hrest as [|[= ->]]; [done|]. by rewrite split_on_app, filter_cons_True by done.
Qed.

Lemma path_from_show p rest :
  Forall good_component p → rest = [] ∨ head rest = Some 47 → path_from (show_path p ++ rest) = p ++ path_from rest.
Proof.
  intros Hp Hrest. assert (Hgen : path_from ((p ≫= λ c, 47 :: c) ++ rest) = p ++ path_from rest).
  { induction Hp as [|c p Hc Hp IH]; [done|]. cbn [mbind list_bind app]. rewrite <-app_assoc, path_from_cons, IH; [done..|].
    destruct Hp; [done|]. by right. }
  destruct p as [|c p]; [|exact Hgen]. unfold show_path. change (str "/") with [47]. cbn [app]. unfold path_from. cbn [split_on].
  rewrite Z.eqb_refl, filter_cons_False; [done|]. intros Hx. by apply Hx.
Qed.

Lemma show_path_absolute p rest : absolute (show_path p ++ rest) = true.
Proof. by destruct p. Qed.

Lemma token_read t p token : token_in p token t → read_optional_token t p = Ok (Some token).
Proof.
  intros (b & Hp & Hb). unfold read_optional_token, read_file. rewrite Hp. unfold token_of in Hb. inv_ok.
  match goal with H : utf8_decode b = _ |- _ => rewrite H end. cbn [ok_or mbind result_bind].
  unfold api_token_new in *. inv_ok. bools. case_bool_decide; [done|]. congruence.
Qed.

Section composition.
Context `{DirectoriesLaws} `{CryptoSuite} `{Lowercase} `{Toml} (to_string : io_error → rstring).
Context (parent_env : environment) (EXE_SUFFIX : rstring) (current_exe : option path) (root : path).
Context (root_ok : Forall good_component root).

Abbreviation spec := (from_root EXE_SUFFIX current_exe root).

(** What clap makes of the arguments of [spec], by the defaults of [Args]. *)
Definition embedded_args : StartArgs :=
  mkStartArgs (mkArgs None 53317 (str "NightBridge Desktop") (Some (path_from (show_path (sp_inbox_dir spec)))) None [] 53400 None None)
    None false false false None API_GRPC_PORT API_HTTP_PORT false.

(** The daemon as a process of the client. *)
Definition run_daemon (platform : Platform) (env : StartEnv) : BM Running :=
  let environment := child_env parent_env spec in
  Startup.start to_string (daemon_paths platform environment) (state_dir platform environment) embedded_args env.

Lemma child_env_lookup :
  child_env parent_env spec !! str "HOME" = Some (show_path root) ∧
  child_env parent_env spec !! str "XDG_CONFIG_HOME" = Some (show_path root ++ str "/config") ∧
  child_env parent_env spec !! str "XDG_DATA_HOME" = Some (show_path root ++ str "/data").
Proof.
  unfold child_env. cbn [sp_env from_root foldl fst snd].
  split_and!; rewrite ?lookup_insert_eq, ?(lookup_insert_ne _ (str "XDG_DATA_HOME")), ?lookup_insert_eq by done;
    rewrite ?(lookup_insert_ne _ (str "XDG_CONFIG_HOME")), ?lookup_insert_eq by done; done.
Qed.

Lemma dirs_linux :
  app_dirs Linux (child_env parent_env spec) =
    Some (mkProjectDirs (root ++ [str "config"; APP_DIR_NAME]) (root ++ [str "data"; APP_DIR_NAME])).
Proof.
  destruct child_env_lookup as (Hh & Hc & Hd). unfold app_dirs. erewrite linux_dirs; [|eassumption..| | | |].
  - rewrite !path_from_show by (done || by right). by rewrite <-!app_assoc.
  - rewrite <-(app_nil_r (show_path root)). apply show_path_absolute.
  - apply show_path_absolute.
  - apply show_path_absolute.
  - apply (bool_decide_unpack _). vm_compute. exact I.
Qed.

Lemma dirs_macos :
  app_dirs MacOs (child_env parent_env spec) =
    let dir := root ++ [str "Library"; str "Application Support"; str "dev.nightbridge.night-bridge"] in
    Some (mkProjectDirs dir dir).
Proof.
  destruct child_env_lookup as (Hh & _). unfold app_dirs.
  erewrite macos_dirs; [|eassumption| |apply (bool_decide_unpack _); vm_compute; exact I..].
  - rewrite <-(app_nil_r (show_path root)), path_from_show by (done || by left). by rewrite app_nil_r.
  - rewrite <-(app_nil_r (show_path root)). apply show_path_absolute.
Qed.

Lemma embedded_apart platform :
  NoDup (scratch_files to_string (daemon_paths platform (child_env parent_env spec)) embedded_args ++
         secret_files to_string (daemon_paths platform (child_env parent_env spec)) embedded_args).
Proof. by eapply default_paths_apart. Qed.

(** The place where the client looks is not one the daemon writes to on
    Linux. *)
Lemma linux_token_elsewhere :
  resolve (Gui.api_token_path spec) ∉
    scratch_files to_string (daemon_paths Linux (child_env parent_env spec)) embedded_args ++
    secret_files to_string (daemon_paths Linux (child_env parent_env spec)) embedded_args.
Proof.
  unfold scratch_files, secret_files, tls_scratch, tls_files, identity_path, api_token_path, Startup.api_token_path.
  cbn [sa_identity embedded_args default sp_state_root from_root sa_args arg_trust_db p_config_dir p_trust_db_file daemon_paths].
  unfold trust_db_file, config_dir, state_dir. rewrite dirs_linux. cbn [pd_config_dir pd_data_dir].
  rewrite native_tls_dir_snoc.
  unfold key_tmp, token_tmp, tls_tmp, cert_path, key_path, localsend_tls_vault, native_tls_vault.
  cbn [tv_config_dir tv_cert_file tv_key_file app]. rewrite !with_extension_snoc, <-!app_assoc.
  rewrite !resolve_app_plains by (repeat constructor; vm_compute; discriminate).
  rewrite !not_elem_of_cons.
  repeat split; try apply not_elem_of_nil; intros Heq%app_inv_head; vm_compute in Heq; discriminate Heq.
Qed.
(** The client and the daemon it starts fit together only on macOS.  A
    daemon that comes up with the client's arguments and environment serves the
    HTTP API at the endpoint the client uses and keeps received files in the
    client's inbox directory.  On macOS the client reads the very token the
    daemon made or kept; on Linux the daemon keeps it elsewhere, and the client
    never has a token.  And the daemon comes up only where the ports of
    LocalSend and of the native protocol are free: not beside a daemon of the
    user with the default ports. *)
Theorem embedded_daemon_fits platform env n run n' :
  length (se_identity env) = KEY_LEN → length (se_token env) = 32%nat → Forall byte_ok (se_token env) →
  run_daemon platform env n = (Ok run, n') →
  rn_api run = Some (SockV4 127 0 0 1 API_GRPC_PORT, SockV4 127 0 0 1 API_HTTP_PORT) ∧
  endpoint spec = str "http://" ++ show_sock (SockV4 127 0 0 1 API_HTTP_PORT) ∧
  ds_inbox_dir (rn_state run) = sp_inbox_dir spec ∧
  free_for Tcp 53317 (nd_sockets n) ∧ free_for Udp 53400 (nd_sockets n) ∧
  match platform with
  | MacOs => read_optional_token (nfs n') (api_token_path spec) = Ok (Some (ds_api_token (rn_state run)))
  | Linux =>
    (∀ b, nfs n !! resolve (api_token_path spec) ≠ Some (File b)) →
    ∀ token, read_optional_token (nfs n') (api_token_path spec) ≠ Ok (Some token)
  end.
Proof.
  intros Hk Ht Hb Hrun. unfold run_daemon in Hrun. cbv zeta in Hrun.
  split; [by eapply start_api_ports in Hrun|]. split; [reflexivity|].
  split; [|split; [|split]].
  - destruct (start_state _ _ _ _ _ _ _ _ Hrun) as (n1 & Hload).
    rewrite (load_state_inbox _ embedded_args _ _ _ _ _ eq_refl Hload).
    rewrite <-(app_nil_r (show_path _)), path_from_show; [by rewrite app_nil_r| |by left].
    apply Forall_app. split; [done|]. apply Forall_cons. split; [|done].
    split; [discriminate|]. apply (bool_decide_unpack _). vm_compute. exact I.
  - by apply (start_ports _ _ _ _ _ _ _ _ Hrun).
  - by apply (start_ports _ _ _ _ _ _ _ _ Hrun).
  - destruct (start_secrets _ _ _ _ (embedded_apart platform) _ _ _ _ Hk Ht Hb Hrun) as [(_ & Htoken & _) Hkept].
    destruct platform.
    + intros Hno token Hread. pose proof linux_token_elsewhere as Helse.
      unfold read_optional_token, read_file in Hread.
      destruct (nfs n' !! resolve (api_token_path spec)) as [[b|]|] eqn:Hf; [|done..].
      apply Hkept in Hf; [|done]. by destruct (Hno b).
    + apply token_read. revert Htoken. unfold Startup.api_token_path, api_token_path. cbn [p_config_dir daemon_paths].
      unfold config_dir. rewrite dirs_macos. cbn [pd_config_dir]. by rewrite <-app_assoc.
Qed.
End composition.
