(* ===== verification/Tui.v ===== *)
(** * The terminal dashboard

    Model of crates/tui: the application state and its keys (app.rs), what a
    frame marks (ui.rs; its widgets are in TuiDraw.v), the polling client (client.rs) over the gRPC services
    of DaemonHttp.v, and the argument parser and the loop of main.rs.

    The messages of the trust database's records (crates/daemon/src/api/peers.rs)
    are modelled with their enumerations as numbers; paths are kept as paths
    and not as their text.  The world is that of the API with the calls made
    to it.  A turn of the loop is given by what the terminal and the clock say
    and by the environments of the calls it may make: whether the daemon can
    be reached, and what else has happened to the daemon before each call.  An
    error of [anyhow] is its outermost text, without the values rendered into
    it. *)

From stdpp Require Import prelude gmap strings.
From Stdlib Require Import ZArith Lia.
From S2P Require Import Prelude RustStr Errors Fs Transfer Text Identity TrustStore NativeLan LocalSession LocalServer Config DaemonApi DaemonHttp Vault.

Local Open Scope Z_scope.

(** ** Messages (api/peers.rs) and rows (client.rs) *)

Record LocalSendPeerMessage := mkLsMessage {
  lm_fingerprint : rstring; lm_alias : rstring; lm_label : option rstring; lm_status : Z;
  lm_first_seen_unix_seconds : Z; lm_last_seen_unix_seconds : Z; lm_attempt_count : Z; lm_source_ip : option rstring }.
Record TrustedPeerMessage := mkTpMessage {
  tm_fingerprint : option rstring; tm_pubkey : bytes; tm_label : rstring; tm_trusted_at_unix_seconds : Z;
  tm_last_seen_unix_seconds : option Z; tm_policy : Z; tm_native_certificate_fingerprint : option rstring }.

Definition status_to_proto (status : LocalSendPeerStatus) : Z :=
  match status with StPending => 1 | StTrusted => 2 | StBlocked => 3 end.
Definition policy_to_proto (policy : PeerPolicy) : Z :=
  match policy with AutoAccept => 1 | Prompt => 2 | Block => 3 end.

Definition localsend_peer (p : LocalSendPeer) : LocalSendPeerMessage :=
  mkLsMessage (ls_fingerprint p) (ls_alias p) (ls_label p) (status_to_proto (ls_status p)) (ls_first_seen p)
    (ls_last_seen p) (ls_attempt_count p) (ls_source_ip p).
Definition trusted_peer (p : Peer) : TrustedPeerMessage :=
  mkTpMessage (Some (show_fingerprint (pr_fingerprint p))) (pr_pubkey p) (pr_label p) (pr_trusted_at p)
    (pr_last_seen p) (policy_to_proto (pr_policy p)) (pr_native_certificate_fingerprint p).

Definition localsend_peer_status (status : Z) : rstring :=
  str (if status =? 1 then "pending" else if status =? 2 then "trusted" else if status =? 3 then "blocked" else "unknown").
Definition peer_policy (policy : Z) : rstring :=
  str (if policy =? 1 then "auto_accept" else if policy =? 2 then "prompt" else if policy =? 3 then "block"
       else "unspecified").

Record PeerRow := mkPeerRow { rw_fingerprint : rstring; rw_alias : rstring; rw_label : option rstring;
  rw_status : rstring; rw_attempt_count : Z; rw_source_ip : option rstring }.
Record TrustedRow := mkTrustedRow { rt_fingerprint : rstring; rt_label : rstring; rt_policy : rstring;
  rt_last_seen_unix_seconds : option Z }.

Definition peer_row_of (p : LocalSendPeerMessage) : PeerRow :=
  mkPeerRow (lm_fingerprint p) (lm_alias p) (lm_label p) (localsend_peer_status (lm_status p)) (lm_attempt_count p)
    (lm_source_ip p).
Definition trusted_row_of (p : TrustedPeerMessage) : TrustedRow :=
  mkTrustedRow (default [] (tm_fingerprint p)) (tm_label p) (peer_policy (tm_policy p)) (tm_last_seen_unix_seconds p).

(** ** Application state (app.rs) *)

Inductive Tab := Dashboard | LocalSend | Transfers | Inbox.
#[export] Instance Tab_eq_dec : EqDecision Tab.
Proof. solve_decision. Defined.
Definition ALL : list Tab := [Dashboard; LocalSend; Transfers; Inbox].

Record AppState := mkApp {
  as_selected_tab : Tab;
  as_alias : option rstring; as_fingerprint : option rstring; as_inbox_dir : option path;
  as_localsend_port : option Z; as_native_port : option Z;
  as_advanced : bool;
  as_trusted_peers : list TrustedRow;
  as_pending_localsend_peers : list PeerRow;
  as_selected_localsend_peer : nat;
  as_inbox_entries : list InboxEntry;
  as_last_error : option rstring;
  as_should_quit : bool }.

Definition default_app : AppState :=
  mkApp Dashboard None None None None None false [] [] 0 [] None false.

Definition set_status (s : AppState) (alias fingerprint : rstring) (inbox_dir : path) (localsend_port native_port : Z) :
    AppState :=
  mkApp (as_selected_tab s) (Some alias) (Some fingerprint) (Some inbox_dir) (Some localsend_port) (Some native_port)
    (as_advanced s) (as_trusted_peers s) (as_pending_localsend_peers s) (as_selected_localsend_peer s)
    (as_inbox_entries s) (as_last_error s) (as_should_quit s).
Definition set_tab (s : AppState) (tab : Tab) : AppState :=
  mkApp tab (as_alias s) (as_fingerprint s) (as_inbox_dir s) (as_localsend_port s) (as_native_port s) (as_advanced s)
    (as_trusted_peers s) (as_pending_localsend_peers s) (as_selected_localsend_peer s) (as_inbox_entries s)
    (as_last_error s) (as_should_quit s).
Definition set_selected (s : AppState) (selected : nat) : AppState :=
  mkApp (as_selected_tab s) (as_alias s) (as_fingerprint s) (as_inbox_dir s) (as_localsend_port s) (as_native_port s)
    (as_advanced s) (as_trusted_peers s) (as_pending_localsend_peers s) selected (as_inbox_entries s)
    (as_last_error s) (as_should_quit s).
Definition set_error (s : AppState) (error : rstring) : AppState :=
  mkApp (as_selected_tab s) (as_alias s) (as_fingerprint s) (as_inbox_dir s) (as_localsend_port s) (as_native_port s)
    (as_advanced s) (as_trusted_peers s) (as_pending_localsend_peers s) (as_selected_localsend_peer s)
    (as_inbox_entries s) (Some error) (as_should_quit s).
Definition set_quit (s : AppState) : AppState :=
  mkApp (as_selected_tab s) (as_alias s) (as_fingerprint s) (as_inbox_dir s) (as_localsend_port s) (as_native_port s)
    (as_advanced s) (as_trusted_peers s) (as_pending_localsend_peers s) (as_selected_localsend_peer s)
    (as_inbox_entries s) (as_last_error s) true.
Definition set_advanced (s : AppState) (advanced : bool) : AppState :=
  mkApp (as_selected_tab s) (as_alias s) (as_fingerprint s) (as_inbox_dir s) (as_localsend_port s) (as_native_port s)
    advanced (as_trusted_peers s) (as_pending_localsend_peers s) (as_selected_localsend_peer s) (as_inbox_entries s)
    (as_last_error s) (as_should_quit s).

(** Key codes; a character is its scalar value. *)
Inductive KeyCode := Char (c : Z) | Esc | KTab | BackTab | Left | Right | Up | Down | OtherKey.

Inductive AppAction :=
| ANone
| ApproveLocalSend (fingerprint : rstring) (label : option rstring)
| DenyLocalSend (fingerprint : rstring).

Definition tab_position (s : AppState) : nat :=
  default 0%nat (fst <$> list_find (λ tab, tab = as_selected_tab s) ALL).
Definition select_next_tab (s : AppState) : AppState :=
  set_tab s (nth ((tab_position s + 1) mod length ALL) ALL Dashboard).
Definition select_previous_tab (s : AppState) : AppState :=
  set_tab s match tab_position s with O => Inbox | S n => nth n ALL Dashboard end.

Definition select_next_localsend_peer (s : AppState) : AppState :=
  match as_pending_localsend_peers s with
  | [] => set_selected s 0
  | peers => set_selected s (Nat.min (as_selected_localsend_peer s + 1) (length peers - 1))
  end.
Definition select_previous_localsend_peer (s : AppState) : AppState :=
  set_selected s (as_selected_localsend_peer s - 1).

Definition selected_localsend_peer (s : AppState) : option PeerRow :=
  as_pending_localsend_peers s !! as_selected_localsend_peer s.
Definition approve_selected_localsend_peer (s : AppState) : AppAction :=
  match selected_localsend_peer s with
  | Some peer => ApproveLocalSend (rw_fingerprint peer) (Some (default (rw_alias peer) (rw_label peer)))
  | None => ANone
  end.
Definition deny_selected_localsend_peer (s : AppState) : AppAction :=
  match selected_localsend_peer s with Some peer => DenyLocalSend (rw_fingerprint peer) | None => ANone end.

Definition handle_key (s : AppState) (key : KeyCode) : AppState * AppAction :=
  match key with
  | Char 113 | Esc => (set_quit s, ANone)
  | KTab | Right | Char 108 => (select_next_tab s, ANone)
  | BackTab | Left | Char 104 => (select_previous_tab s, ANone)
  | Char 106 | Down => (select_next_localsend_peer s, ANone)
  | Char 107 | Up => (select_previous_localsend_peer s, ANone)
  | Char 97 => (s, approve_selected_localsend_peer s)
  | Char 100 => (s, deny_selected_localsend_peer s)
  | _ => (s, ANone)
  end.

(** The rows of the approval list with their markers (ui.rs,
    [localsend_peer_list]), and those that are marked. *)
Definition localsend_peer_list (s : AppState) : list (bool * PeerRow) :=
  imap (λ index peer, (bool_decide (index = as_selected_localsend_peer s), peer)) (as_pending_localsend_peers s).
Definition marked (s : AppState) : list PeerRow := snd <$> filter (λ row, row.1 = true) (localsend_peer_list s).

(** ** The client (client.rs) *)

Record DaemonApiConfig := mkApiConfig {
  dc_endpoint : rstring; dc_api_token : rstring; dc_poll_interval : Z (* ms *); dc_advanced : bool }.
Definition new_config (endpoint api_token : rstring) : DaemonApiConfig := mkApiConfig endpoint api_token 1000 false.

(** What the client meets: whether a connection is made, what else happens to
    the daemon before a call, and the environment of the daemon. *)
Record ClientEnv := mkClientEnv {
  ce_up : bool; ce_others : GrpcCall → ApiWorld → ApiWorld; ce_env : Env }.

(** The daemon and the calls made to it. *)
Record TuiWorld := mkTui { tw_api : ApiWorld; tw_calls : list GrpcCall }.
Abbreviation TM := (SE TuiWorld rstring).

Definition trusted_peers_of (r : Reply) : list TrustedPeerMessage :=
  match r with TrustedPeers peers => trusted_peer <$> peers | _ => [] end.
Definition localsend_peers_of (r : Reply) : list LocalSendPeerMessage :=
  match r with LocalSendPeers peers => localsend_peer <$> peers | _ => [] end.
Definition inbox_entries_of (r : Reply) : list InboxEntry :=
  match r with InboxReply entries => entries | _ => [] end.
Definition status_of (r : Reply) (s : AppState) : AppState :=
  match r with
  | StatusDto alias fingerprint inbox_dir localsend_port native_port =>
    set_status s alias fingerprint inbox_dir localsend_port native_port
  | _ => s
  end.

(** The file names of the client's transport: which endpoints and which
    metadata values are well formed. *)
Class Tonic := { endpoint_ok : rstring → bool; metadata_ok : rstring → bool }.
(** Visible ASCII and spaces are a header value. *)
Class TonicLaws `{Tonic} := metadata_visible s : Forall (λ c, 32 ≤ c ≤ 126) s → metadata_ok s = true.

Section client.
Context `{HashOrder} `{CryptoSuite} `{Lowercase} `{Uuid} `{Tonic} (error_text : CoreError → rstring) (st : DaemonState).
Context (config : DaemonApiConfig).

Definition channel (e : ClientEnv) : TM unit :=
  if negb (endpoint_ok (dc_endpoint config)) then fail (str "invalid daemon gRPC endpoint")
  else if ce_up e then mret tt
  else fail (str "daemon API unavailable").

(** [BearerTokenInterceptor::new] *)
Definition interceptor : TM rstring :=
  let value := str "Bearer " ++ dc_api_token config in
  if metadata_ok value then mret value else fail (str "api token cannot be used as metadata").

(** A request with the interceptor's header; a handler that panics, and any
    status, is an error of the request. *)
Definition call (e : ClientEnv) (metadata : rstring) (c : GrpcCall) (context : string) : TM Reply := λ w,
  let '(r, api) := grpc error_text (ce_env e) st (Value metadata) c (ce_others e c (tw_api w)) in
  (match r with Ok reply => Ok reply | _ => Err (str context) end, mkTui api (tw_calls w ++ [c])).

Definition fetch_once (e : ClientEnv) : TM AppState :=
  _ ← channel e;
  metadata ← interceptor;
  status ← call e metadata (ToDaemon GetStatus) "daemon status request failed";
  trusted ← (if dc_advanced config then
               r ← call e metadata (ToPeers GListTrusted) "trusted peers request failed";
               mret (trusted_row_of <$> trusted_peers_of r)
             else mret []);
  pending ← call e metadata (ToPeers GListPending) "pending LocalSend peers request failed";
  _ ← call e metadata (ToTransfers GListActive) "active transfers request failed";
  inbox ← call e metadata (ToInbox GListInbox) "inbox request failed";
  mret (status_of status
    (mkApp Dashboard None None None None None (dc_advanced config) trusted
       (peer_row_of <$> localsend_peers_of pending) 0 (inbox_entries_of inbox) None false)).

Definition client_approve_localsend_peer (e : ClientEnv) (fingerprint : rstring) (label : option rstring) : TM unit :=
  _ ← channel e;
  metadata ← interceptor;
  _ ← call e metadata (ToPeers (GApprove fingerprint label)) "approve LocalSend peer request failed";
  mret tt.
Definition client_deny_localsend_peer (e : ClientEnv) (fingerprint : rstring) : TM unit :=
  _ ← channel e;
  metadata ← interceptor;
  _ ← call e metadata (ToPeers (GDeny fingerprint)) "deny LocalSend peer request failed";
  mret tt.

(** ** The loop (main.rs, [run_app]) *)

(** What a turn is given: whether the frame can be drawn, the event read if
    one came in time (only keys matter), the environments of the calls for a
    key and of the poll, the times at which the poll is considered and done. *)
Record Turn := mkTurn {
  tn_draw : result io_error unit; tn_event : result io_error (option KeyCode);
  tn_action : ClientEnv; tn_refresh : ClientEnv; tn_poll : ClientEnv; tn_now : Z; tn_done : Z }.

(** After an action: the error is shown, or the screen is fetched anew. *)
Definition after_action (refresh : ClientEnv) (outcome : result rstring unit) (s : AppState) (w : TuiWorld) :
    AppState * TuiWorld :=
  match outcome with
  | Ok _ =>
    match fetch_once refresh w with
    | (Ok next, w) => (set_advanced next (dc_advanced config), w)
    | (_, w) => (s, w)
    end
  | Err error => (set_error s error, w)
  | Panic => (s, w)
  end.

Definition perform (t : Turn) (action : AppAction) (s : AppState) (w : TuiWorld) : AppState * TuiWorld :=
  match action with
  | ANone => (s, w)
  | ApproveLocalSend fingerprint label =>
    let '(r, w) := client_approve_localsend_peer (tn_action t) fingerprint label w in after_action (tn_refresh t) r s w
  | DenyLocalSend fingerprint =>
    let '(r, w) := client_deny_localsend_peer (tn_action t) fingerprint w in after_action (tn_refresh t) r s w
  end.

Definition poll (t : Turn) (s : AppState) (last_poll : Z) (w : TuiWorld) : AppState * Z * TuiWorld :=
  if dc_poll_interval config <=? tn_now t - last_poll then
    match fetch_once (tn_poll t) w with
    | (Ok next, w) => (set_advanced next (dc_advanced config), tn_done t, w)
    | (Err error, w) => (set_error s error, tn_done t, w)
    | (Panic, w) => (s, tn_done t, w)
    end
  else (s, last_poll, w).

Inductive Flow := Running (last_poll : Z) | Left_loop | Crashed (e : io_error).

(** One turn: draw, leave if asked to, handle a key, poll. *)
Definition turn (t : Turn) (s : AppState) (last_poll : Z) (w : TuiWorld) : Flow * AppState * TuiWorld :=
  match tn_draw t with
  | Ok _ =>
    if as_should_quit s then (Left_loop, s, w)
    else
      match tn_event t with
      | Ok event =>
        let '(s, w) :=
          match event with
          | Some key => let '(s, action) := handle_key s key in perform t action s w
          | None => (s, w)
          end in
        let '(s, last_poll, w) := poll t s last_poll w in
        (Running last_poll, s, w)
      | Err e => (Crashed e, s, w)
      | Panic => (Crashed OtherIo, s, w)
      end
  | Err e => (Crashed e, s, w)
  | Panic => (Crashed OtherIo, s, w)
  end.

(** The turns given, until the loop is left; with each turn the frame drawn at
    its head and the daemon as the turn found it. *)
Fixpoint run_app (turns : list Turn) (s : AppState) (last_poll : Z) (w : TuiWorld) :
    list (Turn * AppState * TuiWorld) * (Flow * AppState * TuiWorld) :=
  match turns with
  | [] => ([], (Running last_poll, s, w))
  | t :: turns =>
    match turn t s last_poll w with
    | (Running last_poll, s', w') =>
      let '(frames, final) := run_app turns s' last_poll w' in ((t, s, w) :: frames, final)
    | final => ([(t, s, w)], final)
    end
  end.

(** [main], up to the loop. *)
Definition first_state (e : ClientEnv) (w : TuiWorld) : AppState * TuiWorld :=
  let '(r, w) := fetch_once e w in
  (set_advanced match r with Ok s => s | Err error => set_error default_app error | Panic => default_app end
     (dc_advanced config), w).
End client.

(** ** Arguments (main.rs) *)

Definition DEFAULT_DAEMON_GRPC : rstring := str "http://127.0.0.1:53500".

Definition load_api_token (t : fs) (api_token_file : path) : result rstring rstring :=
  o ← map_err (λ _, str "loading api token") (token_load t api_token_file);
  ok_or o (str "api token not found").

(** The loop over the arguments; [None] is the exit after the help text. *)
Fixpoint parse_args (args : list rstring) (endpoint : rstring) (api_token : option rstring) (advanced : bool) :
    result rstring (option (rstring * option rstring * bool)) :=
  match args with
  | [] => Ok (Some (endpoint, api_token, advanced))
  | arg :: args =>
    if bool_decide (arg = str "--daemon-grpc") then
      match args with
      | value :: args => parse_args args value api_token advanced
      | [] => Err (str "--daemon-grpc requires a value")
      end
    else if bool_decide (arg = str "--api-token") then
      match args with
      | value :: args => parse_args args endpoint (Some value) advanced
      | [] => Err (str "--api-token requires a value")
      end
    else if bool_decide (arg = str "--help") || bool_decide (arg = str "-h") then Ok None
    else if bool_decide (arg = str "--advanced") then parse_args args endpoint api_token true
    else Err (str "unknown argument: " ++ arg)
  end.

Definition config_from_args (t : fs) (api_token_file : path) (args : list rstring) :
    result rstring (option DaemonApiConfig) :=
  o ← parse_args args DEFAULT_DAEMON_GRPC None false;
  match o with
  | None => Ok None
  | Some (endpoint, api_token, advanced) =>
    api_token ← match api_token with Some token => Ok token | None => load_api_token t api_token_file end;
    let config := new_config endpoint api_token in
    Ok (Some (mkApiConfig (dc_endpoint config) (dc_api_token config) (dc_poll_interval config) advanced))
  end.

(** ** The marker *)

(** The selection is on a row whenever there is one. *)
Definition selection_ok (s : AppState) : Prop :=
  (as_selected_localsend_peer s ≤ length (as_pending_localsend_peers s) - 1)%nat.

Lemma imap_marked l i n :
  snd <$> filter (λ row : bool * PeerRow, row.1 = true) (imap (λ index peer, (bool_decide ((n + index)%nat = i), peer)) l)
  = match decide (n ≤ i)%nat with left _ => option_list (l !! (i - n)%nat) | right _ => [] end.
Proof.
  revert n. induction l as [|p l IH]; intros n; [by destruct (decide _)|]. rewrite imap_cons, filter_cons. cbn [fst].
  assert (Himap : imap ((λ index peer, (bool_decide ((n + index)%nat = i), peer)) ∘ S) l =
    imap (λ index peer, (bool_decide ((S n + index)%nat = i), peer)) l).
  { apply imap_ext. intros j q _. unfold compose. by rewrite Nat.add_succ_r. }
  destruct (decide (n + 0 = i)%nat) as [<-|Hne].
  - rewrite bool_decide_true by done. rewrite decide_True by done. rewrite fmap_cons, Himap, IH.
    rewrite decide_False by lia. rewrite decide_True by lia. by rewrite Nat.add_0_r, Nat.sub_diag.
  - rewrite bool_decide_false by done. rewrite decide_False by done. rewrite Himap, IH.
    destruct (decide (S n ≤ i)%nat).
    + rewrite decide_True by lia. by replace (i - n)%nat with (S (i - S n)) by lia.
    + rewrite decide_False by lia. done.
Qed.

Lemma marked_selected s : marked s = option_list (selected_localsend_peer s).
Proof.
  unfold marked, localsend_peer_list, selected_localsend_peer.
  pose proof (imap_marked (as_pending_localsend_peers s) (as_selected_localsend_peer s) 0) as Hm.
  rewrite decide_True, Nat.sub_0_r in Hm by lia. exact Hm.
Qed.

Lemma selected_some s :
  selection_ok s → as_pending_localsend_peers s ≠ [] → is_Some (selected_localsend_peer s).
Proof.
  unfold selection_ok, selected_localsend_peer. intros Hs Hne. apply lookup_lt_is_Some.
  destruct (as_pending_localsend_peers s); [done|]. simpl in *. lia.
Qed.

Lemma handle_key_selection s k : selection_ok s → selection_ok (handle_key s k).1.
Proof.
  unfold selection_ok. intros Hs.
  assert (Hnext : (as_selected_localsend_peer (select_next_localsend_peer s)
    ≤ length (as_pending_localsend_peers (select_next_localsend_peer s)) - 1)%nat).
  { unfold select_next_localsend_peer. destruct (as_pending_localsend_peers s) eqn:Hp; cbn; rewrite Hp; simpl; lia. }
  unfold handle_key. repeat case_match; try exact Hs; try exact Hnext; cbn; lia.
Qed.

(** ** What the client asks of the daemon *)

(** The calls that change the world of the API. *)
Definition changes (c : GrpcCall) : bool :=
  match c with
  | ToPeers (GListLan | GTrustNativeLan _ _ _ _ | GApprove _ _ | GDeny _) | ToTransfers (GSend _) => true
  | _ => false
  end.

(** Only calls that read were made. *)
Definition only_reads (w w' : TuiWorld) : Prop :=
  ∃ l, tw_calls w' = tw_calls w ++ l ∧ Forall (λ c, changes c = false) l.

#[export] Instance only_reads_preorder : PreOrder only_reads.
Proof.
  split; [intros w; exists []; by rewrite app_nil_r|].
  intros w1 w2 w3 (l1 & Hl1 & F1) (l2 & Hl2 & F2). exists (l1 ++ l2). rewrite Hl2, Hl1, app_assoc. split; [done|].
  by apply Forall_app.
Qed.

Lemma reads_none l : Forall (λ c, changes c = false) l → filter (λ c, changes c = true) l = [].
Proof. induction 1 as [|c l Hc _ IH]; [done|]. rewrite filter_cons, Hc. by rewrite decide_False. Qed.

Section calls.
Context `{HashOrder} `{CryptoSuite} `{Lowercase} `{Uuid} `{Tonic} (error_text : CoreError → rstring) (st : DaemonState).
Context (config : DaemonApiConfig).
Abbreviation fetch_once := (fetch_once error_text st config).
Abbreviation turn := (turn error_text st config).
Abbreviation run_app := (run_app error_text st config).
Abbreviation perform := (perform error_text st config).
Abbreviation first_state := (first_state error_text st config).

(** Calls that read leave the daemon as it is. *)
Lemma grpc_reads env h c w : changes c = false → (grpc error_text env st h c w).2 = w.
Proof.
  intros Hc. unfold grpc, mbind, SE_bind, lift. destruct (authorize_metadata h (ds_api_token st)) as [[]| |]; [|done..].
  unfold grpc_method.
  destruct c as [[]|[]|[]|[]|[]]; try discriminate Hc; try done; cbn;
    unfold list_trusted, list_pending_localsend, list_native_lan, events, resume_transfer, mbind, SE_bind, store_read, lift;
    by destruct (map_err _ _).
Qed.

(** A connection is made and the token is a header value. *)
Definition can_call (e : ClientEnv) : bool :=
  endpoint_ok (dc_endpoint config) && ce_up e && metadata_ok (str "Bearer " ++ dc_api_token config).

Lemma channel_world e w : (channel config e w).2 = w.
Proof. unfold channel. destruct (endpoint_ok _), (ce_up e); done. Qed.
Lemma interceptor_world w : (interceptor config w).2 = w.
Proof. unfold interceptor. by destruct (metadata_ok _). Qed.

Lemma state_same {A} (m : TM A) : (∀ w, (m w).2 = w) → pres only_reads m.
Proof. intros Hm w. by rewrite Hm. Qed.
Lemma pres_call e h c ctx : changes c = false → pres only_reads (call error_text st e h c ctx).
Proof.
  intros Hc w. exists [c]. unfold call. destruct (grpc _ _ _ _ _ _) as [r api]. split; [done|by repeat constructor].
Qed.

Lemma fetch_reads e : pres only_reads (fetch_once e).
Proof.
  unfold Tui.fetch_once.
  assert (Hc : pres only_reads (channel config e)) by apply state_same, channel_world.
  assert (Hi : pres only_reads (interceptor config)) by apply state_same, interceptor_world.
  pres_auto; by apply pres_call.
Qed.

(** What a fetched screen looks like before any key. *)
Definition fresh_screen (s : AppState) : Prop :=
  as_selected_tab s = Dashboard ∧ as_selected_localsend_peer s = 0%nat ∧ as_should_quit s = false ∧ as_last_error s = None.

Lemma status_of_fresh r s : fresh_screen s → fresh_screen (status_of r s).
Proof. by destruct r. Qed.

Lemma fetch_fresh e w s w' : fetch_once e w = (Ok s, w') → fresh_screen s.
Proof. unfold Tui.fetch_once. intros Hf. inv_se. apply status_of_fresh. done. Qed.

Lemma fresh_selection s : fresh_screen s → selection_ok s.
Proof. intros (_ & Hs & _). unfold selection_ok. rewrite Hs. lia. Qed.

(** A request for one call: made if it can be, and nothing else. *)
Definition ask (e : ClientEnv) (c : GrpcCall) (context : string) : TM unit :=
  _ ← channel config e; metadata ← interceptor config; _ ← call error_text st e metadata c context; mret tt.

Lemma ask_calls e c ctx w :
  tw_calls (ask e c ctx w).2 = tw_calls w ++ (if can_call e then [c] else []).
Proof.
  unfold ask, can_call, channel, interceptor, call, mbind, SE_bind, fail.
  destruct (endpoint_ok (dc_endpoint config)), (ce_up e); cbn [negb andb]; rewrite ?app_nil_r; try done.
  destruct (metadata_ok _); cbn; [|by rewrite app_nil_r].
  by match goal with |- context [grpc ?a ?b ?c ?d ?e ?f] => destruct (grpc a b c d e f) as [[]] end.
Qed.

Lemma after_action_spec refresh r s w :
  selection_ok s →
  only_reads w (after_action error_text st config refresh r s w).2 ∧
  selection_ok (after_action error_text st config refresh r s w).1.
Proof.
  intros Hs. unfold after_action. destruct r as [[]|error|]; [|by split..].
  pose proof (fetch_reads refresh w) as Hr.
  destruct (fetch_once refresh w) as [[next|error|] w1] eqn:Hf; cbn [fst snd] in *; [|done..].
  split; [done|]. by apply fetch_fresh, fresh_selection in Hf.
Qed.

(** The call an action stands for. *)
Definition call_of (action : AppAction) : list GrpcCall :=
  match action with
  | ANone => []
  | ApproveLocalSend fingerprint label => [ToPeers (GApprove fingerprint label)]
  | DenyLocalSend fingerprint => [ToPeers (GDeny fingerprint)]
  end.

(** The calls made since, those that change something being [l]. *)
Definition changed_by (w w' : TuiWorld) (l : list GrpcCall) : Prop :=
  ∃ calls, tw_calls w' = tw_calls w ++ calls ∧ filter (λ c, changes c = true) calls = l.

Lemma changed_reads w w' : only_reads w w' → changed_by w w' [].
Proof. intros (l & Hl & Hr). exists l. split; [done|]. by apply reads_none. Qed.
Lemma changed_trans w1 w2 w3 l1 l2 : changed_by w1 w2 l1 → changed_by w2 w3 l2 → changed_by w1 w3 (l1 ++ l2).
Proof.
  intros (c1 & Hc1 & <-) (c2 & Hc2 & <-). exists (c1 ++ c2). rewrite Hc2, Hc1, app_assoc. split; [done|]. apply filter_app.
Qed.

Lemma asked e c ctx refresh s w :
  changes c = true → selection_ok s →
  let p := let '(r, w1) := ask e c ctx w in after_action error_text st config refresh r s w1 in
  changed_by w p.2 (if can_call e then [c] else []) ∧ selection_ok p.1.
Proof.
  intros Hc Hs. pose proof (ask_calls e c ctx w) as Ha. destruct (ask e c ctx w) as [r w1]. cbn [snd] in Ha.
  destruct (after_action_spec refresh r s w1 Hs) as [Hr Hsel]. split; [|done].
  rewrite <-(app_nil_r (if can_call e then [c] else [])). eapply changed_trans; [|by apply changed_reads].
  eexists. split; [exact Ha|]. destruct (can_call e); [|done]. rewrite filter_cons, Hc. by rewrite decide_True.
Qed.

Lemma perform_calls t action s w :
  selection_ok s →
  changed_by w (perform t action s w).2 (if can_call (tn_action t) then call_of action else []) ∧
  selection_ok (perform t action s w).1.
Proof.
  intros Hs. destruct action as [|f label|f].
  - split; [|done]. replace (if can_call _ then _ else _) with (@nil GrpcCall) by (by destruct (can_call _)).
    by apply changed_reads.
  - by apply (asked (tn_action t) (ToPeers (GApprove f label))).
  - by apply (asked (tn_action t) (ToPeers (GDeny f))).
Qed.

Lemma poll_calls t s last_poll w :
  selection_ok s →
  let p := poll error_text st config t s last_poll w in only_reads w p.2 ∧ selection_ok p.1.1.
Proof.
  intros Hs. unfold poll. destruct (_ <=? _); [|done].
  pose proof (fetch_reads (tn_poll t) w) as Hr.
  destruct (fetch_once (tn_poll t) w) as [[next|error|] w1] eqn:Hf; cbn [fst snd] in *; [|done..].
  split; [done|]. by apply fetch_fresh, fresh_selection in Hf.
Qed.

(** What a turn does to the daemon: the decision of its key about the row its
    frame marks. *)
Definition decided (t : Turn) (s : AppState) : list GrpcCall :=
  match tn_draw t, as_should_quit s, tn_event t, marked s with
  | Ok _, false, Ok (Some (Char 97)), [p] =>
    if can_call (tn_action t)
    then [ToPeers (GApprove (rw_fingerprint p) (Some (default (rw_alias p) (rw_label p))))] else []
  | Ok _, false, Ok (Some (Char 100)), [p] =>
    if can_call (tn_action t) then [ToPeers (GDeny (rw_fingerprint p))] else []
  | _, _, _, _ => []
  end.

Lemma key_decides t s k u :
  tn_draw t = Ok u → as_should_quit s = false → tn_event t = Ok (Some k) →
  (if can_call (tn_action t) then call_of (handle_key s k).2 else []) = decided t s.
Proof.
  intros Hd Hq He. unfold decided. rewrite Hd, Hq, He, marked_selected.
  unfold handle_key, approve_selected_localsend_peer, deny_selected_localsend_peer.
  destruct (can_call (tn_action t)), (selected_localsend_peer s) as [p|]; cbn [option_list];
    by repeat match goal with |- context [match ?x with _ => _ end] => is_var x; destruct x end.
Qed.

Lemma turn_calls t s last_poll w flow s' w' :
  selection_ok s → turn t s last_poll w = (flow, s', w') →
  changed_by w w' (decided t s) ∧ selection_ok s'.
Proof.
  intros Hs. unfold Tui.turn.
  assert (Hstay : decided t s = [] → changed_by w w (decided t s) ∧ selection_ok s).
  { intros ->. split; [|done]. by apply changed_reads. }
  destruct (tn_draw t) as [[]| |] eqn:Hd; [|intros [= <- <- <-]; apply Hstay; unfold decided; by rewrite Hd..].
  destruct (as_should_quit s) eqn:Hq; [intros [= <- <- <-]; apply Hstay; unfold decided; by rewrite Hd, Hq|].
  destruct (tn_event t) as [event| |] eqn:He; [|intros [= <- <- <-]; apply Hstay; unfold decided; by rewrite Hd, Hq, He..].
  assert (Hkey : ∀ s1 w1,
    match event with Some key => let '(s, action) := handle_key s key in perform t action s w | None => (s, w) end = (s1, w1) →
    changed_by w w1 (decided t s) ∧ selection_ok s1).
  { intros s1 w1. destruct event as [k|].
    - rewrite <-(key_decides t s k tt) by done. pose proof (handle_key_selection s k Hs) as Hsel.
      destruct (handle_key s k) as [s2 action]. cbn [fst snd] in *. intros Hp.
      pose proof (perform_calls t action s2 w Hsel) as Hc. by rewrite Hp in Hc.
    - intros [= <- <-]. apply Hstay. unfold decided. by rewrite Hd, Hq, He. }
  destruct (match event with Some _ => _ | None => _ end) as [s1 w1]. destruct (Hkey s1 w1 eq_refl) as [Hc Hsel].
  pose proof (poll_calls t s1 last_poll w1 Hsel) as Hp. cbv zeta in Hp.
  destruct (poll error_text st config t s1 last_poll w1) as [[s2 lp] w2]. cbn [fst snd] in Hp. destruct Hp as [Hr Hsel2].
  intros [= <- <- <-]. split; [|done]. rewrite <-(app_nil_r (decided t s)).
  eapply changed_trans; [exact Hc|by apply changed_reads].
Qed.

Lemma first_state_calls e w : only_reads w (first_state e w).2 ∧ selection_ok (first_state e w).1.
Proof.
  unfold Tui.first_state. pose proof (fetch_reads e w) as Hr.
  destruct (fetch_once e w) as [[s|error|] w1] eqn:Hf; cbn [fst snd] in *;
    (split; [done|]); [|unfold selection_ok; cbn; lia..].
  by apply fetch_fresh, fresh_selection in Hf.
Qed.

Lemma run_calls turns : ∀ s last_poll w frames flow s' w',
  selection_ok s → run_app turns s last_poll w = (frames, (flow, s', w')) →
  changed_by w w' (concat ((λ f, decided f.1.1 f.1.2) <$> frames)) ∧ Forall (λ f, selection_ok f.1.2) frames.
Proof.
  induction turns as [|t turns IH]; intros s last_poll w frames flow s' w' Hs; cbn [Tui.run_app].
  { intros [= <- <- <- <-]. split; [by apply changed_reads|constructor]. }
  destruct (turn t s last_poll w) as [[flow1 s1] w1] eqn:Ht. destruct (turn_calls _ _ _ _ _ _ _ Hs Ht) as [Hc Hs1].
  assert (Hend : ∀ fl, ([(t, s, w)], (fl, s1, w1)) = (frames, (flow, s', w')) →
    changed_by w w' (concat ((λ f, decided f.1.1 f.1.2) <$> frames)) ∧ Forall (λ f, selection_ok f.1.2) frames).
  { intros fl [= <- <- <- <-]. cbn. rewrite app_nil_r. split; [exact Hc|by repeat constructor]. }
  destruct flow1 as [lp| |e]; [|apply Hend..].
  destruct (run_app turns s1 lp w1) as [frames1 [[flow2 s2] w2]] eqn:Hrun. intros [= <- <- <- <-].
  destruct (IH _ _ _ _ _ _ _ Hs1 Hrun) as [Hc' HF]. split; [|by constructor]. cbn. by eapply changed_trans.
Qed.

End calls.

(** ** A dashboard and its daemon *)

Section effect.
Context `{HashOrder} `{CryptoLaws} `{LowercaseLaws} `{Uuid} `{Tonic} (error_text : CoreError → rstring) (st : DaemonState).
Context (config : DaemonApiConfig).
Abbreviation fetch_once := (fetch_once error_text st config).
Abbreviation turn := (turn error_text st config).
Abbreviation can_call := (can_call config).

(** The daemon answers and nothing else happens to it. *)
Definition quiet (e : ClientEnv) : Prop := can_call e = true ∧ ∀ c api, ce_others e c api = api.

(** The rows the dashboard shows of a database. *)
Definition shows_pending (s : AppState) (store : TrustStore) : Prop :=
  ∃ pending, list_pending_localsend_peers store = Ok pending ∧
    as_pending_localsend_peers s = peer_row_of ∘ localsend_peer <$> pending.

Definition shows_daemon (s : AppState) (api : ApiWorld) : Prop :=
  as_alias s = Some (ds_alias st) ∧ as_fingerprint s = Some (ds_fingerprint st) ∧
  as_inbox_dir s = Some (ds_inbox_dir st) ∧ as_localsend_port s = Some (ds_localsend_port st) ∧
  as_native_port s = Some (ds_native_port st) ∧ shows_pending s (a_trust api) ∧
  list_inbox_entries (a_fs api) (ds_inbox_dir st) = Ok (as_inbox_entries s).

(** The daemon's listings succeed. *)
Definition healthy (api : ApiWorld) : Prop :=
  trust_wf (a_trust api) ∧ is_ok (list_inbox_entries (a_fs api) (ds_inbox_dir st)) = true.

Lemma list_peers_total s : trust_wf s → ∃ l, list_peers s = Ok l.
Proof.
  intros Hwf. unfold list_peers. edestruct (collect_rows_Ok row_to_peer) as (l & Hl & _); [|eexists; exact Hl].
  intros k r ?%elem_of_stable_sort%elem_of_map_to_list. eauto using peer_row_reads.
Qed.

Lemma bearer_accepts token : bearer (Value (str "Bearer " ++ token)) token = Ok tt.
Proof.
  cbn [bearer]. rewrite (proj2 (strip_prefix_Some _ _ _) eq_refl). by rewrite bool_decide_true.
Qed.

Lemma call_quiet e c ctx w r api :
  quiet e → ds_api_token st = dc_api_token config →
  grpc_method error_text (ce_env e) st c (tw_api w) = (Ok r, api) →
  call error_text st e (str "Bearer " ++ dc_api_token config) c ctx w = (Ok r, mkTui api (tw_calls w ++ [c])).
Proof.
  intros [_ Ho] Ht Hm. unfold call. rewrite Ho. unfold grpc, authorize_metadata. rewrite Ht, bearer_accepts.
  unfold mbind, SE_bind, lift, map_err. by rewrite Hm.
Qed.

Lemma connect_quiet {A} e (k : rstring → TM A) w :
  quiet e → (_ ← channel config e; h ← interceptor config; k h) w = k (str "Bearer " ++ dc_api_token config) w.
Proof.
  intros [Hc _]. unfold Tui.can_call in Hc. apply andb_true_iff in Hc as [[Hep Hup]%andb_true_iff Hm].
  unfold channel, interceptor, mbind, SE_bind. rewrite Hep, Hup, Hm. done.
Qed.

Lemma fetch_quiet e w :
  quiet e → ds_api_token st = dc_api_token config → healthy (tw_api w) →
  ∃ s w', fetch_once e w = (Ok s, w') ∧ tw_api w' = tw_api w ∧ fresh_screen s ∧ shows_daemon s (tw_api w).
Proof.
  intros Hq Ht [Hwf Hin]. destruct (list_peers_total _ Hwf) as [trusted Htr].
  destruct (listed_by_status _ StPending Hwf) as (pending & Hp & _).
  fold (list_pending_localsend_peers (a_trust (tw_api w))) in Hp.
  destruct (list_inbox_entries (a_fs (tw_api w)) (ds_inbox_dir st)) as [entries| |] eqn:He; [|done..].
  assert (Hcall : ∀ c ctx r calls, grpc_method error_text (ce_env e) st c (tw_api w) = (Ok r, tw_api w) →
    call error_text st e (str "Bearer " ++ dc_api_token config) c ctx (mkTui (tw_api w) calls) =
    (Ok r, mkTui (tw_api w) (calls ++ [c]))) by (intros; by apply call_quiet).
  destruct w as [api calls]. cbn [tw_api] in *. unfold Tui.fetch_once. rewrite (connect_quiet e) by done.
  rewrite (SE_bind_eq _ _ _ _ _ (Hcall (ToDaemon GetStatus) _ _ _ eq_refl)).
  assert (Hadv : ∃ rows calls', (if dc_advanced config then
      r ← call error_text st e (str "Bearer " ++ dc_api_token config) (ToPeers GListTrusted) "trusted peers request failed";
      mret (trusted_row_of <$> trusted_peers_of r) else mret []) (mkTui api (calls ++ [ToDaemon GetStatus]))
    = (Ok rows, mkTui api calls')).
  { destruct (dc_advanced config); [|by eexists _, _]. eexists _, _.
    rewrite (SE_bind_eq _ _ _ _ _ (Hcall (ToPeers GListTrusted) _ (TrustedPeers trusted) _
      ltac:(cbn; unfold list_trusted, mbind, SE_bind, store_read; by rewrite Htr))). done. }
  destruct Hadv as (rows & calls' & Hadv). rewrite (SE_bind_eq _ _ _ _ _ Hadv).
  rewrite (SE_bind_eq _ _ _ _ _ (Hcall (ToPeers GListPending) _ (LocalSendPeers pending) _
      ltac:(cbn; unfold list_pending_localsend, mbind, SE_bind, store_read; by rewrite Hp))).
  rewrite (SE_bind_eq _ _ _ _ _ (Hcall (ToTransfers GListActive) _ _ _ eq_refl)).
  rewrite (SE_bind_eq _ _ _ _ _ (Hcall (ToInbox GListInbox) _ (InboxReply entries) _
      ltac:(cbn; unfold list_inbox; by rewrite He))).
  eexists _, _. split; [reflexivity|]. split; [done|]. split; [done|]. unfold shows_daemon. cbn. split_and!; try done.
  exists pending. split; [done|]. unfold localsend_peers_of. by rewrite list_fmap_compose.
Qed.

(** The store with a decision of the operator. *)
Definition decide_peer (status : LocalSendPeerStatus) (store : TrustStore) (now : Z) (p : PeerRow) :=
  match status with
  | StTrusted => approve_localsend_peer store now (rw_fingerprint p) (Some (default (rw_alias p) (rw_label p)))
  | _ => deny_localsend_peer store now (rw_fingerprint p)
  end.

Lemma decide_peer_spec status store now p :
  status ≠ StPending → trust_wf store → normalize_localsend_fingerprint (rw_fingerprint p) = Ok (rw_fingerprint p) →
  ∃ peer store' n, decide_peer status store now p = Ok (peer, store') ∧ trust_wf store' ∧
    localsend_updated store store' (rw_fingerprint p) status n ∧ peers store' = peers store ∧
    ∀ lw, l_trust lw = Some store' → has_status (rw_fingerprint p) status lw.
Proof.
  intros Hne Hwf Hn. destruct (localsend_status_machine store now _ _ Hwf Hn) as (_ & Happrove & Hdeny).
  assert (Hset : ∀ label peer store', set_localsend_peer_status store now (rw_fingerprint p) status label = Ok (peer, store') →
    trust_wf store' ∧ peers store' = peers store ∧ ∀ lw, l_trust lw = Some store' → has_status (rw_fingerprint p) status lw).
  { intros label peer store' Hs. split; [by eapply trust_step_wf; [eapply step_status; exact Hs|]|].
    split; [|intros; by eapply set_status_has]. unfold set_localsend_peer_status in Hs. inv_ok.
    by apply then_get_Ok_inv in Hs as [-> _]. }
  destruct status; [done| |].
  - destruct (Happrove (Some (default (rw_alias p) (rw_label p)))) as (peer & store' & Ha & n & Hu).
    exists peer, store', n. destruct (Hset _ _ _ Ha) as (? & ? & ?). done.
  - destruct Hdeny as (peer & store' & Ha & n & Hu). exists peer, store', n. destruct (Hset _ _ _ Ha) as (? & ? & ?). done.
Qed.

Lemma shown_row s store p :
  trust_wf store → shows_pending s store → p ∈ as_pending_localsend_peers s →
  ∃ q, p = peer_row_of (localsend_peer q) ∧ normalize_localsend_fingerprint (rw_fingerprint p) = Ok (rw_fingerprint p) ∧
    get_localsend_peer store (rw_fingerprint p) = Ok (Some q) ∧ ls_status q = StPending.
Proof.
  intros Hwf (pending & Hp & Hs) Hin. rewrite Hs in Hin. apply list_elem_of_fmap in Hin as (q & -> & Hq).
  destruct (listed_by_status _ StPending Hwf) as (l & Hl & Hmem).
  fold (list_pending_localsend_peers store) in Hl. rewrite Hp in Hl. apply Ok_inj in Hl as <-.
  apply Hmem in Hq as (Hn & Hg & Hst). by exists q.
Qed.

Lemma decided_row_gone s store store' f status n :
  trust_wf store' → shows_pending s store' → localsend_updated store store' f status n → status ≠ StPending →
  ∀ row, row ∈ as_pending_localsend_peers s → rw_fingerprint row ≠ f.
Proof.
  intros Hwf Hs [(q & Hg & Hst & _) _] Hne row Hrow <-.
  destruct (shown_row s store' row Hwf Hs Hrow) as (q' & _ & _ & Hg' & Hst'). congruence.
Qed.

Lemma action_takes_effect t status action s w p :
  quiet (tn_action t) → quiet (tn_refresh t) → ds_api_token st = dc_api_token config → healthy (tw_api w) →
  status = StTrusted ∧ action = ApproveLocalSend (rw_fingerprint p) (Some (default (rw_alias p) (rw_label p))) ∨
  status = StBlocked ∧ action = DenyLocalSend (rw_fingerprint p) →
  ∀ peer store', decide_peer status (a_trust (tw_api w)) (e_now (ce_env (tn_action t))) p = Ok (peer, store') →
  trust_wf store' →
  ∃ s' w', perform error_text st config t action s w = (s', w') ∧ tw_api w' = set_trust (tw_api w) store' ∧
    shows_pending s' store' ∧ as_should_quit s' = false.
Proof.
  intros Hqa Hqr Ht [Hwf Hin] Haction peer store' Hdec Hwf'.
  assert (Hfetch : ∀ calls, ∃ s' w', after_action error_text st config (tn_refresh t) (Ok tt) s
      (mkTui (set_trust (tw_api w) store') calls) = (s', w') ∧ tw_api w' = set_trust (tw_api w) store' ∧
      shows_pending s' store' ∧ as_should_quit s' = false).
  { intros calls. destruct (fetch_quiet (tn_refresh t) (mkTui (set_trust (tw_api w) store') calls) Hqr Ht)
      as (s' & w' & Hf & Hw & (_ & _ & Hquit & _) & (_ & _ & _ & _ & _ & Hshow & _)); [by split|].
    unfold after_action. rewrite Hf. eexists _, _. split; [done|]. by split_and!. }
  destruct Haction as [[-> ->]|[-> ->]]; cbn [Tui.perform].
  - unfold client_approve_localsend_peer. rewrite connect_quiet by done.
    rewrite (SE_bind_eq _ _ _ _ _ (call_quiet (tn_action t) (ToPeers (GApprove _ _)) _ w (LocalSendPeerReply peer)
      (set_trust (tw_api w) store') Hqa Ht ltac:(cbn; unfold approve_localsend, mbind, SE_bind, store_write;
        cbn [decide_peer] in Hdec; by rewrite Hdec))). apply Hfetch.
  - unfold client_deny_localsend_peer. rewrite connect_quiet by done.
    rewrite (SE_bind_eq _ _ _ _ _ (call_quiet (tn_action t) (ToPeers (GDeny _)) _ w (LocalSendPeerReply peer)
      (set_trust (tw_api w) store') Hqa Ht ltac:(cbn; unfold deny_localsend, mbind, SE_bind, store_write;
        cbn [decide_peer] in Hdec; by rewrite Hdec))). apply Hfetch.
Qed.

Lemma poll_quiet t s last_poll w :
  quiet (tn_poll t) → ds_api_token st = dc_api_token config → healthy (tw_api w) → shows_pending s (a_trust (tw_api w)) →
  ∃ s' lp w', poll error_text st config t s last_poll w = (s', lp, w') ∧ tw_api w' = tw_api w ∧
    shows_pending s' (a_trust (tw_api w)).
Proof.
  intros Hq Ht Hh Hs. unfold poll. destruct (_ <=? _); [|by eexists _, _, _].
  destruct (fetch_quiet _ _ Hq Ht Hh) as (s' & w' & -> & Hw & _ & (_ & _ & _ & _ & _ & Hshow & _)).
  eexists _, _, _. split; [done|]. by split.
Qed.

Lemma marked_one s p : marked s = [p] → selected_localsend_peer s = Some p ∧ p ∈ as_pending_localsend_peers s.
Proof.
  rewrite marked_selected. destruct (selected_localsend_peer s) as [q|] eqn:Hq; [|done]. intros [= <-].
  split; [done|]. by eapply list_elem_of_lookup_2.
Qed.

(** C14: A decision takes effect.  When the screen shows the pending peers of the
    daemon and the operator presses a or d, then after this turn the peer that
    was marked, which was pending, is trusted or blocked in the database, no
    other peer and nothing else at the daemon has changed, and the peer is no
    longer on the screen; and a LocalSend server that decides by this database
    gives the peer a session, or refuses it with 403. *)
Theorem decision_takes_effect t s last_poll w p status :
  quiet (tn_action t) → quiet (tn_refresh t) → quiet (tn_poll t) → ds_api_token st = dc_api_token config →
  healthy (tw_api w) → shows_pending s (a_trust (tw_api w)) → marked s = [p] →
  tn_draw t = Ok tt → as_should_quit s = false →
  tn_event t = Ok (Some (Char 97)) ∧ status = StTrusted ∨ tn_event t = Ok (Some (Char 100)) ∧ status = StBlocked →
  ∃ q lp s' w' store' n,
    get_localsend_peer (a_trust (tw_api w)) (rw_fingerprint p) = Ok (Some q) ∧ ls_status q = StPending ∧
    p = peer_row_of (localsend_peer q) ∧
    turn t s last_poll w = (Running lp, s', w') ∧
    tw_api w' = set_trust (tw_api w) store' ∧ peers store' = peers (a_trust (tw_api w)) ∧
    localsend_updated (a_trust (tw_api w)) store' (rw_fingerprint p) status n ∧
    shows_pending s' store' ∧ (∀ row, row ∈ as_pending_localsend_peers s' → rw_fingerprint row ≠ rw_fingerprint p) ∧
    ∀ server unix now ip request lw,
      database_only server → l_trust lw = Some store' →
      normalize_fingerprint (di_fingerprint (pu_info request)) = normalize_fingerprint (rw_fingerprint p) →
      (status = StBlocked → prepare_upload server unix now ip request lw = (RespStatus 403, lw)) ∧
      (status = StTrusted → is_blank (di_alias (pu_info request)) = false → is_ok (validate_file_ids request) = true →
         ∃ sid files lw', prepare_upload server unix now ip request lw = (RespPrepared sid files, lw') ∧
           is_Some (l_sessions lw' !! sid)).
Proof.
  intros Hqa Hqr Hqp Ht Hh Hshow Hmark Hd Hquit Hkey. destruct (marked_one s p Hmark) as [Hsel Hin].
  pose proof Hh as [Hwf Hinbox]. destruct (shown_row s _ p Hwf Hshow Hin) as (q & Hpq & Hn & Hg & Hst).
  assert (Hne : status ≠ StPending) by (by destruct Hkey as [[_ ->]|[_ ->]]).
  destruct (decide_peer_spec status _ (e_now (ce_env (tn_action t))) p Hne Hwf Hn)
    as (peer & store' & n & Hdec & Hwf' & Hu & Hpeers & Hhas).
  assert (∃ key action, tn_event t = Ok (Some key) ∧ handle_key s key = (s, action) ∧
    (status = StTrusted ∧ action = ApproveLocalSend (rw_fingerprint p) (Some (default (rw_alias p) (rw_label p))) ∨
     status = StBlocked ∧ action = DenyLocalSend (rw_fingerprint p))) as (key & action & Hev & Hh' & Hact).
  { destruct Hkey as [[-> ->]|[-> ->]]; eexists _, _; (split; [done|]); (split; [reflexivity|]); [left|right];
      unfold approve_selected_localsend_peer, deny_selected_localsend_peer; by rewrite Hsel. }
  destruct (action_takes_effect t status action s w p Hqa Hqr Ht Hh Hact peer store' Hdec Hwf')
    as (s1 & w1 & Hperf & Hw1 & Hshow1 & _).
  destruct (poll_quiet t s1 last_poll w1 Hqp Ht) as (s' & lp & w' & Hpoll & Hw' & Hshow');
    [rewrite Hw1; by split|by rewrite Hw1|].
  rewrite Hw1 in Hw', Hshow'. exists q, lp, s', w', store', n. split_and!; try done.
  - unfold Tui.turn. rewrite Hd, Hquit, Hev, Hh'. by rewrite Hperf, Hpoll.
  - by apply (decided_row_gone s' (a_trust (tw_api w)) store' _ status n).
  - intros server unix now ip request lw Hdb Hlw Hf. by apply (status_decides server status (rw_fingerprint p)), Hf; auto.
Qed.
End effect.

(** ** Starting a dashboard *)

Section start.
Context `{HashOrder} `{CryptoLaws} `{LowercaseLaws} `{Uuid} `{TonicLaws} (error_text : CoreError → rstring).

Lemma fetch_refused st config e w :
  quiet config e → Forall scalar (dc_api_token config) → Forall scalar (ds_api_token st) →
  dc_api_token config ≠ ds_api_token st →
  fetch_once error_text st config e w =
    (Err (str "daemon status request failed"), mkTui (tw_api w) (tw_calls w ++ [ToDaemon GetStatus])).
Proof.
  intros Hq Hs1 Hs2 Hne. unfold fetch_once. rewrite connect_quiet by done.
  apply SE_bind_Err. destruct Hq as [_ Ho]. unfold call. rewrite Ho. unfold grpc, authorize_metadata.
  destruct (bearer_spec (Value (str "Bearer " ++ dc_api_token config)) (ds_api_token st)) as [[_ Hp]|[[m ->] _]]; [|done| |done].
  - apply Forall_app. split; [|done]. apply (bool_decide_unpack _). by vm_compute.
  - exfalso. apply Hne. unfold presents in Hp. apply (app_inv_head (str "Bearer ")). congruence.
Qed.

(** A dashboard finds its daemon.  Once the daemon has started on a fresh
    disk and made its token, a dashboard started without arguments loads that
    token, is let in, and shows what the daemon says of itself, its pending
    LocalSend peers and its inbox, and no error.  With another token it shows
    an error and nothing of the daemon; before the daemon ever started it
    ends with an error.  Nothing of this changes the daemon. *)
Theorem dashboard_finds_daemon dir name tmp random d :
  let file := dir ++ [name] in
  replaceable (sn_fs (dk_now d)) dir name tmp → with_extension file (str "token.tmp") = dir ++ [tmp] →
  sn_fs (dk_now d) !! file = None → length random = 32%nat → Forall byte_ok random →
  config_from_args (sn_fs (dk_now d)) file [] = Err (str "api token not found") ∧
  ∃ token d' config,
    token_load_or_generate file random d = (Ok token, d') ∧
    config_from_args (sn_fs (dk_now d')) file [] = Ok (Some config) ∧
    ∀ st e w, ds_api_token st = token → endpoint_ok DEFAULT_DAEMON_GRPC = true → ce_up e = true →
      (∀ c api, ce_others e c api = api) → healthy st (tw_api w) →
      (∃ s w', first_state error_text st config e w = (s, w') ∧ tw_api w' = tw_api w ∧
         as_last_error s = None ∧ as_should_quit s = false ∧ shows_daemon st s (tw_api w)) ∧
      ∀ other, other ≠ token → Forall scalar other → metadata_ok (str "Bearer " ++ other) = true →
        ∃ config' w', config_from_args (sn_fs (dk_now d')) file [str "--api-token"; other] = Ok (Some config') ∧
          first_state error_text st config' e w = (set_error default_app (str "daemon status request failed"), w') ∧
          tw_api w' = tw_api w.
Proof.
  intros file Hr Hext Hnone Hlen Hb. subst file. destruct (token_made dir name tmp random d Hr Hext Hnone Hlen Hb)
    as (d' & l & Hrun & _ & Hload & _ & _ & _ & _ & Hno).
  destruct (generated_token random Hlen Hb) as (_ & _ & _ & Hs & Hc).
  split; [unfold config_from_args; cbn [parse_args mbind result_bind]; unfold load_api_token; by rewrite Hno|].
  exists (api_token_generate random), d', (new_config DEFAULT_DAEMON_GRPC (api_token_generate random)).
  split; [exact Hrun|]. split.
  { unfold config_from_args. cbn [parse_args mbind result_bind]. unfold load_api_token. by rewrite Hload. }
  intros st e w Ht Hep Hup Hothers Hh. split.
  - assert (Hq : quiet (new_config DEFAULT_DAEMON_GRPC (api_token_generate random)) e).
    { split; [|done]. unfold can_call. cbn [new_config dc_endpoint dc_api_token]. rewrite Hep, Hup. cbn [andb].
      apply metadata_visible, Forall_app. split; [apply (bool_decide_unpack _); by vm_compute|].
      eapply Forall_impl; [exact Hc|]. intros c. cbn. lia. }
    destruct (fetch_quiet error_text st _ e w Hq Ht Hh) as (s & w' & Hf & Hw & (_ & _ & Hquit & Herr) & Hshow).
    unfold first_state. rewrite Hf. eexists _, w'. split; [done|]. by split_and!.
  - intros other Hne Hso Hm. exists (new_config DEFAULT_DAEMON_GRPC other). eexists. split; [reflexivity|].
    assert (Hq : quiet (new_config DEFAULT_DAEMON_GRPC other) e).
    { split; [|done]. unfold can_call. cbn [new_config dc_endpoint dc_api_token]. by rewrite Hep, Hup, Hm. }
    unfold first_state. rewrite fetch_refused by (try done; by rewrite Ht). done.
Qed.

(** [q] ends the loop at the next turn, unless a poll is due and succeeds in
    the same turn: the fetched state takes the place of the one that was to
    quit. *)
Theorem quit_key_lost st config t s last_poll w :
  tn_draw t = Ok tt → as_should_quit s = false → tn_event t = Ok (Some (Char 113)) →
  ∃ lp s' w', turn error_text st config t s last_poll w = (Running lp, s', w') ∧
    (as_should_quit s' = true ↔
     ¬ (dc_poll_interval config ≤ tn_now t - last_poll ∧ ∃ next, (fetch_once error_text st config (tn_poll t) w).1 = Ok next)).
Proof.
  intros Hd Hq He. unfold turn. rewrite Hd, Hq, He. cbn [handle_key perform]. unfold poll.
  destruct (Z.leb_spec (dc_poll_interval config) (tn_now t - last_poll)) as [Hdue|Hdue].
  - destruct (fetch_once error_text st config (tn_poll t) w) as [[next|error|] w1] eqn:Hf; cbn [fst];
      (eexists _, _, _; split; [reflexivity|]); cbn.
    + apply fetch_fresh in Hf as (_ & _ & Hnq & _). rewrite Hnq. split; [done|]. intros Hno. destruct Hno. eauto.
    + split; [|done]. intros _ (_ & ? & ?). done.
    + split; [|done]. intros _ (_ & ? & ?). done.
  - eexists _, _, _. split; [reflexivity|]. split; [|done]. cbn. intros _ [? _]. lia.
Qed.
End start.
