(* ===== verification/TuiDraw.v ===== *)
(** * What the terminal dashboard draws

    Model of crates/tui/src/ui.rs and theme.rs: the widgets of a frame as
    values, with the texts and styles they are made of.  Laying areas out and
    putting widgets on the screen is ratatui's: the split of an area is a
    parameter, and a frame is the list of widgets with their areas. *)

From stdpp Require Import prelude gmap strings.
From Stdlib Require Import ZArith Lia.
From S2P Require Import Prelude RustStr Errors Fs Config DaemonApi Tui.

Local Open Scope Z_scope.

(** ** Numbers as text (theme.rs) *)

(** The nearest [f64] of a [u64], ties to even. *)
Definition round_half_even (a b : Z) : Z :=
  let q := a / b in
  let r := a mod b in
  if (2 * r <? b) || ((2 * r =? b) && Z.even q) then q else q + 1.
Definition as_f64 (n : Z) : Z :=
  if n <? 2 ^ 53 then n else let s := Z.log2 n - 52 in round_half_even n (2 ^ s) * 2 ^ s.

Definition UNITS : list string := ["B"; "KB"; "MB"; "GB"; "TB"]%string.
(** The loop: [value] is the dividend of what the code holds, [1024 ^ unit] its
    divisor; dividing an [f64] by 1024 is exact. *)
Fixpoint human_loop (fuel : nat) (value : Z) (unit : nat) : nat :=
  match fuel with
  | O => unit
  | S fuel =>
    if (1024 * 1024 ^ Z.of_nat unit <=? value) && (unit <? length UNITS - 1)%nat then human_loop fuel value (S unit) else unit
  end.
Definition human_bytes (n : Z) : rstring :=
  if n <? 1024 then show_dec n ++ str " B"
  else
    let value := as_f64 n in
    let unit := human_loop 4 value 0 in
    let tenths := round_half_even (value * 10) (1024 ^ Z.of_nat unit) in
    show_dec (tenths / 10) ++ [46] ++ show_dec (tenths mod 10) ++ [32] ++ str (nth unit UNITS ""%string).

(** A full block is 9608, a light shade 9617. *)
Definition filled (done total width : Z) : Z := if total =? 0 then 0 else Z.min (done * width / total) width.
Definition progress_bar (done total width : Z) : rstring :=
  let filled := filled done total width in
  replicate (Z.to_nat filled) 9608 ++ replicate (Z.to_nat (Z.max 0 (width - filled))) 9617.
Definition percent (done total : Z) : Z := if total =? 0 then 0 else Z.min (done * 100 / total) 100.

(** ** Styles *)

Inductive Color := Rgb (r g b : Z).
Definition TEAL := Rgb 94 197 181.
Definition BORDER := Rgb 51 75 69.
Definition MOON := Rgb 231 239 233.
Definition MUTED := Rgb 143 166 156.
Definition RED := Rgb 224 86 79.
Definition GOLD := Rgb 244 199 102.
Definition BLUE := Rgb 134 191 244.
Definition GREEN := Rgb 111 224 168.

Record Style := mkStyle { st_fg : option Color; st_bold : bool }.
Definition fg (c : Color) : Style := mkStyle (Some c) false.
Definition bold (c : Color) : Style := mkStyle (Some c) true.
Definition plain_style : Style := mkStyle None false.

Record Span := mkSpan { sp_text : rstring; sp_style : Style }.
Definition raw (text : rstring) : Span := mkSpan text plain_style.
Abbreviation Line := (list Span).
Abbreviation ListItem := (list Line).

Inductive Alignment := AlignLeft | AlignRight.
(** Rounded borders on all sides, with their style and the titles. *)
Record Block := mkBlock { bk_border_style : Style; bk_titles : list (Alignment * Line) }.

Inductive Widget :=
| Tabs (titles : list rstring) (select : nat) (block : Block) (style highlight_style : Style) (divider : Span)
| Paragraph (lines : list Line) (block : Block) (trim : bool)
| ListWidget (items : list ListItem) (block : Block) (highlight_style : option Style).

Definition panel (title : string) (focused : bool) : Block :=
  let edge := if focused then TEAL else BORDER in
  let title_color := if focused then TEAL else MUTED in
  mkBlock (fg edge) [(AlignLeft, [mkSpan (str " " ++ str title ++ str " ") (bold title_color)])].
Definition key (text : string) : Span := mkSpan (str text) (bold TEAL).

(** ** Screens (ui.rs) *)

(** The transfers a state may hold. *)
Record Transfer := mkTransfer {
  tf_transfer_id : rstring; tf_peer_fingerprint : rstring; tf_direction : rstring; tf_state : rstring;
  tf_bytes_done : Z; tf_bytes_total : Z }.

Definition title (tab : Tab) : string :=
  match tab with
  | Dashboard => "Dashboard" | LocalSend => "LocalSend" | Transfers => "Transfers" | Inbox => "Inbox"
  end%string.

Definition em_dash : rstring := [8212].
Definition or_dash (s : option rstring) : rstring := default em_dash s.
Definition marker_text : rstring := [9612; 32].

(** [{:<width$}] and [{:>width$}], in characters. *)
Definition pad_right (width : nat) (s : rstring) : rstring := s ++ replicate (width - length s) 32.
Definition pad_left (width : nat) (s : rstring) : rstring := replicate (width - length s) 32 ++ s.

Definition kv (label : string) (value : rstring) : Line :=
  [mkSpan (pad_right 15 (str label ++ [58])) (bold TEAL); mkSpan value (fg MOON)].

Section screens.
(** The text of a path; the version and the transfers are the part of
    the application's state that Tui.v leaves out. *)
Context (display : path → rstring) (version : option rstring) (active_transfers : list Transfer).

Definition header (state : AppState) : Widget :=
  let titles := str ∘ title <$> ALL in
  let selected := default 0%nat (fst <$> list_find (λ tab, tab = as_selected_tab state) ALL) in
  let status := match as_last_error state with
                | None => mkSpan ([9679] ++ str " online") (fg TEAL)
                | Some _ => mkSpan ([9679] ++ str " issue") (fg RED)
                end in
  let block := mkBlock (fg BORDER)
    [(AlignLeft, [mkSpan [9612] (fg RED); mkSpan (str " NightBridge") (bold TEAL)]); (AlignRight, [status])] in
  Tabs titles selected block (fg MUTED) (bold TEAL) (mkSpan [183] (fg BORDER)).

Definition status_panel (state : AppState) : Widget :=
  let port p := match p with Some p => show_dec p | None => em_dash end in
  let ls := port (as_localsend_port state) in
  let last :=
    if as_advanced state
    then [raw (str "ports: LocalSend=" ++ ls ++ str " native=" ++ port (as_native_port state))]
    else kv "LocalSend port" ls in
  Paragraph
    [kv "alias" (or_dash (as_alias state)); kv "fingerprint" (or_dash (as_fingerprint state)); kv "version" (or_dash version);
     kv "inbox" (or_dash (display <$> as_inbox_dir state)); last]
    (panel "Daemon" (bool_decide (as_selected_tab state = Dashboard))) true.

Definition help (state : AppState) : Widget :=
  let sep := mkSpan (str "  " ++ [183] ++ str "  ") (fg BORDER) in
  let muted text := mkSpan (str text) (fg MUTED) in
  let line :=
    match as_last_error state with
    | Some error => [mkSpan ([9888] ++ str " ") (fg RED); mkSpan error (fg RED)]
    | None =>
      [key "Tab/Shift+Tab"; muted " tabs"; sep; key "j/k"; muted " move"; sep;
       mkSpan (str "a") (bold GREEN); muted " approve"; sep; mkSpan (str "d") (bold RED); muted " deny"; sep;
       key "q"; muted " quit"]
    end in
  Paragraph [line] (panel "Help" false) true.

Definition badge_color (status : rstring) : Color :=
  if bool_decide (status = str "pending") then GOLD
  else if bool_decide (status = str "approved") then GREEN
  else if bool_decide (status = str "denied" ∨ status = str "blocked") then RED
  else MUTED.

Definition peer_item (selected : bool) (peer : PeerRow) : ListItem :=
  let marker := if selected then mkSpan marker_text (fg TEAL) else raw (str "  ") in
  [[marker; mkSpan (rw_alias peer) (bold MOON); raw (str " ");
    mkSpan ([91] ++ rw_status peer ++ [93]) (bold (badge_color (rw_status peer)));
    mkSpan (str "  " ++ [215] ++ show_dec (rw_attempt_count peer) ++ str "  " ++ or_dash (rw_source_ip peer)) (fg MUTED)]].
Definition placeholder (text : string) : ListItem := [[mkSpan ([8212; 32] ++ str text ++ [32; 8212]) (fg MUTED)]].

Definition localsend_peer_list_widget (state : AppState) : Widget :=
  let focused := bool_decide (as_selected_tab state = LocalSend) in
  let items :=
    match as_pending_localsend_peers state with
    | [] => [placeholder "no pending LocalSend peers"]
    | peers => imap (λ index peer, peer_item (bool_decide (index = as_selected_localsend_peer state)) peer) peers
    end in
  ListWidget items (panel "LocalSend approvals" focused) (Some (bold TEAL)).

Definition transfer_color (state : rstring) : Color :=
  if bool_decide (state = str "active") then GREEN
  else if bool_decide (state = str "failed" ∨ state = str "interrupted") then RED
  else if bool_decide (state = str "completed") then BLUE
  else MUTED.
Definition transfer_item (transfer : Transfer) : ListItem :=
  let color := transfer_color (tf_state transfer) in
  let pct := percent (tf_bytes_done transfer) (tf_bytes_total transfer) in
  let bar := progress_bar (tf_bytes_done transfer) (tf_bytes_total transfer) 12 in
  [[mkSpan (tf_transfer_id transfer) (bold MOON); mkSpan (str "  " ++ tf_direction transfer) (fg MUTED)];
   [mkSpan bar (fg color); mkSpan ([32] ++ pad_left 3 (show_dec pct) ++ str "%  ") (fg color);
    mkSpan (human_bytes (tf_bytes_done transfer) ++ str " / " ++ human_bytes (tf_bytes_total transfer)) (fg MUTED)]].
Definition transfer_list (state : AppState) : Widget :=
  let focused := bool_decide (as_selected_tab state = Transfers) in
  let items := match active_transfers with [] => [placeholder "no active transfers"] | ts => transfer_item <$> ts end in
  ListWidget items (panel "Transfers" focused) None.

Definition inbox_item (entry : InboxEntry) : ListItem :=
  [[mkSpan ([8250] ++ str " ") (fg TEAL); mkSpan (ie_file_name entry) (fg MOON);
    mkSpan (str "  " ++ human_bytes (ie_size entry)) (fg MUTED)]].
Definition inbox_list (state : AppState) : Widget :=
  let focused := bool_decide (as_selected_tab state = Inbox) in
  let items := match as_inbox_entries state with [] => [placeholder "inbox empty"] | es => inbox_item <$> es end in
  ListWidget items (panel "Inbox" focused) None.

(** ** A frame *)

Inductive Direction := Vertical | Horizontal.
Inductive Constraint := Length (n : Z) | Min (n : Z) | Percentage (n : Z).
Context {Rect : Type} (split : Direction → list Constraint → Rect → list Rect).

(** [chunks[i]] panics out of range. *)
Definition area {A} (chunks : list A) (i : nat) : result Empty_set A :=
  match chunks !! i with Some a => Ok a | None => Panic end.

Definition render (size : Rect) (state : AppState) : result Empty_set (list (Rect * Widget)) :=
  let chunks := split Vertical [Length 3; Length 7; Min 10; Length 3] size in
  top ← area chunks 0;
  status ← area chunks 1;
  middle ← area chunks 2;
  let columns := split Horizontal [Percentage 34; Percentage 33; Percentage 33] middle in
  left ← area columns 0;
  centre ← area columns 1;
  right ← area columns 2;
  bottom ← area chunks 3;
  Ok [(top, header state); (status, status_panel state); (left, localsend_peer_list_widget state);
      (centre, transfer_list state); (right, inbox_list state); (bottom, help state)].
End screens.

(** ** Transfers as the client receives them (client.rs) *)

(** The numbers of the .proto file; an unknown one counts as unspecified. *)
Definition transfer_direction (direction : Z) : rstring :=
  str (if direction =? 1 then "send" else if direction =? 2 then "receive" else "unspecified").
Definition transfer_state (state : Z) : rstring :=
  str (if state =? 1 then "pending" else if state =? 2 then "active" else if state =? 3 then "interrupted"
       else if state =? 4 then "completed" else if state =? 5 then "cancelled" else if state =? 6 then "failed"
       else "unspecified").

(** ** The terminal (main.rs) *)

Record Terminal := mkTerminal { tm_raw_mode : bool; tm_alternate_screen : bool; tm_cursor_shown : bool }.
Definition usual_terminal : Terminal := mkTerminal false false true.

(** [TerminalSession::enter]: whether raw mode, the alternate screen and the
    terminal of ratatui can be had. *)
Definition enter (raw_mode alternate_screen backend : bool) : SE Terminal string unit :=
  _ ← lift (ensure raw_mode "enabling terminal raw mode"%string);
  _ ← modify (λ t, mkTerminal true (tm_alternate_screen t) (tm_cursor_shown t));
  _ ← lift (ensure alternate_screen "entering alternate screen"%string);
  _ ← modify (λ t, mkTerminal (tm_raw_mode t) true (tm_cursor_shown t));
  lift (ensure backend "creating terminal"%string).
(** [Drop]: every step is tried, whatever became of the others. *)
Definition leave (raw_mode alternate_screen cursor : bool) (t : Terminal) : Terminal :=
  mkTerminal (if raw_mode then false else tm_raw_mode t) (if alternate_screen then false else tm_alternate_screen t)
    (if cursor then true else tm_cursor_shown t).

(** ** Correctness *)

(** A progress bar has its width, filled in proportion, and a percentage is
    one; the products fit 128 bits. *)
Theorem progress_bounds done total width :
  u64_ok done → u64_ok total → u64_ok width →
  done * width < 2 ^ 128 ∧ done * 100 < 2 ^ 128 ∧
  Z.of_nat (length (progress_bar done total width)) = width ∧
  0 ≤ percent done total ≤ 100 ∧ (total ≠ 0 → percent done total = 100 ↔ total ≤ done).
Proof.
  unfold u64_ok. intros Hd Ht Hw. split; [nia|]. split; [nia|].
  assert (Hf : 0 ≤ filled done total width ≤ width).
  { unfold filled. destruct (Z.eqb_spec total 0); [lia|]. pose proof (Z.div_pos (done * width) total ltac:(nia) ltac:(lia)). lia. }
  split_and!.
  - unfold progress_bar. rewrite length_app, !length_replicate. lia.
  - unfold percent. destruct (Z.eqb_spec total 0); [lia|]. pose proof (Z.div_pos (done * 100) total ltac:(nia) ltac:(lia)). lia.
  - unfold percent. destruct (Z.eqb_spec total 0); [lia|]. pose proof (Z.div_pos (done * 100) total ltac:(nia) ltac:(lia)). lia.
  - intros Hne. unfold percent. destruct (Z.eqb_spec total 0); [done|]. rewrite Z.min_r_iff.
    split; intros H; [|apply Z.div_le_lower_bound; lia]. assert (total * 100 ≤ done * 100); [|lia].
    etrans; [|apply (Z.mul_div_le (done * 100) total); lia]. nia.
Qed.

(** The loop of [human_bytes] ends with a value below 1024, or in the last unit. *)
Lemma human_loop_ends value unit fuel :
  (length UNITS - 1 <= unit + fuel)%nat → (unit <= length UNITS - 1)%nat →
  let u := human_loop fuel value unit in
  (u <= length UNITS - 1)%nat ∧ (value < 1024 * 1024 ^ Z.of_nat u ∨ u = (length UNITS - 1)%nat).
Proof.
  revert unit. induction fuel as [|fuel IH]; intros unit Hf Hu; cbn [human_loop]; [split; [done|right; lia]|].
  destruct (Z.leb_spec (1024 * 1024 ^ Z.of_nat unit) value); cbn [andb]; [|split; [done|by left]].
  destruct (Nat.ltb_spec unit (length UNITS - 1)); [apply IH; lia|split; [done|right; lia]].
Qed.

(** An item that carries the marker. *)
Definition is_marked (item : ListItem) : Prop :=
  match item with (s :: _) :: _ => sp_text s = marker_text | _ => False end.
#[export] Instance is_marked_dec item : Decision (is_marked item).
Proof. destruct item as [|[|s l] r]; cbn; apply _. Defined.

Lemma marked_items peers selected :
  filter is_marked (imap (λ index peer, peer_item (bool_decide (index = selected)) peer) peers) =
  peer_item true <$> option_list (peers !! selected).
Proof.
  revert selected. induction peers as [|p peers IH]; intros selected; [done|]. rewrite imap_cons, filter_cons. unfold compose.
  destruct selected as [|selected].
  - rewrite bool_decide_true, decide_True by done. cbn [lookup list_lookup option_list fmap list_fmap]. f_equal.
    rewrite (imap_ext _ (λ _ peer, peer_item false peer)); [|intros i x _; by rewrite bool_decide_false].
    clear IH. induction peers as [|q peers IH]; [done|]. rewrite imap_cons, filter_cons, decide_False; [apply IH|]. by intros [=].
  - rewrite bool_decide_false, decide_False by (first [done|by intros [=]]). cbn [lookup list_lookup].
    rewrite <-IH. f_equal. apply imap_ext. intros i x _. f_equal. by apply bool_decide_ext; split; intros; [lia|lia].
Qed.

(** A panel that shows it has the focus. *)
Definition block_of (w : Widget) : Block :=
  match w with Tabs _ _ b _ _ _ => b | Paragraph _ b _ => b | ListWidget _ b _ => b end.
#[export] Instance Color_eq_dec : EqDecision Color.
Proof. solve_decision. Defined.
#[export] Instance Style_eq_dec : EqDecision Style.
Proof. solve_decision. Defined.
Definition focused (w : Widget) : Prop := bk_border_style (block_of w) = fg TEAL.
#[export] Instance focused_dec w : Decision (focused w).
Proof. unfold focused. apply _. Defined.

Section frames.
Context (display : path → rstring) (version : option rstring) (active_transfers : list Transfer).
Context {Rect : Type} (split : TuiDraw.Direction → list Constraint → Rect → list Rect).
Hypothesis split_length : ∀ dir constraints size, length (split dir constraints size) = length constraints.

(** Drawing a frame never fails; one panel has the focus, the selected tab is
    the one that is highlighted, and in the list of approvals the row that
    carries the marker is the one the keys act on, and no other. *)
Theorem frame_marks_what_keys_act_on size state :
  ∃ frame items block highlight r1 r2 titles b s1 s2 d,
    render display version active_transfers split size state = Ok frame ∧
    (r1, ListWidget items block highlight) ∈ frame ∧
    filter is_marked items = peer_item true <$> option_list (selected_localsend_peer state) ∧
    (as_pending_localsend_peers state ≠ [] → length items = length (as_pending_localsend_peers state)) ∧
    (r2, Tabs titles (tab_position state) b s1 s2 d) ∈ frame ∧
    titles !! tab_position state = Some (str (title (as_selected_tab state))) ∧
    length (filter (λ w, focused w.2) frame) = 1%nat.
Proof.
  unfold render. pose proof (split_length Vertical [Length 3; Length 7; Min 10; Length 3] size) as Hv.
  destruct (split Vertical _ size) as [|top [|status [|middle [|bottom [|]]]]]; try done.
  cbn [area lookup list_lookup mbind result_bind].
  pose proof (split_length Horizontal [Percentage 34; Percentage 33; Percentage 33] middle) as Hh.
  destruct (split Horizontal _ middle) as [|left [|centre [|right [|]]]]; try done.
  cbn [area lookup list_lookup mbind result_bind].
  do 11 eexists. split; [reflexivity|]. split; [right; right; left|].
  split_and!.
  - unfold selected_localsend_peer. destruct (as_pending_localsend_peers state) as [|p peers]; [done|]. apply marked_items.
  - intros Hne. destruct (as_pending_localsend_peers state) as [|p peers]; [done|]. by rewrite length_imap.
  - left.
  - unfold tab_position. by destruct (as_selected_tab state).
  - unfold header, status_panel, localsend_peer_list_widget, transfer_list, inbox_list, help.
    rewrite !filter_cons. unfold focused. cbn [snd block_of panel bk_border_style].
    by destruct (as_selected_tab state).
Qed.
End frames.

(** A session that was entered is left as the terminal was; one that could
    not be entered has not been left, and the terminal stays in raw mode. *)
Lemma session_restores raw alternate backend t' :
  enter raw alternate backend usual_terminal = (Ok tt, t') → leave true true true t' = usual_terminal.
Proof. by destruct raw, alternate, backend; intros [= <-]. Qed.
Example session_leaks : tm_raw_mode (enter true false true usual_terminal).2 = true.
Proof. reflexivity. Qed.
