(* ===== verification/Cli.v ===== *)
(** * The command line

    Model of crates/cli: the client of the daemon (daemon_client.rs) and the
    commands of main.rs and cmd/: send.rs, peers.rs, identity.rs,
    transfers.rs, over the gRPC services of DaemonHttp.v and the vault of
    Vault.v.

    The world of a command is the daemon with the calls made to it, the disk
    with the identity and the token, the transfers the command starts by
    itself, and the lines it prints.  What it meets is its environment
    [CliEnv]: whether a runtime and an HTTP client can be made, the daemon,
    the datagrams heard, the rendezvous server, how its own transfers end
    (NativeNet.v and LocalClient.v are about these), and the bytes of a fresh
    key.  The command is what clap makes of the arguments; the paths in it are
    text.  An error of [anyhow] is its outermost text, without the values
    rendered into it. *)

From stdpp Require Import prelude gmap strings.
From Stdlib Require Import ZArith Lia.
From S2P Require Import Prelude RustStr Errors Fs Transfer Inet Text Identity TrustStore Candidates NativeNet NativeLan Rendezvous Wan LocalSession LocalDiscovery Tui Config DaemonApi DaemonHttp Vault.

Local Open Scope Z_scope.

(** ** Messages (api/peers.rs of the daemon) *)

Record LanPeerMessage := mkLanMessage {
  nm_alias : rstring; nm_address : rstring; nm_port : Z; nm_protocol : Z; nm_fingerprint : option rstring;
  nm_device_model : option rstring; nm_device_type : option rstring; nm_download : bool;
  nm_extensions : list rstring; nm_native_pubkey : bytes; nm_native_certificate_fingerprint : option rstring }.

Definition localsend_lan_peer (peer : LocalSendLanPeer) : LanPeerMessage :=
  mkLanMessage (lan_alias peer) (lan_source_ip peer) (lan_port peer) 1 (Some (lan_fingerprint peer))
    (lan_device_model peer) (lan_device_type peer) (lan_download peer) [] [] None.
Definition native_lan_peer (peer : NativeLanPeer) : LanPeerMessage :=
  mkLanMessage (nl_alias peer) (show_ip (nl_address peer)) (nl_port peer) 2 (Some (nl_fingerprint peer))
    None (Some (str "server")) true (nl_extensions peer) (nl_pubkey peer) (nl_native_certificate_fingerprint peer).

(** The fields of an active transfer that are printed. *)
Record ActiveTransferMessage := mkActive {
  am_transfer_id : rstring; am_peer_fingerprint : rstring; am_direction : Z; am_state : Z;
  am_bytes_total : Z; am_bytes_done : Z }.

Definition lan_peers_of (r : Reply) : list LanPeerMessage :=
  match r with
  | LanPeers peers => localsend_lan_peer <$> peers
  | NativePeers peers => native_lan_peer <$> peers
  | _ => []
  end.
Definition trusted_peer_of (r : Reply) : option TrustedPeerMessage :=
  match r with TrustedPeerReply peer => Some (trusted_peer peer) | _ => None end.
Definition localsend_peer_of (r : Reply) : option LocalSendPeerMessage :=
  match r with LocalSendPeerReply peer => Some (localsend_peer peer) | _ => None end.
Definition transfer_id_of (r : Reply) : rstring := match r with Sent transfer_id => transfer_id | _ => [] end.
(** The daemon's list of active transfers is empty. *)
Definition active_transfers_of (r : Reply) : list ActiveTransferMessage := [].

(** ** Commands *)

Record SendCmd := mkSend {
  sc_url : option rstring; sc_wan : bool; sc_peer : option rstring; sc_native : bool;
  sc_native_cert_fingerprint : option rstring; sc_direct : bool; sc_paths : list rstring }.

(** [required_unless_present_any] and [required]: clap refuses the others. *)
Definition send_accepted (command : SendCmd) : bool :=
  (bool_decide (is_Some (sc_url command)) || sc_native command || sc_wan command
   || bool_decide (is_Some (sc_peer command))) && negb (bool_decide (sc_paths command = [])).

Inductive PeersCmd :=
| List_
| ListLan_ (timeout_ms : Z)
| ListNative (timeout_ms : Z)
| ApproveNative (peer : rstring) (label : option rstring) (timeout_ms : Z)
| LookupWan (target rendezvous : rstring)
| PendingLocalSend
| ApproveLocalSend_ (fingerprint : rstring) (label : option rstring)
| DenyLocalSend_ (fingerprint : rstring).
Inductive IdentityCmd := Show_ | Rotate (yes : bool).
Inductive TransfersCmd := ListActive_ | Resume_ (transfer_id : rstring).
Inductive Command :=
| DaemonStatus | IdentityCommand (command : IdentityCmd) | PeersCommand (command : PeersCmd)
| SendCommand (command : SendCmd) | TransfersCommand (command : TransfersCmd).

(** ** The world *)

(** A transfer made by the command itself. *)
Inductive DirectSend :=
| DirectLocalSend (url : rstring) (paths : list path) (sender : DeviceInfo)
| DirectNative (url : rstring) (paths : list path) (keypair : bytes) (expected_certificate_fingerprint : rstring).

(** A printed line; a path is not rendered. *)
Inductive Line := Text_ (line : rstring) | WithPath (label : rstring) (p : path).

Record CliEnv := mkCliEnv {
  le_runtime : bool; le_client : bool; le_daemon : ClientEnv;
  le_listen : result LocalSendError (list (bytes * SocketAddr));
  le_rendezvous : SocketAddr → option (LookupRequest → result rstring LookupResponse);
  le_direct : DirectSend → option rstring (* an error of the transfer *);
  le_generated : bytes;
  le_version : rstring (* of the daemon, in its status *) }.

Record CliWorld := mkCli {
  cw_daemon : TuiWorld; cw_disk : Disk; cw_sent : list DirectSend; cw_out : list Line }.

Abbreviation CM := (SE CliWorld rstring).

Definition on_daemon {A} (m : TM A) : CM A := λ w,
  let '(r, d) := m (cw_daemon w) in (r, mkCli d (cw_disk w) (cw_sent w) (cw_out w)).
Definition on_disk {E A} (to_text : E → rstring) (m : SE Disk E A) : CM A := λ w,
  let '(r, d) := m (cw_disk w) in (map_err to_text r, mkCli (cw_daemon w) d (cw_sent w) (cw_out w)).
Definition println (line : Line) : CM unit :=
  modify (λ w, mkCli (cw_daemon w) (cw_disk w) (cw_sent w) (cw_out w ++ [line])).
Fixpoint print_all {A} (print : A → CM unit) (l : list A) : CM unit :=
  match l with [] => mret tt | a :: l => _ ← print a; print_all print l end.

(** A transfer started by the command. *)
Definition transfer (env : CliEnv) (d : DirectSend) : CM unit := λ w,
  (match le_direct env d with Some error => Err error | None => Ok tt end,
   mkCli (cw_daemon w) (cw_disk w) (cw_sent w ++ [d]) (cw_out w)).

(** [.context(message)] *)
Definition with_context {A} (message : string) (m : CM A) : CM A := λ w, (map_err (λ _, str message) (m w).1, (m w).2).

(** Building the runtime the rest of a command runs on. *)
Definition runtime (env : CliEnv) (message : string) : CM unit :=
  if le_runtime env then mret tt else fail (str message).

(** [{:<width$}] and [{:>width$}], and the cells of a row. *)
Definition pad_right (width : nat) (s : rstring) : rstring := s ++ replicate (width - length s) 32.
Definition pad_left (width : nat) (s : rstring) : rstring := replicate (width - length s) 32 ++ s.
Definition cells (l : list (nat * rstring)) : Line := Text_ (join [32] ((λ '(width, s), pad_right width s) <$> l)).
Definition show_i64 (n : Z) : rstring := if n <? 0 then 45 :: show_dec (- n) else show_dec n.

(** ** The daemon's client (daemon_client.rs) *)

Record DaemonClientConfig := mkClientConfig { cc_endpoint : rstring; cc_api_token : option rstring }.

(** The files of [lsi_core::paths]. *)
Record CliPaths := mkCliPaths { cp_identity_file : path; cp_api_token_file : path }.

Section cli.
Context `{HashOrder} `{CryptoSuite} `{Lowercase} `{Uuid} `{Tonic} `{AnnouncementJson} (error_text : CoreError → rstring) (st : DaemonState).
Context (config : DaemonClientConfig) (files : CliPaths) (env : CliEnv).

Definition load_api_token : CM rstring := λ w,
  (match cc_api_token config with
   | Some token => Ok token
   | None =>
     o ← map_err (λ _, str "loading api token") (token_load (sn_fs (dk_now (cw_disk w))) (cp_api_token_file files));
     ok_or o (str "api token not found")
   end, w).

Definition channel : CM unit :=
  if negb (endpoint_ok (cc_endpoint config)) then fail (str "invalid daemon gRPC endpoint")
  else if ce_up (le_daemon env) then mret tt
  else fail (str "daemon API unavailable").

(** [BearerTokenInterceptor::new] *)
Definition interceptor : CM rstring :=
  token ← load_api_token;
  let value := str "Bearer " ++ token in
  if metadata_ok value then mret value else fail (str "api token cannot be used as metadata").

(** [connect], [peers_client] and [transfers_client] *)
Definition connect : CM rstring :=
  metadata ← interceptor;
  _ ← channel;
  mret metadata.

Definition request (c : GrpcCall) (context : string) : CM Reply :=
  metadata ← connect;
  on_daemon (call error_text st (le_daemon env) metadata c context).

Definition get_status : CM Reply := request (ToDaemon GetStatus) "daemon status request failed".
Definition list_trusted_peers : CM (list TrustedPeerMessage) :=
  r ← request (ToPeers GListTrusted) "trusted peers request failed"; mret (trusted_peers_of r).
Definition list_lan_peers : CM (list LanPeerMessage) :=
  r ← request (ToPeers GListLan) "LAN peers request failed"; mret (lan_peers_of r).
Definition list_native_lan_peers (timeout_ms : Z) : CM (list LanPeerMessage) :=
  r ← request (ToPeers (GListNativeLan timeout_ms)) "native LAN peers request failed"; mret (lan_peers_of r).
Definition trust_native_lan_peer (peer : rstring) (label : option rstring) (timeout_ms : Z) : CM TrustedPeerMessage :=
  r ← request (ToPeers (GTrustNativeLan peer label 1 timeout_ms)) "trust native LAN peer request failed";
  lift (ok_or (trusted_peer_of r) (str "daemon returned no trusted peer")).
Definition list_pending_localsend_peers : CM (list LocalSendPeerMessage) :=
  r ← request (ToPeers GListPending) "pending LocalSend peers request failed"; mret (localsend_peers_of r).
Definition approve_localsend_peer (fingerprint : rstring) (label : option rstring) : CM LocalSendPeerMessage :=
  r ← request (ToPeers (GApprove fingerprint label)) "approve LocalSend peer request failed";
  lift (ok_or (localsend_peer_of r) (str "daemon returned no LocalSend peer")).
Definition deny_localsend_peer (fingerprint : rstring) : CM LocalSendPeerMessage :=
  r ← request (ToPeers (GDeny fingerprint)) "deny LocalSend peer request failed";
  lift (ok_or (localsend_peer_of r) (str "daemon returned no LocalSend peer")).
Definition list_active_transfers : CM (list ActiveTransferMessage) :=
  r ← request (ToTransfers GListActive) "active transfers request failed"; mret (active_transfers_of r).
Definition resume_transfer (transfer_id : rstring) : CM Reply :=
  request (ToTransfers (GResume transfer_id)) "resume transfer request failed".
Definition send_files (r : SendRequest) : CM rstring :=
  r ← request (ToTransfers (GSend r)) "send request failed"; mret (transfer_id_of r).

(** ** Sending (cmd/send.rs) *)

(** The vault's own errors keep their text; one of saving is wrapped. *)
Definition load_or_create_keypair : CM bytes :=
  t ← gets (λ w, sn_fs (dk_now (cw_disk w)));
  o ← lift (map_err error_text (fsvault_load t (cp_identity_file files)));
  match o with
  | Some keypair => mret keypair
  | None =>
    _ ← on_disk (λ _, str "saving fresh identity") (fsvault_save (cp_identity_file files) (le_generated env));
    mret (le_generated env)
  end.

Definition sender_info : CM DeviceInfo :=
  keypair ← load_or_create_keypair;
  let fingerprint := show_fingerprint (from_pubkey (public_bytes keypair)) in
  mret (mkDeviceInfo (str "night-bridge") (str "2.0") None (Some (str "desktop")) fingerprint 0 (str "https") false).

Definition sent_line (file_count : nat) : Line :=
  Text_ (str "sent " ++ show_dec (Z.of_nat file_count) ++ str " file(s)").

Definition run_native (command : SendCmd) : CM unit :=
  url ← lift (ok_or (sc_url command) (str "native send requires --url until peer selection is available"));
  expected ← lift (ok_or (sc_native_cert_fingerprint command)
                     (str "direct native send requires --native-cert-fingerprint"));
  _ ← runtime env "creating async runtime";
  keypair ← load_or_create_keypair;
  let file_count := length (sc_paths command) in
  _ ← transfer env (DirectNative url (path_from <$> sc_paths command) keypair expected);
  println (sent_line file_count).

Definition run_direct (command : SendCmd) : CM unit :=
  if sc_wan command then fail (str "WAN send is only available through the daemon API")
  else if sc_native command then run_native command
  else
    _ ← lift (ensure (negb (bool_decide (is_Some (sc_native_cert_fingerprint command))))
                (str "--native-cert-fingerprint is only supported with --direct --native"));
    url ← lift (ok_or (sc_url command) (str "send requires --url"));
    _ ← runtime env "creating async runtime";
    sender ← sender_info;
    let file_count := length (sc_paths command) in
    _ ← (if le_client env then mret tt else fail (str "creating LocalSend client"));
    _ ← with_context "sending files" (transfer env (DirectLocalSend url (path_from <$> sc_paths command) sender));
    println (sent_line file_count).

Definition send_via_daemon (r : SendRequest) : CM unit :=
  _ ← runtime env "creating async runtime";
  transfer_id ← send_files r;
  println (Text_ (str "transfer: " ++ transfer_id)).

Definition run_daemon (command : SendCmd) : CM unit :=
  if sc_wan command then
    _ ← lift (ensure (negb (bool_decide (is_Some (sc_url command)))) (str "--wan cannot be used with --url"));
    peer ← lift (ok_or (sc_peer command) (str "--wan requires --peer"));
    send_via_daemon (mkSendRequest (sc_paths command) (Some (WanPeer peer)) true)
  else
    _ ← lift (ensure (negb (bool_decide (is_Some (sc_native_cert_fingerprint command))))
                (str "--native-cert-fingerprint is only supported with --direct --native"));
    match sc_peer command with
    | Some peer =>
      _ ← lift (ensure (negb (bool_decide (is_Some (sc_url command)))) (str "--peer cannot be used with --url"));
      send_via_daemon (mkSendRequest (sc_paths command) (Some (PeerFingerprint peer)) (sc_native command))
    | None =>
      url ← lift (ok_or (sc_url command)
                    (if sc_native command then str "native send requires --url or --peer"
                     else str "send requires --url or --peer"));
      let target := if sc_native command then NativeUrl url else LocalsendUrl url in
      send_via_daemon (mkSendRequest (sc_paths command) (Some target) (sc_native command))
    end.

Definition run_send (command : SendCmd) : CM unit :=
  if sc_direct command then run_direct command else run_daemon command.

(** ** The identity (cmd/identity.rs) *)

Definition show : CM unit :=
  t ← gets (λ w, sn_fs (dk_now (cw_disk w)));
  o ← lift (map_err error_text (fsvault_load t (cp_identity_file files)));
  keypair ← match o with
            | Some keypair => mret keypair
            | None =>
              _ ← on_disk (λ _, str "saving fresh identity") (fsvault_save (cp_identity_file files) (le_generated env));
              mret (le_generated env)
            end;
  _ ← println (Text_ (str "fingerprint: " ++ show_fingerprint (from_pubkey (public_bytes keypair))));
  _ ← println (Text_ (str "pubkey-hex:  " ++ hex_encode (public_bytes keypair)));
  println (WithPath (str "path:        ") (cp_identity_file files)).

(** Without [--yes], only a warning goes to the standard error. *)
Definition rotate (yes : bool) : CM unit :=
  if negb yes then mret tt
  else
    let keypair := le_generated env in
    _ ← on_disk (λ _, str "saving new identity") (fsvault_save (cp_identity_file files) keypair);
    println (Text_ (str "new fingerprint: " ++ show_fingerprint (from_pubkey (public_bytes keypair)))).

Definition run_identity (command : IdentityCmd) : CM unit :=
  match command with Show_ => show | Rotate yes => rotate yes end.

(** ** Peers (cmd/peers.rs) *)

Definition print_trusted_peer (peer : TrustedPeerMessage) : CM unit :=
  let fingerprint := default (str "-") (tm_fingerprint peer) in
  let policy := peer_policy (tm_policy peer) in
  let last_seen := default (str "-") (show_i64 <$> tm_last_seen_unix_seconds peer) in
  println (cells [(22%nat, fingerprint); (24%nat, tm_label peer); (11%nat, policy); (19%nat, last_seen)]).

Definition peers_list : CM unit :=
  _ ← runtime env "creating async runtime";
  peers ← list_trusted_peers;
  match peers with
  | [] => println (Text_ (str "no trusted peers (run `pair` to add some; Sprint 2)"))
  | _ =>
    _ ← println (cells [(22%nat, str "FINGERPRINT"); (24%nat, str "LABEL"); (11%nat, str "POLICY"); (19%nat, str "LAST SEEN")]);
    print_all print_trusted_peer peers
  end.

Definition print_localsend_peer (peer : LocalSendPeerMessage) : CM unit :=
  println (cells [(66%nat, lm_fingerprint peer); (24%nat, lm_alias peer); (8%nat, localsend_peer_status (lm_status peer));
                  (8%nat, show_dec (lm_attempt_count peer)); (0%nat, show_i64 (lm_last_seen_unix_seconds peer))]).

Definition list_pending_localsend : CM unit :=
  _ ← runtime env "creating async runtime";
  peers ← list_pending_localsend_peers;
  match peers with
  | [] => println (Text_ (str "no pending LocalSend peers"))
  | _ =>
    _ ← println (cells [(66%nat, str "FINGERPRINT"); (24%nat, str "ALIAS"); (8%nat, str "STATUS"); (8%nat, str "ATTEMPTS");
                        (0%nat, str "LAST SEEN")]);
    print_all print_localsend_peer peers
  end.

Definition approve_localsend (fingerprint : rstring) (label : option rstring) : CM unit :=
  _ ← runtime env "creating async runtime";
  peer ← approve_localsend_peer fingerprint label;
  _ ← println (Text_ (str "approved LocalSend peer:"));
  print_localsend_peer peer.

Definition deny_localsend (fingerprint : rstring) : CM unit :=
  _ ← runtime env "creating async runtime";
  peer ← deny_localsend_peer fingerprint;
  _ ← println (Text_ (str "denied LocalSend peer:"));
  print_localsend_peer peer.

Definition lan_header : Line :=
  cells [(21%nat, str "ALIAS"); (22%nat, str "ADDRESS"); (8%nat, str "PROTOCOL"); (0%nat, str "FINGERPRINT")].
Definition lan_row (alias address protocol fingerprint : rstring) : Line :=
  cells [(21%nat, alias); (22%nat, address); (8%nat, protocol); (0%nat, fingerprint)].

Definition peer_protocol (protocol : Z) : rstring :=
  str (if protocol =? 1 then "localsend_v2" else if protocol =? 2 then "native_v1" else "unknown").
Definition print_lan_peers (peers : list LanPeerMessage) : CM unit :=
  _ ← println lan_header;
  print_all (λ peer, println
    (lan_row (nm_alias peer) (nm_address peer ++ 58 :: show_dec (nm_port peer)) (peer_protocol (nm_protocol peer))
       (default (str "-") (nm_fingerprint peer)))) peers.

(** [u32::try_from(timeout_ms).unwrap_or(u32::MAX)] *)
Definition timeout_u32 (timeout_ms : Z) : Z := if timeout_ms <? 2 ^ 32 then timeout_ms else 2 ^ 32 - 1.

(** Whatever goes wrong with the daemon, the command listens by itself; the
    time-out is in what it hears. *)
Definition list_lan : CM unit :=
  _ ← runtime env "creating async runtime";
  daemon_peers ← (λ w, let '(r, w) := list_lan_peers w in (match r with Panic => Panic | r => Ok r end, w));
  match daemon_peers with
  | Ok [] => println (Text_ (str "no LocalSend peers found"))
  | Ok peers => print_lan_peers peers
  | _ =>
    peer ← lift (map_err (λ _, str "discovering LocalSend LAN peers") (datagrams ← le_listen env; listen_once (str "cli") datagrams));
    match peer with
    | None => println (Text_ (str "no LocalSend peers found"))
    | Some peer =>
      _ ← println lan_header;
      println (lan_row (di_alias (lp_info peer)) (show_sock (lp_address peer)) (di_protocol (lp_info peer))
                 (di_fingerprint (lp_info peer)))
    end
  end.

Definition list_native (timeout_ms : Z) : CM unit :=
  _ ← runtime env "creating async runtime";
  peers ← list_native_lan_peers (timeout_u32 timeout_ms);
  match peers with
  | [] => println (Text_ (str "no native NightBridge peers found"))
  | _ => print_lan_peers peers
  end.

Definition approve_native (peer : rstring) (label : option rstring) (timeout_ms : Z) : CM unit :=
  _ ← runtime env "creating async runtime";
  peer ← trust_native_lan_peer peer label (timeout_u32 timeout_ms);
  _ ← println (Text_ (str "approved native peer:"));
  print_trusted_peer peer.

Definition candidate_kind_label (kind : RvCandidateKind) : rstring :=
  str match kind with RvLocal => "local" | RvServerReflexive => "server_reflexive" end.

Definition decode_pubkey_hex (value : rstring) : result rstring bytes :=
  let cleaned := filter (λ c, c ≠ 45) value in
  _ ← ensure (str_len cleaned =? 64) (str "pubkey hex must be 64 hex characters");
  map_err (λ _, str "pubkey hex contains non-hex characters") (parse_bytes 32 0 cleaned).

(** The database is the daemon's. *)
Definition resolve_target_pubkey (target : rstring) : CM bytes :=
  if zlen (filter (λ c, c ≠ 45) target) =? 64 then lift (decode_pubkey_hex target)
  else
    fingerprint ← lift (map_err (λ _, str "target must be a 64-character pubkey hex or trusted peer fingerprint")
                          (parse_fingerprint target));
    found ← (λ w, (map_err error_text (get (a_trust (tw_api (cw_daemon w))) fingerprint), w));
    peer ← lift (ok_or found (str "trusted peer not found for fingerprint " ++ show_fingerprint fingerprint));
    mret (pr_pubkey peer).

(** [RendezvousClient::connect] and [lookup] *)
Definition rendezvous_lookup (url : rstring) (r : LookupRequest) : result rstring LookupResponse :=
  address ← parse_rendezvous_url url;
  match le_rendezvous env address with
  | Some answer => answer r
  | None => Err (str "establish rendezvous client connection")
  end.

Definition load_or_create_identity : CM bytes :=
  t ← gets (λ w, sn_fs (dk_now (cw_disk w)));
  o ← lift (map_err error_text (fsvault_load t (cp_identity_file files)));
  match o with
  | Some keypair => mret keypair
  | None =>
    _ ← on_disk (λ _, str "saving fresh identity") (fsvault_save (cp_identity_file files) (le_generated env));
    mret (le_generated env)
  end.

Definition candidate_row (candidate : Rendezvous.Candidate) : Line :=
  cells [(18%nat, candidate_kind_label (cd_kind candidate)); (22%nat, cd_address candidate);
         (0%nat, show_dec (cd_priority candidate))].
Definition lookup_wan (target rendezvous_url : rstring) : CM unit :=
  _ ← runtime env "creating async runtime";
  identity ← load_or_create_identity;
  target_pubkey ← resolve_target_pubkey target;
  response ← lift (rendezvous_lookup rendezvous_url (mkLookup (public_bytes identity) target_pubkey));
  peer ← lift (ok_or (lr_peer response) (str "WAN peer is not registered with rendezvous"));
  _ ← println (Text_ (str "alias: " ++ lp_alias peer));
  _ ← println (cells [(18%nat, str "KIND"); (22%nat, str "ADDRESS"); (0%nat, str "PRIORITY")]);
  print_all (λ candidate, println (candidate_row candidate)) (lp_candidates peer).

Definition run_peers (command : PeersCmd) : CM unit :=
  match command with
  | ListLan_ timeout_ms => list_lan
  | ListNative timeout_ms => list_native timeout_ms
  | ApproveNative peer label timeout_ms => approve_native peer label timeout_ms
  | LookupWan target rendezvous => lookup_wan target rendezvous
  | List_ => peers_list
  | PendingLocalSend => list_pending_localsend
  | ApproveLocalSend_ fingerprint label => approve_localsend fingerprint label
  | DenyLocalSend_ fingerprint => deny_localsend fingerprint
  end.

(** ** Transfers (cmd/transfers.rs) *)

Definition transfer_direction (direction : Z) : rstring :=
  str (if direction =? 1 then "send" else if direction =? 2 then "receive" else "unspecified").
Definition transfer_state (state : Z) : rstring :=
  str (if state =? 1 then "pending" else if state =? 2 then "active" else if state =? 3 then "interrupted"
       else if state =? 4 then "completed" else if state =? 5 then "cancelled" else if state =? 6 then "failed"
       else "unspecified").

Definition print_transfer (t : ActiveTransferMessage) : CM unit :=
  println (cells [(36%nat, am_transfer_id t); (12%nat, transfer_direction (am_direction t));
                  (12%nat, transfer_state (am_state t));
                  (0%nat, pad_left 6 (show_dec (am_bytes_done t)) ++ 47 :: pad_right 6 (show_dec (am_bytes_total t)));
                  (0%nat, am_peer_fingerprint t)]).

Definition list_active : CM unit :=
  _ ← runtime env "creating async runtime";
  transfers ← list_active_transfers;
  match transfers with
  | [] => println (Text_ (str "no active transfers"))
  | _ =>
    _ ← println (cells [(36%nat, str "TRANSFER ID"); (12%nat, str "DIRECTION"); (12%nat, str "STATE");
                        (0%nat, pad_left 13 (str "BYTES")); (0%nat, str "PEER")]);
    print_all print_transfer transfers
  end.

(** The fields of a resume response; the daemon never sends one. *)
Definition resumed_of (r : Reply) : rstring * Z := ([], 0).
Definition resume (transfer_id : rstring) : CM unit :=
  _ ← lift (ensure (negb (is_blank transfer_id)) (str "transfer id is required"));
  _ ← runtime env "creating async runtime";
  response ← resume_transfer transfer_id;
  let '(transfer_id, state) := resumed_of response in
  println (Text_ (str "transfer " ++ transfer_id ++ str ": " ++ transfer_state state)).

Definition run_transfers (command : TransfersCmd) : CM unit :=
  match command with ListActive_ => list_active | Resume_ transfer_id => resume transfer_id end.

(** ** [main] *)

Definition print_daemon_status : CM unit :=
  _ ← runtime env "building the runtime";
  status ← get_status;
  match status with
  | StatusDto alias fingerprint inbox_dir localsend_port native_port =>
    _ ← println (Text_ (str "alias: " ++ alias));
    _ ← println (Text_ (str "fingerprint: " ++ fingerprint));
    _ ← println (Text_ (str "version: " ++ le_version env));
    _ ← println (WithPath (str "inbox: ") inbox_dir);
    _ ← println (Text_ (str "localsend port: " ++ show_dec localsend_port));
    println (Text_ (str "native port: " ++ show_dec native_port))
  | _ => mret tt
  end.

Definition main (command : Command) : CM unit :=
  match command with
  | DaemonStatus => print_daemon_status
  | IdentityCommand command => run_identity command
  | PeersCommand command => run_peers command
  | SendCommand command => run_send command
  | TransfersCommand command => run_transfers command
  end.
End cli.

(** ** What a command sends *)

(** What the flags ask of the daemon: a peer behind the rendezvous server with
    [--wan --peer], a peer of the local network with [--peer], and otherwise
    a URL; flags that exclude each other ask nothing. *)
Definition requested (command : SendCmd) : option Target :=
  match sc_direct command, sc_wan command, sc_native_cert_fingerprint command, sc_peer command, sc_url command with
  | false, true, _, Some peer, None => Some (WanPeer peer)
  | false, false, None, Some peer, None => Some (PeerFingerprint peer)
  | false, false, None, None, Some url => Some (if sc_native command then NativeUrl url else LocalsendUrl url)
  | _, _, _, _, _ => None
  end.
Definition send_request (command : SendCmd) (target : Target) : SendRequest :=
  mkSendRequest (sc_paths command) (Some target) (sc_wan command || sc_native command).

Section sends.
Context `{HashOrderLaws} `{CryptoLaws} `{LowercaseLaws} `{Uuid} `{Tonic} (error_text : CoreError → rstring) (st : DaemonState).
Context (config : DaemonClientConfig) (files : CliPaths) (env : CliEnv).

(** What the flags ask of the command itself, with [--direct]: to a URL over
    LocalSend under the fingerprint of the identity, or over the native
    protocol with the identity, pinned to the certificate given. *)
Inductive asked_directly (command : SendCmd) (w : CliWorld) : DirectSend → Prop :=
| asked_localsend url keypair :
    sc_direct command = true → sc_wan command = false → sc_native command = false →
    sc_native_cert_fingerprint command = None → sc_url command = Some url →
    (load_or_create_keypair error_text files env w).1 = Ok keypair →
    asked_directly command w (DirectLocalSend url (path_from <$> sc_paths command)
      (mkDeviceInfo (str "night-bridge") (str "2.0") None (Some (str "desktop"))
         (show_fingerprint (from_pubkey (public_bytes keypair))) 0 (str "https") false))
| asked_native url keypair pin :
    sc_direct command = true → sc_wan command = false → sc_native command = true →
    sc_native_cert_fingerprint command = Some pin → sc_url command = Some url →
    (load_or_create_keypair error_text files env w).1 = Ok keypair →
    asked_directly command w (DirectNative url (path_from <$> sc_paths command) keypair pin).

(** Everything but the disk is as before. *)
Definition nothing_done (w w' : CliWorld) : Prop :=
  cw_daemon w' = cw_daemon w ∧ cw_sent w' = cw_sent w ∧ cw_out w' = cw_out w.

#[export] Instance nothing_done_preorder : PreOrder nothing_done.
Proof. unfold nothing_done. split; [by intros w|]. intros ???(? & ? & ?) (? & ? & ?). split_and!; congruence. Qed.

Lemma on_disk_quiet {E A} (to_text : E → rstring) (m : SE Disk E A) : pres nothing_done (on_disk to_text m).
Proof. intros w. unfold on_disk. by destruct (m (cw_disk w)). Qed.
Lemma runtime_quiet message : pres nothing_done (runtime env message).
Proof. unfold runtime. pres_auto. Qed.
#[local] Hint Resolve on_disk_quiet runtime_quiet : pres.

Lemma keypair_quiet : pres nothing_done (load_or_create_keypair error_text files env).
Proof. unfold load_or_create_keypair. pres_auto. Qed.
#[local] Hint Resolve keypair_quiet : pres.
Lemma sender_quiet : pres nothing_done (sender_info error_text files env).
Proof. unfold sender_info. pres_auto. Qed.
Lemma interceptor_quiet : pres nothing_done (interceptor config files).
Proof. unfold interceptor, load_api_token. pres_auto. Qed.
#[local] Hint Resolve sender_quiet interceptor_quiet : pres.
Lemma cli_connect_quiet : pres nothing_done (connect config files env).
Proof. unfold connect, channel. pres_auto. Qed.
#[local] Hint Resolve cli_connect_quiet : pres.

(** A command that ends with at most one transfer of its own, one of [P], and
    says so exactly when it succeeded. *)
Definition directs (P : DirectSend → Prop) (n : nat) (m : CM unit) (w : CliWorld) : Prop :=
  let '(r, w') := m w in
  (r ≠ Ok tt ∧ nothing_done w w') ∨
  ∃ d, P d ∧ cw_daemon w' = cw_daemon w ∧ cw_sent w' = cw_sent w ++ [d] ∧
    match le_direct env d with
    | Some _ => r ≠ Ok tt ∧ cw_out w' = cw_out w
    | None => r = Ok tt ∧ cw_out w' = cw_out w ++ [sent_line n]
    end.

Lemma directs_fail P n e w : directs P n (fail e) w.
Proof. by left. Qed.
Lemma directs_bind {A} P n (m : CM A) k w :
  pres nothing_done m → (∀ a, (m w).1 = Ok a → directs P n (k a) (m w).2) → directs P n (m ≫= k) w.
Proof.
  intros Hm Hk. specialize (Hm w). unfold directs, mbind, SE_bind. destruct (m w) as [[a|e|] w1]; cbn [fst snd] in *.
  - specialize (Hk a eq_refl). unfold directs in Hk. destruct (k a w1) as [r w2]. destruct Hm as (Hd & Hs & Ho).
    destruct Hk as [[Hr Hq]|(d & HP & Hd' & Hs' & Hout)].
    + left. split; [done|]. etrans; [|exact Hq]. done.
    + right. exists d. rewrite Hd', Hs', Hd, Hs, <-Ho. done.
  - left. by split.
  - left. by split.
Qed.
Lemma directs_lift {A} P n (r : result rstring A) k w :
  (∀ a, r = Ok a → directs P n (k a) w) → directs P n (lift r ≫= k) w.
Proof. intros Hk. apply directs_bind; [auto with pres|]. intros a Ha. by apply Hk. Qed.
Lemma directs_transfer (P : DirectSend → Prop) n d w :
  P d → directs P n (_ ← transfer env d; println (sent_line n)) w.
Proof.
  intros HP. unfold directs, transfer, mbind, SE_bind.
  destruct (le_direct env d) eqn:Hd; right; exists d; (split; [exact HP|]); by rewrite Hd.
Qed.
Lemma directs_transfer_in (P : DirectSend → Prop) n message d w :
  P d → directs P n (_ ← with_context message (transfer env d); println (sent_line n)) w.
Proof.
  intros HP. unfold directs, with_context, transfer, mbind, SE_bind.
  destruct (le_direct env d) eqn:Hd; right; exists d; (split; [exact HP|]); cbn; by rewrite Hd.
Qed.

Lemma directs_runtime P n message k w : directs P n (k tt) w → directs P n (runtime env message ≫= k) w.
Proof. intros Hk. unfold runtime. destruct (le_runtime env); [exact Hk|apply directs_fail]. Qed.

Lemma direct_asked command w :
  sc_direct command = true →
  directs (asked_directly command w) (length (sc_paths command)) (run_direct error_text files env command) w.
Proof.
  intros Hd. unfold run_direct. destruct (sc_wan command) eqn:Hw; [apply directs_fail|].
  destruct (sc_native command) eqn:Hn.
  - unfold run_native. apply directs_lift. intros url Hurl%ok_or_Ok_inv. apply directs_lift.
    intros pin Hpin%ok_or_Ok_inv. apply directs_runtime. apply directs_bind; [auto with pres|].
    intros keypair Hk. apply directs_transfer. by eapply asked_native.
  - apply directs_lift. intros _ Hno%ensure_Ok_inv%negb_true_iff%bool_decide_eq_false.
    apply directs_lift. intros url Hurl%ok_or_Ok_inv. apply directs_runtime. apply directs_bind; [auto with pres|].
    intros sender Hs. apply directs_bind; [destruct (le_client env); auto with pres|]. intros ? _.
    apply directs_transfer_in. unfold sender_info in Hs.
    destruct (load_or_create_keypair error_text files env w) as [[key|e|] w1] eqn:Hk.
    + rewrite (SE_bind_eq _ _ _ _ _ Hk) in Hs. apply Ok_inj in Hs as <-. eapply asked_localsend; try done.
      * by destruct (sc_native_cert_fingerprint command); [destruct Hno|].
      * by rewrite Hk.
    + unfold mbind, SE_bind in Hs. by rewrite Hk in Hs.
    + unfold mbind, SE_bind in Hs. by rewrite Hk in Hs.
Qed.

(** ** What goes to the daemon *)

Lemma connect_same w : (connect config files env w).2 = w.
Proof.
  assert (Hp : pres (flip eq) (connect config files env)); [|exact (Hp w)].
  unfold connect, interceptor, channel, load_api_token. pres_auto.
Qed.

Lemma request_cases c context w r w' :
  request error_text st config files env c context w = (r, w') →
  w' = w ∧ (∀ reply, r ≠ Ok reply) ∨
  ∃ token rd api,
    grpc error_text (ce_env (le_daemon env)) st (Value (str "Bearer " ++ token)) c
      (ce_others (le_daemon env) c (tw_api (cw_daemon w))) = (rd, api) ∧
    w' = mkCli (mkTui api (tw_calls (cw_daemon w) ++ [c])) (cw_disk w) (cw_sent w) (cw_out w) ∧
    r = match rd with Ok reply => Ok reply | _ => Err (str context) end.
Proof.
  unfold request. pose proof (connect_same w) as Hc.
  destruct (connect config files env w) as [[metadata|e|] w1] eqn:Hconn; cbn in Hc; subst w1.
  - rewrite (SE_bind_eq _ _ _ _ _ Hconn). unfold on_daemon, call.
    assert (Hm : ∃ token, metadata = str "Bearer " ++ token).
    { unfold connect in Hconn. apply SE_bind_Ok in Hconn as (m & w1 & Hi & Hconn). inv_se. unfold interceptor in Hi.
      apply SE_bind_Ok in Hi as (token & w2 & _ & Hi). cbv zeta in Hi. destruct (metadata_ok _); [|done].
      exists token. apply (f_equal fst) in Hi. cbn in Hi. congruence. }
    destruct Hm as [token ->]. destruct (grpc _ _ _ _ _ _) as [rd api] eqn:Hg. intros [= <- <-]. right.
    exists token, rd, api. done.
  - unfold mbind, SE_bind. rewrite Hconn. intros [= <- <-]. by left.
  - unfold mbind, SE_bind. rewrite Hconn. intros [= <- <-]. by left.
Qed.

Lemma grpc_send e metadata r api rd api' :
  grpc error_text e st metadata (ToTransfers (GSend r)) api = (rd, api') →
  api' = api ∧ (∀ reply, rd ≠ Ok reply) ∨ ∃ rs, DaemonApi.send_files error_text e st r api = (rs, api') ∧ rd = Sent <$> rs.
Proof.
  unfold grpc. destruct (authorize_metadata metadata (ds_api_token st)) as [[]|s|]; cycle 1.
  { intros [= <- <-]. by left. } { intros [= <- <-]. by left. }
  rewrite SE_lift_Ok. cbn [grpc_method transfers_service]. unfold send_transfer, mbind, SE_bind.
  destruct (DaemonApi.send_files error_text e st r api) as [[id|s|] api1]; intros [= <- <-]; right; eexists; done.
Qed.

(** Success is reported, with this line, exactly when nothing went wrong. *)
Definition reports (error : option rstring) (r : result rstring unit) (out : list Line) (line : Line) : Prop :=
  match error with None => r = Ok tt ∧ out = [line] | Some _ => r ≠ Ok tt ∧ out = [] end.

Abbreviation api_of w := (tw_api (cw_daemon w)).

(** What [m] adds to the transfers of the daemon and to the output. *)
Definition hands_over (command : SendCmd) (m : CM unit) (w : CliWorld) : Prop :=
  let '(r, w') := m w in
  cw_sent w' = cw_sent w ∧
  ∃ sent out, a_sent (api_of w') = a_sent (api_of w) ++ sent ∧ cw_out w' = cw_out w ++ out ∧
    match sent with
    | [] => r ≠ Ok tt ∧ out = []
    | [o] => ∃ target, requested command = Some target ∧
        Forall (λ p, is_file (a_fs (api_of w)) p = true) (path_from <$> sc_paths command) ∧
        permitted error_text (ce_env (le_daemon env)) st (api_of w) (sc_wan command || sc_native command)
          (path_from <$> sc_paths command) target o ∧
        reports (e_send (ce_env (le_daemon env)) o) r out (Text_ (str "transfer: " ++ new_v4 (a_uuid (api_of w))))
    | _ => False
    end.

Lemma hands_over_nothing command m w r : m w = (r, w) → r ≠ Ok tt → hands_over command m w.
Proof.
  intros Hm Hr. unfold hands_over. rewrite Hm. split; [done|]. exists [], []. by rewrite !app_nil_r.
Qed.
Lemma hands_over_fail command e w : hands_over command (fail e) w.
Proof. by eapply hands_over_nothing. Qed.
Lemma hands_over_lift {A} command (r : result rstring A) k w :
  (∀ a, r = Ok a → hands_over command (k a) w) → hands_over command (lift r ≫= k) w.
Proof. destruct r as [a|e|]; intros Hk; [by apply Hk|by eapply hands_over_nothing..]. Qed.

(** The command, by the answer of the daemon. *)
Lemma send_via_daemon_run r w :
  send_via_daemon error_text st config files env r w =
  (_ ← runtime env "creating async runtime";
   reply ← request error_text st config files env (ToTransfers (GSend r)) "send request failed";
   println (Text_ (str "transfer: " ++ transfer_id_of reply))) w.
Proof.
  unfold send_via_daemon, send_files, runtime, mbind, SE_bind. destruct (le_runtime env); [|done]. cbn.
  by destruct (request _ _ _ _ _ _ _ _) as [[] ?].
Qed.

(** What the daemon sends, for an answer to the request. *)
Definition answered (command : SendCmd) (target : Target) (api : ApiWorld) (rs : result Status rstring) (api' : ApiWorld) :
    Prop :=
  ∃ sent, a_sent api' = a_sent api ++ sent ∧
    match sent with
    | [] => ∀ id, rs ≠ Ok id
    | [o] => Forall (λ p, is_file (a_fs api) p = true) (path_from <$> sc_paths command) ∧
        permitted error_text (ce_env (le_daemon env)) st api (sc_wan command || sc_native command)
          (path_from <$> sc_paths command) target o ∧
        match e_send (ce_env (le_daemon env)) o with
        | None => rs = Ok (new_v4 (a_uuid api))
        | Some _ => ∀ id, rs ≠ Ok id
        end
    | _ => False
    end.

Lemma send_answer command target api rs api' :
  requested command = Some target →
  DaemonApi.send_files error_text (ce_env (le_daemon env)) st (send_request command target) api = (rs, api') →
  answered command target api rs api'.
Proof.
  intros Hreq Hs. destruct (send_files_spec _ _ _ _ _ _ _ Hs)
    as [(s & -> & _ & ->)|(target' & tail & Ht & Hfiles & _ & _ & _ & Hsent & Hr)].
  { exists []. by rewrite app_nil_r. }
  cbn in Ht, Hfiles, Hsent. injection Ht as <-.
  assert (Hnone : none_sent (ce_env (le_daemon env)) api api' → (∀ id, rs ≠ Ok id) →
    answered command target api rs api').
  { intros [Hno|(o & Ho & [error He])] Hne; [exists []; by rewrite app_nil_r|].
    destruct Hsent as [Hno|(o' & Hp & Ho')]; [exists []; by rewrite app_nil_r|].
    rewrite Ho in Ho'. apply app_inv_head in Ho' as [= <-]. exists [o]. by rewrite He. }
  destruct rs as [id|s|]; [|apply Hnone; [apply Hr|done]..].
  destruct Hr as (-> & _ & o & Ho & He). exists [o]. split; [done|].
  destruct Hsent as [Hno|(o' & Hp & Ho')].
  { rewrite Ho in Hno. apply (f_equal length) in Hno. rewrite length_app in Hno. simpl in Hno. lia. }
  rewrite Ho in Ho'. apply app_inv_head in Ho' as [= <-]. by rewrite He.
Qed.

Lemma via_daemon command target w :
  (∀ c api, ce_others (le_daemon env) c api = api) → requested command = Some target →
  hands_over command (send_via_daemon error_text st config files env (send_request command target)) w.
Proof.
  intros Hidle Hreq. unfold hands_over. rewrite send_via_daemon_run.
  unfold runtime. destruct (le_runtime env); [|apply hands_over_fail]. rewrite (SE_bind_eq _ _ w tt w) by done.
  set (call := ToTransfers (GSend (send_request command target))).
  destruct (request error_text st config files env call "send request failed" w) as [r w1] eqn:Hrun.
  unfold mbind, SE_bind. rewrite Hrun.
  destruct (request_cases _ _ _ _ _ Hrun) as [[-> Hne]|(token & rd & api & Hg & -> & ->)].
  { destruct r as [reply|e|]; [by destruct (Hne reply)|..]; (split; [done|]); exists [], []; by rewrite !app_nil_r. }
  rewrite Hidle in Hg. destruct (grpc_send _ _ _ _ _ _ Hg) as [[-> Hne]|(rs & Hs & ->)].
  { destruct rd as [reply|e|]; [by destruct (Hne reply)|..]; (split; [done|]); exists [], []; by rewrite !app_nil_r. }
  destruct (send_answer _ _ _ _ _ Hreq Hs) as (sent & Hsent & Hout).
  assert (Hfail : ∀ e, (∀ id, rs ≠ Ok id) → match Sent <$> rs with Ok reply => Ok reply | _ => Err e end = @Err rstring Reply e)
    by (intros e Hne; destruct rs as [id| |]; [by destruct (Hne id)|done..]).
  destruct sent as [|o [|]]; [|destruct Hout as (Hf & Hp & Hr)|done].
  - rewrite Hfail by done. split; [done|]. exists [], []. rewrite app_nil_r in Hsent. by rewrite !app_nil_r.
  - destruct (e_send (ce_env (le_daemon env)) o) as [error|] eqn:He.
    + rewrite Hfail by done. split; [done|]. exists [o], []. rewrite app_nil_r. split; [done|]. split; [done|].
      exists target. split_and!; try done. by rewrite He.
    + rewrite Hr. cbn. split; [done|]. exists [o], [Text_ (str "transfer: " ++ new_v4 (a_uuid (api_of w)))]. split; [done|].
      split; [done|]. exists target. split_and!; try done. by rewrite He.
Qed.

Lemma daemon_asked command w :
  (∀ c api, ce_others (le_daemon env) c api = api) → sc_direct command = false →
  hands_over command (run_daemon error_text st config files env command) w.
Proof.
  intros Hidle Hd. unfold run_daemon. destruct (sc_wan command) eqn:Hw.
  - apply hands_over_lift. intros _ Hno%ensure_Ok_inv%negb_true_iff%bool_decide_eq_false.
    apply hands_over_lift. intros peer Hpeer%ok_or_Ok_inv.
    pose proof (via_daemon command (WanPeer peer) w Hidle) as Hv. unfold send_request in Hv. rewrite Hw in Hv. apply Hv.
    unfold requested. rewrite Hd, Hw, Hpeer. destruct (sc_url command); [by destruct Hno|].
    by destruct (sc_native_cert_fingerprint command).
  - apply hands_over_lift. intros _ Hno%ensure_Ok_inv%negb_true_iff%bool_decide_eq_false.
    assert (Hcert : sc_native_cert_fingerprint command = None) by (destruct (sc_native_cert_fingerprint command); [by destruct Hno|done]).
    assert (Hvia : ∀ target, requested command = Some target →
      hands_over command (send_via_daemon error_text st config files env (mkSendRequest (sc_paths command) (Some target) (sc_native command))) w).
    { intros target Ht. pose proof (via_daemon command target w Hidle Ht) as Hv. unfold send_request in Hv. by rewrite Hw in Hv. }
    destruct (sc_peer command) as [peer|] eqn:Hpeer.
    + apply hands_over_lift. intros _ Hnourl%ensure_Ok_inv%negb_true_iff%bool_decide_eq_false. apply Hvia.
      unfold requested. rewrite Hd, Hw, Hcert, Hpeer. destruct (sc_url command); [by destruct Hnourl|done].
    + apply hands_over_lift. intros url Hurl%ok_or_Ok_inv. apply Hvia. unfold requested. by rewrite Hd, Hw, Hcert, Hpeer, Hurl.
Qed.

(** C18: A command sends as it was asked.  Whatever the flags, the files and
    the state of the daemon, [send] makes at most one transfer: by itself
    only with [--direct], to the URL given, with the certificate pinned that
    was given for a native one; otherwise through the daemon, of files that
    exist, to the target the flags name and as the daemon may send to it: over
    the native protocol only to a peer it trusts, pinned to the certificate it
    was trusted with.  It reports success, by one line, exactly when a
    transfer was made and succeeded, and prints nothing else. *)
Theorem cli_sends_as_asked command w r w' :
  (∀ c api, ce_others (le_daemon env) c api = api) →
  run_send error_text st config files env command w = (r, w') →
  ∃ direct sent out,
    cw_sent w' = cw_sent w ++ direct ∧ a_sent (api_of w') = a_sent (api_of w) ++ sent ∧ cw_out w' = cw_out w ++ out ∧
    match direct, sent with
    | [], [] => r ≠ Ok tt ∧ out = []
    | [d], [] => asked_directly command w d ∧ reports (le_direct env d) r out (sent_line (length (sc_paths command)))
    | [], [o] => ∃ target, requested command = Some target ∧
        Forall (λ p, is_file (a_fs (api_of w)) p = true) (path_from <$> sc_paths command) ∧
        permitted error_text (ce_env (le_daemon env)) st (api_of w) (sc_wan command || sc_native command)
          (path_from <$> sc_paths command) target o ∧
        reports (e_send (ce_env (le_daemon env)) o) r out (Text_ (str "transfer: " ++ new_v4 (a_uuid (api_of w))))
    | _, _ => False
    end.
Proof.
  intros Hidle Hrun. unfold run_send in Hrun. destruct (sc_direct command) eqn:Hd.
  - pose proof (direct_asked command w Hd) as H'. unfold directs in H'. rewrite Hrun in H'.
    destruct H' as [[Hr (Ha & Hs & Ho)]|(d & Hasked & Ha & Hs & Hout)].
    + exists [], [], []. rewrite Ha, Hs, Ho, !app_nil_r. done.
    + destruct (le_direct env d) eqn:He; destruct Hout as [Hr Ho].
      * exists [d], [], []. rewrite Ha, Hs, Ho, !app_nil_r. by rewrite He.
      * eexists [d], [], _. rewrite Ha, Hs, Ho, app_nil_r. by rewrite He.
  - pose proof (daemon_asked command w Hidle Hd) as H'. unfold hands_over in H'. rewrite Hrun in H'.
    destruct H' as (Hs & sent & out & Ha & Ho & Hcase). exists [], sent, out. rewrite Hs, app_nil_r.
    by destruct sent as [|o [|]].
Qed.
End sends.

(** ** Identity commands *)

Lemma hex_encode_cleaned bs : Forall byte_ok bs → filter (λ c, c ≠ 45) (hex_encode bs) = hex_encode bs.
Proof.
  intros Hb. assert (Hall : Forall (λ c, c ≠ 45) (hex_encode bs))
    by (apply Forall_forall; intros c Hc; by apply (hex_encode_chars bs c)).
  induction Hall as [|c l Hc Hl IH]; [done|]. by rewrite filter_cons_True, IH.
Qed.

(** A key in hexadecimal is read back, wherever dashes are put. *)
Lemma decode_pubkey_hex_spec pk s :
  length pk = 32%nat → Forall byte_ok pk → filter (λ c, c ≠ 45) s = hex_encode pk → decode_pubkey_hex s = Ok pk.
Proof.
  intros Hlen Hb Hs. unfold decode_pubkey_hex. rewrite Hs.
  assert (Hl : str_len (hex_encode pk) = 64).
  { unfold str_len. rewrite utf8_encode_ascii.
    - rewrite zlen_hex_encode. unfold zlen. rewrite Hlen. done.
    - apply Forall_forall. intros c Hc. by eapply hex_encode_chars. }
  rewrite Hl. cbn [Z.eqb Pos.eqb ensure mbind result_bind]. pose proof (parse_bytes_hex [] pk 0 Hb eq_refl) as Hp.
  change ([] ++ pk) with pk in Hp. rewrite Hlen in Hp. by rewrite Hp.
Qed.

Section identity_commands.
Context `{CryptoLaws} (error_text : CoreError → rstring) (files : CliPaths) (env : CliEnv).

(** What [identity show] prints for a key. *)
Definition identity_lines (keypair : bytes) : list Line :=
  [Text_ (str "fingerprint: " ++ show_fingerprint (from_pubkey (public_bytes keypair)));
   Text_ (str "pubkey-hex:  " ++ hex_encode (public_bytes keypair));
   WithPath (str "path:        ") (cp_identity_file files)].

Lemma show_via_keypair w :
  show error_text files env w =
  (keypair ← load_or_create_keypair error_text files env;
   _ ← println (Text_ (str "fingerprint: " ++ show_fingerprint (from_pubkey (public_bytes keypair))));
   _ ← println (Text_ (str "pubkey-hex:  " ++ hex_encode (public_bytes keypair)));
   println (WithPath (str "path:        ") (cp_identity_file files))) w.
Proof.
  unfold show, load_or_create_keypair, gets, lift, mbind, SE_bind.
  destruct (map_err error_text _) as [[k|]|e|]; [done| |done..]. by destruct (on_disk _ _ w) as [[[]|e|] w1].
Qed.

Context (dir : path) (name tmp : rstring).
Abbreviation file := (dir ++ [name]).

Lemma on_disk_run {E A} (to_text : E → rstring) (m : SE Disk E A) w a d :
  m (cw_disk w) = (Ok a, d) → on_disk to_text m w = (Ok a, mkCli (cw_daemon w) d (cw_sent w) (cw_out w)).
Proof. unfold on_disk. by intros ->. Qed.

(** The key that is there, or the fresh one, which is saved. *)
Lemma keypair_run w :
  let t := sn_fs (dk_now (cw_disk w)) in
  cp_identity_file files = file → replaceable t dir name tmp → with_extension file (str "key.tmp") = dir ++ [tmp] →
  length (le_generated env) = KEY_LEN → (∀ b, t !! file = Some (File b) → length b = KEY_LEN) →
  ∃ keypair d, load_or_create_keypair error_text files env w =
      (Ok keypair, mkCli (cw_daemon w) d (cw_sent w) (cw_out w)) ∧
    fsvault_load (sn_fs (dk_now d)) file = Ok (Some keypair) ∧
    match t !! file with Some (File b) => keypair = b ∧ d = cw_disk w | _ => keypair = le_generated env end.
Proof.
  intros t Hfile Hr Hext Hlen Hold. pose proof (rp_dir _ _ _ _ Hr) as Hd. pose proof (rp_name _ _ _ _ Hr) as Hn.
  unfold load_or_create_keypair. rewrite Hfile. unfold gets, lift, mbind, SE_bind. fold t.
  rewrite fsvault_load_entry by done. pose proof (rp_no_dir _ _ _ _ Hr) as Hnd. fold t in Hnd.
  destruct (t !! file) as [[b|]|] eqn:Ht; [|by destruct Hnd|].
  - rewrite bool_decide_true by (by apply Hold). exists b, (cw_disk w). split; [by destruct w|]. split; [|done].
    apply fsvault_load_saved; auto.
  - destruct (key_saved dir name tmp (le_generated env) (cw_disk w) Hr Hext Hlen) as (d & Hsave & Hload).
    cbn [map_err]. cbv beta. rewrite (on_disk_run _ _ _ _ _ Hsave). by exists (le_generated env), d.
Qed.

(** The identity the command line shows is the daemon's.  [identity show]
    prints the fingerprint and the key of an identity that every later start
    of the daemon loads, whichever of them ran first, and the printed key is
    read back as that key; [identity rotate] changes nothing without [--yes],
    and with it every later start loads the fresh key. *)
Theorem identity_commands_agree w :
  let t := sn_fs (dk_now (cw_disk w)) in
  cp_identity_file files = file → replaceable t dir name tmp → with_extension file (str "key.tmp") = dir ++ [tmp] →
  length (le_generated env) = KEY_LEN → (∀ b, t !! file = Some (File b) → length b = KEY_LEN) →
  (∃ keypair w', run_identity error_text files env Show_ w = (Ok tt, w') ∧
     cw_out w' = cw_out w ++ identity_lines keypair ∧
     (∀ b, t !! file = Some (File b) → keypair = b ∧ cw_disk w' = cw_disk w) ∧
     (∀ generated, Vault.load_or_create_identity file generated (cw_disk w') = (Ok keypair, cw_disk w')) ∧
     decode_pubkey_hex (hex_encode (public_bytes keypair)) = Ok (public_bytes keypair) ∧
     parse_fingerprint (show_fingerprint (from_pubkey (public_bytes keypair))) = Ok (from_pubkey (public_bytes keypair))) ∧
  run_identity error_text files env (Rotate false) w = (Ok tt, w) ∧
  ∃ w', run_identity error_text files env (Rotate true) w = (Ok tt, w') ∧
    cw_out w' = cw_out w ++
      [Text_ (str "new fingerprint: " ++ show_fingerprint (from_pubkey (public_bytes (le_generated env))))] ∧
    ∀ generated, Vault.load_or_create_identity file generated (cw_disk w') = (Ok (le_generated env), cw_disk w').
Proof.
  intros t Hfile Hr Hext Hlen Hold. split_and!; [|done|].
  - destruct (keypair_run w Hfile Hr Hext Hlen Hold) as (keypair & d & Hrun & Hload & Hkept). fold t in Hkept.
    cbn [run_identity]. rewrite show_via_keypair, (SE_bind_eq _ _ _ _ _ Hrun). exists keypair. eexists. split; [reflexivity|].
    split_and!.
    + cbn. by rewrite <-!app_assoc.
    + intros b Hb. by rewrite Hb in Hkept.
    + intros generated. by apply identity_loaded.
    + pose proof (public_bytes_ok keypair). apply decode_pubkey_hex_spec; [apply public_length|done|by apply hex_encode_cleaned].
    + apply parse_show_fingerprint, from_pubkey_ok.
  - destruct (key_saved dir name tmp (le_generated env) (cw_disk w) Hr Hext Hlen) as (d & Hsave & Hload).
    cbn [run_identity]. unfold rotate. cbn [negb]. rewrite Hfile.
    rewrite (SE_bind_eq _ _ _ _ _ (on_disk_run _ _ _ _ _ Hsave)). eexists. split; [reflexivity|]. split; [done|].
    intros generated. by apply identity_loaded.
Qed.
End identity_commands.

(** ** Looking a peer up *)

Section lookup.
Context `{CryptoLaws} `{!RvJson ClientMessage, !RvJson ServerMessage, !RvRoundtrip ClientMessage, !RvRoundtrip ServerMessage}.
Context (error_text : CoreError → rstring) (files : CliPaths) (env : CliEnv).

(** How a user may name the holder of a public key. *)
Definition names_key (store : TrustStore) (target : rstring) (pk : bytes) : Prop :=
  filter (λ c, c ≠ 45) target = hex_encode pk ∨
  ∃ fp peer, fingerprint_ok fp ∧ target = show_fingerprint fp ∧ get store fp = Ok (Some peer) ∧ pr_pubkey peer = pk.

Lemma resolve_target w target sk :
  names_key (a_trust (tw_api (cw_daemon w))) target (public_bytes sk) →
  resolve_target_pubkey error_text target w = (Ok (public_bytes sk), w).
Proof.
  pose proof (public_bytes_ok sk) as Hb. pose proof (public_length sk) as Hl.
  unfold resolve_target_pubkey. intros [Hhex|(fp & peer & Hfp & -> & Hget & Hpk)].
  - rewrite Hhex, zlen_hex_encode. unfold zlen. rewrite Hl. cbn [Z.eqb]. 
    change (2 * Z.of_nat 32 =? 64) with true. cbv iota. unfold lift. by rewrite (decode_pubkey_hex_spec (public_bytes sk)).
  - pose proof Hfp as [Hfl Hfb]. unfold show_fingerprint at 1. rewrite show_fingerprint_cleaned by done.
    rewrite zlen_hex_encode. unfold zlen. rewrite Hfl. change (2 * Z.of_nat 8 =? 64) with false. cbv iota.
    rewrite parse_show_fingerprint by done. cbn [map_err]. rewrite SE_lift_Ok. unfold mbind, SE_bind, lift.
    rewrite Hget. cbn. by rewrite Hpk.
Qed.

Lemma print_all_run {A} (row : A → Line) l w :
  print_all (λ a, println (row a)) l w =
  (Ok tt, mkCli (cw_daemon w) (cw_disk w) (cw_sent w) (cw_out w ++ (row <$> l))).
Proof.
  revert w. induction l as [|a l IH]; intros w; cbn [print_all fmap list_fmap].
  - rewrite app_nil_r. by destruct w.
  - rewrite (SE_bind_eq _ _ w tt (mkCli (cw_daemon w) (cw_disk w) (cw_sent w) (cw_out w ++ [row a]))) by done.
    rewrite IH. cbn [cw_daemon cw_disk cw_sent cw_out]. by rewrite <-app_assoc.
Qed.

Lemma identity_run w identity :
  (load_or_create_identity error_text files env w).1 = Ok identity →
  ∃ d, load_or_create_identity error_text files env w = (Ok identity, mkCli (cw_daemon w) d (cw_sent w) (cw_out w)).
Proof.
  intros Hid. assert (Hq : pres nothing_done (load_or_create_identity error_text files env)).
  { unfold load_or_create_identity. pose proof (@on_disk_quiet). pres_auto. }
  specialize (Hq w). destruct (load_or_create_identity error_text files env w) as [r [daemon d sent out]].
  destruct Hq as (Hd & Hs & Ho). cbn in *. exists d. congruence.
Qed.

(** The command line finds a registered daemon.  When a daemon has
    registered its candidates with the rendezvous server, [peers lookup-wan]
    with its public key in hexadecimal, or with the fingerprint of a trusted
    peer that has this key, prints, until the registration ends, the daemon's
    alias and its candidates in the order in which they were gathered. *)
Theorem lookup_wan_finds now now' alias sk cs interval g url address target identity w :
  is_blank alias = false → cs ≠ [] → Forall (λ c, v4_endpoint (nc_address c)) cs → u64_ok interval →
  let ttl := registration_ttl_seconds interval in
  let registered := register now (build_register_request alias (public_bytes sk) cs ttl) g in
  now' < now + Z.min (from_secs ttl) (max_ttl g) →
  le_runtime env = true → parse_rendezvous_url url = Ok address →
  le_rendezvous env address = Some (λ r, (client_lookup now' r registered.2).1) →
  fits now' (Lookup_ (mkLookup (public_bytes identity) (public_bytes sk))) registered.2 →
  (load_or_create_identity error_text files env w).1 = Ok identity →
  names_key (a_trust (tw_api (cw_daemon w))) target (public_bytes sk) →
  ∃ d, lookup_wan error_text files env target url w =
    (Ok tt, mkCli (cw_daemon w) d (cw_sent w)
       (cw_out w ++ [Text_ (str "alias: " ++ alias); cells [(18%nat, str "KIND"); (22%nat, str "ADDRESS"); (0%nat, str "PRIORITY")]]
        ++ ((λ c, candidate_row (candidate_to_rendezvous c)) <$> cs))).
Proof.
  intros Halias Hne Hcs Hi ttl registered Hlive Hrt Hurl Hrv Hfits Hid Htarget.
  destruct (wan_registered now now' alias (public_bytes sk) cs interval g Halias Hne Hcs Hi) as (answer & g1 & Hreg & Hlook).
  fold ttl in Hreg, Hlook. destruct (Hlook Hlive) as [seen Hseen].
  assert (Hg : registered.2 = g1) by (unfold registered; by rewrite Hreg). rewrite Hg in Hrv, Hfits.
  unfold lookup_wan, runtime. rewrite Hrt. rewrite (SE_bind_eq _ _ w tt w) by done.
  destruct (identity_run _ _ Hid) as [d Hrun]. exists d.
  rewrite (SE_bind_eq _ _ _ _ _ Hrun). set (w1 := mkCli _ d _ _).
  rewrite (SE_bind_eq _ _ _ _ _ (resolve_target w1 target sk Htarget)).
  assert (Hresp : rendezvous_lookup env url (mkLookup (public_bytes identity) (public_bytes sk)) =
    Ok (mkLookupResponse (Some (mkLookupPeer alias (public_bytes sk) (candidate_to_rendezvous <$> cs) seen)))).
  { unfold rendezvous_lookup. rewrite Hurl. cbn [mbind result_bind]. rewrite Hrv, client_lookup_refines by done.
    cbn [fst]. unfold lookup_request. cbn [lk_target_pubkey]. destruct (lookup_peer now' (public_bytes sk) g1) as [p g2].
    cbn in Hseen. by rewrite Hseen. }
  rewrite Hresp. rewrite !SE_lift_Ok. cbn [lr_peer ok_or]. rewrite SE_lift_Ok. cbn [lp_alias lp_candidates].
  unfold mbind at 1 2, SE_bind at 1 2, println at 1 2, modify. cbv beta iota. rewrite print_all_run.
  cbn [cw_daemon cw_disk cw_sent cw_out w1]. rewrite <-list_fmap_compose, <-!app_assoc. done.
Qed.
End lookup.
