(* ===== verification/Hooks.v ===== *)
(** * Events and hooks

    Model of what crates/daemon/src makes of an emitted event: the event bus and
    the gRPC and SSE streams over it (events.rs, [watch] of api/grpc.rs,
    [events] and [event_json] of api/http.rs), the hook dispatcher
    (hooks/mod.rs), the webhook and exec sinks (hooks/webhook.rs and
    hooks/exec.rs), and the event schema of crates/core/src/hooks.rs.

    The broadcast channel of tokio is an interface: what a receiver has still
    to see is its [backlog], and the laws say how sending and receiving change
    it.  Sinks are run on what the network or the operating system answers,
    with the time each answer takes in milliseconds. *)

From stdpp Require Import prelude gmap strings.
From Stdlib Require Import ZArith Lia.
From S2P Require Import Prelude RustStr Text Discovery Config DaemonApi.

#[local] Set Warnings "-register-all".
Local Open Scope Z_scope.

(** ** JSON values *)

Inductive Value :=
| VNull
| VBool (b : bool)
| VNumber (n : Z)
| VString (s : rstring)
| VArray (l : list Value)
| VObject (fields : list (string * Value)).

(** serde's [Serialize]: structs are objects of their fields, none is null. *)
Class Serialize (A : Type) := serialize : A → Value.
#[export] Instance serialize_text : Serialize rstring := VString.
#[export] Instance serialize_number : Serialize Z := VNumber.
#[export] Instance serialize_bool : Serialize bool := VBool.
#[export] Instance serialize_option `{Serialize A} : Serialize (option A) :=
  λ o, match o with Some a => serialize a | None => VNull end.
#[export] Instance serialize_vec `{Serialize A} : Serialize (list A) | 10 := λ l, VArray (serialize <$> l).

(** ** Hook events (core/src/hooks.rs, hooks/mod.rs) *)

Inductive HookEventType :=
| HkDaemonStarted | HkTransferStarted | HkTransferProgress | HkTransferCompleted | HkTransferFailed
| HkInboxChanged | HkPeerSeen.

Record HookEvent := mkHookEvent {
  he_event_id : rstring; he_event_type : HookEventType; he_occurred_at_unix_seconds : Z; he_payload : Value }.

Definition hook_type_as_str (t : HookEventType) : string :=
  match t with
  | HkDaemonStarted => "daemon_started"
  | HkTransferStarted => "transfer_started"
  | HkTransferProgress => "transfer_progress"
  | HkTransferCompleted => "transfer_completed"
  | HkTransferFailed => "transfer_failed"
  | HkInboxChanged => "inbox_changed"
  | HkPeerSeen => "peer_seen"
  end.

Definition hook_event_type (event : DaemonEvent) : HookEventType :=
  match event with
  | TransferStarted _ => HkTransferStarted
  | TransferProgress _ _ _ => HkTransferProgress
  | TransferCompleted _ => HkTransferCompleted
  | TransferFailed _ _ _ => HkTransferFailed
  | InboxChanged => HkInboxChanged
  | PeerSeen _ _ _ => HkPeerSeen
  end.

Definition hook_payload (event : DaemonEvent) : Value :=
  match event with
  | TransferStarted transfer_id => VObject [("transfer_id", VString transfer_id)]
  | TransferProgress transfer_id bytes_done bytes_total =>
    VObject [("transfer_id", VString transfer_id); ("bytes_done", VNumber bytes_done);
             ("bytes_total", VNumber bytes_total)]
  | TransferCompleted transfer_id => VObject [("transfer_id", VString transfer_id)]
  | TransferFailed transfer_id code message =>
    VObject [("transfer_id", VString transfer_id); ("code", VString code); ("message", VString message)]
  | InboxChanged => VObject []
  | PeerSeen alias address port =>
    VObject [("alias", VString alias); ("address", VString address); ("port", VNumber port)]
  end.

Definition hook_event_from_envelope (envelope : DaemonEventEnvelope) : HookEvent :=
  mkHookEvent (ev_event_id envelope) (hook_event_type (ev_event envelope))
    (ev_occurred_at_unix_seconds envelope) (hook_payload (ev_event envelope)).

(** ** Events as the API shows them (events.rs, api/http.rs) *)

Inductive DaemonEventType :=
| TyUnspecified | TyTransferStarted | TyTransferProgress | TyTransferCompleted | TyTransferFailed
| TyInboxChanged | TyPeerSeen.

Record TransferFile := mkTransferFile {
  tf_file_id : rstring; tf_file_name : rstring; tf_path : option rstring; tf_size : Z; tf_bytes_done : Z; tf_blake3 : option rstring }.
Record InboxEntryMessage := mkInboxMessage {
  im_file_name : rstring; im_path : rstring; im_size : Z; im_modified_unix_seconds : Z }.

(** The messages with the fields [to_proto] fills; the other fields of a peer
    are absent or unset. *)
Inductive Payload :=
| PTransferStarted (transfer_id : rstring) (created_at updated_at : Z)
| PTransferProgress (transfer_id : rstring) (bytes_done bytes_total : Z) (files : list TransferFile)
| PTransferCompleted (transfer_id : rstring) (inbox_entries : list InboxEntryMessage)
| PTransferFailed (transfer_id code message : rstring)
| PInboxChanged (entries : list InboxEntryMessage)
| PPeerSeen (alias address : rstring) (port : Z).
Record ProtoDaemonEvent := mkProtoEvent {
  pe_event_id : rstring; pe_occurred_at_unix_seconds : Z; pe_type : DaemonEventType; pe_payload : option Payload }.

Definition proto (e : DaemonEventEnvelope) (event_type : DaemonEventType) (payload : Payload) : ProtoDaemonEvent :=
  mkProtoEvent (ev_event_id e) (ev_occurred_at_unix_seconds e) event_type (Some payload).

Definition to_proto (e : DaemonEventEnvelope) : ProtoDaemonEvent :=
  let at_ := ev_occurred_at_unix_seconds e in
  match ev_event e with
  | TransferStarted transfer_id => proto e TyTransferStarted (PTransferStarted transfer_id at_ at_)
  | TransferProgress transfer_id bytes_done bytes_total =>
    proto e TyTransferProgress (PTransferProgress transfer_id bytes_done bytes_total [])
  | TransferCompleted transfer_id => proto e TyTransferCompleted (PTransferCompleted transfer_id [])
  | TransferFailed transfer_id code message => proto e TyTransferFailed (PTransferFailed transfer_id code message)
  | InboxChanged => proto e TyInboxChanged (PInboxChanged [])
  | PeerSeen alias address port => proto e TyPeerSeen (PPeerSeen alias address port)
  end.

Definition event_type_name (event_type : DaemonEventType) : string :=
  match event_type with
  | TyTransferStarted => "transfer_started"
  | TyTransferProgress => "transfer_progress"
  | TyTransferCompleted => "transfer_completed"
  | TyTransferFailed => "transfer_failed"
  | TyInboxChanged => "inbox_changed"
  | TyPeerSeen => "peer_seen"
  | TyUnspecified => "unspecified"
  end.

Definition transfer_files_json (files : list TransferFile) : list Value :=
  (λ file, VObject [("file_id", VString (tf_file_id file)); ("file_name", VString (tf_file_name file));
                    ("path", serialize (tf_path file)); ("size", VNumber (tf_size file));
                    ("bytes_done", VNumber (tf_bytes_done file)); ("blake3", serialize (tf_blake3 file))]) <$> files.
Definition inbox_entries_json (entries : list InboxEntryMessage) : list Value :=
  (λ entry, VObject [("file_name", VString (im_file_name entry)); ("path", VString (im_path entry));
                     ("size", VNumber (im_size entry));
                     ("modified_unix_seconds", VNumber (im_modified_unix_seconds entry))]) <$> entries.

(** Directions, states and protocols are their numbers in the .proto files, where
    unspecified is 0. *)
Definition TransferState_Active : Z := 2.
Definition payload_json (payload : Payload) : string * Value :=
  match payload with
  | PTransferStarted transfer_id created_at updated_at =>
    ("transfer_started", VObject [("transfer", VObject
      [("transfer_id", VString transfer_id); ("peer_fingerprint", VString []); ("direction", VNumber 0);
       ("state", VNumber TransferState_Active); ("bytes_total", VNumber 0); ("bytes_done", VNumber 0);
       ("created_at_unix_seconds", VNumber created_at); ("updated_at_unix_seconds", VNumber updated_at)])])
  | PTransferProgress transfer_id bytes_done bytes_total files =>
    ("transfer_progress", VObject [("transfer_id", VString transfer_id); ("bytes_done", VNumber bytes_done);
      ("bytes_total", VNumber bytes_total); ("files", VArray (transfer_files_json files))])
  | PTransferCompleted transfer_id inbox_entries =>
    ("transfer_completed", VObject [("transfer_id", VString transfer_id); ("inbox_entries", VArray (inbox_entries_json inbox_entries))])
  | PTransferFailed transfer_id code message =>
    ("transfer_failed", VObject [("transfer_id", VString transfer_id);
      ("error", VObject [("code", VString code); ("message", VString message)])])
  | PInboxChanged entries => ("inbox_changed", VObject [("entries", VArray (inbox_entries_json entries))])
  | PPeerSeen alias address port =>
    ("peer_seen", VObject [("peer", VObject
      [("alias", VString alias); ("address", VString address); ("port", VNumber port); ("protocol", VNumber 0);
       ("fingerprint", VNull); ("device_model", VNull); ("device_type", VNull); ("download", VBool false);
       ("extensions", VArray [])])])
  end.

Definition event_json (event : ProtoDaemonEvent) : Value :=
  VObject ([("event_id", VString (pe_event_id event));
            ("occurred_at_unix_seconds", VNumber (pe_occurred_at_unix_seconds event));
            ("type", VString (str (event_type_name (pe_type event))))] ++
           match pe_payload event with Some payload => [payload_json payload] | None => [] end).

(** ** The broadcast channel *)

Definition EVENT_CHANNEL_CAPACITY : nat := 256.

Inductive Outcome (A : Type) := Pending | Received (a : A) | Lagged (skipped : nat) | Closed.
Arguments Pending {A}. Arguments Received {A}. Arguments Lagged {A}. Arguments Closed {A}.

(** A channel seen by one receiver; the daemon keeps a sender, so it is not
    closed. *)
Class Broadcast (A : Type) := {
  channel : Type;
  subscribe : channel;
  send : A → channel → channel;
  recv : channel → Outcome A * channel }.
Class BroadcastLaws (A : Type) `{Broadcast A} := {
  backlog : channel → list A;
  backlog_new : backlog subscribe = [];
  backlog_send a c : backlog (send a c) = backlog c ++ [a];
  recv_empty c : backlog c = [] → (recv c).1 = Pending ∧ backlog (recv c).2 = [];
  recv_next c a l :
    backlog c = a :: l → (length l < EVENT_CHANNEL_CAPACITY)%nat →
    (recv c).1 = Received a ∧ backlog (recv c).2 = l;
  recv_lagged c :
    (EVENT_CHANNEL_CAPACITY < length (backlog c))%nat →
    (recv c).1 = Lagged (length (backlog c) - EVENT_CHANNEL_CAPACITY) ∧
    backlog (recv c).2 = drop (length (backlog c) - EVENT_CHANNEL_CAPACITY) (backlog c) }.

(** ** Sinks *)

Record WebhookSink := mkWebhookSink { wh_url : rstring; wh_secret : rstring; wh_max_attempts : Z }.
Record ExecSink := mkExecSink { ex_command : rstring; ex_timeout : Z }.
Inductive HookSink := WebhookHook (sink : WebhookSink) | ExecHook (sink : ExecSink).

Definition webhook_new (url secret : rstring) (max_attempts : Z) : WebhookSink :=
  mkWebhookSink url secret (Z.max max_attempts 1).

Definition from_config (config : AppConfig) : list HookSink :=
  (λ hook, match hook with
           | Webhook url secret max_attempts => WebhookHook (webhook_new url secret max_attempts)
           | Exec command timeout_seconds => ExecHook (mkExecSink command timeout_seconds)
           end) <$> ac_hooks config.

(** ** The dispatcher and the streams *)

Inductive Wake :=
| Emit (now : Z) (event : DaemonEvent)
| Recv
| ShutdownChanged (value : option bool). (* [None]: the sender is gone *)

Section bus.
Context `{Broadcast DaemonEventEnvelope}.

(** A subscriber and what it has made of the events it received. *)
Record Subscriber (B : Type) := mkSubscriber {
  sb_channel : channel; sb_next_id : Z; sb_running : bool; sb_out : list B }.
Arguments mkSubscriber {B}. Arguments sb_channel {B}. Arguments sb_next_id {B}. Arguments sb_running {B}.
Arguments sb_out {B}.

Definition new_subscriber (B : Type) (next_id : Z) : Subscriber B := mkSubscriber subscribe next_id true [].

(** [EventBus::emit], as the subscriber sees it. *)
Definition bus_emit {B} (now : Z) (event : DaemonEvent) (s : Subscriber B) : Subscriber B :=
  mkSubscriber (send (mkEnvelope (show_dec (sb_next_id s)) now event) (sb_channel s))
    (add_u64 (sb_next_id s) 1) (sb_running s) (sb_out s).

(** The [match rx.recv()] of the three loops, with what each makes of an event. *)
Definition on_recv {B} (f : DaemonEventEnvelope → list B) (s : Subscriber B) : Subscriber B :=
  if sb_running s then
    let '(outcome, c) := recv (sb_channel s) in
    match outcome with
    | Pending | Lagged _ => mkSubscriber c (sb_next_id s) true (sb_out s)
    | Received envelope => mkSubscriber c (sb_next_id s) true (sb_out s ++ f envelope)
    | Closed => mkSubscriber c (sb_next_id s) false (sb_out s)
    end
  else s.

Definition dispatch (sinks : list HookSink) (event : HookEvent) : list (HookSink * HookEvent) :=
  (λ sink, (sink, event)) <$> sinks.

(** One turn of the [select!] of [run_dispatcher]; [sb_out] holds the deliveries
    spawned. *)
Definition run_dispatcher (sinks : list HookSink) (s : Subscriber (HookSink * HookEvent)) (wake : Wake) :
    Subscriber (HookSink * HookEvent) :=
  match wake with
  | Emit now event => bus_emit now event s
  | Recv => on_recv (λ envelope, dispatch sinks (hook_event_from_envelope envelope)) s
  | ShutdownChanged value =>
    match value with
    | Some false => s
    | _ => mkSubscriber (sb_channel s) (sb_next_id s) false (sb_out s)
    end
  end.

(** The streams of [watch] and of [events]. *)
Definition watch (s : Subscriber ProtoDaemonEvent) (wake : Wake) : Subscriber ProtoDaemonEvent :=
  match wake with
  | Emit now event => bus_emit now event s
  | Recv => on_recv (λ envelope, [to_proto envelope]) s
  | ShutdownChanged _ => s
  end.
Definition events_stream (s : Subscriber Value) (wake : Wake) : Subscriber Value :=
  match wake with
  | Emit now event => bus_emit now event s
  | Recv => on_recv (λ envelope, [event_json (to_proto envelope)]) s
  | ShutdownChanged _ => s
  end.
End bus.
Arguments mkSubscriber {_ B}. Arguments sb_channel {_ B}. Arguments sb_next_id {_ B}. Arguments sb_running {_ B}.
Arguments sb_out {_ B}.

(** ** The webhook sink (hooks/webhook.rs) *)

(** [serde_json] on hook events, HMAC-SHA-256, and which header values the http
    crate takes: visible ASCII at least. *)
Class HookEnv := {
  hook_to_vec : HookEvent → bytes;
  hmac_sha256 : bytes → bytes → bytes;
  header_value_ok : rstring → bool }.
Class HookEnvLaws `{HookEnv} := {
  hmac_bytes key m : Forall byte_ok (hmac_sha256 key m);
  header_visible s : Forall (λ c, 33 ≤ c ≤ 126) s → header_value_ok s = true }.

Inductive WebhookDeliveryError := HeaderError | Network | RetryableStatus (status : Z) | HttpStatus (status : Z).
Definition is_retryable (e : WebhookDeliveryError) : bool :=
  match e with Network | RetryableStatus _ => true | _ => false end.

(** The answer to one post, and how long it takes. *)
Record PostAnswer := mkPostAnswer { pa_after : Z; pa_status : option Z }.
Record Post := mkPost {
  po_at : Z; po_url : rstring; po_event : string; po_signature : rstring; po_body : bytes }.

Section webhook.
Context `{HookEnv} (sink : WebhookSink) (event : HookEvent).

Definition sign_payload (secret : rstring) (payload : bytes) : rstring :=
  encode_hex (hmac_sha256 (utf8_encode secret) payload).

Definition send_once (at_ : Z) (body : bytes) (signature : rstring) (answer : PostAnswer) :
    result WebhookDeliveryError unit * Z * list Post :=
  if header_value_ok signature then
    (match pa_status answer with
     | None => Err Network
     | Some status =>
       if (200 <=? status) && (status <=? 299) then Ok tt
       else if (500 <=? status) && (status <=? 599) then Err (RetryableStatus status)
       else Err (HttpStatus status)
     end, at_ + pa_after answer,
     [mkPost at_ (wh_url sink) (hook_type_as_str (he_event_type event)) signature body])
  else (Err HeaderError, at_, []).

(** [for attempt in 1..=max_attempts], from the attempts left. *)
Fixpoint deliver_attempts (body : bytes) (signature : rstring) (answers : Z → PostAnswer)
    (last_retryable_error : option WebhookDeliveryError) (at_ : Z) (attempts : list Z) :
    result WebhookDeliveryError unit * Z * list Post :=
  match attempts with
  | [] => (Err (default (RetryableStatus 500) last_retryable_error), at_, [])
  | attempt :: attempts =>
    let '(result, at_, posted) := send_once at_ body signature (answers attempt) in
    match result with
    | Ok _ => (Ok tt, at_, posted)
    | Err error =>
      if is_retryable error && (attempt <? wh_max_attempts sink) then
        let '(r, at_, posts) := deliver_attempts body signature answers (Some error) at_ attempts in
        (r, at_, posted ++ posts)
      else (Err error, at_, posted)
    | Panic => (Panic, at_, posted)
    end
  end.

Definition webhook_deliver (answers : Z → PostAnswer) : result WebhookDeliveryError unit * Z * list Post :=
  let body := hook_to_vec event in
  let signature := str "sha256=" ++ sign_payload (wh_secret sink) body in
  deliver_attempts body signature answers None 0 (seqZ 1 (wh_max_attempts sink)).
End webhook.

(** ** The exec sink (hooks/exec.rs) *)

(** [s.split_whitespace()] *)
Fixpoint split_blank (s : rstring) : list rstring :=
  match s with
  | [] => [[]]
  | c :: s =>
    if is_whitespace c then [] :: split_blank s
    else match split_blank s with piece :: pieces => (c :: piece) :: pieces | [] => [[c]] end
  end.
Definition split_whitespace (s : rstring) : list rstring := filter (λ piece, piece ≠ []) (split_blank s).

Definition OUTPUT_ERROR_CAP_BYTES : nat := 4096.
(** The bytes kept of an output and whether there were more. *)
Definition capped_output (output : bytes) : bytes * bool :=
  (take (Nat.min (length output) OUTPUT_ERROR_CAP_BYTES) output,
   bool_decide (OUTPUT_ERROR_CAP_BYTES < length output)%nat).

(** What becomes of the program: it cannot be started, or it ends. *)
Inductive ProcessOutcome := SpawnFailed | Exited (after : Z) (code : Z) (stdout stderr : bytes).
Inductive ExecError :=
| BlankCommand
| TimedOut (timeout : Z)
| SpawnError (program : rstring)
| ExitedWith (code : Z) (stdout stderr : bytes * bool).
Record Command := mkCommand { cmd_program : rstring; cmd_args : list rstring; cmd_env : list (string * bytes) }.

Section exec.
Context `{HookEnv}.

Definition exec_deliver (sink : ExecSink) (event : HookEvent) (outcome : Command → ProcessOutcome) :
    result ExecError unit * Z * list Command :=
  match split_whitespace (ex_command sink) with
  | [] => (Err BlankCommand, 0, [])
  | program :: args =>
    let command := mkCommand program args
      [("NBRG_EVENT_ID", utf8_encode (he_event_id event));
       ("NBRG_EVENT_TYPE", utf8_encode (str (hook_type_as_str (he_event_type event))));
       ("NBRG_EVENT_JSON", hook_to_vec event)] in
    match outcome command with
    | SpawnFailed => (Err (SpawnError program), 0, [command])
    | Exited after code stdout stderr =>
      if ex_timeout sink * 1000 <? after then (Err (TimedOut (ex_timeout sink)), ex_timeout sink * 1000, [command])
      else if code =? 0 then (Ok tt, after, [command])
      else (Err (ExitedWith code (capped_output stdout) (capped_output stderr)), after, [command])
    end
  end.

(** The limit the dispatcher puts on a delivery. *)
Definition HOOK_DELIVERY_TIMEOUT : Z := 30.
Definition within_limit {E A} (delivery : result E unit * Z * list A) : option (result E unit) :=
  let '(r, elapsed, _) := delivery in
  if HOOK_DELIVERY_TIMEOUT * 1000 <? elapsed then None else Some r.

(** What a delivery does outside the daemon. *)
Inductive HookAct := HookPost (post : Post) | HookRun (command : Command).

(** [HookSink::deliver] *)
Definition hook_deliver (sink : HookSink) (event : HookEvent) (answers : Z → PostAnswer)
    (outcome : Command → ProcessOutcome) : result (WebhookDeliveryError + ExecError) unit * Z * list HookAct :=
  match sink with
  | WebhookHook sink =>
    let '(r, elapsed, posts) := webhook_deliver sink event answers in (map_err inl r, elapsed, HookPost <$> posts)
  | ExecHook sink =>
    let '(r, elapsed, commands) := exec_deliver sink event outcome in (map_err inr r, elapsed, HookRun <$> commands)
  end.

(** The dispatcher subscribes and is left to run. *)
Definition start_hook_dispatcher `{Broadcast DaemonEventEnvelope} (config : AppConfig) (next_id : Z) (wakes : list Wake) :
    Subscriber (HookSink * HookEvent) :=
  foldl (run_dispatcher (from_config config)) (new_subscriber _ next_id) wakes.
(** [stop_hook_dispatcher], after which nothing more is dispatched. *)
Definition stop_hook_dispatcher `{Broadcast DaemonEventEnvelope} (config : AppConfig) (s : Subscriber (HookSink * HookEvent)) :
    Subscriber (HookSink * HookEvent) :=
  run_dispatcher (from_config config) s (ShutdownChanged (Some true)).
End exec.

(** ** Correctness of the webhook sink *)

(** What one answer means. *)
Definition verdict (answer : PostAnswer) : result WebhookDeliveryError unit :=
  match pa_status answer with
  | None => Err Network
  | Some status =>
    if (200 <=? status) && (status <=? 299) then Ok tt
    else if (500 <=? status) && (status <=? 599) then Err (RetryableStatus status)
    else Err (HttpStatus status)
  end.
Definition retryable (r : result WebhookDeliveryError unit) : Prop := ∃ e, r = Err e ∧ is_retryable e = true.

Section webhook_facts.
Context `{HookEnvLaws} (sink : WebhookSink) (event : HookEvent).

Lemma hexdigit_visible c : is_ascii_hexdigit c && negb (is_ascii_uppercase c) = true → 33 ≤ c ≤ 126.
Proof.
  unfold is_ascii_hexdigit, is_ascii_digit, is_ascii_uppercase. intros. bools; lia.
Qed.

Lemma signature_ok secret body : header_value_ok (str "sha256=" ++ sign_payload secret body) = true.
Proof.
  apply header_visible, Forall_app. split.
  - apply (bool_decide_unpack _). vm_compute. done.
  - unfold sign_payload. rewrite encode_hex_eq by apply hmac_bytes.
    eapply Forall_impl; [apply hex_encode_hexdigits, hmac_bytes|]. intros c. apply hexdigit_visible.
Qed.

(** What the receiver of the [n]-th post sees. *)
Definition post_ok (signature : rstring) (body : bytes) (p : Post) : Prop :=
  po_url p = wh_url sink ∧ po_event p = hook_type_as_str (he_event_type event) ∧
  po_signature p = signature ∧ po_body p = body.

Lemma send_once_eq at_ body signature answer :
  header_value_ok signature = true →
  send_once sink event at_ body signature answer =
  (verdict answer, at_ + pa_after answer,
   [mkPost at_ (wh_url sink) (hook_type_as_str (he_event_type event)) signature body]).
Proof. intros Hs. unfold send_once. by rewrite Hs. Qed.

Lemma verdict_no_panic answer : verdict answer ≠ Panic.
Proof. unfold verdict. repeat case_match; done. Qed.

(** [n] posts were made from attempt [k] on, out of [m] left. *)
Record attempts_made (signature : rstring) (body : bytes) (answers : Z → PostAnswer) (k : Z) (m : nat)
    (out : result WebhookDeliveryError unit * Z * list Post) : Prop := {
  am_some : (1 ≤ length out.2 ≤ m)%nat;
  am_posts : Forall (post_ok signature body) out.2;
  am_retried i : k ≤ i < k + zlen out.2 - 1 → retryable (verdict (answers i));
  am_result : out.1.1 = verdict (answers (k + zlen out.2 - 1));
  am_stop : length out.2 = m ∨ ¬ retryable out.1.1 }.

Lemma deliver_attempts_spec signature body answers m :
  header_value_ok signature = true → m ≠ 0%nat → ∀ k last at_,
  k + Z.of_nat m - 1 = wh_max_attempts sink →
  attempts_made signature body answers k m
    (deliver_attempts sink event body signature answers last at_ (seqZ k (Z.of_nat m))).
Proof.
  intros Hs. induction m as [|m IH]; intros Hm k last at_ Hk; [done|].
  rewrite seqZ_cons by lia. replace (Z.pred (Z.of_nat (S m))) with (Z.of_nat m) by lia.
  cbn [deliver_attempts]. rewrite send_once_eq by done. set (p := mkPost _ _ _ _ _).
  assert (Hp : post_ok signature body p) by done.
  destruct (verdict (answers k)) as [[]|e|] eqn:Hv; [| |by destruct (verdict_no_panic (answers k))].
  - split; cbn [fst snd length]; [lia|by constructor|unfold zlen; simpl; lia| |by right; intros (? & ? & ?)].
    by replace (k + zlen [p] - 1) with k by (unfold zlen; simpl; lia).
  - destruct (is_retryable e && (k <? wh_max_attempts sink)) eqn:Hretry.
    + apply andb_true_iff in Hretry as [Hr Hlt%Z.ltb_lt].
      assert (Hm' : m ≠ 0%nat) by lia.
      specialize (IH Hm' (Z.succ k) (Some e) (at_ + pa_after (answers k)) ltac:(lia)).
      destruct (deliver_attempts _ _ _ _ _ _ _ _) as [[r at'] posts].
      destruct IH as [Hn Hposts Hret Hres Hstop]. cbn [fst snd] in *.
      assert (Hl : zlen ([p] ++ posts) = 1 + zlen posts) by (unfold zlen; simpl; lia).
      split; cbn [fst snd]; rewrite ?Hl.
      * simpl. lia.
      * by constructor.
      * intros i Hi. destruct (decide (i = k)) as [->|Hne]; [by exists e|]. apply Hret. lia.
      * rewrite Hres. f_equal. f_equal. lia.
      * simpl. destruct Hstop as [->|?]; [by left|by right].
    + split; cbn [fst snd length]; [lia|by constructor|unfold zlen; simpl; lia| |].
      * by replace (k + zlen [p] - 1) with k by (unfold zlen; simpl; lia).
      * apply andb_false_iff in Hretry as [Hr|Hge%Z.ltb_ge]; [right|left; lia].
        intros (e' & [= <-] & ?). congruence.
Qed.
End webhook_facts.


(** ** Correctness of the event streams *)

(** The envelopes the bus makes of the events emitted during [wakes]. *)
Fixpoint emitted (next_id : Z) (wakes : list Wake) : list DaemonEventEnvelope :=
  match wakes with
  | [] => []
  | Emit now event :: wakes => mkEnvelope (show_dec next_id) now event :: emitted (add_u64 next_id 1) wakes
  | _ :: wakes => emitted next_id wakes
  end.

(** How many events a subscriber has still to see, while it is not stopped and
    never more than the capacity behind when it looks. *)
Fixpoint pending (n : nat) (wakes : list Wake) : option nat :=
  match wakes with
  | [] => Some n
  | Emit _ _ :: wakes => pending (S n) wakes
  | Recv :: wakes => if bool_decide (EVENT_CHANNEL_CAPACITY < n)%nat then None else pending (pred n) wakes
  | ShutdownChanged (Some false) :: wakes => pending n wakes
  | ShutdownChanged _ :: _ => None
  end.

Section subscribers.
Context `{BroadcastLaws DaemonEventEnvelope} {B : Type} (f : DaemonEventEnvelope → list B).
Context (turn : Subscriber B → Wake → Subscriber B).
Hypothesis turn_emit : ∀ s now event, turn s (Emit now event) = bus_emit now event s.
Hypothesis turn_recv : ∀ s, turn s Recv = on_recv f s.
Hypothesis turn_idle : ∀ s, turn s (ShutdownChanged (Some false)) = s.
Hypothesis turn_shutdown : ∀ s v, ∃ running,
  turn s (ShutdownChanged v) = mkSubscriber (sb_channel s) (sb_next_id s) running (sb_out s).

(** [seen] has been made into output; [sent] is everything sent since the
    subscription. *)
Definition explains (s : Subscriber B) (sent seen : list DaemonEventEnvelope) : Prop :=
  sb_out s = seen ≫= f ∧ seen ++ backlog (sb_channel s) `sublist_of` sent.

Lemma on_recv_explains s sent seen :
  explains s sent seen → ∃ seen', explains (on_recv f s) sent seen' ∧ sb_next_id (on_recv f s) = sb_next_id s.
Proof.
  intros [Hout Hsub]. unfold on_recv. destruct (sb_running s) eqn:Hrun; [|by exists seen].
  destruct (backlog (sb_channel s)) as [|a l] eqn:Hb.
  { destruct (recv_empty _ Hb) as [Ho Hb']. destruct (recv (sb_channel s)) as [o c]. simpl in *. subst o.
    exists seen. split; [|done]. split; simpl; [done|]. by rewrite Hb'. }
  destruct (decide (length l < EVENT_CHANNEL_CAPACITY)%nat) as [Hlt|Hge].
  - destruct (recv_next _ _ _ Hb Hlt) as [Ho Hb']. destruct (recv (sb_channel s)) as [o c]. simpl in *. subst o.
    exists (seen ++ [a]). split; [|done]. split; simpl.
    + rewrite Hout, bind_app. cbn [mbind list_bind]. by rewrite app_nil_r.
    + by rewrite Hb', <- app_assoc.
  - destruct (recv_lagged (sb_channel s)) as [Ho Hb']; [rewrite Hb; simpl; lia|].
    destruct (recv (sb_channel s)) as [o c]. cbn [fst snd] in *. subst o.
    exists seen. split; [|done]. split; simpl; [done|]. etrans; [|exact Hsub].
    apply sublist_app; [done|]. rewrite Hb', Hb. apply sublist_drop.
Qed.

Lemma stream_in_order wakes : ∀ s sent seen,
  explains s sent seen →
  ∃ seen', explains (foldl turn s wakes) (sent ++ emitted (sb_next_id s) wakes) seen'.
Proof.
  induction wakes as [|wake wakes IH]; intros s sent seen Hex; cbn [foldl emitted].
  { exists seen. by rewrite app_nil_r. }
  destruct wake as [now event| |v].
  - rewrite turn_emit. change (sb_next_id s) with (sb_next_id s). rewrite cons_middle, app_assoc.
    apply (IH (bus_emit now event s) _ seen). destruct Hex as [Hout Hsub]. split; [done|]. simpl.
    rewrite backlog_send, app_assoc. by apply sublist_app.
  - rewrite turn_recv. destruct (on_recv_explains _ _ _ Hex) as (seen' & Hex' & <-). by eapply IH.
  - destruct (turn_shutdown s v) as [running ->].
    by apply (IH (mkSubscriber (sb_channel s) (sb_next_id s) running (sb_out s)) _ seen).
Qed.

Lemma stream_complete wakes : ∀ s n seen,
  sb_running s = true → sb_out s = seen ≫= f →
  pending (length (backlog (sb_channel s))) wakes = Some n →
  ∃ seen', let s' := foldl turn s wakes in
    sb_running s' = true ∧ sb_out s' = seen' ≫= f ∧ length (backlog (sb_channel s')) = n ∧
    seen ++ backlog (sb_channel s) ++ emitted (sb_next_id s) wakes = seen' ++ backlog (sb_channel s').
Proof.
  induction wakes as [|wake wakes IH]; intros s n seen Hrun Hout Hp; cbn [foldl emitted].
  { exists seen. simpl in Hp. injection Hp as Hp. by rewrite app_nil_r. }
  destruct wake as [now event| |v]; cbn [pending] in Hp.
  - rewrite turn_emit. destruct (IH (bus_emit now event s) n seen) as (seen' & IH'); [done..| |].
    { simpl. by rewrite backlog_send, length_app, Nat.add_comm. }
    exists seen'. simpl in IH'. rewrite backlog_send in IH'. by rewrite <- app_assoc in IH'.
  - rewrite turn_recv. case_bool_decide as Hlag; [done|]. unfold on_recv. rewrite Hrun.
    destruct (backlog (sb_channel s)) as [|a l] eqn:Hb.
    + destruct (recv_empty _ Hb) as [Ho Hb']. destruct (recv (sb_channel s)) as [o c]. simpl in Ho, Hb'. subst o.
      destruct (IH (mkSubscriber c (sb_next_id s) true (sb_out s)) n seen) as (seen' & IH'); [done..| |].
      { simpl. by rewrite Hb'. }
      exists seen'. simpl in IH'. by rewrite Hb' in IH'.
    + destruct (recv_next _ _ _ Hb) as [Ho Hb']; [simpl in Hlag; lia|].
      destruct (recv (sb_channel s)) as [o c]. simpl in Ho, Hb'. subst o.
      destruct (IH (mkSubscriber c (sb_next_id s) true (sb_out s ++ f a)) n (seen ++ [a])) as (seen' & IH'); [done| | |].
      { simpl. rewrite Hout, bind_app. cbn [mbind list_bind]. by rewrite app_nil_r. }
      { simpl. by rewrite Hb'. }
      exists seen'. simpl in IH'. rewrite Hb', <- app_assoc in IH'. exact IH'.
  - destruct v as [[]|]; [done| |done]. rewrite turn_idle. by apply IH.
Qed.
End subscribers.

Section bus_claims.
Context `{BroadcastLaws DaemonEventEnvelope}.

(** What one subscriber promises of the events emitted since it subscribed. *)
Definition stream_promise {B} (f : DaemonEventEnvelope → list B) (next_id : Z) (wakes : list Wake)
    (s : Subscriber B) : Prop :=
  (∃ seen, seen `sublist_of` emitted next_id wakes ∧ sb_out s = seen ≫= f) ∧
  (∀ n, pending 0 wakes = Some n →
     ∃ seen unseen, emitted next_id wakes = seen ++ unseen ∧ length unseen = n ∧ sb_out s = seen ≫= f).

Lemma stream_keeps_promise {B} (f : DaemonEventEnvelope → list B) turn next_id wakes :
  (∀ s now event, turn s (Emit now event) = bus_emit now event s) →
  (∀ s, turn s Recv = on_recv f s) →
  (∀ s, turn s (ShutdownChanged (Some false)) = s) →
  (∀ s v, ∃ running, turn s (ShutdownChanged v) = mkSubscriber (sb_channel s) (sb_next_id s) running (sb_out s)) →
  stream_promise f next_id wakes (foldl turn (new_subscriber B next_id) wakes).
Proof.
  intros He Hr Hi Hs. split.
  - destruct (stream_in_order f turn He Hr Hs wakes (new_subscriber B next_id) [] []) as (seen & Hout & Hsub).
    { split; simpl; [done|]. by rewrite backlog_new. }
    exists seen. split; [|done]. etrans; [|exact Hsub]. by apply sublist_inserts_r.
  - intros n Hn.
    destruct (stream_complete f turn He Hr Hi wakes (new_subscriber B next_id) n []) as (seen & _ & Hout & Hl & Heq);
      [done|done|simpl; by rewrite backlog_new|].
    simpl in Heq. rewrite backlog_new in Heq. by exists seen, (backlog (sb_channel (foldl turn (new_subscriber B next_id) wakes))).
Qed.

(** C25: Every subscriber of the event bus sees each event at most once and in
    the order of emission: the deliveries the hook dispatcher spawns are, for a
    subsequence of the events emitted since it started, one per configured
    sink in the order of the configuration; the gRPC stream and the SSE stream
    yield the events of such a subsequence.  Until it is told to stop, a
    subscriber that never looks when it is more than the capacity of 256
    events behind loses none: what it has seen is all that was emitted but
    the events still pending, and with none pending it is every event. *)
Theorem event_streams_in_order next_id sinks wakes :
  stream_promise (λ e, dispatch sinks (hook_event_from_envelope e)) next_id wakes
    (foldl (run_dispatcher sinks) (new_subscriber _ next_id) wakes) ∧
  stream_promise (λ e, [to_proto e]) next_id wakes (foldl watch (new_subscriber _ next_id) wakes) ∧
  stream_promise (λ e, [event_json (to_proto e)]) next_id wakes
    (foldl events_stream (new_subscriber _ next_id) wakes).
Proof.
  split_and!; apply stream_keeps_promise; try done.
  - intros [c i r o] [[]|]; by eexists.
  - intros [c i r o] v; by eexists.
  - intros [c i r o] v; by eexists.
Qed.
End bus_claims.

(** ** Correctness of configured hooks *)

Lemma split_blank_concat s : Forall (λ c, is_whitespace c = true) s ↔ split_whitespace s = [].
Proof.
  unfold split_whitespace. induction s as [|c s IH]; simpl.
  { rewrite filter_cons_False by (intros Hne; by apply Hne). by split. }
  rewrite Forall_cons. destruct (is_whitespace c).
  - rewrite filter_cons_False by (intros Hne; by apply Hne). naive_solver.
  - split; [by intros []|]. destruct (split_blank s); rewrite filter_cons_True by done; done.
Qed.

Lemma command_program command : is_blank command = false → ∃ program args, split_whitespace command = program :: args.
Proof.
  intros Hb. destruct (split_whitespace command) as [|program args] eqn:Hs; [|by eauto].
  apply split_blank_concat in Hs. unfold is_blank in Hb. apply bool_decide_eq_false in Hb. destruct Hb.
  unfold trim. rewrite (proj2 (trim_start_nil command) Hs). done.
Qed.

(** With a validated configuration every exec hook starts its program: the
    command has a first word, the program is run once with the remaining words
    as arguments and the event in its environment, and what is reported of its
    output is at most 4096 bytes of each stream.  It succeeds exactly when the
    program ends within the configured time-out with status 0.  The dispatcher
    waits no more than 30 seconds: a program that needs longer is given up even
    where the configured time-out allows it. *)
Theorem exec_hooks_run `{HookEnv} config event outcome :
  config_ok config →
  ∀ sink, ExecHook sink ∈ from_config config →
  ∃ program args env,
    split_whitespace (ex_command sink) = program :: args ∧
    (exec_deliver sink event outcome).2 = [mkCommand program args env] ∧
    match outcome (mkCommand program args env) with
    | SpawnFailed => (exec_deliver sink event outcome).1.1 = Err (SpawnError program)
    | Exited after code stdout stderr =>
      ((exec_deliver sink event outcome).1.1 = Ok tt ↔ after ≤ ex_timeout sink * 1000 ∧ code = 0) ∧
      (∀ c out err, (exec_deliver sink event outcome).1.1 = Err (ExitedWith c out err) →
         c = code ∧ (length out.1 ≤ 4096)%nat ∧ (length err.1 ≤ 4096)%nat) ∧
      (30000 < after → 30 < ex_timeout sink → within_limit (exec_deliver sink event outcome) = None)
    end.
Proof.
  intros Hok sink (hook & Hhook & Hin)%list_elem_of_fmap.
  pose proof (proj1 (Forall_forall _ _) (ok_hooks _ Hok) _ Hin) as Hh.
  destruct hook as [url secret m|command timeout]; [done|]. injection Hhook as ->. destruct Hh as [Hb _].
  destruct (command_program command Hb) as (program & args & Hs). eexists program, args, _. split; [done|].
  unfold exec_deliver, within_limit, HOOK_DELIVERY_TIMEOUT. simpl ex_command. simpl ex_timeout. rewrite Hs.
  split; [repeat case_match; reflexivity|]. destruct (outcome _) as [|after code stdout stderr]; [done|].
  destruct (Z.ltb_spec (timeout * 1000) after) as [Hlate|Hin_time]; cbn [fst snd].
  { split_and!; [split; [done|lia]|done|]. intros. case_match; [done|]. bools. lia. }
  destruct (Z.eqb_spec code 0) as [->|Hne]; cbn [fst snd].
  { split_and!; [done|done|]. intros. case_match; [done|]. bools. lia. }
  split_and!; [naive_solver| |].
  - intros c out err [= <- <- <-]. unfold capped_output, OUTPUT_ERROR_CAP_BYTES. cbn [fst].
    rewrite !length_take. lia.
  - intros. case_match; [done|]. bools. lia.
Qed.

Lemma webhook_posts `{HookEnvLaws} sink event answers :
  1 ≤ wh_max_attempts sink →
  let posts := (webhook_deliver sink event answers).2 in
  zlen posts ≤ wh_max_attempts sink ∧
  Forall (post_ok sink event (str "sha256=" ++ sign_payload (wh_secret sink) (hook_to_vec event)) (hook_to_vec event)) posts.
Proof.
  intros Hm. unfold webhook_deliver.
  pose proof (deliver_attempts_spec sink event _ (hook_to_vec event) answers (Z.to_nat (wh_max_attempts sink))
    (signature_ok (wh_secret sink) (hook_to_vec event)) ltac:(lia) 1 None 0 ltac:(lia)) as Hspec.
  rewrite Z2Nat.id in Hspec by lia. destruct Hspec as [Hn Hposts _ _ _]. split; [unfold zlen; lia|done].
Qed.

(** What a delivery to a hook may do. *)
Definition acts_as `{HookEnv} (hook : HookConfig) (event : HookEvent) (acts : list HookAct) : Prop :=
  match hook with
  | Webhook url secret max_attempts =>
    zlen acts ≤ Z.max 1 max_attempts ∧
    Forall (λ act, ∃ p, act = HookPost p ∧ po_url p = url ∧ po_body p = hook_to_vec event ∧
              po_signature p = str "sha256=" ++ sign_payload secret (hook_to_vec event)) acts
  | Exec command timeout_seconds =>
    zlen acts ≤ 1 ∧
    Forall (λ act, ∃ c, act = HookRun c ∧ split_whitespace command = cmd_program c :: cmd_args c ∧
              ("NBRG_EVENT_JSON", hook_to_vec event) ∈ cmd_env c) acts
  end.

Lemma webhook_acts `{HookEnvLaws} url secret max_attempts event answers outcome :
  acts_as (Webhook url secret max_attempts) event
    (hook_deliver (WebhookHook (webhook_new url secret max_attempts)) event answers outcome).2.
Proof.
  unfold hook_deliver. pose proof (webhook_posts (webhook_new url secret max_attempts) event answers ltac:(cbn; lia)) as [Hn Hp].
  destruct (webhook_deliver _ _ _) as [[r el] posts]. cbn [snd] in *.
  split; [unfold zlen in *; rewrite length_fmap; cbn in Hn; lia|].
  apply Forall_fmap. eapply Forall_impl; [exact Hp|]. intros p (? & ? & ? & ?). by exists p.
Qed.

Lemma exec_acts `{HookEnv} command timeout event answers outcome :
  acts_as (Exec command timeout) event (hook_deliver (ExecHook (mkExecSink command timeout)) event answers outcome).2.
Proof.
  unfold hook_deliver, exec_deliver, acts_as. cbn [ex_command].
  destruct (split_whitespace command) as [|program args]; [by split; [done|constructor]|].
  set (c := mkCommand program args _).
  assert (Hc : zlen (HookRun <$> [c]) ≤ 1 ∧ Forall (λ act, ∃ c, act = HookRun c ∧ program :: args = cmd_program c :: cmd_args c ∧
    ("NBRG_EVENT_JSON", hook_to_vec event) ∈ cmd_env c) (HookRun <$> [c])).
  { split; [done|]. apply Forall_singleton. exists c. split_and!; [done..|]. unfold c. cbn. set_solver. }
  destruct (outcome c) as [|after code out err]; [done|]. destruct (_ <? after); [done|]. by destruct (code =? 0).
Qed.

Lemma stopped_for_good `{Broadcast DaemonEventEnvelope} sinks later s :
  sb_running s = false → sb_out (foldl (run_dispatcher sinks) s later) = sb_out s.
Proof.
  revert s. induction later as [|wake later IH]; intros s Hs; [done|].
  cbn [foldl]. rewrite IH; destruct wake as [| |[[]|]]; cbn; unfold on_recv; by rewrite ?Hs.
Qed.

(** Hooks go where the configuration says.  Whatever is emitted and however
    the dispatcher is scheduled, each delivery is of an event that was emitted
    since it started, to a hook of the configuration; what the delivery does
    is to post that event to the URL of the hook, signed with its secret and
    at most as often as configured, or to run once the program the hook names,
    with its arguments and the event in the environment.  Once stopped, the
    dispatcher starts no delivery. *)
Theorem hooks_as_configured `{HookEnvLaws} `{BroadcastLaws DaemonEventEnvelope} config next_id wakes later answers outcome :
  let s := start_hook_dispatcher config next_id wakes in
  (∀ sink event, (sink, event) ∈ sb_out s →
     (∃ e, e ∈ emitted next_id wakes ∧ event = hook_event_from_envelope e) ∧
     ∃ hook, hook ∈ ac_hooks config ∧ acts_as hook event (hook_deliver sink event answers outcome).2) ∧
  sb_out (foldl (run_dispatcher (from_config config)) (stop_hook_dispatcher config s) later) = sb_out s.
Proof.
  intros s. split; [|by rewrite stopped_for_good]. intros sink event Hin.
  destruct (stream_keeps_promise (λ e, dispatch (from_config config) (hook_event_from_envelope e))
    (run_dispatcher (from_config config)) next_id wakes) as [(seen & Hseen & Hout) _]; [done..|intros [c i r o] [[]|]; by eexists|].
  change (foldl _ _ wakes) with s in Hout. rewrite Hout in Hin.
  apply list_elem_of_bind in Hin as (e & Hin & He). apply list_elem_of_fmap in Hin as (sink' & [= <- ->] & Hsink).
  split; [exists e; split; [by apply (sublist_subseteq _ _ Hseen)|done]|].
  apply list_elem_of_fmap in Hsink as (hook & -> & Hhook). exists hook. split; [done|].
  destruct hook; [apply webhook_acts|apply exec_acts].
Qed.
