(* ===== verification/ApiJson.v ===== *)
(** * The JSON of the HTTP API

    Model of the records of crates/daemon/src/api/http.rs that the API answers
    with and reads: what each handler puts into them, their rendering as JSON
    ([Serialize]) and the reading of a request's body ([Deserialize]).  A
    value is what is on the wire; its text is serde_json's. *)

From stdpp Require Import prelude gmap strings.
From Stdlib Require Import ZArith Lia.
From S2P Require Import Prelude RustStr Errors Fs Transfer Text Identity TrustStore Config DaemonApi DaemonHttp Hooks.

Local Open Scope Z_scope.

(** ** Records *)

Record ErrorDto := mkErrorDto { ed_error : rstring }.
Record StatusDto := mkStatusDto {
  sd_alias : rstring; sd_fingerprint : rstring; sd_version : rstring; sd_inbox_dir : rstring;
  sd_localsend_port : Z; sd_native_port : Z }.
Record TrustedPeerDto := mkTrustedPeerDto {
  tp_fingerprint : rstring; tp_pubkey_hex : rstring; tp_label : rstring; tp_trusted_at_unix_seconds : Z;
  tp_last_seen_unix_seconds : option Z; tp_native_certificate_fingerprint : option rstring; tp_policy : rstring }.
Record TrustedPeersDto := mkTrustedPeersDto { tps_peers : list TrustedPeerDto }.
Record LanPeerDto := mkLanPeerDto {
  lpd_alias : rstring; lpd_address : rstring; lpd_port : Z; lpd_protocol : rstring; lpd_fingerprint : rstring;
  lpd_device_model : option rstring; lpd_device_type : option rstring; lpd_download : bool }.
Record LanPeersDto := mkLanPeersDto { lps_peers : list LanPeerDto }.
Record LocalSendPeerDto := mkLocalSendPeerDto {
  lsd_fingerprint : rstring; lsd_alias : rstring; lsd_label : option rstring; lsd_status : rstring;
  lsd_first_seen_unix_seconds : Z; lsd_last_seen_unix_seconds : Z; lsd_attempt_count : Z; lsd_source_ip : option rstring }.
Record LocalSendPeersDto := mkLocalSendPeersDto { lss_peers : list LocalSendPeerDto }.
Record InboxEntryDto := mkInboxEntryDto {
  ied_file_name : rstring; ied_path : rstring; ied_size : Z; ied_modified_unix_seconds : Z }.
Record InboxDto := mkInboxDto { id_entries : list InboxEntryDto }.
Record ActiveTransfersDto := mkActiveTransfersDto { at_transfers : list Value }.
Record SendResponseDto := mkSendResponseDto { sr_transfer_id : rstring }.
Record TransferStateDto := mkTransferStateDto { ts_transfer_id : rstring; ts_state : rstring }.
Record CancelResponseDto := mkCancelResponseDto { cr_transfer_id : rstring; cr_state : rstring }.

#[export] Instance serialize_error : Serialize ErrorDto := λ d, VObject [("error", serialize (ed_error d))].
#[export] Instance serialize_status : Serialize StatusDto := λ d,
  VObject [("alias", serialize (sd_alias d)); ("fingerprint", serialize (sd_fingerprint d));
           ("version", serialize (sd_version d)); ("inbox_dir", serialize (sd_inbox_dir d));
           ("localsend_port", serialize (sd_localsend_port d)); ("native_port", serialize (sd_native_port d))].
#[export] Instance serialize_trusted_peer : Serialize TrustedPeerDto := λ d,
  VObject [("fingerprint", serialize (tp_fingerprint d)); ("pubkey_hex", serialize (tp_pubkey_hex d));
           ("label", serialize (tp_label d)); ("trusted_at_unix_seconds", serialize (tp_trusted_at_unix_seconds d));
           ("last_seen_unix_seconds", serialize (tp_last_seen_unix_seconds d));
           ("native_certificate_fingerprint", serialize (tp_native_certificate_fingerprint d));
           ("policy", serialize (tp_policy d))].
#[export] Instance serialize_trusted_peers : Serialize TrustedPeersDto := λ d, VObject [("peers", serialize (tps_peers d))].
#[export] Instance serialize_lan_peer : Serialize LanPeerDto := λ d,
  VObject [("alias", serialize (lpd_alias d)); ("address", serialize (lpd_address d)); ("port", serialize (lpd_port d));
           ("protocol", serialize (lpd_protocol d)); ("fingerprint", serialize (lpd_fingerprint d));
           ("device_model", serialize (lpd_device_model d)); ("device_type", serialize (lpd_device_type d));
           ("download", serialize (lpd_download d))].
#[export] Instance serialize_lan_peers : Serialize LanPeersDto := λ d, VObject [("peers", serialize (lps_peers d))].
#[export] Instance serialize_localsend_peer : Serialize LocalSendPeerDto := λ d,
  VObject [("fingerprint", serialize (lsd_fingerprint d)); ("alias", serialize (lsd_alias d));
           ("label", serialize (lsd_label d)); ("status", serialize (lsd_status d));
           ("first_seen_unix_seconds", serialize (lsd_first_seen_unix_seconds d));
           ("last_seen_unix_seconds", serialize (lsd_last_seen_unix_seconds d));
           ("attempt_count", serialize (lsd_attempt_count d)); ("source_ip", serialize (lsd_source_ip d))].
#[export] Instance serialize_localsend_peers : Serialize LocalSendPeersDto := λ d, VObject [("peers", serialize (lss_peers d))].
#[export] Instance serialize_inbox_entry : Serialize InboxEntryDto := λ d,
  VObject [("file_name", serialize (ied_file_name d)); ("path", serialize (ied_path d)); ("size", serialize (ied_size d));
           ("modified_unix_seconds", serialize (ied_modified_unix_seconds d))].
#[export] Instance serialize_inbox : Serialize InboxDto := λ d, VObject [("entries", serialize (id_entries d))].
#[export] Instance serialize_active : Serialize ActiveTransfersDto := λ d, VObject [("transfers", VArray (at_transfers d))].
#[export] Instance serialize_sent : Serialize SendResponseDto := λ d, VObject [("transfer_id", serialize (sr_transfer_id d))].
#[export] Instance serialize_state : Serialize TransferStateDto := λ d,
  VObject [("transfer_id", serialize (ts_transfer_id d)); ("state", serialize (ts_state d))].
#[export] Instance serialize_cancel : Serialize CancelResponseDto := λ d,
  VObject [("transfer_id", serialize (cr_transfer_id d)); ("state", serialize (cr_state d))].

(** ** What the handlers answer *)

Definition trusted_peer_dto (peer : Peer) : TrustedPeerDto :=
  mkTrustedPeerDto (show_fingerprint (pr_fingerprint peer)) (hex_encode (pr_pubkey peer)) (pr_label peer)
    (pr_trusted_at peer) (pr_last_seen peer) (pr_native_certificate_fingerprint peer)
    (match pr_policy peer with AutoAccept => str "auto_accept" | Prompt => str "prompt" | Block => str "block" end).
Definition local_send_peer_dto (peer : LocalSendPeer) : LocalSendPeerDto :=
  mkLocalSendPeerDto (ls_fingerprint peer) (ls_alias peer) (ls_label peer)
    (match ls_status peer with StPending => str "pending" | StTrusted => str "trusted" | StBlocked => str "blocked" end)
    (ls_first_seen peer) (ls_last_seen peer) (ls_attempt_count peer) (ls_source_ip peer).
Definition localsend_lan_peer (peer : LocalSendLanPeer) : LanPeerDto :=
  mkLanPeerDto (lan_alias peer) (lan_source_ip peer) (lan_port peer) (str "localsend_v2") (lan_fingerprint peer)
    (lan_device_model peer) (lan_device_type peer) (lan_download peer).

(** [inbox_entries] of http.rs, which names the directory [.incoming] apart. *)
Definition inbox_entries (t : fs) (inbox_dir : path) : result io_error (list InboxEntry) :=
  if negb (path_exists t inbox_dir) then Ok []
  else
    let dir := resolve inbox_dir in
    match t !! dir with
    | Some (File _) => Err NotADirectory
    | _ =>
      Ok (stable_sort (λ a b, lex_leb (ie_file_name a) (ie_file_name b))
        (omap (λ '(p, n),
          match n with
          | File b =>
            if bool_decide (removelast p = dir ∧ p ≠ []) then
              name ← last p;
              if bool_decide (name = str ".incoming") || ends_with name (str ".incoming") then None
              else Some (mkInboxEntry name p (zlen b))
            else None
          | Dir => None
          end) (map_to_list t)))
    end.

Section answers.
(** [Path::display], the modification times of files, in seconds since 1970
    or 0, and the version of the package. *)
Context (display : path → rstring) (modified : path → Z) (version : rstring).

Definition inbox_entry_dto (e : InboxEntry) : InboxEntryDto :=
  mkInboxEntryDto (ie_file_name e) (display (ie_path e)) (ie_size e) (modified (ie_path e)).

(** The JSON of an answer; the two of gRPC alone have none. *)
Definition reply_json (r : Reply) : option Value :=
  match r with
  | DaemonHttp.StatusDto alias fingerprint inbox_dir localsend_port native_port =>
    Some (serialize (mkStatusDto alias fingerprint version (display inbox_dir) localsend_port native_port))
  | TrustedPeers peers => Some (serialize (mkTrustedPeersDto (trusted_peer_dto <$> peers)))
  | LanPeers peers => Some (serialize (mkLanPeersDto (localsend_lan_peer <$> peers)))
  | LocalSendPeers peers => Some (serialize (mkLocalSendPeersDto (local_send_peer_dto <$> peers)))
  | LocalSendPeerReply peer => Some (serialize (local_send_peer_dto peer))
  | InboxReply entries => Some (serialize (mkInboxDto (inbox_entry_dto <$> entries)))
  | ActiveTransfers => Some (serialize (mkActiveTransfersDto []))
  | Sent transfer_id => Some (serialize (mkSendResponseDto transfer_id))
  | Cancelled transfer_id => Some (serialize (mkCancelResponseDto transfer_id (str "unspecified")))
  | NativePeers _ | TrustedPeerReply _ | Subscription _ => None
  end.

(** [IntoResponse]: status and JSON body of a response that has one. *)
Definition error_response (e : ApiError) : Z * Value := (ae_status e, serialize (mkErrorDto (ae_message e))).
Definition json_response (r : Response) : option (Z * Value) :=
  match r with
  | Json reply => (λ v, (200, v)) <$> reply_json reply
  | ErrorBody status message => Some (error_response (mkApiError status message))
  | _ => None
  end.
End answers.

(** ** Reading requests *)

(** [Deserialize] of a struct takes an object, whose other members it ignores
    and whose members it refuses twice, or an array of the fields in order. *)
Definition field (name : string) (fields : list (string * Value)) : option (option Value) :=
  match filter (λ kv, kv.1 = name) fields with
  | [] => Some None
  | [kv] => Some (Some kv.2)
  | _ => None
  end.
Definition de_text (v : Value) : option rstring := match v with VString s => Some s | _ => None end.
Definition de_bool (v : Value) : option bool := match v with VBool b => Some b | _ => None end.
Definition de_option {A} (f : Value → option A) (v : Value) : option (option A) :=
  match v with VNull => Some None | _ => Some <$> f v end.
Definition de_vec {A} (f : Value → option A) (v : Value) : option (list A) :=
  match v with VArray l => mapM f l | _ => None end.
(** [#[serde(default)]] *)
Definition de_default {A} (f : Value → option A) (d : A) (v : option Value) : option A :=
  match v with Some v => f v | None => Some d end.

Definition deserialize_approve (v : Value) : option (option rstring) :=
  match v with
  | VObject fields => label ← field "label" fields; de_default (de_option de_text) None label
  | VArray l => if (length l <=? 1)%nat then de_default (de_option de_text) None (head l) else None
  | _ => None
  end.

Definition send_of (paths : Value) (localsend_url native_url peer_fingerprint wan_peer native : option Value) :
    option SendTransferDto :=
  let text := de_default (de_option de_text) None in
  paths ← de_vec de_text paths;
  localsend_url ← text localsend_url;
  native_url ← text native_url;
  peer_fingerprint ← text peer_fingerprint;
  wan_peer ← text wan_peer;
  native ← de_default de_bool false native;
  Some (mkSendDto paths localsend_url native_url peer_fingerprint wan_peer native).
Definition deserialize_send (v : Value) : option SendTransferDto :=
  match v with
  | VObject fields =>
    paths ← field "paths" fields;
    localsend_url ← field "localsend_url" fields;
    native_url ← field "native_url" fields;
    peer_fingerprint ← field "peer_fingerprint" fields;
    wan_peer ← field "wan_peer" fields;
    native ← field "native" fields;
    paths ← paths;
    send_of paths localsend_url native_url peer_fingerprint wan_peer native
  | VArray (paths :: l) =>
    if (length l <=? 5)%nat then send_of paths (l !! 0%nat) (l !! 1%nat) (l !! 2%nat) (l !! 3%nat) (l !! 4%nat) else None
  | _ => None
  end.

(** ** Correctness *)

(** Both APIs list the same inbox. *)
Theorem inbox_entries_same t inbox_dir : inbox_entries t inbox_dir = list_inbox_entries t inbox_dir.
Proof.
  unfold inbox_entries, list_inbox_entries. destruct (negb _); [done|]. destruct (t !! resolve inbox_dir) as [[b|]|]; [done|..];
    (do 2 f_equal; apply list_omap_ext, Forall2_same_length_lookup; split; [done|]; intros i [p n] [p' n'] H1 H2; rewrite H1 in H2; simplify_eq;
     destruct n' as [b|]; [|done]; case_bool_decide; [|done]; destruct (last p') as [name|]; [|done]; cbn;
     destruct (decide (name = str ".incoming")) as [->|Hne]; [by vm_compute|by rewrite bool_decide_false]).
Qed.

#[local] Instance serialize_text_inj : Inj (=) (=) (serialize (A := rstring)).
Proof. by intros a b [= ->]. Qed.
#[local] Instance serialize_number_inj : Inj (=) (=) (serialize (A := Z)).
Proof. by intros a b [= ->]. Qed.
#[local] Instance serialize_bool_inj : Inj (=) (=) (serialize (A := bool)).
Proof. by intros a b [= ->]. Qed.

Lemma serialize_option_inj `{Serialize A} (a b : option A) :
  (∀ x y : A, serialize x = serialize y → x = y) → (∀ x : A, serialize x ≠ VNull) → serialize a = serialize b → a = b.
Proof.
  intros Hi Hn. destruct a as [x|], b as [y|]; cbn; intros Heq; [f_equal; auto|by destruct (Hn x)| |done].
  symmetry in Heq. by destruct (Hn y).
Qed.
Lemma serialize_vec_inj {A} (f : A → Value) (P : A → Prop) (l l' : list A) :
  (∀ x y, P x → P y → f x = f y → x = y) → Forall P l → Forall P l' → f <$> l = f <$> l' → l = l'.
Proof.
  intros Hf Hl. revert l'. induction Hl as [|x l Hx _ IH]; intros l' [|y l'' Hy Hl'']; cbn; [done..|].
  intros [= Heq Hrest]. f_equal; auto.
Qed.

Lemma hex_encode_inj a b : Forall byte_ok a → Forall byte_ok b → hex_encode a = hex_encode b → a = b.
Proof.
  intros Ha. revert b. induction Ha as [|x a Hx _ IH]; intros b Hb.
  - destruct Hb as [|y b Hy _]; [done|]. by rewrite hex_encode_cons.
  - destruct Hb as [|y b Hy Hb]; rewrite hex_encode_cons; [done|]. rewrite (hex_encode_cons y b). intros [H1 H2]%app_inj_1; [|done].
    f_equal; [|by apply IH]. pose proof (u8_from_hex_show x Hx) as Hd. rewrite H1, u8_from_hex_show in Hd by done. by injection Hd.
Qed.

(** A peer as the trust database holds it. *)
Definition peer_ok (p : Peer) : Prop := fingerprint_ok (pr_fingerprint p) ∧ Forall byte_ok (pr_pubkey p).

Lemma trusted_peer_dto_inj p q :
  peer_ok p → peer_ok q → serialize (trusted_peer_dto p) = serialize (trusted_peer_dto q) → p = q.
Proof.
  intros [Hpf Hpk] [Hqf Hqk]. destruct p as [f1 k1 l1 t1 s1 c1 p1], q as [f2 k2 l2 t2 s2 c2 p2].
  unfold serialize at 1 2, serialize_trusted_peer, trusted_peer_dto. cbn -[show_fingerprint hex_encode serialize str] in *.
  injection 1 as Hf Hk Hl Ht Hs Hc Hp. subst l2 t2.
  assert (f1 = f2) as -> by (pose proof (proj1 (fingerprint_text_roundtrip f1 Hpf)) as H1;
    pose proof (proj1 (fingerprint_text_roundtrip f2 Hqf)) as H2; congruence).
  apply hex_encode_inj in Hk as ->; [|done..].
  apply serialize_option_inj in Hs as ->; [|by intros ? ? [= ->]|done].
  apply serialize_option_inj in Hc as ->; [|by intros ? ? [= ->]|done].
  f_equal. by destruct p1, p2.
Qed.

Lemma local_send_peer_dto_inj p q : serialize (local_send_peer_dto p) = serialize (local_send_peer_dto q) → p = q.
Proof.
  destruct p as [f1 a1 l1 s1 b1 e1 n1 i1], q as [f2 a2 l2 s2 b2 e2 n2 i2].
  unfold serialize at 1 2, serialize_localsend_peer, local_send_peer_dto. cbn -[serialize str].
  injection 1 as Hf Ha Hl Hs Hb He Hn Hi. subst f2 a2 b2 e2 n2.
  apply serialize_option_inj in Hl as ->; [|by intros ? ? [= ->]|done].
  apply serialize_option_inj in Hi as ->; [|by intros ? ? [= ->]|done].
  f_equal. by destruct s1, s2.
Qed.

(** Nothing of the pending LocalSend peers is lost on the way to a client. *)
Theorem localsend_list_faithful display modified version l1 l2 :
  reply_json display modified version (LocalSendPeers l1) = reply_json display modified version (LocalSendPeers l2) → l1 = l2.
Proof.
  cbn. intros [= Heq]. unfold serialize, serialize_vec in Heq. rewrite <-!list_fmap_compose in Heq.
  eapply (serialize_vec_inj _ (λ _, True)); [|apply Forall_true; done..|exact Heq]. intros p q _ _. apply local_send_peer_dto_inj.
Qed.

Section shows.
Context `{HashOrder} `{CryptoSuite} `{Lowercase} `{Uuid} (error_text : CoreError → rstring)
  (decode : rstring → option rstring) (embedded : rstring → option bytes).
Context (display : path → rstring) (modified : path → Z) (version : rstring).
Abbreviation answer env st request w :=
  (json_response display modified version (handle error_text decode embedded env st request w).1).

(** A request for the trusted peers that carries the token. *)
Definition asks_trusted (st : DaemonState) (request : Request) : Prop :=
  rq_method request = GET ∧ rq_path request = str "/api/v1/peers/trusted" ∧ Forall scalar (ds_api_token st) ∧
  presents (rq_authorization request) (ds_api_token st).

Lemma asked_trusted env st request w :
  asks_trusted st request →
  handle error_text decode embedded env st request w = json as_internal list_trusted w.
Proof.
  intros (Hm & Hp & Ht & Hpr). unfold handle. rewrite Hp, Hm.
  assert (router (str "/api/v1/peers/trusted") = ListTrusted) as -> by (vm_compute; reflexivity).
  cbn [is_post negb handle_route]. apply guarded_granted; [|done..].
  rewrite Hpr. cbn. apply Forall_app. split; [|done]. apply (bool_decide_unpack _). vm_compute. exact I.
Qed.

(** What a client is shown of the trusted peers is what the trust database
    holds: the answer has status 200 and lists every peer, in the order of
    the database, changes nothing, and is the same for two databases only if
    they hold the same peers, so that nothing about a peer is lost or
    confused on its way into JSON. *)
Theorem trusted_peers_shown env st request w w2 peers peers2 :
  asks_trusted st request →
  TrustStore.list_peers (a_trust w) = Ok peers → TrustStore.list_peers (a_trust w2) = Ok peers2 →
  Forall peer_ok peers → Forall peer_ok peers2 →
  answer env st request w = Some (200, serialize (mkTrustedPeersDto (trusted_peer_dto <$> peers))) ∧
  (handle error_text decode embedded env st request w).2 = w ∧
  (answer env st request w = answer env st request w2 → peers = peers2).
Proof.
  intros Hask Hp Hp2 Hok Hok2.
  assert (Hrun : ∀ w peers, TrustStore.list_peers (a_trust w) = Ok peers →
    handle error_text decode embedded env st request w = (Json (TrustedPeers peers), w)).
  { intros w' peers' Hp'. rewrite asked_trusted by done. unfold json, list_trusted.
    rewrite (SE_bind_eq _ _ _ peers' w'); [done|]. unfold store_read. by rewrite Hp'. }
  rewrite !(Hrun _ _ Hp), (Hrun _ _ Hp2). cbn [fst snd json_response reply_json]. split_and!; [done..|].
  cbn. intros [= Heq]. unfold serialize, serialize_vec in Heq. rewrite <-!list_fmap_compose in Heq.
  eapply (serialize_vec_inj _ peer_ok); [|exact Hok|exact Hok2|exact Heq]. intros p q. apply trusted_peer_dto_inj.
Qed.
End shows.
