(* ===== verification/Toy.v ===== *)
(** * Concrete instances of the parameters

    Small total functions in place of the code outside the repository: a
    checksum for the hashes, a signature that repeats the key, counted UUIDs,
    ASCII lower-casing, a length-prefixed encoding in place of JSON, hash maps
    iterated in key order and a list in place of the broadcast channel.  They
    satisfy the laws the theorems assume, so those are consistent, and they
    make the models run on concrete inputs. *)

From stdpp Require Import prelude gmap strings.
From Stdlib Require Import ZArith Lia.
From S2P Require Import Prelude RustStr Errors Dto Framing ChunkFrame Transfer Identity TrustStore Conversation NativeNet NativeGuard Rendezvous LocalSession LocalInbox LocalServer LocalHttp LocalClient Text LocalDiscovery PinnedTls LocalMulticast Tui DaemonApi Hooks.

Local Open Scope Z_scope.

(** ** Hashes, signatures, UUIDs, lower case *)

Definition checksum (b : bytes) : Z := foldr (λ x acc, x + 31 * acc) (zlen b) b.

#[export] Instance toy_blake3 : Blake3 := λ b, hex_encode (to_be_bytes 32 (checksum b)).
#[export] Instance toy_uuid : Uuid := λ n, str "u" ++ show_dec (Z.of_nat n).
#[export] Instance toy_uuid_fresh : UuidFresh.
Proof. intros a b Heq%app_inv_head%show_dec_inj; lia. Qed.

#[export] Instance toy_uuid_plain : UuidPlain.
Proof. intros n. split; intros Heq; apply (f_equal head) in Heq; discriminate. Qed.
#[export] Instance toy_blake3_hex : Blake3Hex.
Proof.
  assert (Hb : ∀ b, Forall byte_ok (to_be_bytes 32 (checksum b))) by (intros; apply to_be_bytes_ok).
  split; intros b; unfold blake3_hex, toy_blake3.
  - rewrite zlen_hex_encode. unfold zlen. by rewrite length_to_be_bytes.
  - apply forallb_forall. intros c Hc%list_elem_of_In.
    apply list_elem_of_bind in Hc as (x & Hc & Hx). specialize (Hb b). rewrite Forall_forall in Hb.
    destruct (hex_digits x (Hb _ Hx)) as [Hh Hl].
    assert (Hd : ∀ n, 0 ≤ n < 16 → is_ascii_hexdigit (hex_char n) = true).
    { intros n Hn. unfold is_ascii_hexdigit, is_ascii_digit, hex_char.
      destruct (Z.ltb_spec n 10); repeat rewrite ?orb_true_iff, ?andb_true_iff, ?Z.leb_le; lia. }
    repeat (apply elem_of_cons in Hc as [->|Hc]; [by apply Hd|]). by apply elem_of_nil in Hc.
Qed.

#[export] Instance toy_crypto : CryptoSuite := {|
  sha256 m := to_be_bytes 32 (checksum m * (2 ^ 192 + 1));
  hkdf_expand ikm info n := to_be_bytes n (checksum ikm + checksum info);
  public_bytes sk := to_be_bytes 32 (checksum sk);
  sign sk m := to_be_bytes 32 (checksum sk) ++ to_be_bytes 32 (checksum m);
  signature_from_slice s := if bool_decide (length s = 64%nat) then Some s else None;
  verifying_key_from_bytes k := if bool_decide (length k = 32%nat) then Some k else None;
  verify_strict k m s := bool_decide (s = k ++ to_be_bytes 32 (checksum m))
|}.

#[export] Instance toy_crypto_laws : CryptoLaws.
Proof.
  split; intros; cbn [sha256 hkdf_expand public_bytes sign signature_from_slice verifying_key_from_bytes
    verify_strict toy_crypto]; auto using length_to_be_bytes, to_be_bytes_ok.
  all: rewrite bool_decide_true; rewrite ?length_app, ?length_to_be_bytes; done.
Qed.

#[export] Instance toy_lowercase : Lowercase := λ c, if is_ascii_uppercase c then [c + 32] else [c].
#[export] Instance toy_lowercase_laws : LowercaseLaws.
Proof.
  split; intros c d; unfold char_to_lowercase, toy_lowercase, is_ascii_uppercase.
  - destruct ((65 <=? c) && (c <=? 90)) eqn:Hc; intros ->%list_elem_of_singleton; [|by rewrite Hc].
    bools. assert ((65 <=? c + 32) && (c + 32 <=? 90) = false) as ->; [|done].
    apply andb_false_iff. right. apply Z.leb_gt. lia.
  - destruct ((65 <=? c) && (c <=? 90)) eqn:Hc; intros ->%list_elem_of_singleton; [bools; lia|done].
Qed.

(** ** A self-delimiting encoding *)
Class Codec (A : Type) := {
  ser : A → list Z;
  de : list Z → option (A * list Z);
  de_ser a r : de (ser a ++ r) = Some (a, r)
}.

#[export, refine] Instance codec_Z : Codec Z := {|
  ser z := [z]; de l := match l with z :: r => Some (z, r) | [] => None end |}.
Proof. done. Defined.

#[export, refine] Instance codec_prod {A B} `{Codec A, Codec B} : Codec (A * B) := {|
  ser p := ser p.1 ++ ser p.2;
  de l := '(a, r) ← de l; '(b, r) ← de r; Some ((a, b), r) |}.
Proof. intros [a b] r. cbn [fst snd]. rewrite <-app_assoc, de_ser. cbn. by rewrite de_ser. Defined.

Fixpoint de_list {A} `{Codec A} (n : nat) (l : list Z) : option (list A * list Z) :=
  match n with
  | O => Some ([], l)
  | S n => '(a, r) ← de l; '(k, r) ← de_list n r; Some (a :: k, r)
  end.
Lemma de_list_ser {A} `{Codec A} (k : list A) r : de_list (length k) ((k ≫= ser) ++ r) = Some (k, r).
Proof.
  induction k as [|a k IH]; [done|]. cbn [length de_list mbind list_bind]. rewrite <-app_assoc, de_ser. cbn.
  by rewrite IH.
Qed.

#[export, refine] Instance codec_list {A} `{Codec A} : Codec (list A) := {|
  ser k := zlen k :: (k ≫= ser);
  de l := match l with n :: r => de_list (Z.to_nat n) r | [] => None end |}.
Proof. intros k r. cbn. unfold zlen. rewrite Nat2Z.id. apply de_list_ser. Defined.

#[export, refine] Instance codec_sum {A B} `{Codec A, Codec B} : Codec (A + B) := {|
  ser s := match s with inl a => 0 :: ser a | inr b => 1 :: ser b end;
  de l := match l with
          | 0 :: r => '(a, r) ← de r; Some (inl a, r)
          | 1 :: r => '(b, r) ← de r; Some (inr b, r)
          | _ => None
          end |}.
Proof. intros [a|b] r; cbn; by rewrite de_ser. Defined.

#[export, refine] Instance codec_unit : Codec unit := {| ser _ := []; de l := Some (tt, l) |}.
Proof. by intros []. Defined.

(** Types that are a sum of products. *)
Definition codec_via {A B} `{Codec B} (f : A → B) (g : B → A) (gf : ∀ a, g (f a) = a) : Codec A.
Proof.
  refine {| ser a := ser (f a); de l := '(b, r) ← de l; Some (g b, r) |}.
  intros a r. rewrite de_ser. cbn. by rewrite gf.
Defined.

#[export] Instance codec_option {A} `{Codec A} : Codec (option A).
Proof.
  refine (codec_via (B := unit + A) (λ o, match o with None => inl tt | Some a => inr a end)
    (λ s, match s with inl _ => None | inr a => Some a end) _). by intros [].
Defined.

(** ** Messages of the native protocol *)
#[export] Instance codec_hello : Codec Hello.
Proof.
  refine (codec_via (λ m, (hello_protocol_version m, hello_alias m, hello_pubkey m, hello_nonce m,
    hello_extensions m, hello_identity_proof m)) (λ '(a, b, c, d, e, f), mkHello a b c d e f) _). by intros [].
Defined.
#[export] Instance codec_hello_ack : Codec HelloAck.
Proof.
  refine (codec_via (λ m, (ack_protocol_version m, ack_alias m, ack_pubkey m, ack_nonce m,
    ack_accepted_extensions m)) (λ '(a, b, c, d, e), mkHelloAck a b c d e) _). by intros [].
Defined.
#[export] Instance codec_offer : Codec FileOffer.
Proof.
  refine (codec_via (λ m, (fo_file_id m, fo_file_name m, fo_size m, fo_blake3 m))
    (λ '(a, b, c, d), mkFileOffer a b c d) _). by intros [].
Defined.
#[export] Instance codec_request : Codec RequestTransfer.
Proof.
  refine (codec_via (λ m, (rt_transfer_id m, rt_files m)) (λ '(a, b), mkRequestTransfer a b) _). by intros [].
Defined.
#[export] Instance codec_accept : Codec AcceptTransfer.
Proof.
  refine (codec_via (λ m, (at_transfer_id m, at_chunk_size m)) (λ '(a, b), mkAcceptTransfer a b) _). by intros [].
Defined.
#[export] Instance codec_chunk_ack : Codec ChunkAck.
Proof.
  refine (codec_via (λ m, (ca_transfer_id m, ca_file_id m, ca_offset m, ca_length m, ca_blake3 m))
    (λ '(a, b, c, d, e), mkChunkAck a b c d e) _). by intros [].
Defined.
#[export] Instance codec_cancel : Codec CancelTransfer.
Proof.
  refine (codec_via (λ m, (ct_transfer_id m, ct_reason m)) (λ '(a, b), mkCancelTransfer a b) _). by intros [].
Defined.
#[export] Instance codec_done : Codec DoneTransfer.
Proof. refine (codec_via dt_transfer_id mkDoneTransfer _). by intros []. Defined.
#[export] Instance codec_resume : Codec ResumeRequest.
Proof. refine (codec_via rr_transfer_id mkResumeRequest _). by intros []. Defined.

#[export] Instance codec_json {A} `{Codec A} : Json A := {|
  to_vec a := Ok (ser a);
  from_slice b := match de b with Some (a, []) => Ok a | _ => Err Errors.Json end |}.
#[export] Instance codec_json_roundtrip {A} `{Codec A} : JsonRoundtrip A.
Proof. intros a bs [= <-]. cbn. rewrite <-(app_nil_r (ser a)). by rewrite de_ser. Qed.

(** ** Messages of the rendezvous protocol *)
#[export] Instance codec_candidate : Codec Candidate.
Proof.
  refine (codec_via (B := (unit + unit) * rstring * Z)
    (λ c, ((match cd_kind c with RvLocal => inl tt | RvServerReflexive => inr tt end), cd_address c, cd_priority c))
    (λ '(k, a, p), mkRvCandidate (match k with inl _ => RvLocal | inr _ => RvServerReflexive end) a p) _).
  by intros [[] ? ?].
Defined.
#[export] Instance codec_client_message : Codec ClientMessage.
Proof.
  refine (codec_via (B := rstring * bytes * list Candidate * Z + (bytes * bytes + (bytes * bytes + unit)))
    (λ m, match m with
          | Register_ r => inl (rg_alias r, rg_pubkey r, rg_candidates r, rg_ttl_seconds r)
          | Lookup_ r => inr (inl (lk_requester_pubkey r, lk_target_pubkey r))
          | Notify_ r => inr (inr (inl (nt_requester_pubkey r, nt_target_pubkey r)))
          | Ping => inr (inr (inr tt))
          end)
    (λ s, match s with
          | inl (a, b, c, d) => Register_ (mkRegister a b c d)
          | inr (inl (a, b)) => Lookup_ (mkLookup a b)
          | inr (inr (inl (a, b))) => Notify_ (mkNotify a b)
          | inr (inr (inr _)) => Ping
          end) _).
  by intros [[]|[]|[]|].
Defined.
#[export] Instance codec_server_message : Codec ServerMessage.
Proof.
  refine (codec_via (B := (Z * Z + (option (rstring * bytes * list Candidate * Z))) +
      (bytes + (bytes + (unit + (rstring * rstring)))))
    (λ m, match m with
          | Registered r => inl (inl (rd_ttl_seconds r, rd_expires_at_unix_seconds r))
          | LookupResult r => inl (inr ((λ p, (lp_alias p, lp_pubkey p, lp_candidates p, lp_last_seen_unix_seconds p))
                                          <$> lr_peer r))
          | NotifyQueued r => inr (inl (nq_target_pubkey r))
          | PeerNotification_ r => inr (inr (inl (pn_requester_pubkey r)))
          | Pong => inr (inr (inr (inl tt)))
          | ErrorMessage r => inr (inr (inr (inr (er_code r, er_message r))))
          end)
    (λ s, match s with
          | inl (inl (a, b)) => Registered (mkRegistered a b)
          | inl (inr o) => LookupResult (mkLookupResponse ((λ '(a, b, c, d), mkLookupPeer a b c d) <$> o))
          | inr (inl k) => NotifyQueued (mkNotifyQueued k)
          | inr (inr (inl k)) => PeerNotification_ (mkPeerNotification k)
          | inr (inr (inr (inl _))) => Pong
          | inr (inr (inr (inr (a, b)))) => ErrorMessage (mkErrorResponse a b)
          end) _).
  by intros [[]|[[[]|]]|[]|[]| |[]].
Defined.
#[export] Instance codec_rv_json {A} `{Codec A} : RvJson A := {|
  rv_to_vec a := Some (ser a);
  rv_from_slice b := match de b with Some (a, []) => Some a | _ => None end |}.
#[export] Instance codec_rv_roundtrip {A} `{Codec A} : RvRoundtrip A.
Proof. intros a bs [= <-]. cbn. rewrite <-(app_nil_r (ser a)). by rewrite de_ser. Qed.

(** ** Hash maps, announcements, hooks, the broadcast channel *)

#[export] Instance toy_hash_order : HashOrder := λ A m, map_to_list m.
#[export] Instance toy_hash_order_laws : HashOrderLaws.
Proof. by intros A m. Qed.

#[export] Instance codec_bool : Codec bool.
Proof.
  refine (codec_via (B := unit + unit) (λ b : bool, if b then inr tt else inl tt)
    (λ s, match s with inl _ => false | inr _ => true end) _). by intros [].
Defined.
#[export] Instance codec_device_info : Codec DeviceInfo.
Proof.
  refine (codec_via (λ m : DeviceInfo, (di_alias m, di_version m, di_device_model m, di_device_type m, di_fingerprint m, di_port m,
    di_protocol m, di_download m)) (λ '(a, b, c, d, e, f, g, h), mkDeviceInfo a b c d e f g h) _). by intros [].
Defined.
#[export] Instance codec_announcement : Codec Announcement.
Proof.
  refine (codec_via (λ m : Announcement, (an_info m, an_announcement m, an_announce m)) (λ '(a, b, c), mkAnnouncement a b c) _).
  by intros [].
Defined.
#[export] Instance toy_announcement_json : AnnouncementJson := {|
  announcement_to_vec := ser;
  announcement_from_slice b :=
    match de b with
    | Some (a, []) => if bool_decide (0 ≤ di_port (an_info a) ≤ 65535) then Some a else None
    | _ => None
    end |}.
#[export] Instance toy_announcement_laws : AnnouncementJsonLaws.
Proof.
  split. intros payload a. cbn [announcement_from_slice toy_announcement_json].
  destruct (de payload) as [[a' [|]]|]; [|done..]. case_bool_decide; [|done]. by intros [= <-].
Qed.
#[export] Instance toy_announcement_roundtrip : AnnouncementRoundtrip.
Proof.
  split. intros a Ha. cbn [announcement_from_slice announcement_to_vec toy_announcement_json].
  rewrite <-(app_nil_r (ser a)), de_ser. by rewrite bool_decide_true.
Qed.

#[export] Instance toy_hook_env : HookEnv := {|
  hook_to_vec e := utf8_encode (he_event_id e);
  hmac_sha256 key m := to_be_bytes 32 (checksum key + 31 * checksum m);
  header_value_ok s := forallb (λ c, (33 <=? c) && (c <=? 126)) s |}.
#[export] Instance toy_hook_env_laws : HookEnvLaws.
Proof.
  split.
  - intros. apply to_be_bytes_ok.
  - intros s Hs. cbn [header_value_ok toy_hook_env]. apply forallb_Forall. eapply Forall_impl; [exact Hs|].
    intros c [Hl Hu]. apply andb_true_iff. split; by apply Z.leb_le.
Qed.

#[export] Instance toy_broadcast {A} : Broadcast A := {|
  channel := list A;
  subscribe := [];
  send a c := c ++ [a];
  recv c :=
    if bool_decide (EVENT_CHANNEL_CAPACITY < length c)%nat
    then (Lagged (length c - EVENT_CHANNEL_CAPACITY), drop (length c - EVENT_CHANNEL_CAPACITY) c)
    else match c with [] => (Pending, []) | a :: l => (Received a, l) end |}.
#[export] Instance toy_broadcast_laws {A} : BroadcastLaws A.
Proof.
  refine (Build_BroadcastLaws A toy_broadcast (λ c : list A, c) _ _ _ _ _).
  - done.
  - done.
  - intros c ->. done.
  - intros c a l -> Hl. cbn [recv toy_broadcast length]. rewrite bool_decide_false by lia. done.
  - intros c Hc. cbn [recv toy_broadcast]. by rewrite bool_decide_true.
Defined.

(** Every endpoint, and the header values of visible ASCII. *)
#[export] Instance toy_tonic : Tonic := {|
  endpoint_ok _ := true;
  metadata_ok s := forallb (λ c, (32 <=? c) && (c <=? 126)) s |}.
#[export] Instance toy_tonic_laws : TonicLaws.
Proof.
  intros s Hs. cbn [metadata_ok toy_tonic]. apply forallb_Forall. eapply Forall_impl; [exact Hs|].
  intros c [Hl Hu]. apply andb_true_iff. split; by apply Z.leb_le.
Defined.

(** ** HTTP *)

Abbreviation BareMeta := (rstring * rstring * Z * option rstring * option rstring * option rstring)%type.
Definition bare (m : FileMeta) : BareMeta := (fm_id m, fm_file_name m, fm_size m, fm_file_type m, fm_sha256 m, fm_preview m).
Definition unbare (b : BareMeta) : FileMeta :=
  let '(id, name, size, type, sha, preview) := b in mkFileMeta id name size type sha preview None.

Definition toy_pairs (q : HttpRequest) : list rstring :=
  match de (hr_query q) : option (list (rstring * rstring) * _) with Some (l, []) => l.*2 | _ => [] end.

#[export] Instance toy_http_client : HttpClient := {|
  url_path url := 47 :: join [47] (drop 3 (split_on 47 url));
  json_body r := ser (A := DeviceInfo * list (rstring * BareMeta)) (pu_info r, map_to_list (bare <$> pu_files r));
  query_pairs := ser |}.

#[export] Instance toy_extractors : Extractors := {|
  json_device q :=
    match de (A := DeviceInfo) (streamed (hr_body q)) with
    | Some (d, []) => if bool_decide (0 ≤ di_port d ≤ 65535) then inr d else inl 422
    | _ => inl 400
    end;
  json_prepare q :=
    match de (A := DeviceInfo * list (rstring * BareMeta)) (streamed (hr_body q)) with
    | Some (info, files, []) => inr (mkPrepareUpload info (unbare <$> list_to_map files))
    | _ => inl 400
    end;
  query_upload q := match toy_pairs q with [s; f; t] => inr (mkUploadQuery s f t) | _ => inl 400 end;
  query_legacy_send q := match toy_pairs q with [f; t] => inr (mkLegacySendQuery f t) | _ => inl 400 end;
  query_cancel q := match toy_pairs q with [s] => inr (mkCancelQuery s) | _ => inl 400 end |}.

#[export] Instance toy_extractors_laws : ExtractorsLaws.
Proof.
  split. intros r d. cbn [json_device toy_extractors]. destruct (de _) as [[d' [|]]|]; [|done..].
  case_bool_decide; [|done]. by intros [= <-].
Qed.

#[export] Instance toy_http_client_laws : HttpClientLaws.
Proof.
  split.
  - intros r request _ _ Hs _ [_ Hmeta]. cbn [json_prepare toy_extractors]. rewrite Hs. cbn [json_body toy_http_client].
    rewrite <-(app_nil_r (ser _)), de_ser. rewrite list_to_map_to_list. destruct request as [info files]. cbn in *.
    do 2 f_equal. apply map_eq. intros k. rewrite !lookup_fmap. destruct (files !! k) as [m|] eqn:Hm; [|done].
    destruct (Hmeta k m Hm) as [_ Hn]. destruct m. cbn in *. by subst.
  - intros r s f t Hq. cbn [query_upload toy_extractors]. unfold toy_pairs. rewrite Hq. cbn [query_pairs toy_http_client].
    by rewrite <-(app_nil_r (ser _)), de_ser.
Qed.

(** ** TLS *)

(** A handshake is signed by repeating it after the certificate; the client
    asks its verifier. *)
Definition toy_signature (message cert signature : bytes) : result rstring unit :=
  ensure (bool_decide (signature = cert ++ message)) (str "bad signature").
#[export] Instance toy_rustls : Rustls := {|
  verify_tls12_signature := toy_signature;
  verify_tls13_signature := toy_signature;
  supported_schemes := [2055];
  with_single_cert _ _ := Ok tt;
  quic_client_config _ := Ok tt;
  quic_server_config _ := Ok tt;
  client_handshake config o :=
    _ ← verify_server_cert (cc_verifier config) (of_end_entity o) (of_intermediates o);
    ensure (PinnedTls.signature_ok (cc_verifier config) o) (str "bad signature") |}.

#[export] Instance toy_rustls_laws : RustlsLaws.
Proof.
  split. intros config o Ho. cbn [client_handshake toy_rustls] in Ho.
  destruct (verify_server_cert _ _ _) as [[]| |]; [|done..]. by apply ensure_Ok_inv in Ho.
Qed.
