(* ===== verification/NativeExamples.v ===== *)
(** * The native protocol on concrete inputs

    For each theorem about chunks, the manifest, the frames and the transfer
    that has hypotheses, an input at which they hold; and runs of the model
    that show the behaviours the findings are about. *)

From stdpp Require Import prelude gmap strings.
From Stdlib Require Import ZArith Lia.
From S2P Require Import Prelude RustStr Errors Ranges Chunk Dto Framing Manifest Fs ChunkFrame Transfer Receiver Delivery LocalSession Toy.

Local Open Scope Z_scope.

(** A property of the elements of a concrete list of ranges or files. *)
Ltac all_ranges :=
  repeat (apply Forall_nil_2 || (apply Forall_cons_2; [unfold range_ok, valid_range, rend, u64_ok; simpl; lia|])).

(** ** Chunks *)

Lemma plan_chunks_witness :
  ∃ chunks, plan_chunks 10 4 = Ok chunks ∧ tiles 0 10 chunks ∧ Forall (λ c, len c ≤ 4) chunks ∧
    zlen chunks = (10 + 4 - 1) / 4.
Proof. apply (plan_chunks_correct 10 4); [split; lia|split; lia|lia]. Defined.

Lemma ranges_cover_witness :
  ∃ c, ranges_cover_file 10 [mkRange 4 6; mkRange 0 5] = Ok c ∧
    (c = true ↔ ∀ b, 0 ≤ b < 10 → covered [mkRange 4 6; mkRange 0 5] b).
Proof.
  apply (ranges_cover_file_correct 10 [mkRange 4 6; mkRange 0 5]).
  - split; lia.
  - all_ranges.
  - all_ranges.
Defined.

Lemma plan_missing_witness :
  ∃ chunks missing, plan_chunks 10 4 = Ok chunks ∧ plan_missing_chunks 10 4 [mkRange 0 5] = Ok missing ∧
    missing `sublist_of` chunks ∧
    ∀ c, c ∈ missing ↔ c ∈ chunks ∧ ∃ b, covers c b ∧ ¬ covered [mkRange 0 5] b.
Proof.
  apply (plan_missing_chunks_correct 10 4 [mkRange 0 5]);
    [split; lia|split; lia|lia|all_ranges|all_ranges].
Defined.

(** Bytes 4 to 7 and 8 to 9 are still missing. *)
Example plan_missing_run : plan_missing_chunks 10 4 [mkRange 0 5] = Ok [mkRange 4 4; mkRange 8 2].
Proof. reflexivity. Qed.

(** ** Manifest *)

Definition ex_offers : list FileOffer := [mkFileOffer (str "file-0") (str "a") 3 None].

Lemma manifest_reachable_witness :
  ∃ s, create_transfer empty_store 0 (str "t") (str "p") Receive ex_offers = Ok s ∧ store_wf s.
Proof.
  eexists. split; [reflexivity|]. apply manifest_reachable_wf.
  eapply rtc_once, (StepCreate _ 0 (str "t") (str "p") Receive ex_offers); [|reflexivity].
  all_ranges.
Defined.

(** A transfer of the three-byte file [1; 2; 3] of which the first two bytes
    have arrived. *)
Definition ex_blake3 : rstring := blake3_hex [1; 2; 3].
Definition ex_file_row : file_row := mkFileRow (str "a") (as_i64 3) (Some ex_blake3).
Definition ex_store : ManifestStore := mkStore
  {[ str "t" := mkTransferRow (str "p") (direction_as_str Receive) (state_as_str Active) 0 0 ]}
  {[ (str "t", str "file-0") := ex_file_row ]}
  {[ (str "t", str "file-0", 0) := mkChunkRow 2 (blake3_hex [1; 2]) ]}.

Lemma ex_store_wf : store_wf ex_store.
Proof.
  split; unfold ex_store; cbn [transfers transfer_files verified_chunks].
  - intros t row [<- <-]%lookup_singleton_Some. split; [by exists Active|by exists Receive].
  - intros t f row [[= <- <-] <-]%lookup_singleton_Some. split; [by eexists|].
    exists 3. split; [split; lia|done].
  - intros t f o row [[= <- <- <-] <-]%lookup_singleton_Some. exists ex_file_row, 0, 2.
    split; [done|]. split; [done|]. split; [done|]. split; [split; lia|]. split; [split; lia|].
    by apply (bool_decide_unpack _).
Defined.

Lemma missing_ranges_witness :
  ∃ chunks missing, plan_chunks (as_u64 (fr_size ex_file_row)) 1 = Ok chunks ∧
    missing_ranges ex_store (str "t") (str "file-0") 1 = Ok missing ∧ missing `sublist_of` chunks ∧
    ∀ c, c ∈ missing ↔ c ∈ chunks ∧ ∃ b, covers c b ∧ ¬ verified ex_store (str "t") (str "file-0") b.
Proof.
  apply (missing_ranges_correct ex_store (str "t") (str "file-0") ex_file_row 1);
    [apply ex_store_wf|reflexivity|split; lia|lia].
Defined.

Lemma set_state_witness :
  is_ok (set_state ex_store 1 (str "t") Completed) = true ↔
  (∃ f row, transfer_files ex_store !! (str "t", f) = Some row) ∧
  ∀ f row b, transfer_files ex_store !! (str "t", f) = Some row → 0 ≤ b < as_u64 (fr_size row) →
    verified ex_store (str "t") f b.
Proof. apply (set_state_completed_iff ex_store 1 (str "t")), ex_store_wf. Defined.

Lemma record_verified_witness :
  ∃ s', record_verified_chunk ex_store 1 (str "t") (str "file-0") 2 1 (blake3_hex [3]) = Ok s' ∧
  ∀ t' f' b, verified s' t' f' b ↔
    ((t', f') = (str "t", str "file-0") ∧ 2 ≤ b < 2 + 1) ∨
    ∃ o row, verified_chunks ex_store !! (t', f', o) = Some row ∧
      ¬ ((t', f') = (str "t", str "file-0") ∧ as_u64 o = 2) ∧
      covers (mkRange (as_u64 o) (as_u64 (kr_length row))) b.
Proof.
  eexists. split; [reflexivity|].
  apply (record_verified_chunk_coverage ex_store 1 (str "t") (str "file-0") 2 1 (blake3_hex [3]));
    [apply ex_store_wf|split; lia|split; lia|reflexivity].
Defined.

Lemma manifest_agrees_witness :
  plan_missing_chunks 10 4 [mkRange 0 5] = Ok (missing_ranges_for 10 4 [mkRange 0 5]) ∧
  ranges_cover_file 10 [mkRange 0 5] = Ok (ranges_cover 10 [mkRange 0 5]).
Proof.
  apply (manifest_agrees_with_planner 10 4 [mkRange 0 5]);
    [split; lia|split; lia|lia|all_ranges|all_ranges].
Defined.

(** Recording a shorter chunk at an offset that was verified before replaces
    the longer one: a verified byte is forgotten. *)
Example record_can_shrink :
  ∃ s', record_verified_chunk ex_store 1 (str "t") (str "file-0") 0 1 (blake3_hex [1]) = Ok s' ∧
    missing_ranges ex_store (str "t") (str "file-0") 1 = Ok [mkRange 2 1] ∧
    missing_ranges s' (str "t") (str "file-0") 1 = Ok [mkRange 1 1; mkRange 2 1].
Proof. eexists. split; [reflexivity|]. split; reflexivity. Qed.

(** ** Frames *)

Definition ex_messages : list ControlMessage :=
  [CAccept (mkAcceptTransfer (str "t") 4); CDone (mkDoneTransfer (str "t"))].

Lemma control_stream_witness :
  ∃ bs, write_controls ex_messages = Ok bs ∧ read_controls 2 (bs ++ [9]) = Ok (ex_messages, [9]).
Proof.
  eexists. split; [reflexivity|]. apply (control_stream_roundtrip ex_messages). reflexivity.
Defined.

Definition ex_chunk : TransferChunk := mkChunk (str "file-0") 0 ex_blake3 [1; 2; 3].

Lemma chunk_frame_witness :
  ∃ bs, write_chunk_frame ex_chunk = Ok bs ∧
    read_chunk_frame (bs ++ [9]) =
      if zlen bs <=? 4 + MAX_CHUNK_FRAME_BYTES then Ok (ex_chunk, [9])
      else Err (transfer_error "chunk frame exceeds maximum size").
Proof.
  eexists. split; [reflexivity|]. apply (chunk_frame_roundtrip ex_chunk); [reflexivity|split; simpl; lia|].
  change (tc_file_id ex_chunk) with [102; 105; 108; 101; 45; 48].
  repeat (apply Forall_nil_2 || (apply Forall_cons_2; [left; lia|])).
Defined.

Definition ex_frame : bytes := match write_chunk_frame ex_chunk with Ok bs => bs | _ => [] end.


(** ** Files *)

Definition ex_inbox : path := [str "in"].
Definition ex_receiver : NativeTransferReceiver := mkReceiver ex_inbox (Some (str "p")) false 2.
Definition ex_peer : NativePeerInfo := mkPeerInfo (str "alias") (str "p") (replicate 32 0) 1 None [].

Lemma target_path_witness :
  (∀ target, available_target_path {[ ex_inbox := Dir ]} ex_inbox (str "a.txt") = Ok target →
     ∃ base, target = ex_inbox ++ [base] ∧ plain base ∧ 47 ∉ base ∧ ({[ ex_inbox := Dir ]} : fs) !! target = None) ∧
  ((size ({[ ex_inbox := Dir ]} : fs) < Z.to_nat 9999)%nat →
     is_ok (available_target_path {[ ex_inbox := Dir ]} ex_inbox (str "a.txt")) = is_ok (safe_file_name (str "a.txt"))).
Proof.
  apply (available_target_path_correct {[ ex_inbox := Dir ]} ex_inbox (str "a.txt")). split.
  - apply Forall_singleton. by apply (bool_decide_unpack _).
  - intros q Hne Hq. unfold ex_inbox in Hq. destruct q as [|c q]; [done|].
    pose proof (prefix_length _ _ Hq) as Hl. destruct q; [|simpl in Hl; lia].
    apply prefix_cons_inv_1 in Hq as ->. reflexivity.
Defined.

(** ** Finishing a transfer *)

Definition ex_part_dirs : fs :=
  list_to_map ((λ p, (p, Dir)) <$>
    [[str "in"]; [str "in"; str ".incoming"]; [str "in"; str ".incoming"; str "native"];
     [str "in"; str ".incoming"; str "native"; str "t"]]).
Definition ex_part : path := [str "in"; str ".incoming"; str "native"; str "t"; str "file-0.part"].
Definition ex_complete_store : ManifestStore := mkStore (transfers ex_store) (transfer_files ex_store)
  {[ (str "t", str "file-0", 0) := mkChunkRow 3 ex_blake3 ]}.
Definition ex_arrived : World := mkWorld (<[ex_part := File [1; 2; 3]]> ex_part_dirs) ex_complete_store 0 0.
Definition ex_finished : World := (finish_transfer ex_receiver (str "t") ex_arrived).2.

Lemma finish_transfer_witness :
  transfer_complete (w_store ex_arrived) (str "t") = true ∧
  state (w_store ex_finished) (str "t") = Ok (Some Completed) ∧
  (∃ targets, NoDup targets ∧ Forall2 (λ f target, ∃ base b,
     target = ex_inbox ++ [base] ∧ plain base ∧ 47 ∉ base ∧
     w_fs ex_arrived !! target = None ∧ w_fs ex_finished !! target = Some (File b) ∧
     w_fs ex_arrived !! part_path ex_receiver (str "t") (mf_file_id f) = Some (File b) ∧
     zlen b = mf_size f ∧ (∀ h, mf_blake3 f = Some h → blake3_hex b = h))
     (files (w_store ex_arrived) (str "t")) targets) ∧
  ∀ q b, w_fs ex_arrived !! q = Some (File b) →
    (∀ f, f ∈ files (w_store ex_arrived) (str "t") → q ≠ part_path ex_receiver (str "t") (mf_file_id f)) →
    w_fs ex_finished !! q = Some (File b).
Proof.
  apply (finish_transfer_sound ex_receiver (str "t") ex_arrived ex_finished).
  - apply Forall_singleton. by apply (bool_decide_unpack _).
  - split; [discriminate|]. apply (bool_decide_unpack _). vm_compute. exact I.
  - unfold ex_finished. vm_compute. reflexivity.
Defined.

(** An empty file never gets a part file, so a transfer that has one cannot
    finish: reading the part file fails. *)
Definition ex_empty_offer : FileOffer := mkFileOffer (str "file-0") (str "empty") 0 (Some (blake3_hex [])).
Example empty_file_cannot_finish :
  (_ ← accept_transfer ex_receiver ex_peer (mkRequestTransfer (str "t") [ex_empty_offer]);
   finish_transfer ex_receiver (str "t")) (mkWorld ∅ empty_store 0 0) =
  (Err (Io NotFound), ((accept_transfer ex_receiver ex_peer (mkRequestTransfer (str "t") [ex_empty_offer]))
                         (mkWorld ∅ empty_store 0 0)).2).
Proof. vm_compute. reflexivity. Qed.

(** A chunk past the end of its file is refused by the manifest after its
    bytes were written: the part file is enlarged and the file can no longer be
    verified. *)
Example rejected_chunk_enlarges_part :
  let w := (receive_chunk ex_receiver (str "t") (str "file-0") 3 [4] ex_arrived).2 in
  (receive_chunk ex_receiver (str "t") (str "file-0") 3 [4] ex_arrived).1 =
    Err (Manifest (str "chunk extends past file size")) ∧
  w_fs w !! ex_part = Some (File [1; 2; 3; 4]) ∧
  (finish_transfer ex_receiver (str "t") w).1 = Err (transfer_error "file size mismatch").
Proof. vm_compute. split_and!; reflexivity. Qed.

(** Two file ids that differ only in characters [safe_component] drops share
    one part file. *)
Example part_files_collide :
  part_path ex_receiver (str "t") (str "f.1") = part_path ex_receiver (str "t") (str "f1").
Proof. reflexivity. Qed.

(** ** Sending *)

Definition ex_source : path := [str "src"; str "a"].
Definition ex_job : job := mkJob (mkFileOffer (str "file-0") (str "a") 3 (Some ex_blake3)) ex_source [1; 2; 3].

(** The transfer broke off after two of the three bytes. *)
Definition ex_interrupted : World :=
  mkWorld (<[ex_source := File [1; 2; 3]]> (<[ex_part := File [1; 2]]> ex_part_dirs)) ex_store 0 0.

Lemma ex_verified b : verified ex_store (str "t") (str "file-0") b → 0 ≤ b < 2.
Proof.
  intros (o & row & Hr & Hc). unfold ex_store in Hr. cbn [verified_chunks] in Hr.
  apply lookup_singleton_Some in Hr as [[= <-] <-]. exact Hc.
Qed.


Definition ex_sources : list (path * bytes) := [(ex_source, [1; 2; 3])].
Definition ex_fresh : World := mkWorld {[ ex_source := File [1; 2; 3] ]} empty_store 0 0.

Lemma send_witness :
  ∃ w', send_files_to_receiver (mkSender 2) ex_receiver ex_peer (ex_sources.*1) ex_fresh
          = (Ok (new_v4 (w_uuid ex_fresh)), w') ∧
    (∀ j, j ∈ jobs_from 0 ex_sources → w_fs w' !! jtarget ex_receiver j = Some (File (jb_content j))) ∧
    state (w_store w') (new_v4 (w_uuid ex_fresh)) = Ok (Some Completed).
Proof.
  apply (send_delivers (mkSender 2) ex_receiver ex_peer ex_sources ex_fresh). split.
  - simpl. lia.
  - split; [split|]; simpl; lia.
  - split_and!; reflexivity.
  - discriminate.
  - intros p c [= -> ->]%list_elem_of_singleton. split_and!; [reflexivity|unfold zlen; simpl; lia..|reflexivity].
  - discriminate.
  - reflexivity.
  - intros f. apply lookup_singleton_ne. discriminate.
  - apply empty_store_wf.
  - apply Forall_singleton. by apply (bool_decide_unpack _).
  - intros q b Hq Hf. cbn [w_fs ex_fresh] in Hf. apply lookup_singleton_Some in Hf as [<- _].
    unfold part_dir, ex_receiver in Hq. cbn [rc_inbox_dir] in Hq. unfold ex_source, ex_inbox in Hq.
    cbn [app] in Hq. apply prefix_cons_inv_1 in Hq. discriminate.
  - split.
    + intros j ->%list_elem_of_singleton. split; [reflexivity|]. by apply (bool_decide_unpack _).
    + intros j ->%list_elem_of_singleton. apply lookup_singleton_ne. discriminate.
    + apply NoDup_singleton.
  - intros j ->%list_elem_of_singleton. discriminate.
Defined.
