(* ===== verification/TransferExamples.v ===== *)
(** * A network transfer on concrete inputs

    Inputs at which the hypotheses of the theorems about the client, the
    daemon's native listener and their conversation hold. *)

From stdpp Require Import prelude gmap strings relations.
From Stdlib Require Import ZArith Lia.
From S2P Require Import Prelude RustStr Errors Ranges Chunk Dto Framing Manifest Fs ChunkFrame Transfer Receiver Delivery Inet Identity TrustStore Candidates Transport Conversation NativeNet NativeGuard NativeListener LocalSession PinnedTls NativeWan Toy.

Local Open Scope Z_scope.

(** ** Two machines *)

Definition tx_key : bytes := [1].
Definition tx_inbox : path := [str "in"].
Definition tx_sources : list (path * bytes) := [([str "src"; str "a"], [1; 2; 3])].
Definition tx_client : World := mkWorld {[ [str "src"; str "a"] := File [1; 2; 3] ]} empty_store 0 0.
Definition tx_trust : TrustStore :=
  match trust empty_trust_store 5 (public_bytes tx_key) (str "alice") AutoAccept with
  | Ok (_, s) => s
  | _ => empty_trust_store
  end.
Definition tx_daemon : Daemon := mkDaemon (mkWorld ∅ empty_store 0 0) tx_trust.
Definition tx_binding : unit → bytes := λ _, [9].
Definition tx_connect : SocketAddr → result anyhow unit := λ _, Ok tt.
Definition tx_url : rstring := str "quic://127.0.0.1:5000".
Abbreviation tx_handler := (handle_native_connection [9] [7] (str "daemon") [8] tx_inbox).

Lemma tx_recv :
  recv_ready (the_receiver tx_key tx_inbox) (the_peer tx_key) (new_v4 0) (jobs_from 0 tx_sources) (d_world tx_daemon).
Proof.
  split.
  - split_and!; vm_compute; reflexivity.
  - discriminate.
  - apply NoDup_singleton.
  - intros j ->%list_elem_of_singleton. split_and!; [vm_compute; discriminate|unfold zlen; simpl; lia..|reflexivity|].
    intros h [= <-]. reflexivity.
  - discriminate.
  - reflexivity.
  - reflexivity.
  - apply empty_store_wf.
  - apply Forall_singleton. by apply (bool_decide_unpack _).
  - intros q b _. cbn [d_world tx_daemon w_fs]. by rewrite lookup_empty.
  - split.
    + intros j ->%list_elem_of_singleton. split; [reflexivity|]. by apply (bool_decide_unpack _).
    + reflexivity.
    + apply NoDup_singleton.
  - intros j ->%list_elem_of_singleton. discriminate.
Qed.

Lemma tx_trusted : auto_accepts tx_daemon (public_bytes tx_key).
Proof.
  exists (mkPeer (from_pubkey (public_bytes tx_key)) (public_bytes tx_key) (str "alice") 5 None None AutoAccept).
  split; vm_compute; reflexivity.
Qed.

(** The bytes of a message. *)
Definition tx_bytes (m : ControlMessage) : bytes := match write_control m with Ok b => b | _ => [] end.

Lemma tx_ready : net_ready tx_binding tx_key [7] (str "daemon") [8] tx_inbox tt tx_sources tx_client tx_daemon.
Proof.
  split.
  - intros p c [= -> ->]%list_elem_of_singleton. split; reflexivity.
  - by vm_compute.
  - apply tx_trusted.
  - apply tx_recv.
  - exists (tx_bytes (CHello (the_hello [9] tx_key (new_v4 0)))),
      (tx_bytes (CHelloAck (the_ack [7] (str "daemon") [8]))),
      (tx_bytes (CRequestTransfer (the_request (new_v4 0) (jobs_from 0 tx_sources)))),
      (tx_bytes (CAccept (mkAcceptTransfer (new_v4 0) DEFAULT_CHUNK_SIZE))),
      (tx_bytes (CDone (mkDoneTransfer (new_v4 0)))).
    split; vm_compute; reflexivity.
Qed.

Lemma network_witness :
  ∃ n final, delivered tx_key tx_inbox tx_sources tx_client final ∧
    ∀ m c, nsteps step m (mkConf (send_files_to_url tx_binding tx_connect tx_url (tx_sources.*1) tx_key) tx_client []
             tx_handler tx_daemon []) c →
           ∃ k, (m + k = n)%nat ∧ nsteps step k c final.
Proof.
  apply (network_transfer_delivers tx_binding tx_key [7] (str "daemon") [8] tx_inbox tx_connect tx_url
    (SockV4 127 0 0 1 5000) tt tx_sources tx_client tx_daemon); [vm_compute; reflexivity|reflexivity|apply tx_ready].
Defined.

(** The daemon's side of that conversation. *)
Lemma tx_run : ∃ d' out, rtc reacts (tx_handler, tx_daemon, []) (Ret (Ok tt), d', out).
Proof.
  destruct (candidates_transfer_delivers tx_binding tx_key [7] (str "daemon") [8] tx_inbox (λ _, [])
    (λ _, Ok tt) id [mkCandidate Local_ (SockV4 127 0 0 1 5000) 100] tt tx_sources tx_client tx_daemon)
    as (n & final & (_ & Hs & _) & Hall); [vm_compute; reflexivity|apply tx_ready|].
  destruct (Hall 0%nat _ (nsteps_O _ _)) as (k & _ & Hk). apply rtc_nsteps_2 in Hk.
  destruct (conversation_reacts _ _ [] Hk) as [sent Hr]. exists (s_world final), sent.
  by rewrite Hs in Hr.
Qed.

Lemma listener_confined_witness :
  ∃ d' out, rtc reacts (tx_handler, tx_daemon, []) (Ret (Ok tt), d', out) ∧ daemon_confined tx_inbox tx_daemon d'.
Proof.
  destruct tx_run as (d' & out & Hr). exists d', out. split; [exact Hr|].
  apply (native_listener_confined [9] [7] (str "daemon") [8] tx_inbox) with (p := Ret (Ok tt)) (out := out);
    [|exact Hr].
  apply Forall_singleton. by apply (bool_decide_unpack _).
Defined.

Lemma listener_trust_witness :
  ∃ d' out, rtc reacts (tx_handler, tx_daemon, []) (Ret (Ok tt), d', out) ∧
    ((d' = tx_daemon ∧ out = []) ∨
     ∃ hello, authenticate_hello hello [9] = Ok tt ∧ auto_accepts tx_daemon (hello_pubkey hello)).
Proof.
  destruct tx_run as (d' & out & Hr). exists d', out. split; [exact Hr|].
  exact (native_listener_needs_trust [9] [7] (str "daemon") [8] tx_inbox tx_daemon _ d' out Hr).
Defined.

(** The same conversation in the accept loop, up to its last move. *)
Lemma listener_proof_witness :
  ∃ l l', rtc (native_accept_loop (str "daemon") [8] tx_inbox) (start_listener tx_daemon) l ∧
    native_accept_loop (str "daemon") [8] tx_inbox l l' ∧
    (∃ c, c ∈ nl_conns l' ∧ nc_prog c = Ret (Ok tt)) ∧
    daemon_confined tx_inbox tx_daemon (nl_daemon l') ∧
    (∀ c, c ∈ nl_conns l' → nc_out c ≠ [] → proved tx_daemon (nc_binding c) (nc_heard c)) ∧
    (nl_daemon l' ≠ nl_daemon l → ∃ i c, nl_conns l !! i = Some c ∧ proved tx_daemon (nc_binding c) (nc_heard c) ∧
       ∀ j, j ≠ i → nl_conns l' !! j = nl_conns l !! j).
Proof.
  destruct tx_run as (d' & out & Hr).
  destruct (lift_reacts (str "daemon") [8] tx_inbox _ _ _ _ _ _ Hr [mkNativeConn [9] tx_handler [] []] 0 [9] [] false eq_refl)
    as [heard Hl].
  assert (Hstart : rtc (native_accept_loop (str "daemon") [8] tx_inbox) (start_listener tx_daemon)
    (mkListener d' [mkNativeConn [9] (Ret (Ok tt)) out heard] false)).
  { eapply rtc_l; [apply (loop_accepts _ _ _ _ [] [9] [7])|exact Hl]. }
  apply rtc_inv_r in Hstart as [Heq|(l & Hreach & Hlast)]; [discriminate Heq|].
  exists l, (mkListener d' [mkNativeConn [9] (Ret (Ok tt)) out heard] false).
  split; [exact Hreach|]. split; [exact Hlast|]. split; [eexists; split; [left|reflexivity]|].
  apply (listener_acts_on_proof (str "daemon") [8] tx_inbox); [|exact Hreach|exact Hlast].
  apply Forall_singleton. by apply (bool_decide_unpack _).
Defined.

Definition tx_huge : RequestTransfer :=
  mkRequestTransfer (str "t") [mkFileOffer (str "a") (str "a") (2 ^ 63) None; mkFileOffer (str "b") (str "b") (2 ^ 63) None].


(** ** A WAN peer with an impostor beside it *)

Definition tx_cert : bytes := [1; 2; 3].
Definition tx_pin : NativeDialTrust := hex_encode (sha256 tx_cert).
Definition tx_impostor : NativeCandidate := mkCandidate ServerReflexive (SockV4 203 0 113 7 4242) 80.
Definition tx_peer : NativeCandidate := mkCandidate ServerReflexive (SockV4 198 51 100 4 4242) 70.
Definition tx_offer (cert : bytes) : Offer := mkOffer cert [] Tls13 [9; 9] (cert ++ [9; 9]).
Definition tx_network (_ remote : SocketAddr) : Attempt :=
  mkAttempt None 100 (inr (tx_offer (if bool_decide (remote = nc_address tx_peer) then tx_cert else [6; 6]))).
Definition tx_channel : Endpoint * Connection → bytes := λ _, [9].
Abbreviation tx_leads pair c :=
  (pair ∈ candidate_pairs any_local [tx_impostor; tx_peer] ∧ reaches (λ _, 40000) false tx_network [] tx_pin pair c).
Abbreviation tx_wan :=
  (wan_send tx_channel tx_key (λ _, []) id (λ _, 40000) false tx_network [] tx_pin [tx_impostor; tx_peer] (tx_sources.*1)).

Lemma tx_reached : ∃ pair c, tx_leads pair c.
Proof.
  exists (make_pair (mkCandidate Local_ (SockV4 0 0 0 0 0) 100) tx_peer), (mkConnection (nc_address tx_peer) tx_cert (tx_offer tx_cert)).
  split; [by apply (bool_decide_unpack _)|]. exists (SockV4 0 0 0 0 40000), [mkSocket Udp (SockV4 0 0 0 0 40000)].
  by vm_compute.
Qed.
Lemma tx_all_ready ep pair c :
  tx_leads pair c → net_ready tx_channel tx_key [7] (str "daemon") [8] tx_inbox (ep, c) tx_sources tx_client tx_daemon.
Proof. intros _. destruct tx_ready as [Hs Ht Ha Hr Hf]. by split. Qed.

Lemma wan_transfer_witness :
  ∃ ep c, tx_pin = hex_encode (sha256 (cn_certificate c)) ∧
    signature_ok (native_server_verifier tx_pin) (cn_offer c) = true ∧
    ∃ n final, delivered tx_key tx_inbox tx_sources tx_client final ∧
      ∀ m conf, nsteps step m (mkConf tx_wan tx_client []
          (handle_native_connection (tx_channel (ep, c)) [7] (str "daemon") [8] tx_inbox) tx_daemon []) conf →
        ∃ k, (m + k = n)%nat ∧ nsteps step k conf final.
Proof.
  apply (wan_transfer_pinned tx_channel tx_key [7] (str "daemon") [8] tx_inbox (λ _, []) id (λ _, 40000) false tx_network []
    ltac:(done) tx_pin [tx_impostor; tx_peer] tx_sources tx_client tx_daemon).
  - reflexivity.
  - intros p c [= -> ->]%list_elem_of_singleton. reflexivity.
  - apply tx_reached.
  - apply tx_all_ready.
Defined.
