(* ===== verification/NetExamples.v ===== *)
(** * Identity, trust, STUN and rendezvous on concrete inputs

    For each theorem about them that has hypotheses, an input at which they
    hold. *)

From stdpp Require Import prelude gmap strings sorting.
From Stdlib Require Import ZArith Lia.
From S2P Require Import Prelude RustStr Errors Dto Inet Identity TrustStore Stun Candidates Transport Rendezvous RendezvousServer Wan WanService PinnedTls Toy.

Local Open Scope Z_scope.

(** ** Identity *)

Definition ex_fp : bytes := [1; 35; 69; 103; 137; 171; 205; 239].

Lemma fingerprint_witness :
  parse_fingerprint (show_fingerprint ex_fp) = Ok ex_fp ∧ length (show_fingerprint ex_fp) = 19%nat ∧
  ∀ s, filter (λ c, c ≠ 45) s = hex_encode ex_fp → parse_fingerprint s = Ok ex_fp.
Proof.
  apply (fingerprint_text_roundtrip ex_fp). split; [reflexivity|]. by apply (bool_decide_unpack _).
Defined.

Example fingerprint_text : show_fingerprint ex_fp = str "0123-4567-89ab-cdef".
Proof. reflexivity. Qed.

Definition ex_hello : Hello := mkHello 1 (str "alice") (public_bytes [1]) [5; 6] [] [].
Definition ex_ack : HelloAck := mkHelloAck 1 (str "bob") (public_bytes [2]) [7] [].
Definition ex_pairing_a : PairingState :=
  mkPairing (str "alice") (public_bytes [1]) (from_pubkey (public_bytes [1]))
    (pairing_sas (public_bytes [2]) [7] (public_bytes [1]) [5; 6]).
Definition ex_pairing_b : PairingState :=
  mkPairing (str "bob") (public_bytes [2]) (from_pubkey (public_bytes [2]))
    (pairing_sas (public_bytes [1]) [5; 6] (public_bytes [2]) [7]).

Lemma pairing_witness :
  ps_sas ex_pairing_a = ps_sas ex_pairing_b ∧ length (ps_sas ex_pairing_a) = 6%nat ∧
  Forall (λ c, is_ascii_digit c = true) (ps_sas ex_pairing_a) ∧
  ps_fingerprint ex_pairing_a = from_pubkey (hello_pubkey ex_hello) ∧
  ps_fingerprint ex_pairing_b = from_pubkey (ack_pubkey ex_ack).
Proof.
  apply (pairing_agrees ex_hello ex_ack); [|reflexivity|reflexivity].
  apply (bool_decide_unpack _). vm_compute. exact I.
Defined.


(** ** Trust store *)

Definition ex_trust : result CoreError (Peer * TrustStore) :=
  trust empty_trust_store 5 (public_bytes [1]) (str "alice") AutoAccept.
Definition ex_trusting : TrustStore := match ex_trust with Ok (_, s) => s | _ => empty_trust_store end.

Lemma queries_total_witness :
  size (peers ex_trusting) = 1%nat ∧
  (∃ l, list_peers ex_trusting = Ok l ∧ length l = size (peers ex_trusting)) ∧
  (∀ fp, ∃ o, get ex_trusting fp = Ok o) ∧ (∀ fp, ∃ d, trust_decision ex_trusting fp = Ok d) ∧
  (∀ st, ∃ l, list_localsend_peers_by_status ex_trusting st = Ok l) ∧
  (∃ l, list_localsend_lan_peers ex_trusting = Ok l ∧ length l = size (localsend_lan_peers ex_trusting)).
Proof.
  split; [vm_compute; reflexivity|]. apply (trust_store_queries_total ex_trusting), rtc_once.
  destruct ex_trust as [[p s]| |] eqn:Ht; [|vm_compute in Ht; discriminate Ht..].
  unfold ex_trusting. rewrite Ht. eapply step_trust, Ht. vm_compute. reflexivity.
Defined.

Lemma empty_trust_wf : trust_wf empty_trust_store.
Proof. split; intros *; cbn; by rewrite lookup_empty. Qed.

Lemma trust_upserts_witness :
  let s := empty_trust_store in
  let fp := from_pubkey (public_bytes [1]) in
  ∃ p s', trust s 5 (public_bytes [1]) (str "alice") Block = Ok (p, s') ∧ get s' fp = Ok (Some p) ∧
    pr_fingerprint p = fp ∧ pr_label p = str "alice" ∧ trust_decision s' fp = Ok (decision_of Block) ∧
    (∀ old, get s fp = Ok (Some old) → pr_pubkey p = pr_pubkey old ∧ pr_trusted_at p = pr_trusted_at old ∧
       pr_native_certificate_fingerprint p = pr_native_certificate_fingerprint old) ∧
    (get s fp = Ok None → pr_pubkey p = public_bytes [1] ∧ pr_trusted_at p = 5 ∧
       pr_native_certificate_fingerprint p = None) ∧
    (∀ fp', fingerprint_ok fp' → fp' ≠ fp → get s' fp' = get s fp') ∧
    get (untrust s' fp).2 fp = Ok None.
Proof. apply (trust_upserts empty_trust_store 5 (public_bytes [1]) (str "alice") Block empty_trust_wf). reflexivity. Defined.

Definition ex_ls_fp : rstring := str "AB:cd".

Lemma status_machine_witness :
  let s := empty_trust_store in
  let old := get_localsend_peer s ex_ls_fp in
  (∀ alias ip, is_blank alias = false →
    (∃ p s', record_pending_localsend_peer s 5 ex_ls_fp alias ip = Ok (p, s') ∧
      match old with
      | Ok (Some q) => localsend_updated s s' ex_ls_fp (ls_status q) (ls_attempt_count q + 1)
      | _ => old = Ok None ∧ localsend_updated s s' ex_ls_fp StPending 1
      end) ∧
    (∃ p s', record_trusted_localsend_peer s 5 ex_ls_fp alias ip = Ok (p, s') ∧
      match old with
      | Ok (Some q) => localsend_updated s s' ex_ls_fp (ls_status q) (ls_attempt_count q)
      | _ => old = Ok None ∧ localsend_updated s s' ex_ls_fp StTrusted 0
      end)) ∧
  (∀ label, ∃ p s', approve_localsend_peer s 5 ex_ls_fp label = Ok (p, s') ∧
     ∃ n, localsend_updated s s' ex_ls_fp StTrusted n) ∧
  (∃ p s', deny_localsend_peer s 5 ex_ls_fp = Ok (p, s') ∧ ∃ n, localsend_updated s s' ex_ls_fp StBlocked n).
Proof. apply (localsend_status_machine empty_trust_store 5 ex_ls_fp (str "abcd") empty_trust_wf). reflexivity. Defined.

(** ** STUN *)

Definition ex_transaction : bytes := [1; 2; 3; 4; 5; 6; 7; 8; 9; 10; 11; 12].

Lemma stun_correct_witness :
  parse_binding_response (encode_response ex_transaction
    (encode_attrs [(0x8022, [97; 98; 99])] ++
     encode_attr (XOR_MAPPED_ADDRESS, xor_mapped_value 203 0 113 7 4242) ++ []) ++ []) ex_transaction
  = Ok (SockV4 203 0 113 7 4242).
Proof.
  apply (parse_binding_response_correct ex_transaction [(0x8022, [97; 98; 99])] 203 0 113 7 4242 [] []);
    [reflexivity| |split; lia|reflexivity].
  apply Forall_singleton. split; [split; simpl; lia|]. split; [discriminate|reflexivity].
Defined.

Lemma stun_no_panic_witness : parse_binding_response [1; 1; 0; 4; 255] ex_transaction ≠ Panic.
Proof.
  apply (parse_binding_response_no_panic [1; 1; 0; 4; 255] ex_transaction). by apply (bool_decide_unpack _).
Defined.

(** ** Candidates *)

Definition ex_discover (s : SocketAddr) (port : Z) : result NativeError SocketAddr := Ok (SockV4 203 0 113 7 port).
Definition ex_server : SocketAddr := SockV4 192 0 2 1 3478.

Lemma gather_witness :
  ∃ cs, gather_candidates ex_discover (Some (IpV4 10 0 0 2)) 4242 [ex_server] = Ok cs ∧
    NoDup (candidate_key <$> cs) ∧ StronglySorted (λ a b, nc_priority b ≤ nc_priority a) cs ∧
    (Local_, SockV4 127 0 0 1 4242) ∈ candidate_key <$> cs ∧
    ∀ a, (ServerReflexive, a) ∈ candidate_key <$> cs ↔ ∃ s, s ∈ [ex_server] ∧ ex_discover s 4242 = Ok a.
Proof. apply (gather_candidates_correct ex_discover (Some (IpV4 10 0 0 2)) 4242 [ex_server]). lia. Defined.

Definition ex_local : NativeCandidate := mkCandidate Local_ (SockV4 10 0 0 2 4242) 100.
Definition ex_remote : NativeCandidate := mkCandidate ServerReflexive (SockV4 203 0 113 7 4242) 50.

Lemma pairs_witness :
  candidate_pairs [ex_local] [ex_remote; ex_local] ≡ₚ ([ex_local] ≫= λ l, make_pair l <$> [ex_remote; ex_local]) ∧
  StronglySorted (λ a b,
    lex_leb (- nc_priority (cp_local a) :: - nc_priority (cp_remote a) :: sock_key (nc_address (cp_remote a)))
            (- nc_priority (cp_local b) :: - nc_priority (cp_remote b) :: sock_key (nc_address (cp_remote b))) = true)
    (candidate_pairs [ex_local] [ex_remote; ex_local]).
Proof.
  apply (candidate_pairs_correct [ex_local] [ex_remote; ex_local]);
    repeat (apply Forall_nil_2 || (apply Forall_cons_2; [split; simpl; lia|])).
Defined.

Definition ex_dial (p : CandidatePair) : result NativeError Z :=
  if nc_priority (cp_remote p) =? 50 then Ok 7 else Err (Transport (str "timeout")).

Lemma dial_witness :
  dial_candidates (λ _, []) ex_dial reverse [ex_local] [ex_remote; ex_local] = Ok 7 ∧
  match dial_candidates (λ _, []) ex_dial reverse [ex_local] [ex_remote; ex_local] with
  | Ok c => ∃ p, p ∈ candidate_pairs [ex_local] [ex_remote; ex_local] ∧ ex_dial p = Ok c
  | Err e => (∀ p, p ∈ candidate_pairs [ex_local] [ex_remote; ex_local] → is_ok (ex_dial p) = false) ∧
             ∃ hint last_error,
               e = NoDirectPath (describe_pair <$> candidate_pairs [ex_local] [ex_remote; ex_local]) hint last_error
  | Panic => False
  end.
Proof.
  split; [vm_compute; reflexivity|].
  apply (dial_candidates_correct (λ _, []) ex_dial reverse [ex_local] [ex_remote; ex_local]).
  intros pairs. apply reverse_Permutation.
Defined.

(** A machine in the network presents its own certificate and answers first. *)
Definition ex_cert : bytes := [1; 2; 3].
Definition ex_offer (cert : bytes) : Offer := mkOffer cert [] Tls13 [9; 9] (cert ++ [9; 9]).
Definition ex_network (_ remote : SocketAddr) : Attempt :=
  if bool_decide (remote = nc_address ex_remote) then mkAttempt None 5 (inr (ex_offer [6; 6]))
  else mkAttempt None 800 (inr (ex_offer ex_cert)).
Definition ex_dialed : result NativeError (Endpoint * Connection) :=
  dial_with_trust (λ _, []) reverse (λ _, 40000) false ex_network [] [ex_local] [ex_remote; ex_local] (hex_encode (sha256 ex_cert)).

Lemma dial_pinned_witness :
  (match ex_dialed with Ok (_, c) => Some (cn_remote c, cn_certificate c) | _ => None end) =
    Some (nc_address ex_local, ex_cert) ∧
  match ex_dialed with
  | Ok (_, c) =>
    hex_encode (sha256 ex_cert) = hex_encode (sha256 (cn_certificate c)) ∧
    PinnedTls.signature_ok (native_server_verifier (hex_encode (sha256 ex_cert))) (cn_offer c) = true ∧
    ∃ pair, pair ∈ candidate_pairs [ex_local] [ex_remote; ex_local] ∧ cn_remote c = nc_address (cp_remote pair) ∧
      reaches (λ _, 40000) false ex_network [] (hex_encode (sha256 ex_cert)) pair c
  | Err e =>
    (∀ pair c, pair ∈ candidate_pairs [ex_local] [ex_remote; ex_local] →
       ¬ reaches (λ _, 40000) false ex_network [] (hex_encode (sha256 ex_cert)) pair c) ∧
    ∃ hint last_error, e = NoDirectPath (describe_pair <$> candidate_pairs [ex_local] [ex_remote; ex_local]) hint last_error
  | Panic => False
  end.
Proof.
  split; [vm_compute; reflexivity|].
  apply (native_dial_pinned (λ _, []) reverse (λ _, 40000) false ex_network [] [ex_local] [ex_remote; ex_local] (hex_encode (sha256 ex_cert))).
  - intros pairs. apply reverse_Permutation.
  - reflexivity.
Defined.

(** ** Rendezvous *)

Definition ex_key : bytes := [1].
Definition ex_register : RegisterRequest :=
  mkRegister (str "alice") ex_key [mkRvCandidate RvLocal (str "10.0.0.2:4242") 100] 60.
Definition ex_registry : Registry := (register 0 ex_register (new_registry (from_secs 30))).2.

Lemma registry_reachable_witness : registry_wf ex_registry.
Proof.
  apply (registry_reachable_wf (from_secs 30)).
  eapply rtc_l; [apply (StepMessage 0 (Register_ ex_register))|]. apply rtc_refl.
Defined.

Lemma registration_lifetime_witness :
  register 0 ex_register (new_registry (from_secs 30)) = (Ok (mkRegistered 30 30), ex_registry) ∧
  ∀ now', (lookup_peer now' ex_key (handle_message 1 (Lookup_ (mkLookup [2] ex_key)) ex_registry).2).1 =
    if decide (now' < 0 + Z.min (from_secs 60) (from_secs 30))
    then Some (mkLookupPeer (str "alice") ex_key (rg_candidates ex_register) (as_secs (duration_since now' 0)))
    else None.
Proof.
  split; [reflexivity|].
  apply (registration_lifetime 0 ex_register (new_registry (from_secs 30)) (mkRegistered 30 30) ex_registry).
  - reflexivity.
  - eapply rtc_once, OtherMessage; [reflexivity|]. discriminate.
Defined.

Lemma notifications_witness :
  (drain_notifications 3 ex_key (queue_notify 2 (mkNotify [2] ex_key) ex_registry).2).1 =
    default [] (notifications ex_registry !! ex_key) ++ [mkPeerNotification [2]] ∧
  ∀ now'', (drain_notifications now'' ex_key
              (drain_notifications 3 ex_key (queue_notify 2 (mkNotify [2] ex_key) ex_registry).2).2).1 = [].
Proof.
  apply (notifications_fifo 2 (mkNotify [2] ex_key) ex_registry (mkNotifyQueued ex_key)).
  - apply (handle_message_wf 0 (Register_ ex_register)). split; intros *; simpl; by rewrite lookup_empty.
  - vm_compute. reflexivity.
  - eexists. split; [reflexivity|]. vm_compute. reflexivity.
Defined.

Lemma client_calls_witness :
  let g := new_registry (from_secs 30) in
  fits 0 (Register_ ex_register) g ∧
  (∀ r, fits 0 (Register_ r) g → client_register 0 r g = (call_result (register 0 r g).1, (register 0 r g).2)) ∧
  (∀ r, fits 0 (Lookup_ r) g → client_lookup 0 r g = (call_result (lookup_request 0 r g).1, (lookup_request 0 r g).2)) ∧
  (∀ r, fits 0 (Notify_ r) g → client_notify 0 r g = (call_result (queue_notify 0 r g).1, (queue_notify 0 r g).2)).
Proof.
  split; [|apply client_calls_refine_registry]. split; [reflexivity|]. intros resp Hresp.
  vm_compute in Hresp. injection Hresp as <-. reflexivity.
Defined.

(** ** Rendezvous server *)

Definition ex_frame (m : ClientMessage) : bytes := match write_client_message m with Ok b => b | _ => [] end.
Definition ex_rv_server : RunningServer :=
  mkRunning (sc_bind_addr default_server_config) (new_registry (from_secs 300)) [] None.
Definition ex_rv_events : list Event :=
  [Incoming true; Established 0 true; StreamOpened 0 5 (ex_frame (Register_ ex_register)); PruneTick 7;
   StreamOpened 0 6 (ex_frame (Notify_ (mkNotify [2] ex_key)))].

Lemma lookup_answers_witness :
  let s' := foldl step ex_rv_server ex_rv_events in
  let recv := ex_frame (Lookup_ (mkLookup [2] ex_key)) in
  let found := lookup_spec (from_secs 300) (acts ex_rv_server ex_rv_events []) 8 ex_key in
  found = Some (mkLookupPeer (str "alice") ex_key (rg_candidates ex_register) 0) ∧
  (handle_stream 8 recv (rs_registry s')).1 =
    match write_server_message (LookupResult (mkLookupResponse found)) with Ok b => b | _ => [] end ∧
  rs_registry (step s' (StreamOpened 0 8 recv)) = (lookup_peer 8 ex_key (rs_registry s')).2.
Proof.
  split; [vm_compute; reflexivity|].
  apply (lookup_answers_history (Ok tt) Ok default_server_config ex_rv_server ex_rv_events 8 _ (mkLookup [2] ex_key) [] 0).
  - reflexivity.
  - vm_compute. reflexivity.
  - vm_compute. reflexivity.
Defined.

(** ** WAN registration *)

Lemma wan_witness :
  let ttl := registration_ttl_seconds 20 in
  let request := build_register_request (str "alice") ex_key [ex_local] ttl in
  let '(answer, g1) := register 0 request (new_registry (from_secs 300)) in
  is_ok answer = true ∧
  (5 < 0 + Z.min (from_secs ttl) (max_ttl (new_registry (from_secs 300))) →
   lookup_peer_candidates (Ok (mkLookupResponse (lookup_peer 5 ex_key g1).1)) = Ok [ex_local]).
Proof.
  apply (wan_register_lookup 0 5 (str "alice") ex_key [ex_local] 20 (new_registry (from_secs 300)));
    [reflexivity|discriminate| |split; lia].
  apply Forall_singleton. unfold v4_endpoint, octet, u16_ok. simpl. lia.
Defined.

(** ** Registered and found *)

Definition ex_wan_round (reached : option Z) (others : list Act) : WanRound :=
  mkWanRound (Ok [ex_local]) reached (Ok (mkRegistered 60 60)) Elapsed others.
Definition ex_wan_request : RegisterRequest := build_register_request (str "alice") ex_key [ex_local] 60.
Definition ex_wan_events : list Event :=
  [Incoming true; Established 0 true; StreamOpened 0 5 (ex_frame (Register_ ex_wan_request)); PruneTick (from_secs 30);
   StreamOpened 0 (from_secs 31) (ex_frame (Lookup_ (mkLookup [2] ex_key)))].


(** The registry takes the key of a registration on faith: whoever sends one
    replaces the candidates of the peer. *)
Example ex_registration_taken_over :
  let stolen := mkRegister (str "mallory") ex_key [mkRvCandidate RvLocal (str "10.6.6.6:4242") 100] 60 in
  let events := [Incoming true; Established 0 true; StreamOpened 0 5 (ex_frame (Register_ ex_register));
                 Incoming true; Established 1 true; StreamOpened 1 6 (ex_frame (Register_ stolen))] in
  (lookup_peer 7 ex_key (rs_registry (foldl step ex_rv_server events))).1 =
    Some (mkLookupPeer (str "mallory") ex_key (rg_candidates stolen) 0).
Proof. vm_compute. reflexivity. Qed.
