(* ===== verification/LocalExamples.v ===== *)
(** * The LocalSend receiver on concrete inputs

    For each theorem about it that has hypotheses, an input at which they
    hold. *)

From stdpp Require Import prelude gmap strings.
From Stdlib Require Import ZArith Lia.
From S2P Require Import Prelude RustStr Errors Fs Transfer Identity TrustStore LocalSession LocalInbox LocalServer LocalHttp LocalClient LocalDiscovery PinnedTls Inet Toy.

Local Open Scope Z_scope.

(** ** Sessions *)

Definition ex_device : DeviceInfo :=
  mkDeviceInfo (str "phone") (str "2.0") None None (str "AB:cd") 53317 (str "https") true.
Definition ex_meta : FileMeta := mkFileMeta (str "f") (str "note.txt") 3 None None None None.
Definition ex_upload_request : PrepareUploadRequest := mkPrepareUpload ex_device {[ str "f" := ex_meta ]}.

Definition ex_world : LsWorld := mkLsWorld ∅ ∅ (Some empty_trust_store) 0.
Definition ex_prepared : LsWorld := (prepare 100 5 ex_upload_request ex_world).2.

Lemma ex_world_wf : session_wf ex_world.
Proof. split; intros *; cbn; by rewrite lookup_empty. Qed.

Lemma session_lifecycle_witness :
  ((∀ k m, pu_files ex_upload_request !! k = Some m → fm_id m = k) →
    ∃ p w', prepare 100 5 ex_upload_request ex_world = (Ok p, w') ∧ l_sessions ex_world !! ps_session_id p = None ∧
      (∀ fid, is_Some (ps_files p !! fid) ↔ is_Some (pu_files ex_upload_request !! fid)) ∧
      (∀ fid meta, pu_files ex_upload_request !! fid = Some meta → ∃ token, ps_files p !! fid = Some token ∧
        ∀ now' token', is_ok (authorize_upload now' (ps_session_id p) fid token' w').1 =
            bool_decide (now' < 5 + 100 ∧ token' = token) ∧
          (now' < 5 + 100 → (authorize_upload now' (ps_session_id p) fid token w').1 =
             Ok (mkAuthorized (ps_session_id p) fid token meta))) ∧
      (∀ sid, sid ≠ ps_session_id p → l_sessions w' !! sid = l_sessions ex_world !! sid)) ∧
  (¬ (∀ k m, pu_files ex_upload_request !! k = Some m → fm_id m = k) →
    is_ok (prepare 100 5 ex_upload_request ex_world).1 = false ∧ (prepare 100 5 ex_upload_request ex_world).2 = ex_world).
Proof. apply (prepared_session_lifecycle 100 5 ex_upload_request ex_world), ex_world_wf. Defined.

Lemma token_witness :
  let a := mkAuthorized (str "u0") (str "f") (str "u1") ex_meta in
  (authorize_upload 6 (str "u0") (str "f") (str "u1") ex_prepared).1 = Ok a ∧
  str "u0" = str "u0" ∧ str "f" = str "f" ∧ a = a ∧ fm_id (au_meta a) = str "f".
Proof.
  split; [vm_compute; reflexivity|].
  eapply (upload_token_opens_one_file ex_world ex_prepared 6 _ _ (str "u1") _ _ 7).
  - reflexivity.
  - apply rtc_once, ss_prepare.
  - vm_compute. reflexivity.
  - vm_compute. reflexivity.
Defined.

(** ** Inbox *)

Definition ex_ls_inbox : path := [str "inbox"].
Definition ex_upload : AuthorizedUpload := mkAuthorized (str "u0") (str "f") (str "u1") ex_meta.
Definition ex_body : list (bytes + io_error) := [inl [1; 2]; inl [3]].

Lemma ex_body_ok : Forall read_ok ex_body.
Proof. repeat (apply Forall_nil_2 || (apply Forall_cons_2; [unfold read_ok, zlen; simpl; lia|])). Qed.

Lemma ex_inbox_plain : Forall plain ex_ls_inbox.
Proof. apply Forall_singleton. by apply (bool_decide_unpack _). Qed.

Lemma write_upload_sound_witness :
  upload_outcome ex_ls_inbox ex_meta ex_body (l_fs ex_world) (write_upload ex_ls_inbox ex_upload ex_body ex_world).1
    (l_fs (write_upload ex_ls_inbox ex_upload ex_body ex_world).2).
Proof.
  apply (write_upload_sound ex_ls_inbox ex_upload ex_body ex_world);
    [apply ex_inbox_plain|apply ex_body_ok|simpl; lia|]. by destruct (write_upload _ _ _ _).
Defined.

Lemma write_upload_succeeds_witness :
  ∃ u w', write_upload ex_ls_inbox ex_upload ex_body ex_world = (Ok u, w').
Proof.
  apply (write_upload_succeeds ex_ls_inbox ex_upload ex_body ex_world).
  - split; [apply ex_inbox_plain|]. split; intros *; cbn [l_fs ex_world]; by rewrite lookup_empty.
  - reflexivity.
  - apply ex_body_ok.
  - simpl. lia.
  - reflexivity.
  - reflexivity.
  - reflexivity.
Defined.

(** ** Server *)

Definition ex_state : ServerState := mkServerState ex_device 100 ex_ls_inbox RpTrusted ∅ None (Some [str "trust.db"]).
Definition ex_uploaded : LsWorld :=
  (srv_write_upload ex_state 6 7 (str "u0") (str "f") (str "u1") ex_body ex_prepared).2.


Lemma ex_trust_wf w : l_trust w = Some empty_trust_store → ∀ s, l_trust w = Some s → trust_wf s.
Proof. intros -> s [= <-]. split; intros *; cbn; by rewrite lookup_empty. Qed.

Lemma session_needs_trust_witness :
  let r := (prepare_upload ex_state 5 6 None ex_upload_request ex_world).1 in
  let w' := (prepare_upload ex_state 5 6 None ex_upload_request ex_world).2 in
  r = RespStatus 403 ∧
  ((∃ sid files, r = RespPrepared sid files ∧
    (sv_receive_policy ex_state = RpAuto ∨
     sv_receive_policy ex_state = RpTrusted ∧
       ∃ fp, normalize_fingerprint (di_fingerprint (pu_info ex_upload_request)) = Some fp ∧
         allowlisted ex_state ex_world fp)) ∨
  ((r = RespAborted ∨ ∃ code, r = RespStatus code ∧ 400 ≤ code) ∧ l_sessions w' = l_sessions ex_world)).
Proof.
  split; [vm_compute; reflexivity|].
  apply (session_needs_trust ex_state 5 6 None ex_upload_request ex_world); [by apply ex_trust_wf|].
  by destruct (prepare_upload _ _ _ _ _ _).
Defined.

Definition ex_denied : TrustStore :=
  match deny_localsend_peer empty_trust_store 4 (str "ABCD") with Ok (_, s) => s | _ => empty_trust_store end.
Definition ex_denied_peer : LocalSendPeer := mkLsPeer (str "abcd") [] None StBlocked 4 4 0 None.
Definition ex_denied_world : LsWorld := mkLsWorld ∅ ∅ (Some ex_denied) 0.
Definition ex_after : LsWorld := (prepare_upload ex_state 5 6 None ex_upload_request ex_denied_world).2.

Lemma operator_decisions_witness :
  (deny_localsend_peer empty_trust_store 4 (str "ABCD") = Ok (ex_denied_peer, ex_denied) ∧
   prepare_upload ex_state 8 9 None ex_upload_request ex_after = (RespStatus 403, ex_after)).
Proof.
  assert (Hdeny : deny_localsend_peer empty_trust_store 4 (str "ABCD") = Ok (ex_denied_peer, ex_denied))
    by (vm_compute; reflexivity).
  split; [exact Hdeny|].
  apply (operator_decisions_enforced ex_state empty_trust_store 4 (str "ABCD") None ex_denied_peer ex_denied
    ex_denied_world ex_after 8 9 None ex_upload_request).
  - split; [reflexivity|]. split; [reflexivity|]. split; [reflexivity|]. by eexists.
  - by apply (ex_trust_wf ex_world).
  - reflexivity.
  - apply rtc_once, sv_prepare.
  - vm_compute. reflexivity.
  - exact Hdeny.
Defined.

(** ** HTTP *)

Definition ex_peer_addr : SocketAddr := SockV4 192 168 1 7 40000.
Definition ex_ask : HttpRequest :=
  mkHttpRequest POST (str "/api/localsend/v2/prepare-upload") [] (content_type (str "application/json"))
    [inl (json_body ex_upload_request)].
Definition ex_put : HttpRequest :=
  mkHttpRequest POST (str "/api/localsend/v2/upload") (query_pairs (upload_query (str "u0") (str "f") (str "u1"))) [] ex_body.
(** rustls accepts the certificate. *)
Definition ex_cert_ok (_ : unit) : result rstring unit := Ok tt.
Definition ex_clock : Clock := mkClock 5 6 6 7.
Definition ex_open_events : list ServeEvent := [Accepted (inr ex_peer_addr); Handshake 0 true].

(** Admitted, the two requests publish the file. *)
Example http_upload_runs :
  let state := mkServerState ex_device 100 ex_ls_inbox RpAuto ∅ None None in
  let run := serve_until_shutdown ex_cert_ok (Some tt) state (ex_open_events ++ [Requested 0 ex_clock ex_ask; Requested 0 ex_clock ex_put]) ex_world in
  l_fs (sr_world run) !! (ex_ls_inbox ++ [str "note.txt"]) = Some (File [1; 2; 3]).
Proof. vm_compute. reflexivity. Qed.

Lemma inbox_needs_admission_witness :
  let events := ex_open_events ++ [Requested 0 ex_clock ex_ask; Requested 0 ex_clock ex_put] in
  let served events := serve_until_shutdown ex_cert_ok (Some tt) ex_state events ex_world in
  l_fs (sr_world (served events)) = l_fs ex_world ∨
  ∃ before conn clock request after peer body,
    events = before ++ Requested conn clock request :: after ∧
    sr_conns (served before) !! conn = Some (peer, Serving) ∧
    l_fs (sr_world (served before)) = l_fs ex_world ∧
    asks_session request body ∧ admitted ex_state (sr_world (served before)) (pu_info body).
Proof.
  exact (inbox_needs_admission ex_cert_ok (Some tt) ex_state _ ex_world (ex_trust_wf ex_world eq_refl) eq_refl).
Defined.

(** A connection over TLS is still served when [serve_tls] has returned. *)
Example https_outlives_shutdown :
  let state := mkServerState ex_device 100 ex_ls_inbox RpAuto ∅ None None in
  let run := serve_until_shutdown ex_cert_ok (Some tt) state (ex_open_events ++ [ShutdownResolved; Requested 0 ex_clock ex_ask]) ex_world in
  sr_result run = Some (Ok tt) ∧ is_Some (l_sessions (sr_world run) !! str "u0").
Proof. vm_compute. split; [reflexivity|by eexists]. Qed.

(** A peer that is denied in the database is still accepted when the allowlist
    of the configuration names it. *)
Example static_allowlist_wins :
  let state := mkServerState ex_device 100 ex_ls_inbox RpTrusted {[ str "abcd" ]} None (Some [str "trust.db"]) in
  is_localsend_peer_blocked ex_denied (str "abcd") = Ok true ∧
  (prepare_upload state 5 6 None ex_upload_request ex_denied_world).1 =
    RespPrepared (str "u0") {[ str "f" := str "u1" ]}.
Proof. vm_compute. split; reflexivity. Qed.

(** The digest is checked on the streamed bytes, and the part file is named by
    sanitized ids: two files of a session can share one part file. *)
Example part_names_collide :
  (incoming_file_name (mkAuthorized (str "s") (str "a b") [] ex_meta) ex_world).1 =
  (incoming_file_name (mkAuthorized (str "s") (str "a-b") [] ex_meta) ex_world).1.
Proof. reflexivity. Qed.

(** ** Pinned transfers *)

(** The upload is answered by a machine with another certificate: it is not
    sent, and the transfer fails after the first request. *)
Definition ex_peer_cert : bytes := [4; 5; 6].
Definition ex_tls_offer (call : Call) : Offer :=
  let cert := match call with PostPrepare _ _ => ex_peer_cert | PostUpload _ _ _ _ _ _ => [7; 7] end in
  mkOffer cert [] Tls13 [] cert.
Definition ex_log_server (call : Call) (log : list rstring) : Reply * list rstring :=
  (Replied 200 (Some (str "session", {[ file_id 0 := str "token" ]})), log ++ [call_url call]).
Definition ex_pinned_run : result LocalSendError unit * list rstring :=
  pinned_send (λ _, Ok tt) (λ _, None) (λ base p, Some (base ++ str p)) ex_tls_offer ex_log_server
    {[ [str "a.txt"] := File [1; 2; 3] ]} (hex_encode (sha256 ex_peer_cert)) (str "https://10.0.0.9:53317")
    [[str "a.txt"]] ex_device [].

