(* ===== verification/DaemonExamples.v ===== *)
(** * The daemon's discovery, configuration, API and hooks on concrete inputs

    For each theorem about them that has hypotheses, an input at which they
    hold; and runs of the models that show single behaviours. *)

From stdpp Require Import prelude gmap strings.
From Stdlib Require Import ZArith Lia.
From S2P Require Import Prelude RustStr Errors Dto Fs Transfer Inet Text Identity TrustStore Discovery Conversation NativeNet NativeGuard NativeLan LocalSession LocalInbox LocalServer LocalClient LocalDiscovery LocalMulticast Config DaemonApi DaemonHttp Hooks Vault ApiJson Toy.

Local Open Scope Z_scope.

(** ** Native discovery *)

Definition ex_identity : bytes := [7; 1; 9].
Definition ex_cert : rstring := hex_encode (to_be_bytes 32 77).
Definition ex_info : NativePeerInfo := native_peer_info (str "desk") ex_identity 53400 ex_cert.
Definition ok_else {E A} (a : A) (r : result E A) : A := match r with Ok a => a | _ => a end.
Definition ex_properties : gmap rstring rstring := ok_else ∅ (peer_info_to_txt_properties ex_info).
Definition ex_service : ResolvedService :=
  mkService NATIVE_MDNS_SERVICE_TYPE (map_to_list ex_properties) [IpV4 192 168 1 7].
Definition ex_browse : list (Z * ServiceEvent) := [(1, OtherEvent); (2, ServiceResolved ex_service)].
Definition ex_local : rstring := show_fingerprint (from_pubkey (public_bytes [1; 2])).
Definition ex_found : NativeLanPeer :=
  mkLan (str "desk") (IpV4 192 168 1 7) 53400 (show_fingerprint (from_pubkey (public_bytes ex_identity)))
    (public_bytes ex_identity) (Some ex_cert) default_extensions.

Lemma ex_properties_ok : peer_info_to_txt_properties ex_info = Ok ex_properties.
Proof. reflexivity. Qed.

Lemma advertisement_roundtrip_witness : peer_info_from_mdns_txt (map_to_list ex_properties) = Ok ex_info.
Proof.
  rewrite (advertisement_roundtrip ex_info ex_properties (map_to_list ex_properties)).
  - vm_compute. reflexivity.
  - apply ex_properties_ok.
  - reflexivity.
  - vm_compute. reflexivity.
  - apply to_be_bytes_ok.
  - cbn. lia.
Defined.

Lemma ex_empty_wf : trust_wf empty_trust_store.
Proof. split; intros *; cbn; by rewrite lookup_empty. Qed.

Lemma announced_peer_trusted_witness :
  ∃ peers peer store', discover (λ _, []) 10 (Ok ex_browse) ex_local = Ok peers ∧ ex_found ∈ peers ∧
    trust_discovered_peer empty_trust_store 5 ex_found None AutoAccept = Ok (peer, store') ∧
    pr_native_certificate_fingerprint peer = Some ex_cert ∧
    (∀ w, auto_accepts (mkDaemon w store') (public_bytes ex_identity)).
Proof.
  destruct (announced_peer_trusted (λ _, []) 10 ex_browse ex_local (str "desk") ex_identity 53400 ex_cert ex_properties
    ex_service (IpV4 192 168 1 7) empty_trust_store 5 None AutoAccept) as (peers & peer & store' & H).
  - apply ex_properties_ok.
  - lia.
  - vm_compute. left.
  - reflexivity.
  - reflexivity.
  - reflexivity.
  - apply (bool_decide_unpack _). vm_compute. exact I.
  - intros s' p Hs' _ _. change (live 10 ex_browse) with [ex_service] in Hs'. by apply list_elem_of_singleton in Hs'.
  - vm_compute. discriminate.
  - apply ex_empty_wf.
  - exists peers, peer, store'. destruct H as (Hd & Hin & _ & Ht & _ & _ & Hc & _ & Ha & _).
    split; [exact Hd|]. split; [exact Hin|]. split; [exact Ht|]. split; [exact Hc|]. by apply Ha.
Defined.

(** ** Sending through the API *)

Definition ex_store : TrustStore :=
  ok_else empty_trust_store
    (snd <$> trust_discovered_peer empty_trust_store 5 ex_found None AutoAccept).
Definition ex_file : path := [str "home"; str "a.txt"].
Definition ex_files : fs := <[ex_file := File [1; 2; 3]]> {[ [str "home"] := Dir ]}.
Definition ex_env : Env :=
  mkEnv 100 (Ok ex_browse) 10 (Some (192, 168, 1, 5)) (λ _ _, None) id (λ _, Err (str "no route")) None (λ _, None).
Definition ex_daemon : DaemonState :=
  mkDaemonState (str "here") [1; 2] ex_local [str "trust.db"] [str "inbox"] 53317 RpPrompt ∅ None 53400
    (str "token") default_config None.
Definition ex_api : ApiWorld := mkApi ex_files ex_store [] 1 0 [].
Definition ex_send : SendRequest := mkSendRequest [str "/home/a.txt"] (Some (PeerFingerprint (str "desk"))) true.
Definition ex_api' : ApiWorld := (send_files (λ _, []) ex_env ex_daemon ex_send ex_api).2.

(** The file goes to the announced address, pinned to the certificate trusted. *)
Example ex_sent :
  send_files (λ _, []) ex_env ex_daemon ex_send ex_api = (Ok (str "u0"), ex_api') ∧
  a_sent ex_api' = [ToNative (str "quic://192.168.1.7:53400") [ex_file] ex_cert] ∧
  ev_event <$> a_events ex_api' = [TransferStarted (str "u0"); TransferCompleted (str "u0")].
Proof. vm_compute. split_and!; reflexivity. Qed.


Lemma send_files_pinned_witness :
  a_sent ex_api' = a_sent ex_api ∨
  ∃ target o, sr_target ex_send = Some target ∧ a_sent ex_api' = a_sent ex_api ++ [o] ∧
    Forall (λ p, is_file (a_fs ex_api) p = true) (path_from <$> sr_paths ex_send) ∧
    permitted (λ _, []) ex_env ex_daemon ex_api true (path_from <$> sr_paths ex_send) target o.
Proof.
  apply (send_files_pinned (λ _, []) ex_env ex_daemon ex_send ex_api (Ok (str "u0")) ex_api').
  vm_compute. reflexivity.
Defined.

Lemma native_lan_url_parses_witness :
  native_socket_addr (native_lan_url ex_found) = Ok (SockV4 192 168 1 7 53400).
Proof. apply (native_lan_url_parses ex_found); vm_compute; done. Defined.

(** Without an HTTP client a transfer to a LocalSend URL is announced as started
    and nothing more is said of it. *)
Definition ex_no_client : Env :=
  mkEnv 100 (Ok ex_browse) 10 (Some (192, 168, 1, 5)) (λ _ _, None) id (λ _, Err (str "no route"))
    (Some (str "no TLS backend")) (λ _, None).
Example ex_started_only :
  ev_event <$> a_events
    (send_files (λ _, []) ex_no_client ex_daemon
       (mkSendRequest [str "/home/a.txt"] (Some (LocalsendUrl (str "http://192.168.1.9:53317"))) false) ex_api).2 =
  [TransferStarted (str "u0")].
Proof. vm_compute. reflexivity. Qed.

(** ** Access *)

Definition ex_request (token : rstring) : Request :=
  mkRequest POST (str "/api/v1/transfers/send") (DaemonHttp.Value (str "Bearer " ++ token)) (inl 422)
    (inr (mkSendDto [str "/home/a.txt"] None None (Some (str "desk")) None true)).


(** With the token the same request sends the file. *)
Example ex_token_sends :
  handle (λ _, []) Some (λ _, Some []) ex_env ex_daemon (ex_request (str "token")) ex_api = (Json (Sent (str "u0")), ex_api').
Proof. vm_compute. reflexivity. Qed.

Lemma discovery_sound_witness :
  match discover (λ _, []) 10 (Ok ex_browse) ex_local with
  | Ok peers =>
    readable 10 ex_browse ∧ NoDup (nl_fingerprint <$> peers) ∧
    ∀ p, p ∈ peers → lan_peer_ok 10 ex_browse ex_local p
  | Err _ => ¬ readable 10 ex_browse
  | Panic => False
  end.
Proof. apply (discovery_sound (λ _, []) 10 ex_browse ex_local). Defined.

(** ** LocalSend client and server *)

Definition ex_sender : DeviceInfo :=
  mkDeviceInfo (str "phone") (str "2.0") None None (str "AB:cd") 53317 (str "https") true.
Definition ex_receiver : ServerState := mkServerState ex_sender 100 [str "inbox"] RpAuto ∅ None None.
Definition ex_ls_world : LsWorld := mkLsWorld ∅ ∅ None 0.
Definition ex_chunks (k : nat) (b : bytes) : list (bytes + io_error) :=
  (λ x : Z, inl [x]) <$> b.

Definition ex_url (base : rstring) (p : string) : option rstring := Some (base ++ str p).
Definition ex_post : LocalClient.Call → LsWorld * nat → LocalClient.Reply * (LsWorld * nat) :=
  serve ex_receiver true (SockV4 192 168 1 7 40000) (λ _, 5) (λ _, 6) (λ _, 7) ex_chunks.

Lemma localsend_delivers_witness :
  ∃ w' k' (targets : list path),
    LocalClient.send_files_to_url (λ _, None) ex_url ex_post ex_files (str "https://192.168.1.9:53317")
      [ex_file] ex_sender (ex_ls_world, 0%nat) = (Ok tt, (w', k')) ∧
    length targets = 1%nat ∧
    ∃ base, targets !! 0%nat = Some ([str "inbox"] ++ [base]) ∧ l_fs w' !! ([str "inbox"] ++ [base]) = Some (File [1; 2; 3]).
Proof.
  destruct (localsend_delivers ex_receiver true (SockV4 192 168 1 7 40000) (λ _, 5) (λ _, 6) (λ _, 7) ex_chunks
    (λ _, None) ex_url ex_files) with (base_url := str "https://192.168.1.9:53317")
    (sources := [(ex_file, [1; 2; 3])]) (sender := ex_sender) (w := ex_ls_world) (k := 0%nat) (w1 := ex_ls_world)
    as (w' & k' & targets & Hsend & Hlen & _ & Hfiles & _).
  - intros k b. split; [|split].
    + apply Forall_forall. intros r (x & -> & _)%list_elem_of_fmap. cbn. unfold zlen. cbn. lia.
    + induction b as [|x b IH]; [reflexivity|]. exact IH.
    + induction b as [|x b IH]; [reflexivity|]. exact (f_equal (cons x) IH).
  - discriminate.
  - apply Forall_singleton. split; [vm_compute; reflexivity|]. split; [reflexivity|].
    exists (str "a.txt"). split; vm_compute; reflexivity.
  - intros p [-> | ->]; eexists; split; vm_compute; reflexivity.
  - cbn. lia.
  - intros pending Hp. vm_compute in Hp. injection Hp as <-. vm_compute. discriminate.
  - reflexivity.
  - split; [|split; intros *; cbn [l_fs ex_ls_world]; by rewrite lookup_empty].
    apply Forall_singleton. split; vm_compute; discriminate.
  - intros j _. cbn. lia.
  - exists w', k', targets. split; [exact Hsend|]. split; [exact Hlen|].
    destruct (Hfiles 0%nat ex_file [1; 2; 3] eq_refl) as (base & Ht & _ & Hf). exists base. split; [exact Ht|exact Hf].
Defined.

(** ** LocalSend discovery *)

Definition ex_host_cert : bytes := [9; 9].
Definition ex_peer : DeviceInfo :=
  mkDeviceInfo (str "tablet") (str "2.0") None None (hex_encode (sha256 ex_host_cert)) 53317 (str "https") true.
Definition ex_source : SocketAddr := SockV4 192 168 1 30 40000.
Definition ex_datagrams : list Input :=
  [ Tick true;
    Datagram [1; 2; 3] ex_source Unreachable true;
    Datagram (announcement_to_vec (announce_of ex_peer)) ex_source (Answered (Some ex_host_cert) 200) true;
    Datagram (announcement_to_vec (announce_of ex_peer)) (SockV4 127 0 0 1 40000) (Answered (Some ex_host_cert) 200) true;
    Datagram (announcement_to_vec (announce_of ex_peer)) ex_source (Answered (Some [6; 6]) 200) true ].

(** The garbage is ignored, the peer is answered over its own certificate, a
    loopback address is not contacted, and a wrong certificate gets nothing but
    the multicast reply. *)
Example ex_announcer :
  (run ex_sender false ex_datagrams).1 = Ok tt ∧
  (run ex_sender false ex_datagrams).2 =
    [ Multicast (announcement_to_vec (announce_of ex_sender));
      Posted (str "https://192.168.1.30:53317/api/localsend/v2/register") (Some ex_host_cert) ex_sender;
      Multicast (announcement_to_vec (response_of ex_sender)) ].
Proof. vm_compute. split; reflexivity. Qed.

(** A browser on the same machine as two announcers is told of the tablet. *)
Definition ex_tablet : DiscoveryAnnouncer := with_peer_tx (announcer_new ex_peer).
Definition ex_phone : DiscoveryAnnouncer := with_peer_tx (announcer_new ex_sender).
Definition ex_multicast_socket : UdpSocket :=
  mkUdp (SockV4 0 0 0 0 53317) true true [DEFAULT_MULTICAST_IP].
Definition ex_packet : Packet :=
  mkPacket (SockV4 192 168 1 30 40000) DEFAULT_DISCOVERY_ADDR (announcement_to_vec (announce_of ex_peer)).

Lemma announced_device_found_witness :
  browser_listen_once (λ _, Ok tt) (browser_new (str "cli")) 100
    [(200, mkPacket ex_source (SockV4 224 0 0 251 5353) [1; 2]); (5100, ex_packet)] [ex_multicast_socket; ex_multicast_socket] =
  Ok (Some (mkLanPeerFound ex_peer (SockV4 192 168 1 30 53317) (SockV4 192 168 1 30 40000))).
Proof.
  apply (announced_device_found (λ _, Ok tt) (browser_new (str "cli")) ex_tablet (λ _, 40000) (IpV4 192 168 1 30)
    (λ p, Ok (zlen (pk_payload p))) [] ex_multicast_socket (zlen (pk_payload ex_packet)) ex_packet
    [(200, mkPacket ex_source (SockV4 224 0 0 251 5353) [1; 2])] []).
  - done.
  - vm_compute. reflexivity.
  - repeat split; apply (bool_decide_unpack _); vm_compute; exact I.
  - reflexivity.
  - apply (bool_decide_unpack _). vm_compute. exact I.
  - vm_compute. reflexivity.
  - vm_compute. split; [discriminate|exact I].
  - constructor.
Qed.

Example ex_multicast_taken :
  bind_multicast_socket (λ _, Ok tt) DEFAULT_DISCOVERY_ADDR [mkUdp (SockV4 192 168 1 30 53317) false false []] = Err (LsIo OtherIo).
Proof. vm_compute. reflexivity. Qed.

Lemma announcers_meet_witness :
  Forward (peer_of ex_tablet ex_source) ∈
    (handle_input ex_sender true (Datagram (announcement_to_vec (announce_of ex_peer)) ex_source Unreachable true)).2.
Proof.
  pose proof (announcers_meet ex_tablet ex_phone ex_source (SockV4 192 168 1 7 40000) Unreachable true) as Hmeet.
  destruct (handle_input _ _ _) as [r actions] eqn:Hi in Hmeet. cbn [da_info ex_phone ex_tablet with_peer_tx announcer_new] in Hi.
  rewrite Hi. cbn [snd]. apply Hmeet.
  - repeat split; apply (bool_decide_unpack _); vm_compute; exact I.
  - repeat split; apply (bool_decide_unpack _); vm_compute; exact I.
  - apply (bool_decide_unpack _). vm_compute. exact I.
  - vm_compute. reflexivity.
Qed.


Lemma ex_trusting_wf : trust_wf ex_store.
Proof.
  destruct (trust_certificate_pins empty_trust_store 5 (nl_pubkey ex_found) (nl_alias ex_found) AutoAccept ex_cert)
    as (peer & store' & Ht & _ & _ & _ & _ & Hwf & _); [apply ex_empty_wf|reflexivity| |].
  { split; [reflexivity|]. apply (bool_decide_unpack _). vm_compute. exact I. }
  unfold ex_store, trust_discovered_peer. cbn [ex_found nl_native_certificate_fingerprint ok_or mbind result_bind default].
  change (public_bytes ex_identity) with (nl_pubkey ex_found). change (str "desk") with (nl_alias ex_found).
  rewrite Ht. exact Hwf.
Qed.

Definition ex_heard : list (bool * Z * LocalDiscovery.LanPeer) :=
  (λ p, (true, 20, p)) <$> forwarded (run ex_sender true ex_datagrams).2.

Lemma heard_peers_witness :
  let store' := record_localsend_lan_peers ex_heard ex_store in
  trust_wf store' ∧ peers store' = peers ex_store ∧ localsend_peers store' = localsend_peers ex_store.
Proof.
  apply (heard_peers_gain_no_trust ex_sender true ex_datagrams ex_heard ex_store).
  - intros h (p & -> & Hp)%list_elem_of_fmap. exact Hp.
  - apply ex_trusting_wf.
Defined.

(** ** Hooks *)

Definition ex_hook_event : HookEvent := mkHookEvent (str "1") HkInboxChanged 100 (VObject []).
Definition ex_answers (attempt : Z) : PostAnswer := mkPostAnswer 10 (if attempt =? 1 then Some 503 else None).

(** A 503 and two network failures use up the three attempts. *)
Example ex_webhook_gives_up :
  let '(result, elapsed, posts) := webhook_deliver (webhook_new (str "https://h") (str "s") 3) ex_hook_event ex_answers in
  result = Err Network ∧ elapsed = 30 ∧ (po_at <$> posts) = [0; 10; 20].
Proof. vm_compute. split_and!; reflexivity. Qed.


Definition ex_hooks_config : AppConfig :=
  mkAppConfig [Exec (str " notify-send  received ") 60] (ac_metrics default_config) (ac_logging default_config)
    (ac_wan default_config) (ac_localsend default_config).
Definition ex_slow (c : Command) : ProcessOutcome := Exited 45000 0 [] [].

Lemma ex_hooks_config_ok : config_ok ex_hooks_config.
Proof. apply validate_Ok. vm_compute. reflexivity. Qed.

(** The program may take 60 seconds, is done after 45, and is given up at 30. *)
Lemma exec_hooks_run_witness :
  let sink := mkExecSink (str " notify-send  received ") 60 in
  (exec_deliver sink ex_hook_event ex_slow).1.1 = Ok tt ∧
  within_limit (exec_deliver sink ex_hook_event ex_slow) = None.
Proof.
  destruct (exec_hooks_run ex_hooks_config ex_hook_event ex_slow ex_hooks_config_ok
    (mkExecSink (str " notify-send  received ") 60)) as (program & args & env & _ & _ & H).
  - left.
  - cbn [ex_slow ex_timeout] in H. destruct H as (Hok & _ & Hlate). split; [apply Hok; split; [lia|reflexivity]|].
    apply Hlate; lia.
Defined.

Definition ex_wakes : list Wake := [Emit 5 InboxChanged; Recv; Emit 6 (TransferStarted (str "t")); ShutdownChanged (Some false); Recv].
Lemma event_streams_witness :
  stream_promise (λ e, dispatch (from_config ex_hooks_config) (hook_event_from_envelope e)) 1 ex_wakes
    (foldl (run_dispatcher (from_config ex_hooks_config)) (new_subscriber _ 1) ex_wakes) ∧
  pending 0 ex_wakes = Some 0%nat.
Proof. split; [apply (event_streams_in_order 1 (from_config ex_hooks_config) ex_wakes)|reflexivity]. Defined.

(** ** The vaults *)

Definition ex_empty_disk : Disk := mkDisk (mkSnapshot ∅ ∅) [].
Definition ex_config_dir : path := [str "home"; str "config"].

Lemma ex_replaceable name tmp : plain name → plain tmp → tmp ≠ name → replaceable ∅ ex_config_dir name tmp.
Proof.
  intros. split; rewrite ?lookup_empty; try done. repeat constructor; done.
Qed.

Definition ex_key : bytes := seqZ 40 32.

Lemma identity_key_survives_witness :
  let file := ex_config_dir ++ [str "identity.key"] in
  ∃ d, fsvault_save file ex_key ex_empty_disk = (Ok tt, d) ∧ load_or_create_identity file [] d = (Ok ex_key, d).
Proof.
  destruct (identity_key_survives ex_config_dir (str "identity.key") (str "identity.key.tmp") ex_key ex_empty_disk)
    as (d & l & Hsave & _ & _ & _ & Hload & _); [by apply ex_replaceable|reflexivity|reflexivity|].
  exists d. split; [exact Hsave|apply Hload].
Defined.

(** After the second of two keys, the first is gone. *)
Example ex_key_replaced :
  let file := ex_config_dir ++ [str "identity.key"] in
  let d := (fsvault_save file (seqZ 1 32) (fsvault_save file ex_key ex_empty_disk).2).2 in
  (load_or_create_identity file [] d).1 = Ok (seqZ 1 32) ∧ (length (snapshots d) = 73)%nat ∧
  (load_or_create_identity file ex_key (fsvault_delete file d).2).1 = Ok ex_key.
Proof. vm_compute. done. Qed.

Lemma api_token_survives_witness :
  let file := ex_config_dir ++ [str "api.token"] in
  ∃ d, token_load_or_generate file ex_key ex_empty_disk = (Ok (api_token_generate ex_key), d) ∧
    ∀ random, token_load_or_generate file random d = (Ok (api_token_generate ex_key), d).
Proof.
  destruct (api_token_survives ex_config_dir (str "api.token") (str "api.token.tmp") ex_key ex_empty_disk)
    as (_ & _ & _ & d & l & Hrun & _ & Hagain & _).
  - by apply ex_replaceable.
  - reflexivity.
  - reflexivity.
  - by left.
  - reflexivity.
  - apply (bool_decide_unpack _). vm_compute. done.
  - exists d. split; [exact Hrun|apply Hagain].
Defined.

Example ex_token_text : api_token_generate ex_key = str "KCkqKywtLi8wMTIzNDU2Nzg5Ojs8PT4_QEFCQ0RFRkc".
Proof. reflexivity. Qed.

Definition ex_native_vault : TlsVault NativeError := native_tls_vault (λ _, str "io error") ex_config_dir.

Lemma tls_identity_survives_witness :
  ∃ d s, tls_load_or_generate ex_native_vault (Ok (mkTlsIdentity [1; 2] [3])) ex_empty_disk = (Ok (mkTlsIdentity [1; 2] [3]), d) ∧
    s ∈ snapshots d ∧
    tls_load_or_generate ex_native_vault (Ok (mkTlsIdentity [4] [5])) (mkDisk s []) =
      (Err (Crypto (str "incomplete native TLS identity on disk")), mkDisk s []).
Proof.
  destruct (tls_identity_survives ex_native_vault (str "native-v1.cert.tmp") (str "native-v1.key.tmp")
    (mkTlsIdentity [1; 2] [3]) ex_empty_disk) as (d & l & Hrun & Hsn & _ & _ & _ & s & Hs & Hfail).
  - apply native_well_named.
  - by apply ex_replaceable.
  - by apply ex_replaceable.
  - reflexivity.
  - reflexivity.
  - exists d, s. split; [exact Hrun|]. split; [rewrite Hsn; apply elem_of_app; by left|apply Hfail].
Defined.

(** ** The JSON of the API *)

Definition ex_get_trusted : Request :=
  mkRequest GET (str "/api/v1/peers/trusted") (DaemonHttp.Value (str "Bearer token")) (inl 415) (inl 415).
Definition ex_display (p : path) : rstring := 47 :: join [47] p.
Definition ex_peers : list Peer := ok_else [] (TrustStore.list_peers ex_store).
Definition ex_bare_api : ApiWorld := mkApi ex_files empty_trust_store [] 1 0 [].
Definition ex_answer (w : ApiWorld) : option (Z * Hooks.Value) :=
  json_response ex_display (λ _, 0) (str "0.1.0") (handle (λ _, []) Some (λ _, None) ex_env ex_daemon ex_get_trusted w).1.

Lemma trusted_peers_shown_witness :
  length ex_peers = 1%nat ∧
  ex_answer ex_api = Some (200, serialize (mkTrustedPeersDto (trusted_peer_dto <$> ex_peers))) ∧
  (handle (λ _, []) Some (λ _, None) ex_env ex_daemon ex_get_trusted ex_api).2 = ex_api ∧
  (ex_answer ex_api = ex_answer ex_bare_api → ex_peers = []).
Proof.
  split; [vm_compute; reflexivity|].
  apply (trusted_peers_shown (λ _, []) Some (λ _, None) ex_display (λ _, 0) (str "0.1.0") ex_env ex_daemon ex_get_trusted
    ex_api ex_bare_api ex_peers []).
  - split_and!; [done..| |done]. apply (bool_decide_unpack _). vm_compute. exact I.
  - vm_compute. reflexivity.
  - vm_compute. reflexivity.
  - assert (Hb : forallb (λ p, bool_decide (length (pr_fingerprint p) = 8%nat) && bool_decide (Forall byte_ok (pr_fingerprint p)) &&
      bool_decide (Forall byte_ok (pr_pubkey p))) ex_peers = true) by (vm_compute; reflexivity).
    apply forallb_Forall in Hb. eapply Forall_impl; [exact Hb|]. cbn. intros p Hp. bools. split; [split; done|done].
  - constructor.
Defined.

(** What the web interface posts is read as it is meant. *)
Example ex_send_read :
  deserialize_send (VObject [("paths", VArray [VString (str "/home/a.txt")]); ("peer_fingerprint", VString (str "desk"));
      ("wan_peer", VNull); ("native", VBool true); ("comment", VNumber 1)])%string =
    Some (mkSendDto [str "/home/a.txt"] None None (Some (str "desk")) None true) ∧
  deserialize_send (VObject [("paths", VArray []); ("paths", VArray [])])%string = None ∧
  deserialize_send (VObject [("native", VBool true)])%string = None.
Proof. vm_compute. split_and!; reflexivity. Qed.
