(* ===== verification/TuiExamples.v ===== *)
(** * The dashboard on concrete inputs

    A daemon with two pending LocalSend peers and a dashboard beside it: the
    hypotheses of the theorems of Tui.v hold, and runs of the loop. *)

From stdpp Require Import prelude gmap strings.
From Stdlib Require Import ZArith Lia.
From S2P Require Import Prelude RustStr Errors Fs Text Identity TrustStore LocalSession LocalServer Config DaemonApi DaemonHttp Vault Tui TuiDraw Toy.

Local Open Scope Z_scope.

Definition no_text (e : CoreError) : rstring := [].
Definition after {A} (r : result CoreError (A * TrustStore)) : TrustStore :=
  match r with Ok (_, s) => s | _ => empty_trust_store end.

(** Two phones asked to send; the second one later. *)
Definition ex_pending_one : TrustStore :=
  after (record_pending_localsend_peer empty_trust_store 10 (str "aa:01") (str "phone one") None).
Definition ex_pending : TrustStore :=
  after (record_pending_localsend_peer ex_pending_one 20 (str "BB02") (str "phone two") (Some (str "192.168.1.9"))).

Lemma ex_pending_wf : trust_wf ex_pending.
Proof.
  apply trust_reachable_wf. apply rtc_l with ex_pending_one; [|apply rtc_once].
  - by eapply (step_pending _ 10 (str "aa:01") (str "phone one") None).
  - by eapply (step_pending _ 20 (str "BB02") (str "phone two") (Some (str "192.168.1.9"))).
Qed.

Definition ex_env_quiet : Env :=
  mkEnv 100 (Ok []) 10 None (λ _ _, None) id (λ _, Err (str "no route")) None (λ _, None).
Definition ex_daemon_with (token : rstring) : DaemonState :=
  mkDaemonState (str "here") [1; 2] (str "abcd") [str "trust.db"] [str "inbox"] 53317 RpTrusted ∅ None 53400 token
    default_config None.
Definition ex_token : rstring := str "token".
Definition ex_st : DaemonState := ex_daemon_with ex_token.
Definition ex_client : ClientEnv := mkClientEnv true (λ _ api, api) ex_env_quiet.
Definition ex_config : DaemonApiConfig := new_config DEFAULT_DAEMON_GRPC ex_token.
Definition ex_world : TuiWorld := mkTui (mkApi ∅ ex_pending [] 1 0 []) [].
Definition ex_key (k : KeyCode) (now : Z) : Turn := mkTurn (Ok tt) (Ok (Some k)) ex_client ex_client ex_client now now.
Definition ex_screen : AppState := (first_state no_text ex_st ex_config ex_client ex_world).1.

(** Down to the older request, approve it, deny the other, quit. *)
Example ex_run :
  let '(frames, (flow, s, w)) :=
    run_app no_text ex_st ex_config
      [ex_key (Char 106) 1; ex_key (Char 97) 2; ex_key (Char 100) 3; ex_key Esc 4; ex_key KTab 5] ex_screen 0 ex_world in
  flow = Left_loop ∧ as_pending_localsend_peers s = [] ∧
  map rw_alias ∘ marked ∘ snd ∘ fst <$> frames = [[str "phone two"]; [str "phone one"]; [str "phone two"]; []; []] ∧
  filter (λ c, changes c = true) (tw_calls w) =
    [ToPeers (GApprove (str "aa01") (Some (str "phone one"))); ToPeers (GDeny (str "bb02"))] ∧
  trusted_localsend_fingerprints (a_trust (tw_api w)) = Ok [str "aa01"].
Proof. vm_compute. split_and!; reflexivity. Qed.

(** After one second a poll is due; it brings the selection and the tab back
    to the first, and an [Esc] of the same turn is forgotten. *)
Example ex_poll_resets :
  let '(_, (flow, s, _)) :=
    run_app no_text ex_st ex_config [ex_key KTab 1; ex_key (Char 106) 2; ex_key Esc 1000] ex_screen 0 ex_world in
  flow = Running 1000 ∧ as_selected_tab s = Dashboard ∧ as_selected_localsend_peer s = 0%nat ∧ as_should_quit s = false.
Proof. vm_compute. done. Qed.

Lemma ex_quiet : quiet ex_config ex_client.
Proof. split; [vm_compute; reflexivity|done]. Qed.
Lemma ex_healthy : healthy ex_st (tw_api ex_world).
Proof. split; [apply ex_pending_wf|reflexivity]. Qed.

Definition ex_row : PeerRow := mkPeerRow (str "bb02") (str "phone two") None (str "pending") 1 (Some (str "192.168.1.9")).

Lemma decision_takes_effect_witness :
  ∃ lp s w, turn no_text ex_st ex_config (ex_key (Char 97) 1) ex_screen 0 ex_world = (Running lp, s, w) ∧
    ∀ row, row ∈ as_pending_localsend_peers s → rw_fingerprint row ≠ str "bb02".
Proof.
  destruct (decision_takes_effect no_text ex_st ex_config (ex_key (Char 97) 1) ex_screen 0 ex_world ex_row StTrusted)
    as (q & lp & s & w & store & n & _ & _ & _ & Hrun & _ & _ & _ & _ & Hgone & _).
  - apply ex_quiet.
  - apply ex_quiet.
  - apply ex_quiet.
  - reflexivity.
  - apply ex_healthy.
  - eexists. split; [vm_compute; reflexivity|vm_compute; reflexivity].
  - vm_compute. reflexivity.
  - reflexivity.
  - vm_compute. reflexivity.
  - left. split; reflexivity.
  - exists lp, s, w. split; [exact Hrun|exact Hgone].
Defined.

Definition ex_fresh_disk : Disk := mkDisk (mkSnapshot ∅ ∅) [].
Definition ex_random : bytes := seqZ 40 32.

Lemma ex_token_file : replaceable (sn_fs (dk_now ex_fresh_disk)) [str "config"] (str "api.token") (str "api.token.tmp").
Proof.
  split; cbn; rewrite ?lookup_empty; try done. repeat constructor; done.
Qed.

Lemma dashboard_finds_daemon_witness :
  ∃ d config, token_load_or_generate ([str "config"] ++ [str "api.token"]) ex_random ex_fresh_disk =
      (Ok (api_token_generate ex_random), d) ∧
    config_from_args (sn_fs (dk_now d)) ([str "config"] ++ [str "api.token"]) [] = Ok (Some config) ∧
    ∃ s w, first_state no_text (ex_daemon_with (api_token_generate ex_random)) config ex_client ex_world = (s, w) ∧
      as_last_error s = None ∧ as_alias s = Some (str "here").
Proof.
  destruct (dashboard_finds_daemon no_text [str "config"] (str "api.token") (str "api.token.tmp") ex_random ex_fresh_disk)
    as (_ & token & d & config & Hrun & Hconfig & Hstart).
  - apply ex_token_file.
  - reflexivity.
  - reflexivity.
  - reflexivity.
  - apply (bool_decide_unpack _). vm_compute. done.
  - assert (Ht : token = api_token_generate ex_random).
    { apply (f_equal fst) in Hrun. vm_compute in Hrun. injection Hrun as <-. reflexivity. }
    exists d, config. split; [by rewrite <-Ht|]. split; [exact Hconfig|].
    destruct (Hstart (ex_daemon_with (api_token_generate ex_random)) ex_client ex_world) as ((s & w & Hs & _ & He & _ & Ha & _) & _).
    + by rewrite Ht.
    + reflexivity.
    + reflexivity.
    + reflexivity.
    + split; [apply ex_pending_wf|reflexivity].
    + exists s, w. split; [exact Hs|]. split; [exact He|exact Ha].
Defined.

(** ** Numbers on the screen *)

Example human_bytes_scales :
  human_bytes 4 = str "4 B" ∧ human_bytes 2048 = str "2.0 KB" ∧ human_bytes (5 * 1024 * 1024) = str "5.0 MB" ∧
  human_bytes (2 ^ 64 - 1) = str "16777216.0 TB".
Proof. vm_compute. split_and!; reflexivity. Qed.
(** Just below a unit the rounded value is 1024 of the smaller one. *)
Example human_bytes_edge : human_bytes (1024 * 1024 - 1) = str "1024.0 KB".
Proof. vm_compute. reflexivity. Qed.
Example progress_bar_fills :
  progress_bar 5 10 10 = replicate 5 9608 ++ replicate 5 9617 ∧ progress_bar 1 0 4 = replicate 4 9617.
Proof. vm_compute. split; reflexivity. Qed.
(** The status the client gives a trusted peer is none the badge has a color for. *)
Example badge_of_trusted : badge_color (localsend_peer_status 2) = MUTED ∧ badge_color (localsend_peer_status 3) = RED.
Proof. vm_compute. split; reflexivity. Qed.
