(* ===== verification/CliExamples.v ===== *)
(** * The command line on concrete inputs

    The hypotheses of the theorems of Cli.v hold, and runs of commands beside
    a daemon. *)

From stdpp Require Import prelude gmap strings.
From Stdlib Require Import ZArith Lia.
From S2P Require Import Prelude RustStr Errors Fs Inet Text Identity TrustStore Candidates Rendezvous Wan LocalSession LocalServer Tui Config DaemonApi DaemonHttp Vault TuiExamples Cli Toy.

Local Open Scope Z_scope.

Definition ex_cli_config : DaemonClientConfig := mkClientConfig DEFAULT_DAEMON_GRPC (Some ex_token).
Definition ex_files : CliPaths := mkCliPaths ([str "config"] ++ [str "identity.key"]) ([str "config"] ++ [str "api.token"]).
Definition ex_cli : CliEnv :=
  mkCliEnv true true ex_client (Ok []) (λ _, None) (λ _, None) (seqZ 40 32) (str "0.1.0").
Definition ex_api_files : ApiWorld := mkApi {[ [str "a.txt"] := File [1; 2] ]} ex_pending [] 1 0 [].
Definition ex_cli_world : CliWorld := mkCli (mkTui ex_api_files []) ex_fresh_disk [] [].
Definition ex_send (url peer : option rstring) (native direct : bool) : SendCmd :=
  mkSend url false peer native None direct [str "a.txt"].

(** A file to a LocalSend URL, through the daemon. *)
Lemma cli_sends_witness :
  ∃ w sent out,
    run_send no_text ex_st ex_cli_config ex_files ex_cli (ex_send (Some (str "https://10.0.0.9:53317")) None false false)
      ex_cli_world = (Ok tt, w) ∧
    a_sent (tw_api (cw_daemon w)) = [] ++ sent ∧ cw_out w = [] ++ out ∧ sent ≠ [] ∧ out ≠ [].
Proof.
  destruct (run_send no_text ex_st ex_cli_config ex_files ex_cli
    (ex_send (Some (str "https://10.0.0.9:53317")) None false false) ex_cli_world) as [r w] eqn:Hrun.
  destruct (cli_sends_as_asked no_text ex_st ex_cli_config ex_files ex_cli _ _ _ _ (λ c api, eq_refl) Hrun)
    as (direct & sent & out & _ & Hsent & Hout & _).
  exists w, sent, out. vm_compute in Hrun. injection Hrun as <- <-.
  split; [reflexivity|]. split; [exact Hsent|]. split; [exact Hout|]. split; intros ->; discriminate.
Defined.

(** A native URL given to the daemon is never sent to, and a file is looked
    for where the daemon runs. *)
Example ex_native_url_refused :
  let '(r, w) := run_send no_text ex_st ex_cli_config ex_files ex_cli
    (ex_send (Some (str "quic://10.0.0.9:53400")) None true false) ex_cli_world in
  r = Err (str "send request failed") ∧ a_sent (tw_api (cw_daemon w)) = [] ∧
  requested (ex_send (Some (str "quic://10.0.0.9:53400")) None true false) = Some (NativeUrl (str "quic://10.0.0.9:53400")).
Proof. vm_compute. done. Qed.

(** By itself the command makes an identity and shows it in the request. *)
Example ex_direct :
  let '(r, w) := run_send no_text ex_st ex_cli_config ex_files ex_cli
    (ex_send (Some (str "https://10.0.0.9:53317")) None false true) ex_cli_world in
  r = Ok tt ∧ length (cw_sent w) = 1%nat ∧ tw_calls (cw_daemon w) = [] ∧ cw_out w = [sent_line 1] ∧
  fsvault_load (sn_fs (dk_now (cw_disk w))) (cp_identity_file ex_files) = Ok (Some (seqZ 40 32)).
Proof. vm_compute. done. Qed.

(** A pair of a plus sign and a digit counts as hexadecimal. *)
Example ex_plus_pair :
  decode_pubkey_hex (str "+f" ++ replicate 62 48) = Ok (15 :: replicate 31 0).
Proof. vm_compute. reflexivity. Qed.

(** A target that is neither can crash the command. *)
Example ex_lookup_panics :
  (lookup_wan no_text ex_files ex_cli (97 :: 233 :: replicate 13 97) (str "quic://10.0.0.1:53410") ex_cli_world).1 = Panic.
Proof. vm_compute. reflexivity. Qed.

Lemma ex_identity_file :
  replaceable (sn_fs (dk_now ex_fresh_disk)) [str "config"] (str "identity.key") (str "identity.key.tmp").
Proof. split; cbn; rewrite ?lookup_empty; try done. repeat constructor; done. Qed.

Lemma identity_commands_witness :
  ∃ keypair w, run_identity no_text ex_files ex_cli Show_ ex_cli_world = (Ok tt, w) ∧
    cw_out w = [] ++ identity_lines ex_files keypair ∧
    Vault.load_or_create_identity ([str "config"] ++ [str "identity.key"]) [] (cw_disk w) = (Ok keypair, cw_disk w).
Proof.
  destruct (identity_commands_agree no_text ex_files ex_cli [str "config"] (str "identity.key") (str "identity.key.tmp")
    ex_cli_world) as ((keypair & w & Hrun & Hout & _ & Hload & _) & _).
  - reflexivity.
  - apply ex_identity_file.
  - reflexivity.
  - reflexivity.
  - intros b Hb. vm_compute in Hb. discriminate.
  - exists keypair, w. split; [exact Hrun|]. split; [exact Hout|apply Hload].
Defined.

Definition ex_secret : bytes := [7; 7].
Definition ex_candidate : NativeCandidate := mkCandidate Local_ (SockV4 10 0 0 2 4242) 100.
Definition ex_registered : Registry :=
  (register 0 (build_register_request (str "desk") (public_bytes ex_secret) [ex_candidate] (registration_ttl_seconds 20))
     (new_registry (from_secs 300))).2.
Definition ex_lookup_env : CliEnv :=
  mkCliEnv true true ex_client (Ok []) (λ _, Some (λ r, (client_lookup 5 r ex_registered).1)) (λ _, None) (seqZ 40 32)
    (str "0.1.0").

Lemma ex_lookup_fits : fits 5 (Lookup_ (mkLookup (public_bytes (seqZ 40 32)) (public_bytes ex_secret))) ex_registered.
Proof.
  assert (Hok : match (handle_message 5 (Lookup_ (mkLookup (public_bytes (seqZ 40 32)) (public_bytes ex_secret))) ex_registered).1 with
    Ok resp => is_ok (write_server_message resp) | _ => true end = true) by (vm_compute; reflexivity).
  split; [vm_compute; reflexivity|]. intros resp Hresp. by rewrite Hresp in Hok.
Qed.

Lemma lookup_wan_witness :
  ∃ d, lookup_wan no_text ex_files ex_lookup_env (hex_encode (public_bytes ex_secret)) (str "quic://10.0.0.1:53410")
    ex_cli_world =
  (Ok tt, mkCli (cw_daemon ex_cli_world) d []
     ([Text_ (str "alias: desk"); cells [(18%nat, str "KIND"); (22%nat, str "ADDRESS"); (0%nat, str "PRIORITY")]]
      ++ [candidate_row (candidate_to_rendezvous ex_candidate)])).
Proof.
  apply (lookup_wan_finds no_text ex_files ex_lookup_env 0 5 (str "desk") ex_secret [ex_candidate] 20
    (new_registry (from_secs 300)) (str "quic://10.0.0.1:53410") (SockV4 10 0 0 1 53410)
    (hex_encode (public_bytes ex_secret)) (seqZ 40 32) ex_cli_world).
  - reflexivity.
  - discriminate.
  - apply Forall_singleton. unfold v4_endpoint, octet, u16_ok. simpl. lia.
  - split; lia.
  - vm_compute. reflexivity.
  - reflexivity.
  - vm_compute. reflexivity.
  - reflexivity.
  - apply ex_lookup_fits.
  - vm_compute. reflexivity.
  - left. apply hex_encode_cleaned, public_bytes_ok.
Defined.
