(* ===== verification/StartupExamples.v ===== *)
(** * Starting the daemon on concrete machines

    Witnesses for Databases.v: two openers of a database of an older version;
    and for Startup.v: a daemon that starts on an empty disk, once more
    with other random bytes, and once with WAN. *)

From stdpp Require Import prelude gmap strings relations.
From Stdlib Require Import ZArith Lia.
From S2P Require Import Prelude RustStr Errors Fs Inet Text Identity Discovery Candidates Rendezvous Wan LocalSession LocalServer Config Databases Transport Vault Startup Toy.

Local Open Scope Z_scope.

(** No configuration file is there to be read. *)
#[local] Instance no_toml : Toml := λ _, inl [].

Definition ex_paths : Paths := mkPaths [str "config"] [str "data"; str "trust.db"] [str "inbox"].
Definition ex_state_dir : path := [str "state"].
Definition ex_start_args (rendezvous : option rstring) : StartArgs :=
  mkStartArgs (mkArgs None 53317 (str "desk") None None [] 4242 None rendezvous) None false false false None 50051 53318 false.

(** A machine where everything works, with its random bytes made of [n]. *)
Definition ex_env (n : Z) : StartEnv :=
  mkStartEnv (repeat n 32) (repeat n 32) (λ _, Ok (mkTlsIdentity [n; 1] [n; 2])) (λ _, Ok (mkTlsIdentity [n; 3] [n; 4]))
    (λ _, true) (Ok []) true (λ sockets, 40000 + zlen sockets) false (Some (IpV4 10 0 0 2)) (λ _ instance _ _ _ _, Ok instance) (Ok (λ _, Ok tt))
    (λ _, Some [SockV4 192 0 2 1 3478]) true.
Definition ex_node : Node := mkNode (mkDisk (mkSnapshot ∅ ∅) []) [].

Abbreviation ex_start rendezvous n := (start (λ _, []) ex_paths ex_state_dir (ex_start_args rendezvous) (ex_env n)).

Example ex_starts : is_ok (ex_start None 7 ex_node).1 = true.
Proof. vm_compute. reflexivity. Qed.
Example ex_starts_again : is_ok (ex_start None 9 (mkNode (nd_disk (ex_start None 7 ex_node).2) [])).1 = true.
Proof. vm_compute. reflexivity. Qed.


(** Another user starts one with the defaults while the first is up. *)
Lemma one_daemon_witness :
  is_ok (start (λ _, []) (mkPaths [str "home"] [str "home"; str "trust.db"] [str "home"]) [str "home"]
           (default_start_args (λ _, None)) (ex_env 9) (ex_start None 7 ex_node).2).1 = false.
Proof.
  pose proof ex_starts as H1. destruct (ex_start None 7 ex_node) as [r1 n1] eqn:E1. apply is_ok_spec in H1 as [run Hrun].
  cbn [fst] in Hrun. subst r1.
  apply (one_daemon_per_port (λ _, []) ex_paths ex_state_dir (ex_start_args None) (ex_env 7) ex_node run n1 _ _
    (default_start_args (λ _, None)) (ex_env 9) n1 E1); done.
Qed.

(** With WAN; a STUN server that would answer is never asked. *)
Example ex_starts_wan :
  match (ex_start (Some (str "wss://rendezvous.example")) 7 ex_node).1 with Ok run => bool_decide (is_Some (rn_wan run)) | _ => false end = true.
Proof. vm_compute. reflexivity. Qed.

Definition ex_rounds (sockets : list Socket) (w : WanRuntime) : list round :=
  [mkRound (gather_candidates (discover_server_reflexive_candidate (λ _, 40000) sockets (repeat 0 12) (λ _ _, Ok None))
              None (wr_native_port w) (wr_stun_servers w)) (Err []) true].

Lemma wan_local_witness :
  ∃ run n' w rounds,
    ex_start (Some (str "wss://rendezvous.example")) 7 ex_node = (Ok run, n') ∧ rn_wan run = Some w ∧
    let '(result, requests) := run_register_loop (str "desk") (repeat 7 32) 90 rounds in
    result = Ok tt ∧ length requests = 1%nat ∧
    Forall (λ request, Forall (λ c, cd_kind c = RvLocal) (rg_candidates request)) requests.
Proof.
  pose proof ex_starts_wan as H1. revert H1.
  destruct (ex_start (Some (str "wss://rendezvous.example")) 7 ex_node) as [r n'] eqn:E. cbn [fst].
  destruct r as [run| |]; [|discriminate..]. destruct (rn_wan run) as [w|] eqn:Hw; [|discriminate]. intros _.
  destruct (wan_registers_only_local (λ _, []) ex_paths ex_state_dir (ex_start_args (Some (str "wss://rendezvous.example")))
    (ex_env 7) ex_node run n' w (str "desk") (repeat 7 32) 90 (ex_rounds (nd_sockets n') w)) as (held & Hin & Hloop); [|exact E|exact Hw|].
  { intros l. cbn. unfold zlen. lia. }
  exists run, n', w, (ex_rounds (nd_sockets n') w). split; [reflexivity|]. split; [exact Hw|].
  specialize (Hloop ltac:(apply Forall_singleton; exists (nd_sockets n'), (λ _, 40000), (repeat 0 12), (λ _ _, Ok None), None;
    split; [exact Hin|reflexivity])).
  unfold ex_rounds in Hloop |- *. cbn [run_register_loop rn_gathered rn_shutdown] in Hloop |- *.
  destruct (gather_candidates _ _ _ _) as [cs|e|]; lazy beta iota zeta in Hloop |- *.
  - destruct Hloop as [_ Hall]. split; [reflexivity|]. split; [reflexivity|exact Hall].
  - destruct Hloop as [Hloop _]. discriminate Hloop.
  - destruct Hloop as [Hloop _]. discriminate Hloop.
Defined.

(** A LocalSend announcer that failed keeps the APIs from being stopped. *)
Example ex_stop :
  match (ex_start None 7 ex_node).1 with
  | Ok run =>
    bool_decide ((stop run (mkEnds EndedWell EndedWell EndedWell (EndedWith (str "address in use")) EndedWell EndedWell) []).2
                 = [NativePart])
  | _ => false
  end = true.
Proof. vm_compute. reflexivity. Qed.

(** ** Databases *)

(** A database of an older version with one peer. *)
Definition ex_old_columns : list rstring := str <$> ["fingerprint"; "pubkey"; "label"; "trusted_at"; "last_seen"; "policy"]%string.
Definition ex_old_peers : Table :=
  mkTable ex_old_columns
    [[TextValue (str "0123-4567-89ab-cdef"); Blob [1; 2]; TextValue (str "desk"); Integer 7; Null; TextValue (str "prompt")]].
Definition ex_old_db : Db := mkDb {[ str "peers" := ex_old_peers ]} [] (str "wal").

(** Two openers look for the column before either adds it. *)
Definition ex_schedule : list nat := replicate 9 0%nat ++ replicate 9 1%nat ++ [0%nat; 1%nat].
Definition ex_openers : list (Sql (result CoreError unit)) * Db :=
  default ([], empty_db) (interleave ex_schedule (replicate 2 (trust_open true), ex_old_db)).

Lemma openers_race : ex_openers.1 = [Done (Ok tt); Done (Err Sqlite)].
Proof. vm_compute. reflexivity. Qed.

Lemma ex_old_known : known old_trust ex_old_db.
Proof.
  unfold known, old_trust. repeat constructor.
  - intros _. exists ex_old_peers. split; [by vm_compute|]. apply (bool_decide_unpack _). by vm_compute.
  - intros [t Ht]. exfalso. revert Ht. by vm_compute.
  - intros [t Ht]. exfalso. revert Ht. by vm_compute.
Qed.

