(* ===== verification/GuiExamples.v ===== *)
(** * The graphical client on concrete inputs

    Instances of the parameters of AppDirs.v and Gui.v with their laws,
    witnesses for the theorems of Gui.v, and runs of the client. *)

From stdpp Require Import prelude gmap strings.
From Stdlib Require Import ZArith Lia.
From S2P Require Import Prelude RustStr Errors Fs Inet Text Identity TrustStore LocalSession LocalServer Config AppDirs Transport Vault Startup Gui Toy StartupExamples.

Local Open Scope Z_scope.

#[export] Instance toy_directories : Directories := {|
  project_dirs platform environment qualifier organization application :=
    match platform with
    | Linux =>
      match environment !! str "XDG_CONFIG_HOME", environment !! str "XDG_DATA_HOME", environment !! str "HOME" with
      | Some config, Some data, _ => Some (mkProjectDirs (path_from config ++ [application]) (path_from data ++ [application]))
      | _, _, Some home =>
        Some (mkProjectDirs (path_from home ++ [str ".config"; application])
                (path_from home ++ [str ".local"; str "share"; application]))
      | _, _, None => None
      end
    | MacOs =>
      (λ home, let dir := path_from home ++ [str "Library"; str "Application Support";
                 qualifier ++ str "." ++ organization ++ str "." ++ application] in mkProjectDirs dir dir)
      <$> environment !! str "HOME"
    end;
  download_dir _ _ := None |}.
#[export] Instance toy_directories_laws : DirectoriesLaws.
Proof. split; intros; cbn [project_dirs toy_directories]; by simplify_option_eq. Qed.

(** A URL is anything that starts like one. *)
#[export] Instance toy_url : UrlParse := λ s,
  let s := trim s in
  if bool_decide (take 7 s = str "http://") then inr (str "http")
  else if bool_decide (take 8 s = str "https://") then inr (str "https")
  else inl (str "relative URL without a base").

Definition put_text (o : option rstring) : bytes := match o with None => [0] | Some s => 1 :: zlen s :: s end.
Definition get_text (b : bytes) : option (option rstring * bytes) :=
  match b with
  | 0 :: b => Some (None, b)
  | 1 :: n :: b => Some (Some (take (Z.to_nat n) b), drop (Z.to_nat n) b)
  | _ => None
  end.
Lemma get_put_text o b : get_text (put_text o ++ b) = Some (o, b).
Proof.
  destruct o as [s|]; [|done]. cbn. unfold zlen. rewrite Nat2Z.id, take_app_length, drop_app_length. done.
Qed.
#[export] Instance toy_gui_json : GuiJson := {|
  gui_to_json s := (match gs_mode s with Remote => 0 | Standalone => 1 end) :: put_text (gs_remote_endpoint s) ++ put_text (gs_api_token s);
  gui_from_json b :=
    match b with
    | mode :: b =>
      '(endpoint, b) ← get_text b; '(token, _) ← get_text b;
      Some (mkGuiSettings (if mode =? 0 then Remote else Standalone) endpoint token)
    | [] => None
    end |}.
#[export] Instance toy_gui_json_roundtrip : GuiJsonRoundtrip.
Proof.
  intros [mode endpoint token] _. cbn [gui_from_json gui_to_json toy_gui_json gs_mode gs_remote_endpoint gs_api_token].
  rewrite get_put_text. cbn [mbind option_bind]. rewrite <-(app_nil_r (put_text token)), get_put_text. by destruct mode.
Qed.

(** ** Settings *)

Definition ex_settings (e : string) : GuiSettings := mkGuiSettings Remote (Some (str e)) (Some (str " secret-token ")).
Definition ex_settings_path : path := [str "config"; SETTINGS_FILE_NAME].
Definition ex_disk : Disk := mkDisk (mkSnapshot ∅ ∅) [].

Lemma settings_witness :
  ∃ d' n, save_settings_to ex_settings_path (ex_settings " http://127.0.0.1:53317/ ") ex_disk = (Ok tt, d') ∧
  load_settings_from (fs_of d') ex_settings_path = Ok n ∧ gs_remote_endpoint n = Some (str "http://127.0.0.1:53317") ∧
  gs_api_token n = Some (str "secret-token").
Proof.
  destruct (save_settings_to ex_settings_path (ex_settings " http://127.0.0.1:53317/ ") ex_disk) as [r d'] eqn:Hrun.
  pose proof (gui_settings_kept _ _ _ _ _ Hrun) as [_ Hkept].
  assert (Hr : r = Ok tt) by (apply (f_equal fst) in Hrun; vm_compute in Hrun; symmetry; exact Hrun). subst r.
  exists d', (mkGuiSettings Remote (Some (str "http://127.0.0.1:53317")) (Some (str "secret-token"))).
  split; [reflexivity|]. split; [|split; reflexivity].
  assert (Hn : normalized (ex_settings " http://127.0.0.1:53317/ ") =
    Ok (mkGuiSettings Remote (Some (str "http://127.0.0.1:53317")) (Some (str "secret-token")))) by (vm_compute; reflexivity).
  rewrite Hn in Hkept. destruct (Hkept eq_refl) as (_ & _ & Hload & _). apply Hload.
  - split; apply (bool_decide_unpack _); vm_compute; exact I.
  - intros e [= <-]. split; [reflexivity|]. split; [reflexivity|discriminate].
Defined.

(** A path that ends in a space and a slash loses the space only when it is
    loaded. *)
Example ex_settings_change :
  let '(_, d) := save_settings_to ex_settings_path (ex_settings "http://nas/a /") ex_disk in
  gs_remote_endpoint <$> load_settings_from (fs_of d) ex_settings_path = Ok (Some (str "http://nas/a")) ∧
  gs_remote_endpoint <$> normalized (ex_settings "http://nas/a /") = Ok (Some (str "http://nas/a ")).
Proof. vm_compute. split; reflexivity. Qed.

(** An emptied field is not "no endpoint": it is refused. *)
Example ex_empty_endpoint_refused :
  normalized (ex_settings "") = Err (InvalidEndpoint [] (str "relative URL without a base")).
Proof. reflexivity. Qed.

(** ** The embedded daemon *)

Definition ex_gui_env : environment := {[ str "HOME" := str "/home/ada" ]}.
Definition ex_call : GuiCall := mkCall (Some [str "opt"; str "nightbridge"; str "gui"]) None None None None.
Definition ex_gui : GuiWorld := mkGui ex_disk [] new_manager.
Abbreviation ex_gui_start := (Gui.start Linux ex_gui_env []).
Definition ex_root : path := [str "home"; str "ada"; str ".local"; str "share"; str "NightBridge"; str "standalone-daemon"].

(** Started and stopped: nothing runs. *)
Lemma managed_witness :
  ∃ w1 w2, ex_gui_start ex_call ex_gui = (Ok (mkStatus true (Some (str "http://127.0.0.1:53561")) None), w1) ∧
  alive (gw_processes w1) 0 = true ∧ Gui.stop ex_call w1 = (Ok tt, w2) ∧ ∀ q, alive (gw_processes w2) q = false.
Proof.
  destruct (ex_gui_start ex_call ex_gui) as [r1 w1] eqn:H1. destruct (Gui.stop ex_call w1) as [r2 w2] eqn:H2.
  exists w1, w2.
  assert (Hr1 : r1 = Ok (mkStatus true (Some (str "http://127.0.0.1:53561")) None)).
  { apply (f_equal fst) in H1. vm_compute in H1. symmetry. exact H1. }
  assert (Ha : alive (gw_processes w1) 0 = true).
  { apply (f_equal (λ x, alive (gw_processes x.2) 0)) in H1. vm_compute in H1. symmetry. exact H1. }
  assert (Hr2 : r2 = Ok tt).
  { apply (f_equal snd) in H1. cbn [snd] in H1. subst w1. apply (f_equal fst) in H2. vm_compute in H2. symmetry. exact H2. }
  assert (Hreach : gui_reach Linux ex_gui_env [] 0 w1).
  { pose proof (reach_start Linux ex_gui_env [] 0 ex_gui ex_call r1 w1 (reach_new _ _ _ _) H1) as Hr. by rewrite Hr1 in Hr. }
  split; [by rewrite Hr1|]. split; [exact Ha|]. rewrite Hr2 in H2. split; [exact H2|].
  destruct (embedded_daemon_managed Linux ex_gui_env [] 0 w1 Hreach) as (_ & _ & Hstop).
  exact (Hstop ex_call w2 eq_refl H2).
Defined.

(** A daemon that ended by itself: the next start only says that it does not
    run, and starts none; the one after that does. *)
Definition ex_after_exit : GuiWorld :=
  let w := (ex_gui_start ex_call ex_gui).2 in mkGui (gw_disk w) (alter exited 0%nat (gw_processes w)) (gw_manager w).
Example ex_start_after_exit :
  (ex_gui_start ex_call ex_after_exit).1 = Ok stopped_status ∧
  length (gw_processes (ex_gui_start ex_call ex_after_exit).2) = 1%nat ∧
  es_running <$> (ex_gui_start ex_call (ex_gui_start ex_call ex_after_exit).2).1 = Ok true.
Proof. vm_compute. split_and!; reflexivity. Qed.

(** A token file that is not UTF-8: the start answers an error, the daemon
    runs on without a handle, and every further start makes one more. *)
Definition ex_bad_token : GuiWorld :=
  mkGui (mkDisk (mkSnapshot {[ ex_root ++ [str "Library"; str "Application Support"; str "dev.nightbridge.night-bridge"; str "api.token"]
                              := File [255] ]} ∅) []) [] new_manager.
Definition ex_two_starts : result DaemonError EmbeddedDaemonStatus * result DaemonError EmbeddedDaemonStatus * result DaemonError unit * bool * bool :=
  let '(r1, w1) := ex_gui_start ex_call ex_bad_token in
  let '(r2, w2) := ex_gui_start ex_call w1 in
  let '(r3, w3) := Gui.stop ex_call w2 in
  (r1, r2, r3, alive (gw_processes w3) 0, alive (gw_processes w3) 1).
Example ex_lost_daemons : ex_two_starts = (Err (ReadToken OtherIo), Err (ReadToken OtherIo), Ok tt, true, true).
Proof. vm_compute. reflexivity. Qed.

#[local] Existing Instance no_toml.

(** The daemon as the client's child on a fresh machine. *)
Abbreviation ex_child platform n node :=
  (run_daemon (λ _, []) ex_gui_env [] (Some [str "opt"; str "gui"]) [str "r"] platform (ex_env n) node).
Example ex_child_runs : is_ok (ex_child MacOs 7 ex_node).1 && is_ok (ex_child Linux 7 ex_node).1 = true.
Proof. vm_compute. reflexivity. Qed.

Lemma embedded_fits_witness :
  ∃ run n',
    ex_child MacOs 7 ex_node = (Ok run, n') ∧
    read_optional_token (fs_of (nd_disk n')) (Gui.api_token_path (from_root [] (Some [str "opt"; str "gui"]) [str "r"])) =
      Ok (Some (ds_api_token (rn_state run))).
Proof.
  pose proof ex_child_runs as Hruns. apply andb_true_iff in Hruns as [Hok _].
  destruct (ex_child MacOs 7 ex_node) as [r n'] eqn:E. cbn [fst] in Hok. apply is_ok_spec in Hok as (run & ->).
  exists run, n'. split; [reflexivity|].
  apply (embedded_daemon_fits (λ _, []) ex_gui_env [] (Some [str "opt"; str "gui"]) [str "r"]
    ltac:(apply (bool_decide_unpack _); vm_compute; exact I) MacOs (ex_env 7) ex_node run n' eq_refl eq_refl
    ltac:(apply (bool_decide_unpack _); vm_compute; exact I) E).
Defined.
